(* ===== verification/_CoqProject ===== *)
-Q . S2P
Prelude.v
Sha256.v
Geth.v
Instances.v
Manifest.v
StrictIO.v
Records.v
Scanner.v
Bundle.v
Account.v
StateTrie.v
Consumer.v
StateBinding.v
Stream.v
AtomicDir.v
Traverse.v
Export.v
DirectWriter.v
OvmIndex.v
OvmAudit.v
OvmTransform.v
OvmConversion.v
OvmInput.v
PruneKeys.v
PruneScan.v
Prune.v
PruneKeep.v
PruneDB.v
Partition.v
PartitionStorage.v
PartitionRun.v
PartitionResult.v
Partitioned.v
Verify.v
VerifyState.v
Report.v
Import.v
Migrate.v
VerifyRun.v
PruneRun.v
