(* ===== verification/Prelude.v ===== *)
(** * l2state: a verification development

    The program (src/) moves the state of a legacy Metis L2 database. It
    exports the state at a head into a bundle (a manifest and one record
    file), imports a bundle into an empty target database, migrates a legacy
    database directly, converts the balances of the OVM_ETH token into native
    balances, and prunes a legacy database down to the state of its head. This
    library models those parts in Rocq, function by function, and proves what
    makes them correct.

    ** Parts of the program and where they are modelled

    - [internal/bundle]: [Manifest.v] (manifest.go), [Records.v] (records.go,
      the writer), [Scanner.v] (scanner.go), [Account.v] (account.go);
      [Bundle.v] joins writer and scanner.
    - [internal/strictio]: [StrictIO.v] (strictio.go).
    - Reading a state: [StateTrie.v] (the visitor and node-sink interfaces and
      the validators of state.go, state_trie.go), [Traverse.v] (the sequential
      traverser), [Stream.v] (state_stream.go, the read-ahead goroutine),
      [Partition.v] (migrate_partitioned.go and the partition_*.go files, the
      parallel traverser) with its proofs in [PartitionStorage.v],
      [PartitionRun.v], [PartitionResult.v] and its theorems in
      [Partitioned.v].
    - Export: [Export.v] (legacy.go, export.go) on top of [AtomicDir.v]
      (atomicdir.go, rename_noreplace_linux.go), the publication of an output
      directory.
    - Import: [Consumer.v] (bundle.go, [recordConsumer] and [scanBundle]),
      [DirectWriter.v] (direct_writer.go, dbkeys.go).
    - Balance conversion: [OvmIndex.v] (ovm_input.go, ovm_storage_cursor.go,
      ovm_retention.go), [OvmInput.v] (ovm_input.go, ovm_input_confirm.go),
      [OvmAudit.v] (ovm_audit.go), [OvmTransform.v] (ovm_transform.go,
      ovm_balance_order.go, ovm_balance_pipeline.go); [OvmConversion.v] has
      the theorems.
    - Pruning: [PruneKeys.v] (record roles, foreign records), [PruneScan.v]
      (prune_scan.go, prune_pipeline.go, deletion), [PruneKeep.v]
      (prune_keep.go, prune_execution.go); [Prune.v] has the theorems.

    This file is the prelude: bytes and fixed-width integers, errors, the
    monad, its lemmas and tactics. [Geth.v] states what is used of
    go-ethereum and zstd; [Sha256.v] is Go's SHA-256; [Instances.v] are
    executable instances for the witnesses.

    ** How code is represented

    A fallible pure function returns [result]. Effectful code is in [M St],
    which threads a state [St] and a [world]: how often the context may still
    be polled before it is cancelled ([poll]) and which of the next system
    calls fail ([io]). A theorem for all worlds covers every cancellation and
    every I/O failure; [calm] is the world without either. Errors are values
    ([error]) with the wrapping of [fmt.Errorf] and [errors.Join]; numbers
    printed in error texts are left out. [defer] is written out with
    [attempt]. Integers are [N] or [Z] with their wrap-around written out
    ([add64], [add256]); a Go map is a [gmap], a database a finite map from
    keys to values, a batch the list of its operations.

    Goroutines are modelled in three ways, as the code has them: [Stream.v]
    is a transition system of producer, consumer and context; the balance
    pipeline and the prune pipeline take a schedule, the order in which the
    workers of a window finished; the partitioned run takes a list of events,
    one action of one goroutine each. Theorems quantify over all of them.

    ** Third-party code

    Code outside src/ is a class of operations (an argument of the
    definitions) with a companion class of laws that state its documented
    behaviour: Keccak and the empty hashes, account RLP ([AccountRLPLaws]:
    canonical encoding), [rlp.Split], the zstd codec ([ZstdLaws]), the stack
    trie ([StackTrieLaws]: it accepts sorted leaves and its hash is the Merkle
    root), the partial stack trie and its assembly ([PartialTrieLaws]), the
    trie iterators and range iterators ([IteratorLaws], [RangeReaderLaws]: an
    iteration without error yields the leaves of the trie in order, over a
    range those in the range), the rawdb key schema ([RawdbKeysLaws]), the
    JSON library and go-ethereum's chain accessors (parameters). Every
    theorem with such a law has a witness at concrete instances.

    ** What the theorems show

    - Bundles: what the writer accepts and produces, the round trip of
      writing and scanning, that an accepted file is the canonical encoding
      of its records, what the record-chain hash binds, that a failed writer
      yields nothing, and that the two account encodings are in bijection.
    - Scan: an accepted bundle is the serialization of a well-formed state
      with the manifest's root and counts, observed in order.
    - Traversal and export: a successful export encodes exactly the leaves of
      the source trie under an unmoved head, publishes exactly its two files,
      and is accepted by the import scan with the same root and counts; leaf
      streams deliver faithfully, never deadlock, and end after cancellation.
    - Partitioned traversal: the ranges tile the keys; under every
      interleaving a successful run has read and checked the whole state and
      returns its root and counts, the result of the sequential traversal.
    - Output directories: all or nothing, never over an existing path, never
      inside the input.
    - Import: exactly the flat state of the bundle ends up in the database;
      flush limits are invisible; an aborted deferred writer leaves nothing.
    - Conversion: every slot of the token is explained and balances are
      conserved, the new root is the Merkle root of the patched accounts,
      scheduling does not matter, the evidence cursor equals plain lookup, the
      inputs are the files that were recorded, audits explain differences.
    - Pruning: only content-addressed records outside the keep set are
      deleted, on every outcome, and all of them on success; the inventory is
      exact and never deadlocks; the comparison after pruning accepts exactly
      the pruned database; the keep set is complete; the budget is bounded.

    ** Bounds and fuel

    Where recursion is not structural a definition takes fuel that its caller
    computes, enough for every run: symbolic links are followed at most 255
    times as [filepath.EvalSymlinks] does; the prune coordinator's [drain] and
    the wait for a slot take as many rounds as there are pending records; the
    merger of a burst takes one round per pending result; an IPv6 address has
    at most eight groups; the storage probe counts down the threshold of 1024
    slots. The theorems that a scan or a stream returns are stated as such
    ([prune_scan_exact], [stream_terminates], [stream_close_returns]).

    ** Not modelled

    Opening, syncing and compacting database files and the wrappers of
    pebble and LevelDB are system calls and library code; JSON texts are
    parsed by the library; progress reporting and the work limiter of the
    partitioned run only log and delay; flag parsing (cmd/l2state), version
    metadata, other platforms' renames and the fixture generator carry no
    logic of the migration. Not yet modelled, in the order planned: the
    composition of verification (verify.go, direct_verify.go,
    trienode_index.go), of migration and import with artifact publication
    (migrate.go, import.go, publish_artifact.go, head_metadata.go), of
    pruning (prune.go, prune_db.go, prune_manifest.go), and the history
    archives of the conversion (ovm_migrate.go, ovm_history.go,
    ovm_alloc_input.go). *)

From stdpp Require Export base tactics numbers list gmap strings vector option sorting.
From stdpp Require Export ssreflect.
From Stdlib Require Export NArith Lia.
From Stdlib Require Export Init.Byte.
From Stdlib Require Strings.Byte.

#[export] Set Default Goal Selector "!".
#[export] Set Warnings "-rewrite-rw,-clear-no-such-hyp".
#[global] Open Scope N_scope.

(** ** Bytes, byte strings and fixed-width arrays *)

Abbreviation byte := Init.Byte.byte.
Abbreviation bytes := (list byte).

(** Numeric value of a byte. *)
Definition byte_val (b : byte) : N := Byte.to_N b.

(** The Go conversion [byte(n)]: truncation to eight bits. *)
Definition byte_of_N (n : N) : byte :=
  match Byte.of_N (n mod 256) with Some b => b | None => x00 end.

#[export] Instance byte_eq_dec : EqDecision byte := Byte.byte_eq_dec.

#[export] Instance byte_countable : Countable byte.
Proof.
  apply (inj_countable Byte.to_N Byte.of_N). intros b. apply Byte.of_to_N.
Defined.

(** [common.Hash] is [[32]byte] and [common.Address] is [[20]byte]. *)
Abbreviation HashLength := 32%nat.
Abbreviation AddressLength := 20%nat.
Abbreviation Hash := (vec byte HashLength).
Abbreviation Address := (vec byte AddressLength).

(** An array of [n] bytes filled from a slice; the rest of the array stays
    zero, as after [copy(array[:], slice)] on a zero array. *)
Fixpoint vec_of_bytes (n : nat) (l : bytes) : vec byte n :=
  match n with
  | O => vnil
  | S n' => vcons (match l with [] => x00 | b :: _ => b end) (vec_of_bytes n' (tail l))
  end.

(** The bytes of an array, [h[:]]. *)
Definition hash_bytes {n} (h : vec byte n) : bytes := vec_to_list h.

(** [common.Hash{}]. *)
Definition zero_hash : Hash := vec_of_bytes 32 [].

(** [len(x)] of a byte slice as an unsigned 64-bit integer. *)
Definition blen (l : bytes) : N := N.of_nat (length l).

(** [common.BytesToHash]: keep the last 32 bytes, pad on the left. *)
Definition BytesToHash (l : bytes) : Hash :=
  let cropped := drop (length l - HashLength) l in
  vec_of_bytes 32 (replicate (HashLength - length cropped) x00 ++ cropped).

(** [bytes.Compare]. *)
Fixpoint bytes_compare (a b : bytes) : comparison :=
  match a, b with
  | [], [] => Eq
  | [], _ :: _ => Lt
  | _ :: _, [] => Gt
  | x :: a', y :: b' =>
      match N.compare (byte_val x) (byte_val y) with
      | Eq => bytes_compare a' b'
      | c => c
      end
  end.

(** [bytes.Compare(a, b) < 0]. *)
Definition bytes_lt (a b : bytes) : Prop := bytes_compare a b = Lt.

#[export] Instance bytes_lt_dec (a b : bytes) : Decision (bytes_lt a b).
Proof. unfold bytes_lt. apply _. Defined.

(** [bytes.Equal]. *)
Definition bytes_equal (a b : bytes) : bool := bool_decide (a = b).

(** [bytes.HasPrefix]. *)
Fixpoint has_prefix (key prefix : bytes) {struct prefix} : bool :=
  match prefix, key with
  | [], _ => true
  | p :: prefix', k :: key' => bool_decide (p = k) && has_prefix key' prefix'
  | _ :: _, [] => false
  end.

(** Bytes of a string literal, [[]byte("...")]. *)
Definition bytes_of_string (s : string) : bytes := String.list_byte_of_string s.

(** ** Machine integers *)

(** [math.MaxUint64 + 1] and unsigned 64-bit addition. *)
Definition two64 : N := 2 ^ 64.
Definition add64 (a b : N) : N := (a + b) mod two64.

(** 256-bit arithmetic of [uint256.Int]. *)
Definition two256 : N := 2 ^ 256.
Definition add256 (a b : N) : N := (a + b) mod two256.
Definition sub256 (a b : N) : N := (a + two256 - b) mod two256.
(** [AddOverflow] and [SubOverflow]: wrapped result and the carry or borrow. *)
Definition add_overflow256 (a b : N) : N * bool := (add256 a b, two256 <=? a + b).
Definition sub_overflow256 (a b : N) : N * bool := (sub256 a b, a <? b).

(** Big-endian encoding on [k] bytes, and decoding. *)
Fixpoint be_encode_onto (k : nat) (n : N) (tail : bytes) : bytes :=
  match k with
  | O => tail
  | S k' => be_encode_onto k' (n / 256) (byte_of_N n :: tail)
  end.
Definition be_encode (k : nat) (n : N) : bytes := be_encode_onto k n [].
Definition be_decode (l : bytes) : N := foldl (λ acc b, acc * 256 + byte_val b) 0 l.

(** [binary.BigEndian.PutUint64] and [binary.BigEndian.Uint64]. *)
Definition put_uint64 (n : N) : bytes := be_encode 8 n.
Definition get_uint64 (l : bytes) : N := be_decode l.

(** ** Errors *)

(** Error values: a message, a message wrapping a cause ([%w]), a joined
    error, and the sentinels the program tests for. Formatted arguments are
    not part of the value. *)
Inductive error :=
| EMsg (msg : string)
| EWrap (msg : string) (cause : error)
| EJoin (a b : error)
| ECanceled
| EEOF
| EUnexpectedEOF
| ENotExist
| EExist
| EIO.

#[export] Instance error_eq_dec : EqDecision error.
Proof. solve_decision. Defined.

Inductive result (A : Type) :=
| Ok (a : A)
| Err (e : error).
Arguments Ok {A} a.
Arguments Err {A} e.

#[export] Instance result_eq_dec `{EqDecision A} : EqDecision (result A).
Proof. solve_decision. Defined.

#[export] Instance result_ret : MRet result := @Ok.
#[export] Instance result_bind : MBind result := λ A B f m,
  match m with Ok a => f a | Err e => Err e end.

Definition is_ok {A} (r : result A) : bool :=
  match r with Ok _ => true | Err _ => false end.

Definition ok_or {A} (d : A) (r : result A) : A :=
  match r with Ok a => a | Err _ => d end.

(** [if cond { return errors.New(msg) }]. *)
Definition reject_if (cond : bool) (msg : string) : result unit :=
  if cond then Err (EMsg msg) else Ok ().

(** [fmt.Errorf("msg: %w", err)] on the error path. *)
Definition wrap_err {A} (msg : string) (r : result A) : result A :=
  match r with Ok a => Ok a | Err e => Err (EWrap msg e) end.

(** [errors.Is(err, sentinel)]: the sentinel anywhere in the error tree. *)
Fixpoint error_is (target e : error) : bool :=
  bool_decide (target = e) ||
  match e with
  | EWrap _ c => error_is target c
  | EJoin a b => error_is target a || error_is target b
  | _ => false
  end.

(** [errors.Join] of two possibly nil errors. *)
Definition errors_join (a b : option error) : option error :=
  match a, b with
  | None, _ => b
  | _, None => a
  | Some x, Some y => Some (EJoin x y)
  end.

(** The error of a call, nil if it succeeded. *)
Definition outcome {A} (r : result A) : option error := match r with Ok _ => None | Err e => Some e end.

(** ** Effects *)

(** What the environment decides: when the context is cancelled (the number
    of further [ctx.Err()] polls that still return nil, [None] for never) and
    which of the following fallible system calls fail. *)
Record world := World {
  ctx_budget : option nat;
  io_faults : list bool
}.

(** A run in which nothing is cancelled and no system call fails. *)
Definition calm : world := World None [].

(** Stateful, fallible code over a component state [St]. *)
Definition M (St A : Type) : Type := St → world → result A * St * world.

#[export] Instance M_ret {St} : MRet (M St) := λ A a s w, (Ok a, s, w).
#[export] Instance M_bind {St} : MBind (M St) := λ A B f m s w,
  match m s w with
  | (Ok a, s', w') => f a s' w'
  | (Err e, s', w') => (Err e, s', w')
  end.

Definition fail {St A} (e : error) : M St A := λ s w, (Err e, s, w).
Definition lift {St A} (r : result A) : M St A := λ s w, (r, s, w).
Definition get {St} : M St St := λ s w, (Ok s, s, w).
Definition gets {St A} (f : St → A) : M St A := λ s w, (Ok (f s), s, w).
Definition modify {St} (f : St → St) : M St unit := λ s w, (Ok (), f s, w).
Definition wrap {St A} (msg : string) (m : M St A) : M St A := λ s w,
  match m s w with
  | (Err e, s', w') => (Err (EWrap msg e), s', w')
  | r => r
  end.
(** The outcome as a value: [err := f()]. *)
Definition attempt {St A} (m : M St A) : M St (result A) := λ s w,
  match m s w with (r, s', w') => (Ok r, s', w') end.

(** [ctx.Err()] turned into an early return; cancellation is permanent. *)
Definition poll {St} : M St unit := λ s w,
  match ctx_budget w with
  | None => (Ok (), s, w)
  | Some O => (Err ECanceled, s, w)
  | Some (S n) => (Ok (), s, World (Some n) (io_faults w))
  end.

(** [defer func() { err = errors.Join(err, cleanup()) }()] around a body. *)
Definition finally {St A} (body : M St A) (cleanup : M St unit) : M St A :=
  r ← attempt body;
  c ← attempt cleanup;
  match errors_join (outcome r) (outcome c) with
  | None => lift r
  | Some e => fail e
  end.

(** One system call that either succeeds or reports an I/O error. *)
Definition io {St} : M St unit := λ s w,
  match io_faults w with
  | [] => (Ok (), s, w)
  | f :: fs => ((if f then Err EIO else Ok ()), s, World (ctx_budget w) fs)
  end.

(** Run code of an embedded component. *)
Definition zoom {St T A} (view : St → T) (update : T → St → St) (m : M T A) : M St A := λ s w,
  match m (view s) w with (r, t, w') => (r, update t s, w') end.

(** Run code of a component held by value; its outcome and final state are
    returned, whether it failed or not. *)
Definition run_on {St T A} (m : M T A) (t : T) : M St (result A * T) := λ s w,
  match m t w with (r, t', w') => (Ok (r, t'), s, w') end.

(** A loop over a list whose body may fail. *)
Fixpoint for_each {St A} (l : list A) (body : A → M St unit) : M St unit :=
  match l with
  | [] => mret ()
  | x :: l' => body x ;; for_each l' body
  end.

(** A run of steps, one per element of a list. *)
Inductive steps {A C} (R : A → C → C → Prop) : list A → C → C → Prop :=
| steps_nil c : steps R [] c c
| steps_cons x l c c1 c2 : R x c c1 → steps R l c1 c2 → steps R (x :: l) c c2.

#[global] Arguments vec_of_bytes : simpl never.
#[global] Arguments BytesToHash : simpl never.
#[global] Arguments zero_hash : simpl never.
#[global] Arguments hash_bytes : simpl never.
#[global] Arguments put_uint64 : simpl never.
#[global] Arguments get_uint64 : simpl never.
#[global] Arguments add64 : simpl never.
#[global] Arguments two64 : simpl never.
#[global] Arguments add256 : simpl never.
#[global] Arguments two256 : simpl never.

(** ** Lemmas on bytes *)

Create HintDb l2 discriminated.
Create Rewrite HintDb l2.

Lemma byte_val_lt b : byte_val b < 256.
Proof. unfold byte_val. pose proof (Byte.to_N_bounded b). lia. Qed.

Lemma byte_val_of_N n : byte_val (byte_of_N n) = n mod 256.
Proof.
  unfold byte_val, byte_of_N. destruct (Byte.of_N (n mod 256)) eqn:E.
  - by apply Byte.to_of_N.
  - apply Byte.of_N_None_iff in E. pose proof (N.mod_lt n 256). lia.
Qed.

Lemma byte_val_inj a b : byte_val a = byte_val b → a = b.
Proof.
  unfold byte_val. intros H. pose proof (Byte.of_to_N a). pose proof (Byte.of_to_N b).
  congruence.
Qed.

Lemma byte_of_val b : byte_of_N (byte_val b) = b.
Proof.
  apply byte_val_inj. rewrite byte_val_of_N N.mod_small //. apply byte_val_lt.
Qed.

Lemma length_hash_bytes {n} (h : vec byte n) : length (hash_bytes h) = n.
Proof. apply length_vec_to_list. Qed.

Lemma hash_bytes_inj {n} (h k : vec byte n) : hash_bytes h = hash_bytes k → h = k.
Proof. apply vec_to_list_inj2. Qed.

Lemma hash_bytes_of n l : length l = n → hash_bytes (vec_of_bytes n l) = l.
Proof.
  unfold hash_bytes. revert l. induction n as [|n IH]; intros [|b l] H; simplify_eq/=; auto.
  cbn. f_equal. by apply IH.
Qed.

Lemma vec_of_hash_bytes {n} (h : vec byte n) : vec_of_bytes n (hash_bytes h) = h.
Proof. apply hash_bytes_inj, hash_bytes_of, length_hash_bytes. Qed.

#[export] Instance hash_countable n : Countable (vec byte n) | 0 :=
  inj_countable' hash_bytes (vec_of_bytes n) vec_of_hash_bytes.

Lemma BytesToHash_exact l : length l = HashLength → hash_bytes (BytesToHash l) = l.
Proof.
  intros H. unfold BytesToHash. rewrite H Nat.sub_diag drop_0 H Nat.sub_diag.
  change (replicate 0 x00 ++ l) with l. by apply hash_bytes_of.
Qed.

Lemma BytesToHash_hash (h : Hash) : BytesToHash (hash_bytes h) = h.
Proof. apply hash_bytes_inj, BytesToHash_exact, length_hash_bytes. Qed.

#[export] Hint Rewrite @length_hash_bytes BytesToHash_hash @vec_of_hash_bytes : l2.

Lemma bytes_compare_refl a : bytes_compare a a = Eq.
Proof. induction a as [|x a IH]; [done|]. by rewrite /= N.compare_refl. Qed.

Lemma bytes_compare_eq a b : bytes_compare a b = Eq ↔ a = b.
Proof.
  split; [|intros ->; apply bytes_compare_refl].
  revert b. induction a as [|x a IH]; intros [|y b]; simpl; try done.
  destruct (N.compare_spec (byte_val x) (byte_val y)) as [Hxy| |]; try done.
  intros ?%IH. apply byte_val_inj in Hxy. by subst.
Qed.

Lemma bytes_compare_antisym a b : bytes_compare b a = CompOpp (bytes_compare a b).
Proof.
  revert b. induction a as [|x a IH]; intros [|y b]; simpl; try done.
  rewrite N.compare_antisym. destruct (N.compare (byte_val x) (byte_val y)); simpl; auto.
Qed.

Lemma bytes_compare_gt a b : bytes_compare a b = Gt ↔ bytes_lt b a.
Proof. rewrite /bytes_lt (bytes_compare_antisym a b). by destruct (bytes_compare a b). Qed.

Lemma bytes_lt_cons x y a b :
  bytes_lt (x :: a) (y :: b) ↔ byte_val x < byte_val y ∨ (x = y ∧ bytes_lt a b).
Proof.
  rewrite /bytes_lt /=.
  destruct (N.compare_spec (byte_val x) (byte_val y)) as [Hxy|Hxy|Hxy].
  - apply byte_val_inj in Hxy. subst. split; [by right|]. intros [?|[_ ?]]; [lia|done].
  - split; [by left|done].
  - split; [done|]. intros [?|[-> _]]; lia.
Qed.

#[export] Instance bytes_lt_strict : StrictOrder bytes_lt.
Proof.
  split.
  - intros a. unfold complement, bytes_lt. by rewrite bytes_compare_refl.
  - intros a b c. revert b c. induction a as [|x a IH]; intros [|y b] [|z c]; try done.
    rewrite !bytes_lt_cons. intros [?|[-> ?]] [?|[-> ?]]; eauto.
    left. lia.
Qed.

Lemma bytes_lt_irrefl a : ¬ bytes_lt a a.
Proof. apply (irreflexivity bytes_lt). Qed.

Lemma bytes_lt_trichotomy a b : bytes_lt a b ∨ a = b ∨ bytes_lt b a.
Proof.
  destruct (bytes_compare a b) eqn:E; [apply bytes_compare_eq in E|left|]; auto.
  apply bytes_compare_gt in E. auto.
Qed.

Lemma bytes_equal_spec a b : bytes_equal a b = true ↔ a = b.
Proof. apply bool_decide_eq_true. Qed.

Lemma has_prefix_spec key prefix : has_prefix key prefix = true ↔ ∃ rest, key = prefix ++ rest.
Proof.
  revert key. induction prefix as [|p prefix IH]; intros key; simpl.
  - split; [eauto|done].
  - destruct key as [|k key]; simpl.
    + split; [done|]. by intros [? ?].
    + rewrite andb_true_iff bool_decide_eq_true IH. split.
      * intros [-> [r ->]]. by exists r.
      * intros [r [= -> ->]]. eauto.
Qed.

Lemma bytes_lt_app_l p a b : bytes_lt (p ++ a) (p ++ b) ↔ bytes_lt a b.
Proof.
  induction p as [|x p IH]; [done|]. rewrite /= bytes_lt_cons IH.
  split; [|by right]. intros [?|[_ ?]]; [lia|done].
Qed.

Lemma bytes_lt_app_r a b : b ≠ [] → bytes_lt a (a ++ b).
Proof.
  intros Hb. rewrite -{1}(app_nil_r a) bytes_lt_app_l. by destruct b.
Qed.

(** ** Lemmas on big-endian integers *)

Lemma be_encode_onto_app k n tail : be_encode_onto k n tail = be_encode k n ++ tail.
Proof.
  unfold be_encode. revert n tail. induction k as [|k IH]; intros n tail; [done|].
  cbn [be_encode_onto]. by rewrite IH (IH _ [_]) -app_assoc.
Qed.

Lemma be_encode_S k n : be_encode (S k) n = be_encode k (n / 256) ++ [byte_of_N n].
Proof. apply (be_encode_onto_app k (n / 256) [byte_of_N n]). Qed.

Lemma length_be_encode k n : length (be_encode k n) = k.
Proof.
  revert n. induction k as [|k IH]; intros n; [done|]. rewrite be_encode_S length_app IH /=. lia.
Qed.

Lemma be_decode_snoc l b : be_decode (l ++ [b]) = be_decode l * 256 + byte_val b.
Proof. unfold be_decode. by rewrite foldl_app. Qed.

Lemma be_decode_encode k n : be_decode (be_encode k n) = n mod 256 ^ N.of_nat k.
Proof.
  revert n. induction k as [|k IH]; intros n.
  - by rewrite /= N.pow_0_r N.mod_1_r.
  - rewrite be_encode_S be_decode_snoc IH byte_val_of_N.
    rewrite Nat2N.inj_succ N.pow_succ_r' N.Div0.mod_mul_r. lia.
Qed.

Lemma be_encode_decode l : be_encode (length l) (be_decode l) = l.
Proof.
  induction l as [|b l IH] using rev_ind; [done|].
  rewrite length_app /= Nat.add_1_r. rewrite be_encode_S be_decode_snoc.
  pose proof (byte_val_lt b).
  assert ((be_decode l * 256 + byte_val b) / 256 = be_decode l) as ->.
  { rewrite N.div_add_l // N.div_small // N.add_0_r //. }
  rewrite IH. f_equal. f_equal. apply byte_val_inj. rewrite byte_val_of_N.
  rewrite N.add_comm N.Div0.mod_add. by apply N.mod_small.
Qed.

Lemma be_decode_lt l : be_decode l < 256 ^ N.of_nat (length l).
Proof.
  pose proof (be_decode_encode (length l) (be_decode l)) as H.
  rewrite be_encode_decode in H. rewrite H. apply N.mod_lt, N.pow_nonzero. lia.
Qed.

Lemma length_put_uint64 n : length (put_uint64 n) = 8%nat.
Proof. apply length_be_encode. Qed.

Lemma get_put_uint64 n : n < two64 → get_uint64 (put_uint64 n) = n.
Proof.
  intros H. unfold get_uint64, put_uint64. rewrite be_decode_encode.
  apply N.mod_small. exact H.
Qed.

Lemma put_get_uint64 l : length l = 8%nat → put_uint64 (get_uint64 l) = l.
Proof. intros H. unfold put_uint64, get_uint64. rewrite -{1}H. apply be_encode_decode. Qed.

Lemma get_uint64_lt l : length l = 8%nat → get_uint64 l < two64.
Proof. intros H. pose proof (be_decode_lt l) as H'. rewrite H in H'. exact H'. Qed.

Lemma add64_small a b : a + b < two64 → add64 a b = a + b.
Proof. apply N.mod_small. Qed.

Lemma add64_lt a b : add64 a b < two64.
Proof. apply N.mod_lt. done. Qed.

Lemma add64_mod_l a b : add64 (a mod two64) b = (a + b) mod two64.
Proof. unfold add64. apply N.Div0.add_mod_idemp_l. Qed.

Lemma add64_mod_r a b : add64 a (b mod two64) = (a + b) mod two64.
Proof. unfold add64. apply N.Div0.add_mod_idemp_r. Qed.

Lemma add256_small a b : a + b < two256 → add256 a b = a + b.
Proof. apply N.mod_small. Qed.

Lemma sub256_small a b : b ≤ a → a < two256 → sub256 a b = a - b.
Proof.
  intros H1 H2. unfold sub256. replace (a + two256 - b) with (a - b + 1 * two256) by lia.
  rewrite N.Div0.mod_add. apply N.mod_small. lia.
Qed.

(** ** Lemmas on sorted lists *)

Lemma StronglySorted_snoc {A} (R : relation A) `{!Transitive R} l x :
  StronglySorted R l → (∀ y, last l = Some y → R y x) → StronglySorted R (l ++ [x]).
Proof.
  induction 1 as [|y l Hs IH Hf]; intros Hl; [repeat constructor|].
  cbn [app]. constructor.
  - apply IH. intros z Hz. apply Hl. destruct l; [done|]. done.
  - apply Forall_app. split; [done|]. constructor; [|constructor].
    destruct l as [|z l]; [by apply Hl|].
    destruct (last (z :: l)) as [q|] eqn:Eq; [|by apply last_None in Eq].
    transitivity q; [|by apply Hl]. apply (proj1 (Forall_forall _ _) Hf).
    apply last_Some in Eq as [l' ->]. apply elem_of_app. right. left.
Qed.

(** Elements of a list with strictly sorted keys are determined by their key. *)
Lemma StronglySorted_key_unique {A B} (R : relation B) (f : A → B) l x y :
  (∀ k, ¬ R k k) → StronglySorted R (map f l) → x ∈ l → y ∈ l → f x = f y → x = y.
Proof.
  intros Hirr. induction l as [|z l IH]; intros Hs Hx Hy Hf; [by apply elem_of_nil in Hx|].
  cbn [map] in Hs. apply StronglySorted_inv in Hs as [Hs Hz]. rewrite Forall_map Forall_forall in Hz.
  apply elem_of_cons in Hx as [->|Hx], Hy as [->|Hy]; [done| | |by apply IH].
  - destruct (Hirr (f z)). rewrite {2}Hf. by apply Hz.
  - destruct (Hirr (f z)). rewrite -{2}Hf. by apply Hz.
Qed.

(** ** Lemmas on results and effects *)

Lemma result_bind_ok {A B} (m : result A) (f : A → result B) b :
  (m ≫= f) = Ok b ↔ ∃ a, m = Ok a ∧ f a = Ok b.
Proof. destruct m; simpl; naive_solver. Qed.

Lemma reject_if_ok c msg u : reject_if c msg = Ok u ↔ c = false.
Proof. unfold reject_if. destruct c, u; naive_solver. Qed.

Lemma wrap_err_ok {A} msg (r : result A) a : wrap_err msg r = Ok a ↔ r = Ok a.
Proof. destruct r; naive_solver. Qed.

Lemma bind_ok {St A B} (m : M St A) (f : A → M St B) s w b s' w' :
  (m ≫= f) s w = (Ok b, s', w') ↔
  ∃ a s1 w1, m s w = (Ok a, s1, w1) ∧ f a s1 w1 = (Ok b, s', w').
Proof.
  unfold mbind, M_bind. destruct (m s w) as [[[a|e] s1] w1]; naive_solver.
Qed.

Lemma bind_run {St A B} (m : M St A) (f : A → M St B) s w a s1 w1 :
  m s w = (Ok a, s1, w1) → (m ≫= f) s w = f a s1 w1.
Proof. unfold mbind, M_bind. by intros ->. Qed.

Lemma ret_ok {St A} (a : A) (s : St) w b s' w' :
  mret (M:=M St) a s w = (Ok b, s', w') ↔ b = a ∧ s' = s ∧ w' = w.
Proof. unfold mret, M_ret. naive_solver. Qed.

Lemma fail_ok {St A} e (s : St) w (b : A) s' w' : fail e s w = (Ok b, s', w') ↔ False.
Proof. unfold fail. naive_solver. Qed.

Lemma lift_ok {St A} (r : result A) (s : St) w b s' w' :
  lift r s w = (Ok b, s', w') ↔ r = Ok b ∧ s' = s ∧ w' = w.
Proof. unfold lift. naive_solver. Qed.

Lemma gets_ok {St A} (f : St → A) s w b s' w' :
  gets f s w = (Ok b, s', w') ↔ b = f s ∧ s' = s ∧ w' = w.
Proof. unfold gets. naive_solver. Qed.

Lemma get_ok {St} (s : St) w b s' w' :
  get s w = (Ok b, s', w') ↔ b = s ∧ s' = s ∧ w' = w.
Proof. unfold get. naive_solver. Qed.

Lemma modify_ok {St} (f : St → St) s w b s' w' :
  modify f s w = (Ok b, s', w') ↔ s' = f s ∧ w' = w.
Proof. unfold modify. destruct b. naive_solver. Qed.

Lemma wrap_ok {St A} msg (m : M St A) s w b s' w' :
  wrap msg m s w = (Ok b, s', w') ↔ m s w = (Ok b, s', w').
Proof. unfold wrap. destruct (m s w) as [[[a|e] s1] w1]; naive_solver. Qed.

Lemma attempt_ok {St A} (m : M St A) s w b s' w' :
  attempt m s w = (Ok b, s', w') ↔ m s w = (b, s', w').
Proof. unfold attempt. destruct (m s w) as [[r s1] w1]. naive_solver. Qed.

Lemma poll_ok {St} (s : St) w b s' w' : poll s w = (Ok b, s', w') → s' = s.
Proof. unfold poll. destruct (ctx_budget w) as [[|n]|]; naive_solver. Qed.

Lemma io_ok {St} (s : St) w b s' w' : io s w = (Ok b, s', w') → s' = s.
Proof. unfold io. destruct (io_faults w) as [|[] ?]; naive_solver. Qed.

Lemma io_state {St} (s : St) w r s' w' : io s w = (r, s', w') → s' = s.
Proof. unfold io. destruct (io_faults w) as [|[] ?]; naive_solver. Qed.

Lemma io_err {St} (s : St) w e s' w' : io s w = (Err e, s', w') → e = EIO ∧ s' = s.
Proof. unfold io. destruct (io_faults w) as [|[] ?]; naive_solver. Qed.

Lemma poll_state {St} (s : St) w r s' w' : poll s w = (r, s', w') → s' = s.
Proof. unfold poll. destruct (ctx_budget w) as [[|n]|]; naive_solver. Qed.

Lemma zoom_ok {St T A} (v : St → T) u (m : M T A) s w b s' w' :
  zoom v u m s w = (Ok b, s', w') ↔ ∃ t, m (v s) w = (Ok b, t, w') ∧ s' = u t s.
Proof. unfold zoom. destruct (m (v s) w) as [[r t] w1]. naive_solver. Qed.

Lemma run_on_ok {St T A} (m : M T A) t (s : St) w b s' w' :
  run_on m t s w = (Ok b, s', w') ↔ m t w = (b.1, b.2, w') ∧ s' = s.
Proof. unfold run_on. destruct (m t w) as [[r t'] w1], b. naive_solver. Qed.

Lemma run_on_run {St T A} (m : M T A) t (s : St) w r t' w' :
  m t w = (r, t', w') → run_on m t s w = (Ok (r, t'), s, w').
Proof. unfold run_on. by intros ->. Qed.

Lemma finally_ok {St A} (body : M St A) cleanup s w a s' w' :
  finally body cleanup s w = (Ok a, s', w') →
  ∃ s1 w1, body s w = (Ok a, s1, w1) ∧ cleanup s1 w1 = (Ok (), s', w').
Proof.
  unfold finally, mbind, M_bind, attempt. destruct (body s w) as [[r s1] w1], (cleanup s1 w1) as [[[[]|e] s2] w2] eqn:Ec;
    destruct r as [x|e']; cbn; intros [= -> -> ->]; eauto.
Qed.

Lemma lift_run {St A} (r : result A) a (s : St) w : r = Ok a → lift r s w = (Ok a, s, w).
Proof. by intros ->. Qed.

Lemma poll_calm {St} (s : St) : poll s calm = (Ok (), s, calm).
Proof. done. Qed.

Lemma io_calm {St} (s : St) : io s calm = (Ok (), s, calm).
Proof. done. Qed.

(** Decompose a hypothesis stating that effectful code succeeded. *)
Ltac mstep H :=
  lazymatch type of H with
  | @mbind _ _ _ _ _ _ _ _ = (Ok _, _, _) => apply (proj1 (bind_ok _ _ _ _ _ _ _)) in H; destruct H as (? & ? & ? & ? & H)
  | @mret _ _ _ _ _ _ = (Ok _, _, _) => apply (proj1 (ret_ok _ _ _ _ _ _)) in H; destruct H as (? & ? & ?); subst
  | wrap _ _ _ _ = (Ok _, _, _) => apply (proj1 (wrap_ok _ _ _ _ _ _ _)) in H
  | lift _ _ _ = (Ok _, _, _) => apply (proj1 (lift_ok _ _ _ _ _ _)) in H; destruct H as (H & ? & ?); subst
  | gets _ _ _ = (Ok _, _, _) => apply (proj1 (gets_ok _ _ _ _ _ _)) in H; destruct H as (? & ? & ?); subst
  | get _ _ = (Ok _, _, _) => apply (proj1 (get_ok _ _ _ _ _)) in H; destruct H as (? & ? & ?); subst
  | modify _ _ _ = (Ok _, _, _) => apply (proj1 (modify_ok _ _ _ _ _ _)) in H; destruct H as (? & ?); subst
  | attempt _ _ _ = (Ok _, _, _) => apply (proj1 (attempt_ok _ _ _ _ _ _)) in H
  | poll _ _ = (Ok _, _, _) => apply poll_ok in H; subst
  | io _ _ = (Ok _, _, _) => apply io_ok in H; subst
  | fail _ _ _ = (Ok _, _, _) => apply (proj1 (fail_ok _ _ _ _ _ _)) in H; destruct H
  | zoom _ _ _ _ _ = (Ok _, _, _) => apply (proj1 (zoom_ok _ _ _ _ _ _ _ _)) in H; destruct H as (? & H & ?); subst
  | run_on _ _ _ _ = (Ok _, _, _) => apply (proj1 (run_on_ok _ _ _ _ _ _ _)) in H; destruct H as (H & ?); subst
  | finally _ _ _ _ = (Ok _, _, _) => apply finally_ok in H; destruct H as (? & ? & ? & H)
  | @mbind _ _ _ _ _ _ = Ok _ => apply (proj1 (result_bind_ok _ _ _)) in H; destruct H as (? & ? & H)
  | wrap_err _ _ = Ok _ => apply (proj1 (wrap_err_ok _ _ _)) in H
  | reject_if _ _ = Ok _ => apply (proj1 (reject_if_ok _ _ _)) in H
  | Ok _ = Ok _ => injection H as H; subst
  | Err _ = Ok _ => discriminate H
  end.

(** Decompose every successful effectful computation in the context. *)
Ltac minv :=
  repeat match goal with
  | u : unit |- _ => destruct u
  | H : _ = (Ok _, _, _) |- _ => mstep H
  | H : _ = Ok _ |- _ => mstep H
  end.

(** Advance the goal over computations known to succeed. *)
Ltac mrun :=
  repeat first
  [ erewrite bind_run; [|reflexivity]
  | progress simpl ].

(** Case analysis on the outcomes of attempted calls. *)
Ltac mcases :=
  minv; repeat match goal with r : result _ |- _ => destruct r; minv end.

(** ** Invariants of effectful code, kept on success and on failure *)

Definition keeps {St A} (P : St → Prop) (m : M St A) : Prop :=
  ∀ s w, P s → P (m s w).1.2.

Section Keeps.
Context {St : Type} (P : St → Prop).

Lemma keeps_bind {A B} (m : M St A) (f : A → M St B) :
  keeps P m → (∀ a, keeps P (f a)) → keeps P (m ≫= f).
Proof.
  intros Hm Hf s w Hs. unfold mbind, M_bind. specialize (Hm s w Hs).
  destruct (m s w) as [[[a|e] s1] w1]; [by apply Hf|done].
Qed.
Lemma keeps_bind_post {A B} (m : M St A) (f : A → M St B) :
  keeps P m → (∀ s w a s' w', P s → m s w = (Ok a, s', w') → keeps P (f a)) → keeps P (m ≫= f).
Proof.
  intros Hm Hf s w Hs. unfold mbind, M_bind. pose proof (Hm s w Hs) as Hs1.
  destruct (m s w) as [[[a|e] s1] w1] eqn:Em; [exact (Hf _ _ _ _ _ Hs Em _ _ Hs1)|done].
Qed.
Lemma keeps_ret {A} (a : A) : keeps P (mret a).
Proof. by intros s w Hs. Qed.
Lemma keeps_fail {A} e : keeps P (fail (A:=A) e).
Proof. by intros s w Hs. Qed.
Lemma keeps_lift {A} (r : result A) : keeps P (lift r).
Proof. by intros s w Hs. Qed.
Lemma keeps_gets {A} (f : St → A) : keeps P (gets f).
Proof. by intros s w Hs. Qed.
Lemma keeps_get : keeps P get.
Proof. by intros s w Hs. Qed.
Lemma keeps_modify f : (∀ s, P s → P (f s)) → keeps P (modify f).
Proof. intros Hf s w Hs. by apply Hf. Qed.
Lemma keeps_wrap {A} msg (m : M St A) : keeps P m → keeps P (wrap msg m).
Proof.
  intros Hm s w Hs. unfold wrap. specialize (Hm s w Hs). by destruct (m s w) as [[[a|e] s1] w1].
Qed.
Lemma keeps_attempt {A} (m : M St A) : keeps P m → keeps P (attempt m).
Proof.
  intros Hm s w Hs. unfold attempt. specialize (Hm s w Hs). by destruct (m s w) as [[r s1] w1].
Qed.
Lemma keeps_finally {A} (body : M St A) cleanup : keeps P body → keeps P cleanup → keeps P (finally body cleanup).
Proof.
  intros Hb Hc. unfold finally. apply keeps_bind; [by apply keeps_attempt|intros r].
  apply keeps_bind; [by apply keeps_attempt|intros c]. destruct (errors_join _ _); [apply keeps_fail|apply keeps_lift].
Qed.
Lemma keeps_poll : keeps P poll.
Proof. intros s w Hs. unfold poll. by destruct (ctx_budget w) as [[|n]|]. Qed.
Lemma keeps_io : keeps P io.
Proof. intros s w Hs. unfold io. by destruct (io_faults w) as [|[] ?]. Qed.
Lemma keeps_run_on {T A} (m : M T A) t : keeps P (run_on m t).
Proof. intros s w Hs. unfold run_on. by destruct (m t w) as [[r t'] w1]. Qed.
Lemma keeps_for_each {A} (l : list A) (body : A → M St unit) :
  (∀ x, x ∈ l → keeps P (body x)) → keeps P (for_each l body).
Proof.
  induction l as [|x l IH]; intros Hb; [apply keeps_ret|]. cbn [for_each].
  apply keeps_bind; [apply Hb; left|]. intros _. apply IH. intros y Hy. apply Hb. by right.
Qed.

Lemma keeps_run {A} (m : M St A) s w r s' w' : keeps P m → m s w = (r, s', w') → P s → P s'.
Proof. intros Hm He Hs. specialize (Hm s w Hs). by rewrite He in Hm. Qed.

End Keeps.

#[export] Hint Resolve keeps_bind keeps_ret keeps_fail keeps_lift keeps_gets keeps_get keeps_modify
  keeps_wrap keeps_attempt keeps_finally keeps_poll keeps_io keeps_run_on : l2.
#[export] Hint Extern 1 (keeps _ (if ?b then _ else _)) => destruct b : l2.
#[export] Hint Extern 1 (keeps _ (match ?b with _ => _ end)) => destruct b : l2.

(** One step of a goal [keeps P m], down to the operations of a component. *)
Ltac keeps_step :=
  lazymatch goal with
  | |- keeps _ (mbind _ _) => apply keeps_bind; [|intros ?]
  | |- keeps _ (finally _ _) => apply keeps_finally
  | |- keeps _ (wrap _ _) => apply keeps_wrap
  | |- keeps _ (attempt _) => apply keeps_attempt
  | |- keeps _ (run_on _ _) => apply keeps_run_on
  | |- keeps _ poll => apply keeps_poll
  | |- keeps _ io => apply keeps_io
  | |- keeps _ get => apply keeps_get
  | |- keeps _ (gets _) => apply keeps_gets
  | |- keeps _ (lift _) => apply keeps_lift
  | |- keeps _ (mret _) => apply keeps_ret
  | |- keeps _ (fail _) => apply keeps_fail
  | |- keeps _ (for_each _ _) => apply keeps_for_each; intros ? ?
  | |- keeps _ (if ?b then _ else _) => destruct b
  | |- keeps _ (match ?x with _ => _ end) => destruct x
  | |- keeps _ (match ?x with _ => _ end _) => destruct x
  end.

(** ** Triples with an excuse

    [triple X P m Q E]: from a state in [P], a success of [m] ends in [Q] and a
    failure in [E]. The proposition [X] is an excuse: as long as it does not
    hold, the environment is calm. Taking [True] for [X] covers every
    environment; taking [False] shows that a failure post-condition implying
    [X] is never reached. *)

Definition excused (X : Prop) (w : world) : Prop := X ∨ w = calm.

Definition triple {St A} (X : Prop) (P : St → Prop) (m : M St A) (Q : A → St → Prop) (E : St → Prop) : Prop :=
  ∀ s w r s' w', excused X w → P s → m s w = (r, s', w') →
    excused X w' ∧ match r with Ok a => Q a s' | Err _ => E s' end.

Section Triples.
Context {St : Type} (X : Prop).
Implicit Types P : St → Prop.

Lemma triple_bind {A B} P (m : M St A) (f : A → M St B) Q R E :
  triple X P m Q E → (∀ a, triple X (Q a) (f a) R E) → triple X P (m ≫= f) R E.
Proof.
  intros Hm Hf s w r s' w' Hw HP. unfold mbind, M_bind. destruct (m s w) as [[[a|e] s1] w1] eqn:Em.
  - destruct (Hm _ _ _ _ _ Hw HP Em) as [Hw1 HQ]. by apply Hf.
  - intros [= <- <- <-]. exact (Hm _ _ _ _ _ Hw HP Em).
Qed.
Lemma triple_weaken {A} P P' (m : M St A) Q Q' E E' :
  triple X P m Q E → (∀ s, P' s → P s) → (∀ a s, Q a s → Q' a s) → (∀ s, E s → E' s) → triple X P' m Q' E'.
Proof.
  intros Hm HP HQ HE s w r s' w' Hw Hs He. destruct (Hm _ _ _ _ _ Hw (HP _ Hs) He) as [Hw' Hr].
  split; [done|]. destruct r; auto.
Qed.
Lemma triple_post {A} P (m : M St A) Q E Q' :
  triple X P m Q E → (∀ a s, Q a s → Q' a s) → triple X P m Q' E.
Proof. intros Hm HQ. by eapply triple_weaken. Qed.
Lemma triple_pre {A} P P' (m : M St A) Q E : triple X P m Q E → (∀ s, P' s → P s) → triple X P' m Q E.
Proof. intros Hm HP s w r s' w' Hw Hs. exact (Hm _ _ _ _ _ Hw (HP _ Hs)). Qed.
Lemma triple_ex {A B} (P : B → St → Prop) (m : M St A) Q E :
  (∀ b, triple X (P b) m Q E) → triple X (λ s, ∃ b, P b s) m Q E.
Proof. intros Hm s w r s' w' Hw [b Hb]. exact (Hm b _ _ _ _ _ Hw Hb). Qed.
Lemma triple_ret {A} (a : A) P Q E : (∀ s, P s → Q a s) → triple X P (mret a) Q E.
Proof. intros HQ s w r s' w' Hw HP [= <- <- <-]. split; [done|by apply HQ]. Qed.
Lemma triple_fail {A} e P (Q : A → St → Prop) E : (∀ s, P s → E s) → triple X P (fail e) Q E.
Proof. intros HE s w r s' w' Hw HP [= <- <- <-]. split; [done|by apply HE]. Qed.
Lemma triple_get P Q E : (∀ s, P s → Q s s) → triple X P get Q E.
Proof. intros HQ s w r s' w' Hw HP [= <- <- <-]. split; [done|by apply HQ]. Qed.
Lemma triple_gets {A} (f : St → A) P Q E : (∀ s, P s → Q (f s) s) → triple X P (gets f) Q E.
Proof. intros HQ s w r s' w' Hw HP [= <- <- <-]. split; [done|by apply HQ]. Qed.
Lemma triple_modify f P (Q : unit → St → Prop) E : (∀ s, P s → Q () (f s)) → triple X P (modify f) Q E.
Proof. intros HQ s w r s' w' Hw HP [= <- <- <-]. split; [done|by apply HQ]. Qed.
Lemma triple_lift {A} (r : result A) P Q E :
  (∀ s, P s → match r with Ok a => Q a s | Err _ => E s end) → triple X P (lift r) Q E.
Proof. intros HQ s w r' s' w' Hw HP [= <- <- <-]. split; [done|by apply HQ]. Qed.
Lemma triple_wrap {A} msg P (m : M St A) Q E : triple X P m Q E → triple X P (wrap msg m) Q E.
Proof.
  intros Hm s w r s' w' Hw HP. unfold wrap. destruct (m s w) as [[r1 s1] w1] eqn:Em.
  destruct (Hm _ _ _ _ _ Hw HP Em) as [Hw1 H1]. destruct r1; by intros [= <- <- <-].
Qed.
Lemma triple_attempt {A} P (m : M St A) Q E E' :
  triple X P m Q E → triple X P (attempt m) (λ r s, match r with Ok a => Q a s | Err _ => E s end) E'.
Proof.
  intros Hm s w r s' w' Hw HP. unfold attempt. destruct (m s w) as [[r1 s1] w1] eqn:Em.
  intros [= <- <- <-]. exact (Hm _ _ _ _ _ Hw HP Em).
Qed.
Lemma triple_poll P (Q : unit → St → Prop) E :
  (∀ s, P s → Q () s) → (∀ s, X → P s → E s) → triple X P poll Q E.
Proof.
  intros HQ HE s w r s' w' [Hx| ->] HP; [|intros [= <- <- <-]; split; [by right|by apply HQ]].
  unfold poll. destruct (ctx_budget w) as [[|n]|]; intros [= <- <- <-]; (split; [by left|by auto]).
Qed.
Lemma triple_io P (Q : unit → St → Prop) E :
  (∀ s, P s → Q () s) → (∀ s, X → P s → E s) → triple X P io Q E.
Proof.
  intros HQ HE s w r s' w' [Hx| ->] HP; [|intros [= <- <- <-]; split; [by right|by apply HQ]].
  unfold io. destruct (io_faults w) as [|[] ?]; intros [= <- <- <-]; (split; [by left|by auto]).
Qed.
Lemma triple_zoom {T A} (view : St → T) update P (m : M T A) Q E :
  (∀ s, triple X (λ t, t = view s ∧ P s) m (λ a t, Q a (update t s)) (λ t, E (update t s))) →
  triple X P (zoom view update m) Q E.
Proof.
  intros Hm s w r s' w' Hw HP. unfold zoom. destruct (m (view s) w) as [[r1 t] w1] eqn:Em.
  intros [= <- <- <-]. exact (Hm s _ _ _ _ _ Hw (conj eq_refl HP) Em).
Qed.
Lemma triple_pure {A} (φ : Prop) P (m : M St A) Q E : (φ → triple X P m Q E) → triple X (λ s, φ ∧ P s) m Q E.
Proof. intros Hm s w r s' w' Hw [Hφ HP]. exact (Hm Hφ _ _ _ _ _ Hw HP). Qed.
Lemma triple_for_each {A} (l : list A) (body : A → M St unit) P E :
  (∀ x, x ∈ l → triple X P (body x) (λ _, P) E) → triple X P (for_each l body) (λ _, P) E.
Proof.
  induction l as [|x l IH]; intros Hb; [by apply triple_ret|]. cbn [for_each].
  eapply triple_bind; [apply Hb; left|]. intros ?. apply IH. intros y Hy. apply Hb. by right.
Qed.

End Triples.

#[global] Opaque put_uint64 get_uint64 BytesToHash.
