(* ===== verification/Sha256.v ===== *)
(** * SHA-256

    The Go standard library's [crypto/sha256], which the program uses for file,
    manifest and operator-input digests ([sha256.New], [sha256.Sum256]). The
    definition is FIPS 180-4 on byte strings; [sha256_abc] and [sha256_empty]
    are the published test vectors. No theorem of the development relies on
    collision resistance except as an explicit alternative of a conclusion. *)

From S2P Require Import Prelude.

Module Sha256.

Definition mask32 (x : N) : N := N.land x 0xffffffff.
Definition add32 (x y : N) : N := mask32 (x + y).
Definition rotr (n x : N) : N := N.lor (N.shiftr x n) (mask32 (N.shiftl x (32 - n))).
Definition not32 (x : N) : N := N.lxor x 0xffffffff.

Definition ch (x y z : N) : N := N.lxor (N.land x y) (N.land (not32 x) z).
Definition maj (x y z : N) : N :=
  N.lxor (N.lxor (N.land x y) (N.land x z)) (N.land y z).
Definition bsig0 (x : N) : N := N.lxor (N.lxor (rotr 2 x) (rotr 13 x)) (rotr 22 x).
Definition bsig1 (x : N) : N := N.lxor (N.lxor (rotr 6 x) (rotr 11 x)) (rotr 25 x).
Definition ssig0 (x : N) : N := N.lxor (N.lxor (rotr 7 x) (rotr 18 x)) (N.shiftr x 3).
Definition ssig1 (x : N) : N := N.lxor (N.lxor (rotr 17 x) (rotr 19 x)) (N.shiftr x 10).

(** The constants are the leading 32 bits of the fractional parts of the cube
    roots of the first 64 primes and of the square roots of the first 8. *)
Definition is_prime (n : N) : bool :=
  forallb (λ k, negb (n mod N.of_nat k =? 0)) (seq 2 (N.to_nat (N.sqrt n) - 1)).
Definition primes : list N := filter (λ n, is_prime n = true) (N.of_nat <$> seq 2 310).
Fixpoint cube_root (bits : nat) (n root : N) : N :=
  match bits with
  | O => root
  | S bits' =>
      let root' := root + 2 ^ N.of_nat bits' in
      cube_root bits' n (if root' * root' * root' <=? n then root' else root)
  end.
Definition round_constants : list N :=
  Eval vm_compute in map (λ p, mask32 (cube_root 40 (N.shiftl p 96) 0)) primes.
Definition initial_state : list N :=
  Eval vm_compute in map (λ p, mask32 (N.sqrt (N.shiftl p 64))) (take 8 primes).

(** Message padding: a one bit, zeros, and the bit length on 64 bits. *)
Definition pad (msg : bytes) : bytes :=
  let zeros := ((119 - length msg mod 64) mod 64)%nat in
  msg ++ [x80] ++ replicate zeros x00 ++ put_uint64 (8 * blen msg).

Fixpoint split_at (k fuel : nat) (l : bytes) : list bytes :=
  match fuel with
  | O => []
  | S fuel' => match l with [] => [] | _ => take k l :: split_at k fuel' (drop k l) end
  end.

(** The message schedule, newest word first. *)
Fixpoint extend (n : nat) (w : list N) : list N :=
  match n with
  | O => w
  | S n' =>
      let at_ i := default 0 (w !! i) in
      extend n' (add32 (add32 (ssig1 (at_ 1%nat)) (at_ 6%nat))
                       (add32 (ssig0 (at_ 14%nat)) (at_ 15%nat)) :: w)
  end.

Definition round (st : list N) (kw : N * N) : list N :=
  match st with
  | [a; b; c; d; e; f; g; h] =>
      let t1 := add32 (add32 (add32 h (bsig1 e)) (add32 (ch e f g) kw.1)) kw.2 in
      let t2 := add32 (bsig0 a) (maj a b c) in
      [add32 t1 t2; a; b; c; add32 d t1; e; f; g]
  | _ => st
  end.

Definition compress (st : list N) (block : bytes) : list N :=
  let words := map be_decode (split_at 4 16 block) in
  let schedule := reverse (extend 48 (reverse words)) in
  zip_with add32 st (foldl round st (zip round_constants schedule)).

End Sha256.

(** [sha256.Sum256]. *)
Definition sha256 (msg : bytes) : Hash :=
  let padded := Sha256.pad msg in
  let st := foldl Sha256.compress Sha256.initial_state
                  (Sha256.split_at 64 (length padded) padded) in
  vec_of_bytes 32 (mjoin (map (be_encode 4) st)).

Example sha256_abc :
  be_decode (hash_bytes (sha256 (bytes_of_string "abc"))) =
  0xba7816bf8f01cfea414140de5dae2223b00361a396177a9cb410ff61f20015ad.
Proof. vm_compute. reflexivity. Qed.

Example sha256_empty :
  be_decode (hash_bytes (sha256 [])) =
  0xe3b0c44298fc1c149afbf4c8996fb92427ae41e4649b934ca495991b7852b855.
Proof. vm_compute. reflexivity. Qed.

#[global] Arguments sha256 : simpl never.
