(* ===== verification/Geth.v ===== *)
(** * Third-party interfaces

    The code outside the repository that the program calls: go-ethereum's
    Keccak, RLP, StackTrie and rawdb key schema, and the zstd codec. Each is a
    class of operations, an argument of every definition that uses it; what
    the program relies on is stated in a companion class of laws, taken from
    the documented behaviour of that code. [Instances.v] gives a concrete
    instance of every class, at which the witnesses are evaluated. *)

From S2P Require Import Prelude.

(** [crypto.Keccak256Hash] of the concatenation of its arguments, which is
    also what a [crypto.KeccakState] yields after [Reset], [Write]s, [Read]. *)
Class Keccak := { keccak256 : bytes → Hash }.

(** [types.EmptyRootHash] and [types.EmptyCodeHash]. *)
Class EmptyHashes := {
  EmptyRootHash : Hash;
  EmptyCodeHash : Hash
}.

(** [types.StateAccount]. The balance is a pointer to a 256-bit integer. *)
Record StateAccount := MkStateAccount {
  acc_Nonce : N;
  acc_Balance : option N;
  acc_Root : Hash;
  acc_CodeHash : bytes
}.

(** [types.SlimAccount]: empty [Root] and [CodeHash] stand for the empty ones. *)
Record SlimAccount := MkSlimAccount {
  slim_Nonce : N;
  slim_Balance : option N;
  slim_Root : bytes;
  slim_CodeHash : bytes
}.

#[export] Instance StateAccount_eq_dec : EqDecision StateAccount.
Proof. solve_decision. Defined.
#[export] Instance SlimAccount_eq_dec : EqDecision SlimAccount.
Proof. solve_decision. Defined.

(** [rlp.EncodeToBytes] and [rlp.DecodeBytes] at the two account types. *)
Class AccountRLP := {
  rlp_encode_slim : SlimAccount → result bytes;
  rlp_decode_slim : bytes → result SlimAccount;
  rlp_encode_account : StateAccount → result bytes;
  rlp_decode_account : bytes → result StateAccount
}.

(** Field widths under which an account is encodable: a 64-bit nonce and a
    present 256-bit balance. *)
Definition balance_ok (b : option N) : Prop :=
  match b with Some v => v < two256 | None => False end.
Definition slim_ok (s : SlimAccount) : Prop :=
  slim_Nonce s < two64 ∧ balance_ok (slim_Balance s).
Definition account_ok (a : StateAccount) : Prop :=
  acc_Nonce a < two64 ∧ balance_ok (acc_Balance a).

(** RLP is a canonical encoding: encoding an encodable value succeeds,
    decoding inverts it, and decoding accepts nothing but encodings (it
    rejects non-canonical sizes, integers and trailing data). *)
Class AccountRLPLaws `{AccountRLP} : Prop := {
  slim_encodes s : slim_ok s → ∃ d, rlp_encode_slim s = Ok d;
  slim_decode_encode s d :
    slim_ok s → rlp_encode_slim s = Ok d → rlp_decode_slim d = Ok s;
  slim_encode_decode s d :
    rlp_decode_slim d = Ok s → slim_ok s ∧ rlp_encode_slim s = Ok d;
  account_encodes a : account_ok a → ∃ d, rlp_encode_account a = Ok d;
  account_decode_encode a d :
    account_ok a → rlp_encode_account a = Ok d → rlp_decode_account d = Ok a;
  account_encode_decode a d :
    rlp_decode_account d = Ok a → account_ok a ∧ rlp_encode_account a = Ok d;
  (* Sizes: an encoding is never empty; with 32-byte hashes a slim account has
     at most 2 + 9 + 33 + 33 + 33 bytes, and no more than the full account. *)
  account_nonempty a d : rlp_encode_account a = Ok d → d ≠ [];
  slim_size s d :
    (length (slim_Root s) ≤ HashLength)%nat → (length (slim_CodeHash s) ≤ HashLength)%nat →
    rlp_encode_slim s = Ok d → (0 < length d ≤ 110)%nat;
  slim_shorter s a d full :
    slim_Nonce s = acc_Nonce a → slim_Balance s = acc_Balance a →
    (length (slim_Root s) ≤ HashLength)%nat → (length (slim_CodeHash s) ≤ length (acc_CodeHash a))%nat →
    rlp_encode_slim s = Ok d → rlp_encode_account a = Ok full → (length d ≤ length full)%nat
}.

(** The two fields of a decoded [types.Header] that the program reads. *)
Record Header := MkHeader {
  header_Number : option N;
  header_Root : Hash
}.

Class HeaderRLP := { rlp_decode_header : bytes → result Header }.

(** [rlp.Split]: the kind of the first value, its content and the rest. *)
Inductive rlp_kind := RlpByte | RlpString | RlpList.
#[export] Instance rlp_kind_eq_dec : EqDecision rlp_kind.
Proof. solve_decision. Defined.

Class RLPSplit := { rlp_split : bytes → result (rlp_kind * bytes * bytes) }.

(** The zstd codec with the encoder options of [newZstdEncoder]. Decoding
    yields the bytes delivered before the stream ends and the error it ends
    with, if any; [zstd_unread] is the number of trailing input bytes the
    decoder has not pulled from its source by then. *)
Class Zstd := {
  zstd_encode : bytes → bytes;
  zstd_decode : bytes → bytes * option error;
  zstd_unread : bytes → nat
}.

Class ZstdLaws `{Zstd} : Prop := {
  zstd_roundtrip stream : zstd_decode (zstd_encode stream) = (stream, None);
  zstd_nonempty stream : zstd_encode stream ≠ []
}.

(** A trie node handed to the [OnTrieNode] callback: path, hash and blob. *)
Record trie_node := MkTrieNode {
  node_path : bytes;
  node_hash : Hash;
  node_blob : bytes
}.

(** [trie.StackTrie]: [Update] and [Hash] report the nodes they finished. *)
Class StackTrie := {
  stack : Type;
  stack_new : stack;
  stack_update : stack → bytes → bytes → result (stack * list trie_node);
  stack_hash : stack → Hash * list trie_node
}.

(** Feeding a list of leaves to a fresh stack. *)
Fixpoint stack_feed `{StackTrie} (st : stack) (leaves : list (bytes * bytes))
    : result (stack * list trie_node) :=
  match leaves with
  | [] => Ok (st, [])
  | (k, v) :: leaves' =>
      '(st1, n1) ← stack_update st k v;
      '(st2, n2) ← stack_feed st1 leaves';
      Ok (st2, n1 ++ n2)
  end.

(** Leaves in strictly increasing key order, with non-empty values. *)
Definition leaves_ok (leaves : list (bytes * bytes)) : Prop :=
  StronglySorted bytes_lt (leaves.*1) ∧
  Forall (λ kv, length kv.1 = HashLength ∧ kv.2 ≠ []) leaves.

(** The stack trie accepts exactly leaves in ascending key order with non-empty
    values ([Update] rejects others), and its hash is the Merkle-Patricia root
    of the leaves, [trie_root]. *)
Class StackTrieLaws `{StackTrie} `{EmptyHashes} (trie_root : list (bytes * bytes) → Hash) : Prop := {
  stack_feed_ok leaves :
    leaves_ok leaves → ∃ st nodes, stack_feed stack_new leaves = Ok (st, nodes);
  stack_feed_sorted leaves st nodes :
    Forall (λ kv, length kv.1 = HashLength) leaves → stack_feed stack_new leaves = Ok (st, nodes) →
    leaves_ok leaves;
  stack_root leaves st nodes :
    leaves_ok leaves → stack_feed stack_new leaves = Ok (st, nodes) →
    (stack_hash st).1 = trie_root leaves;
  stack_root_empty : trie_root [] = EmptyRootHash
}.

(** The prefixes of rawdb's key schema that the program uses. *)
Class RawdbKeys := {
  CodePrefix : bytes;
  SnapshotAccountPrefix : bytes;
  SnapshotStoragePrefix : bytes;
  TrieNodeAccountPrefix : bytes;
  TrieNodeStoragePrefix : bytes;
  SnapshotRootKey : bytes
}.

(** The prefixes are pairwise different single bytes. *)
Class RawdbKeysLaws `{RawdbKeys} : Prop := {
  prefixes_single :
    Forall (λ p, length p = 1%nat)
      [CodePrefix; SnapshotAccountPrefix; SnapshotStoragePrefix;
       TrieNodeAccountPrefix; TrieNodeStoragePrefix];
  prefixes_distinct :
    NoDup [CodePrefix; SnapshotAccountPrefix; SnapshotStoragePrefix;
           TrieNodeAccountPrefix; TrieNodeStoragePrefix]
}.

(** [ethdb.IdealBatchSize]. *)
Class BatchSize := { IdealBatchSize : N }.

(** ** Consequences of the laws *)

Section StackFeed.
Context `{StackTrie}.

Lemma stack_feed_app st l1 l2 :
  stack_feed st (l1 ++ l2) =
  ('(st1, n1) ← stack_feed st l1;
   '(st2, n2) ← stack_feed st1 l2;
   Ok (st2, n1 ++ n2)).
Proof.
  revert st. induction l1 as [|[k v] l1 IH]; intros st; cbn [stack_feed app].
  - simpl. by destruct (stack_feed st l2) as [[? ?]|].
  - destruct (stack_update st k v) as [[st1 n1]|e]; simpl; [|done].
    rewrite IH. destruct (stack_feed st1 l1) as [[st2 n2]|]; simpl; [|done].
    destruct (stack_feed st2 l2) as [[st3 n3]|]; simpl; [|done].
    by rewrite app_assoc.
Qed.

Lemma stack_feed_snoc st l k v st1 n1 st2 n2 :
  stack_feed st l = Ok (st1, n1) → stack_update st1 k v = Ok (st2, n2) →
  stack_feed st (l ++ [(k, v)]) = Ok (st2, n1 ++ n2).
Proof.
  intros H1 H2. rewrite stack_feed_app H1 /= H2 /=. by rewrite app_nil_r.
Qed.

End StackFeed.

Lemma leaves_ok_nil : leaves_ok [].
Proof. split; constructor. Qed.
#[export] Hint Resolve leaves_ok_nil : l2.
