(* ===== verification/Instances.v ===== *)
(** * Concrete instances of the third-party interfaces

    One executable instance of every class of [Geth.v], with its laws. The
    theorems hold for all instances; these are the inputs of the witnesses,
    and they show that the laws can hold together. They are not the
    production codecs: the hash is SHA-256, the codecs are fixed-layout, the
    trie hash is the hash of the serialized leaves. *)

From S2P Require Import Prelude Sha256 Geth.

(** ** Hashes *)

Definition toy_keccak : Keccak := {| keccak256 := sha256 |}.
Definition toy_empty : EmptyHashes :=
  {| EmptyRootHash := vec_of_bytes 32 (bytes_of_string "empty-root-hash");
     EmptyCodeHash := vec_of_bytes 32 (bytes_of_string "empty-code-hash") |}.

(** ** Headers: a 64-bit number and a state root *)

Definition toy_header_bytes (number : N) (root : Hash) : bytes := put_uint64 number ++ hash_bytes root.
Definition toy_header : HeaderRLP :=
  {| rlp_decode_header d :=
       if (length d =? 40)%nat then Ok (MkHeader (Some (get_uint64 (take 8 d))) (vec_of_bytes 32 (drop 8 d)))
       else Err (EMsg "header") |}.

(** ** zstd: a one-byte frame marker *)

Definition toy_zstd : Zstd :=
  {| zstd_encode l := x28 :: l;
     zstd_decode l := match l with
                      | b :: rest => if bool_decide (b = x28) then (rest, None) else ([], Some (EMsg "magic"))
                      | [] => ([], Some EUnexpectedEOF)
                      end;
     zstd_unread _ := 0%nat |}.

#[export] Instance toy_zstd_laws : ZstdLaws (H:=toy_zstd).
Proof. by split. Qed.

(** ** Accounts *)

Definition balance_bytes (b : option N) : result bytes :=
  match b with
  | Some v => if v <? two256 then Ok (be_encode 32 v) else Err (EMsg "balance")
  | None => Err (EMsg "nil balance")
  end.
Definition nonce_bytes (n : N) : result bytes := if n <? two64 then Ok (put_uint64 n) else Err (EMsg "nonce").

(** A length in as many bytes as it needs: 255 per full byte, then the rest. *)
Fixpoint toy_length (n : nat) (fuel : nat) : bytes :=
  match fuel with
  | O => []
  | S fuel' => if (n <? 255)%nat then [byte_of_N (N.of_nat n)] else xff :: toy_length (n - 255) fuel'
  end.
Fixpoint toy_read_length (l : bytes) (acc : nat) : option (nat * bytes) :=
  match l with
  | [] => None
  | b :: rest => if bool_decide (b = xff) then toy_read_length rest (acc + 255) else Some ((acc + N.to_nat (byte_val b))%nat, rest)
  end.

Definition toy_encode_slim (s : SlimAccount) : result bytes :=
  n ← nonce_bytes (slim_Nonce s);
  b ← balance_bytes (slim_Balance s);
  Ok (n ++ b ++ toy_length (length (slim_Root s)) (S (length (slim_Root s))) ++ slim_Root s ++ slim_CodeHash s).

Definition toy_decode_slim (d : bytes) : result SlimAccount :=
  match toy_read_length (drop 40 d) 0 with
  | None => Err (EMsg "slim")
  | Some (n, rest) =>
      let s := MkSlimAccount (get_uint64 (take 8 d)) (Some (be_decode (take 32 (drop 8 d)))) (take n rest) (drop n rest) in
      match toy_encode_slim s with
      | Ok d' => if bool_decide (d' = d) then Ok s else Err (EMsg "slim")
      | Err e => Err e
      end
  end.

Definition toy_encode_account (a : StateAccount) : result bytes :=
  n ← nonce_bytes (acc_Nonce a);
  b ← balance_bytes (acc_Balance a);
  Ok (n ++ b ++ [x20] ++ hash_bytes (acc_Root a) ++ acc_CodeHash a).

Definition toy_decode_account (d : bytes) : result StateAccount :=
  let a := MkStateAccount (get_uint64 (take 8 d)) (Some (be_decode (take 32 (drop 8 d))))
             (vec_of_bytes 32 (take 32 (drop 41 d))) (drop 73 d) in
  match toy_encode_account a with
  | Ok d' => if bool_decide (d' = d) then Ok a else Err (EMsg "account")
  | Err e => Err e
  end.

Definition toy_accounts : AccountRLP :=
  {| rlp_encode_slim := toy_encode_slim;
     rlp_decode_slim := toy_decode_slim;
     rlp_encode_account := toy_encode_account;
     rlp_decode_account := toy_decode_account |}.

Lemma toy_length_read n fuel rest acc :
  (n < fuel)%nat → toy_read_length (toy_length n fuel ++ rest) acc = Some ((acc + n)%nat, rest).
Proof.
  revert n acc. induction fuel as [|fuel IH]; intros n acc Hf; [lia|]. cbn [toy_length].
  destruct (Nat.ltb_spec n 255) as [Hn|Hn].
  - cbn. assert (Hv : byte_val (byte_of_N (N.of_nat n)) = N.of_nat n).
    { rewrite byte_val_of_N N.mod_small //. lia. }
    rewrite bool_decide_eq_false_2.
    + rewrite Hv. do 2 f_equal. lia.
    + intros E. rewrite E in Hv. change (byte_val xff) with 255 in Hv. lia.
  - cbn [app toy_read_length]. rewrite bool_decide_eq_true_2 // IH; [|lia]. do 2 f_equal. lia.
Qed.

Lemma nonce_bytes_ok n d : nonce_bytes n = Ok d ↔ n < two64 ∧ d = put_uint64 n.
Proof. unfold nonce_bytes. destruct (N.ltb_spec n two64); [naive_solver|]. split; [done|]. lia. Qed.

Lemma balance_bytes_ok b d :
  balance_bytes b = Ok d ↔ ∃ v, b = Some v ∧ v < two256 ∧ d = be_encode 32 v.
Proof.
  destruct b as [v|]; simpl; [|naive_solver].
  destruct (N.ltb_spec v two256); [naive_solver|]. split; [done|]. intros (? & [= <-] & ? & _). lia.
Qed.

Lemma two256_pow : two256 = 256 ^ N.of_nat 32.
Proof. reflexivity. Qed.

Lemma be_decode_encode_32 v : v < two256 → be_decode (be_encode 32 v) = v.
Proof. intros Hv. rewrite be_decode_encode. apply N.mod_small. by rewrite -two256_pow. Qed.

Section Laws.

Lemma toy_slim_encode_ok s d :
  toy_encode_slim s = Ok d ↔
  slim_Nonce s < two64 ∧ ∃ v, slim_Balance s = Some v ∧ v < two256 ∧
  d = put_uint64 (slim_Nonce s) ++ be_encode 32 v ++
      toy_length (length (slim_Root s)) (S (length (slim_Root s))) ++ slim_Root s ++ slim_CodeHash s.
Proof.
  unfold toy_encode_slim. rewrite result_bind_ok. setoid_rewrite result_bind_ok.
  setoid_rewrite nonce_bytes_ok. setoid_rewrite balance_bytes_ok. naive_solver.
Qed.

Lemma toy_account_encode_ok a d :
  toy_encode_account a = Ok d ↔
  acc_Nonce a < two64 ∧ ∃ v, acc_Balance a = Some v ∧ v < two256 ∧
  d = put_uint64 (acc_Nonce a) ++ be_encode 32 v ++ [x20] ++ hash_bytes (acc_Root a) ++ acc_CodeHash a.
Proof.
  unfold toy_encode_account. rewrite result_bind_ok. setoid_rewrite result_bind_ok.
  setoid_rewrite nonce_bytes_ok. setoid_rewrite balance_bytes_ok. naive_solver.
Qed.

Lemma toy_fields n v tl :
  n < two64 → v < two256 →
  let d := put_uint64 n ++ be_encode 32 v ++ tl in
  get_uint64 (take 8 d) = n ∧ be_decode (take 32 (drop 8 d)) = v ∧ drop 40 d = tl.
Proof.
  intros Hn Hv d. unfold d.
  rewrite (take_app_length' (put_uint64 n)); [|by rewrite length_put_uint64].
  rewrite (drop_app_length' (put_uint64 n)); [|by rewrite length_put_uint64].
  rewrite (take_app_length' (be_encode 32 v)); [|by rewrite length_be_encode].
  rewrite get_put_uint64 // be_decode_encode_32 //.
Qed.

Lemma toy_slim_length s v :
  (length (slim_Root s) ≤ 32)%nat →
  length (put_uint64 (slim_Nonce s) ++ be_encode 32 v ++
      toy_length (length (slim_Root s)) (S (length (slim_Root s))) ++ slim_Root s ++ slim_CodeHash s) =
  (41 + length (slim_Root s) + length (slim_CodeHash s))%nat.
Proof.
  intros Hr. rewrite (length_app (put_uint64 _)) (length_app (be_encode _ _)) length_put_uint64 length_be_encode.
  rewrite (length_app (toy_length _ _)) length_app. cbn [toy_length].
  destruct (Nat.ltb_spec (length (slim_Root s)) 255); cbn [length]; lia.
Qed.

Lemma toy_account_length a v :
  length (put_uint64 (acc_Nonce a) ++ be_encode 32 v ++ [x20] ++ hash_bytes (acc_Root a) ++ acc_CodeHash a) =
  (73 + length (acc_CodeHash a))%nat.
Proof.
  rewrite (length_app (put_uint64 _)) (length_app (be_encode _ _)) length_put_uint64 length_be_encode.
  rewrite (length_app [x20]) length_app length_hash_bytes. cbn [length]. lia.
Qed.

Lemma toy_slim_decode_encode s d : toy_encode_slim s = Ok d → toy_decode_slim d = Ok s.
Proof.
  intros He. pose proof He as (Hn & v & Hb & Hv & ->)%toy_slim_encode_ok.
  unfold toy_decode_slim.
  destruct (toy_fields (slim_Nonce s) v
    (toy_length (length (slim_Root s)) (S (length (slim_Root s))) ++ slim_Root s ++ slim_CodeHash s) Hn Hv)
    as (-> & -> & ->).
  rewrite toy_length_read; [|lia]. cbn [Nat.add]. rewrite take_app_length drop_app_length -Hb.
  replace (MkSlimAccount (slim_Nonce s) (slim_Balance s) (slim_Root s) (slim_CodeHash s)) with s by (by destruct s).
  by rewrite He bool_decide_eq_true_2.
Qed.

Lemma toy_account_decode_encode a d : toy_encode_account a = Ok d → toy_decode_account d = Ok a.
Proof.
  intros He. pose proof He as (Hn & v & Hb & Hv & Hd)%toy_account_encode_ok.
  destruct (toy_fields (acc_Nonce a) v ([x20] ++ hash_bytes (acc_Root a) ++ acc_CodeHash a) Hn Hv) as (H1 & H2 & H3).
  rewrite -Hd in H1 H2 H3. unfold toy_decode_account.
  replace (drop 73 d) with (drop 32 (drop 1 (drop 40 d))) by (by rewrite !drop_drop).
  replace (drop 41 d) with (drop 1 (drop 40 d)) by (by rewrite drop_drop).
  rewrite H1 H2 H3 (drop_app_length' [x20]) // (take_app_length' (hash_bytes (acc_Root a))) ?length_hash_bytes //.
  rewrite (drop_app_length' (hash_bytes (acc_Root a))) ?length_hash_bytes // vec_of_hash_bytes -Hb.
  replace (MkStateAccount (acc_Nonce a) (acc_Balance a) (acc_Root a) (acc_CodeHash a)) with a by (by destruct a).
  by rewrite He bool_decide_eq_true_2.
Qed.

End Laws.

#[export] Instance toy_accounts_laws : AccountRLPLaws (H:=toy_accounts).
Proof.
  split; cbn [rlp_encode_slim rlp_decode_slim rlp_encode_account rlp_decode_account toy_accounts].
  - intros s [Hn Hb]. unfold balance_ok in Hb. destruct (slim_Balance s) as [v|] eqn:E; [|done].
    eexists. apply toy_slim_encode_ok. eauto.
  - intros s d _. apply toy_slim_decode_encode.
  - intros s d. unfold toy_decode_slim. destruct (toy_read_length _ _) as [[n rest]|]; [|done].
    destruct (toy_encode_slim _) as [d'|] eqn:E; [|done]. case_bool_decide; [|done]. intros [= <-]. subst d'.
    split; [|done]. apply toy_slim_encode_ok in E as (Hn & v & Hb & Hv & _). split; [done|].
    unfold balance_ok. by rewrite Hb.
  - intros a [Hn Hb]. unfold balance_ok in Hb. destruct (acc_Balance a) as [v|] eqn:E; [|done].
    eexists. apply toy_account_encode_ok. eauto.
  - intros a d _. apply toy_account_decode_encode.
  - intros a d. unfold toy_decode_account.
    destruct (toy_encode_account _) as [d'|] eqn:E; [|done]. case_bool_decide; [|done]. intros [= <-]. subst d'.
    split; [|done]. apply toy_account_encode_ok in E as (Hn & v & Hb & Hv & _). split; [done|].
    unfold balance_ok. by rewrite Hb.
  - intros a d (_ & v & _ & _ & ->)%toy_account_encode_ok Hd. apply (f_equal length) in Hd.
    by rewrite toy_account_length in Hd.
  - intros s d Hr Hc (_ & v & _ & _ & ->)%toy_slim_encode_ok. rewrite toy_slim_length //. lia.
  - intros s a d full _ _ Hr Hc (_ & v & _ & _ & ->)%toy_slim_encode_ok (_ & v' & _ & _ & ->)%toy_account_encode_ok.
    rewrite toy_slim_length // toy_account_length. lia.
Qed.

(** ** Stack trie: the leaves themselves, hashed at the end *)

Definition leaf_bytes (kv : bytes * bytes) : bytes := put_uint64 (blen kv.1) ++ kv.1 ++ put_uint64 (blen kv.2) ++ kv.2.
Definition toy_root (leaves : list (bytes * bytes)) : Hash :=
  match leaves with
  | [] => EmptyRootHash (EmptyHashes:=toy_empty)
  | _ => sha256 (mjoin (map leaf_bytes leaves))
  end.

Definition toy_update (st : list (bytes * bytes)) (k v : bytes) : result (list (bytes * bytes) * list trie_node) :=
  match v, last st with
  | [], _ => Err (EMsg "deletion not supported")
  | _, Some (k0, _) => if bool_decide (bytes_lt k0 k) then Ok (st ++ [(k, v)], []) else Err (EMsg "non-ascending key order")
  | _, None => Ok (st ++ [(k, v)], [])
  end.

Definition toy_stack : StackTrie :=
  {| stack := list (bytes * bytes);
     stack_new := [];
     stack_update := toy_update;
     stack_hash st := (toy_root st, match st with [] => [] | _ => [MkTrieNode [] (toy_root st) (mjoin (map leaf_bytes st))] end) |}.

Lemma toy_feed st leaves :
  StronglySorted bytes_lt ((st ++ leaves).*1) → Forall (λ kv, kv.2 ≠ []) leaves →
  stack_feed (H:=toy_stack) st leaves = Ok (st ++ leaves, []).
Proof.
  revert st. induction leaves as [|[k v] leaves IH]; intros st Hs Hv; cbn [stack_feed]; [by rewrite app_nil_r|].
  apply Forall_cons in Hv as [Hv Hvs]. simpl in Hv.
  assert (Hu : toy_update st k v = Ok (st ++ [(k, v)], [])).
  { unfold toy_update. destruct v; [done|]. destruct (last st) as [[k0 v0]|] eqn:El; [|done].
    rewrite bool_decide_eq_true_2 //. apply last_Some in El as [st' ->].
    rewrite -app_assoc fmap_app in Hs. simpl in Hs.
    apply StronglySorted_app_1_r in Hs. inversion Hs as [|? ? _ Hf]; subst. by inversion Hf. }
  cbn [stack_update toy_stack]. rewrite Hu. simpl. rewrite IH //.
  - by rewrite -app_assoc.
  - by rewrite -app_assoc.
Qed.

Lemma toy_feed_sorted st leaves st' nodes :
  StronglySorted bytes_lt st.*1 → Forall (λ kv, kv.2 ≠ []) st →
  stack_feed (H:=toy_stack) st leaves = Ok (st', nodes) →
  StronglySorted bytes_lt (st ++ leaves).*1 ∧ Forall (λ kv, kv.2 ≠ []) (st ++ leaves).
Proof.
  revert st nodes. induction leaves as [|[k v] leaves IH]; intros st nodes Hs Hv Hf; cbn [stack_feed] in Hf.
  - rewrite app_nil_r. done.
  - cbn [stack_update toy_stack] in Hf. destruct (toy_update st k v) as [[st1 n1]|] eqn:Hu; [|done]. simpl in Hf.
    destruct (stack_feed (H:=toy_stack) st1 leaves) as [[st2 n2]|] eqn:Hf2; [|done]. injection Hf as -> _.
    assert (st1 = st ++ [(k, v)] ∧ v ≠ [] ∧ (∀ k0, last st.*1 = Some k0 → bytes_lt k0 k)) as (-> & Hne & Hlt).
    { unfold toy_update in Hu. destruct v as [|b v]; [done|]. rewrite fmap_last.
      destruct (last st) as [[k0 v0]|]; [case_bool_decide; [|done]|]; injection Hu as <- <-; split; [done| |done|];
        (split; [done|]); intros ? ?; by simplify_eq/=. }
    replace (st ++ (k, v) :: leaves) with ((st ++ [(k, v)]) ++ leaves) by (by rewrite -app_assoc).
    eapply IH; [| |exact Hf2].
    + rewrite fmap_app. apply StronglySorted_snoc; [apply _|done|done].
    + apply Forall_app. split; [done|]. by constructor.
Qed.

#[export] Instance toy_stack_laws : StackTrieLaws (H:=toy_stack) (H0:=toy_empty) toy_root.
Proof.
  split.
  - intros leaves [Hs Hf]. exists leaves, []. apply (toy_feed [] leaves); [done|].
    eapply Forall_impl; [done|]. naive_solver.
  - intros leaves st nodes Hl Hf. apply (toy_feed_sorted [] leaves) in Hf as [Hs Hv]; [|constructor|constructor].
    split; [done|]. apply Forall_and. done.
  - intros leaves st nodes [Hs Hf] He. rewrite (toy_feed [] leaves) in He; [|done|].
    + by injection He as <- <-.
    + eapply Forall_impl; [done|]. naive_solver.
  - done.
Qed.

(** ** Key schema *)

Definition toy_keys : RawdbKeys :=
  {| CodePrefix := bytes_of_string "c";
     SnapshotAccountPrefix := bytes_of_string "a";
     SnapshotStoragePrefix := bytes_of_string "o";
     TrieNodeAccountPrefix := bytes_of_string "A";
     TrieNodeStoragePrefix := bytes_of_string "O";
     SnapshotRootKey := bytes_of_string "SnapshotRoot" |}.

#[export] Instance toy_keys_laws : RawdbKeysLaws (H:=toy_keys).
Proof.
  split; [by repeat constructor|]. apply (bool_decide_eq_true_1 _). by vm_compute.
Qed.

Definition toy_batch : BatchSize := {| IdealBatchSize := 102400 |}.

(** ** RLP values: single bytes and strings of at most 55 bytes *)

Definition toy_split : RLPSplit :=
  {| rlp_split d :=
       match d with
       | [] => Err EUnexpectedEOF
       | b :: rest =>
           let tag := byte_val b in
           if tag <? 128 then Ok (RlpByte, [b], rest)
           else if tag <? 184 then
             let n := N.to_nat (tag - 128) in
             if (length rest <? n)%nat then Err EUnexpectedEOF
             else Ok (RlpString, take n rest, drop n rest)
           else Err (EMsg "unsupported value")
       end |}.
