(* ===== verification/Manifest.v ===== *)
(** * Bundle manifests ([internal/bundle/manifest.go])

    The manifest data ([Head], [SourceEvidence], [Counts], [StateFile],
    [Manifest]) and its validators, translated check by check in source order.
    [CreatedAt] is an integer time whose zero is Go's zero time. The theorems
    characterise exactly what each validator accepts: the arithmetic of
    [Counts.Validate] holds over the integers (no 64-bit wrap-around can make a
    false sum pass), and an accepted manifest is bound to the header bytes it
    carries. *)

From S2P Require Import Prelude Geth.

(** ** Constants *)

Definition Bundle : N := 1.
Definition FormatName : string := "metis-l2state".
Definition FormatVersion : N := Bundle.
Definition ManifestFileName : string := "manifest.json".
Definition CompressionZstd : string := "zstd".
Definition CompressionNone : string := "none".
Definition RecordsFileZstd : string := "state.records.zst".
Definition RecordsFileRaw : string := "state.records".

(** ** Data *)

Record Head := MkHead {
  BlockNumber : N;
  BlockHash : Hash;
  StateRoot : Hash
}.

Record SourceEvidence := MkSourceEvidence {
  HeadBefore : Head;
  HeadAfter : Head;
  HeaderRLP_ : bytes
}.

Record Counts := MkCounts {
  Accounts : N;
  StorageSlots : N;
  CodeReferences : N;
  CodeRecords : N;
  Records : N;
  PayloadBytes : N
}.

Record StateFile := MkStateFile {
  Name : string;
  Compression : string;
  Size : Z;
  RecordPayloadBytes : N;
  SHA256 : Hash;
  RecordChainHash : Hash
}.

Record Manifest := MkManifest {
  Format : string;
  Version : N;
  CreatedAt : N;
  ToolVersion : string;
  GethVersion : string;
  Source : SourceEvidence;
  mCounts : Counts;
  mStateFile : StateFile;
  SupportedSchemes : list string
}.

#[export] Instance Head_eq_dec : EqDecision Head.
Proof. solve_decision. Defined.
#[export] Instance Counts_eq_dec : EqDecision Counts.
Proof. solve_decision. Defined.
#[export] Instance SourceEvidence_eq_dec : EqDecision SourceEvidence.
Proof. solve_decision. Defined.
#[export] Instance StateFile_eq_dec : EqDecision StateFile.
Proof. solve_decision. Defined.

(** ** Operations *)

(** The loop of [sumCounts] from a running total. *)
Fixpoint sumCounts_from (total : N) (values : list N) : N * bool :=
  match values with
  | [] => (total, true)
  | value :: values' =>
      if two64 - 1 - total <? value then (0, false)
      else sumCounts_from (add64 total value) values'
  end.
Definition sumCounts (values : list N) : N * bool := sumCounts_from 0 values.

Definition Counts_Validate (c : Counts) : result unit :=
  _ ← reject_if (Accounts c <? CodeReferences c) "code reference count exceeds account count";
  _ ← reject_if (CodeReferences c <? CodeRecords c) "code record count exceeds code reference count";
  _ ← reject_if ((0 <? CodeReferences c) && (CodeRecords c =? 0))
        "state has code references but no code records";
  let '(expected, ok) := sumCounts [Accounts c; StorageSlots c; CodeRecords c] in
  _ ← reject_if (negb ok) "record type counts overflow uint64";
  _ ← reject_if (negb (Records c =? expected)) "record count does not match record type counts";
  if Records c =? 0 then
    reject_if (negb (PayloadBytes c =? 0)) "empty state has non-zero payload bytes"
  else
    _ ← reject_if (Accounts c =? 0) "non-empty state has no account records";
    reject_if (PayloadBytes c =? 0) "non-empty state has zero payload bytes".

(** [filepath.Base] on a Unix path. *)
Fixpoint strip_leading_slashes (rev_path : bytes) : bytes :=
  match rev_path with
  | b :: rest => if bool_decide (b = x2f) then strip_leading_slashes rest else rev_path
  | [] => []
  end.
Fixpoint until_slash (rev_path : bytes) : bytes :=
  match rev_path with
  | [] => []
  | b :: rest => if bool_decide (b = x2f) then [] else b :: until_slash rest
  end.
Definition filepath_base (path : string) : string :=
  match bytes_of_string path with
  | [] => "."
  | p =>
      match reverse (until_slash (strip_leading_slashes (reverse p))) with
      | [] => "/"
      | base => String.string_of_list_byte base
      end
  end.

Section Validation.
Context `{Keccak, HeaderRLP}.

Definition ValidatedHeader (s : SourceEvidence) : result Header :=
  _ ← reject_if (negb (bool_decide (HeadBefore s = HeadAfter s))) "source head changed during traversal";
  _ ← reject_if (bool_decide (BlockHash (HeadBefore s) = zero_hash)) "source block hash is empty";
  _ ← reject_if (bool_decide (StateRoot (HeadBefore s) = zero_hash)) "source state root is empty";
  _ ← reject_if (bool_decide (HeaderRLP_ s = [])) "source header RLP is empty";
  header ← wrap_err "decode header RLP as geth v1.17.6 header" (rlp_decode_header (HeaderRLP_ s));
  match header_Number header with
  | None => Err (EMsg "header block number is missing or exceeds uint64")
  | Some number =>
      _ ← reject_if (negb (number <? two64)) "header block number is missing or exceeds uint64";
      let head := HeadBefore s in
      _ ← reject_if (negb (number =? BlockNumber head)) "header block number mismatch";
      _ ← reject_if (negb (bool_decide (keccak256 (HeaderRLP_ s) = BlockHash head))) "header block hash mismatch";
      _ ← reject_if (negb (bool_decide (header_Root header = StateRoot head))) "header state root mismatch";
      Ok header
  end.

Definition SourceEvidence_Validate (s : SourceEvidence) : result unit :=
  _ ← ValidatedHeader s; Ok ().

Definition Manifest_Validate (m : Manifest) : result unit :=
  _ ← reject_if (negb (bool_decide (Format m = FormatName)) || negb (Version m =? FormatVersion))
        "unsupported bundle format";
  _ ← reject_if (bool_decide (ToolVersion m = ""%string)) "manifest tool_version is empty";
  _ ← reject_if (CreatedAt m =? 0) "manifest created_at is empty";
  _ ← SourceEvidence_Validate (Source m);
  let sf := mStateFile m in
  _ ← reject_if (negb (bool_decide (Name sf = RecordsFileZstd)) && negb (bool_decide (Name sf = RecordsFileRaw)))
        "invalid state file name";
  _ ← reject_if (negb (bool_decide (filepath_base (Name sf) = Name sf))) "state file name must not contain a path";
  _ ← reject_if (negb (bool_decide (Compression sf = CompressionZstd)) && negb (bool_decide (Compression sf = CompressionNone)))
        "unsupported compression";
  _ ← reject_if (bool_decide (Compression sf = CompressionZstd) && negb (bool_decide (Name sf = RecordsFileZstd)))
        "zstd bundle must use state.records.zst";
  _ ← reject_if (bool_decide (Compression sf = CompressionNone) && negb (bool_decide (Name sf = RecordsFileRaw)))
        "uncompressed bundle must use state.records";
  _ ← reject_if (Size sf <=? 0)%Z "state file size must be positive";
  _ ← reject_if (bool_decide (SHA256 sf = zero_hash)) "state file sha256 is empty";
  _ ← reject_if (bool_decide (RecordChainHash sf = zero_hash)) "record chain hash is empty";
  _ ← Counts_Validate (mCounts m);
  _ ← reject_if ((Records (mCounts m) =? 0) && negb (RecordPayloadBytes sf =? 0))
        "empty record stream has non-zero record payload bytes";
  _ ← reject_if (negb (Records (mCounts m) =? 0) && (RecordPayloadBytes sf =? 0))
        "non-empty record stream has zero record payload bytes";
  _ ← reject_if (PayloadBytes (mCounts m) <? RecordPayloadBytes sf)
        "record payload bytes exceed expanded consensus payload bytes";
  reject_if (negb (bool_decide (SupportedSchemes m = ["hash"; "path"]%string)))
    "manifest supported_schemes must be [hash, path]".

(** [now] is the clock reading; the two version strings are build constants. *)
Definition NewManifest (now : N) (tool geth : string)
    (source : SourceEvidence) (counts : Counts) (stateFile : StateFile) : Manifest :=
  {| Format := FormatName;
     Version := FormatVersion;
     CreatedAt := now;
     ToolVersion := tool;
     GethVersion := geth;
     Source := source;
     mCounts := counts;
     mStateFile := stateFile;
     SupportedSchemes := ["hash"; "path"]%string |}.

End Validation.

(** ** What the validators accept *)

(** The fields of a [Counts] value are 64-bit. *)
Definition counts_u64 (c : Counts) : Prop :=
  Forall (λ x, x < two64)
    [Accounts c; StorageSlots c; CodeReferences c; CodeRecords c; Records c; PayloadBytes c].

(** The arithmetic relations of a consistent [Counts], over the integers. *)
Record counts_consistent (c : Counts) : Prop := {
  cc_references : CodeReferences c ≤ Accounts c;
  cc_code_records : CodeRecords c ≤ CodeReferences c;
  cc_code_present : 0 < CodeReferences c → 0 < CodeRecords c;
  cc_sum : Records c = Accounts c + StorageSlots c + CodeRecords c;
  cc_payload : Records c = 0 ↔ PayloadBytes c = 0;
  cc_accounts : 0 < Records c → 0 < Accounts c
}.

(** A source head bound to its header bytes. *)
Record source_bound `{Keccak, HeaderRLP} (s : SourceEvidence) : Prop := {
  sb_stable : HeadBefore s = HeadAfter s;
  sb_hash : keccak256 (HeaderRLP_ s) = BlockHash (HeadBefore s);
  sb_header :
    rlp_decode_header (HeaderRLP_ s) =
      Ok (MkHeader (Some (BlockNumber (HeadBefore s))) (StateRoot (HeadBefore s)));
  sb_number : BlockNumber (HeadBefore s) < two64;
  sb_nonempty : HeaderRLP_ s ≠ [];
  sb_block_hash : BlockHash (HeadBefore s) ≠ zero_hash;
  sb_state_root : StateRoot (HeadBefore s) ≠ zero_hash
}.

(** An acceptable manifest. *)
Record manifest_wf `{Keccak, HeaderRLP} (m : Manifest) : Prop := {
  mw_format : Format m = FormatName ∧ Version m = FormatVersion;
  mw_provenance : ToolVersion m ≠ ""%string ∧ CreatedAt m ≠ 0;
  mw_source : source_bound (Source m);
  mw_file :
    (Compression (mStateFile m) = CompressionZstd ∧ Name (mStateFile m) = RecordsFileZstd) ∨
    (Compression (mStateFile m) = CompressionNone ∧ Name (mStateFile m) = RecordsFileRaw);
  mw_size : (0 < Size (mStateFile m))%Z;
  mw_digests : SHA256 (mStateFile m) ≠ zero_hash ∧ RecordChainHash (mStateFile m) ≠ zero_hash;
  mw_counts : counts_consistent (mCounts m);
  mw_record_bytes : Records (mCounts m) = 0 ↔ RecordPayloadBytes (mStateFile m) = 0;
  mw_slim : RecordPayloadBytes (mStateFile m) ≤ PayloadBytes (mCounts m);
  mw_schemes : SupportedSchemes m = ["hash"; "path"]%string
}.

(** ** Lemmas *)

Lemma sumCounts_from_ok values total :
  total < two64 →
  sumCounts_from total values =
    if total + foldr N.add 0 values <? two64 then (total + foldr N.add 0 values, true) else (0, false).
Proof.
  revert total. induction values as [|v vs IH]; intros total Ht; cbn [sumCounts_from foldr].
  - rewrite N.add_0_r. by destruct (N.ltb_spec total two64); [|lia].
  - destruct (N.ltb_spec (two64 - 1 - total) v).
    + destruct (N.ltb_spec (total + (v + foldr N.add 0 vs)) two64); [lia|done].
    + rewrite add64_small; [|lia]. rewrite IH; [|lia]. by rewrite N.add_assoc.
Qed.

Lemma sumCounts_sum values :
  sumCounts values =
    if foldr N.add 0 values <? two64 then (foldr N.add 0 values, true) else (0, false).
Proof. unfold sumCounts. rewrite sumCounts_from_ok //. Qed.

Lemma reject_if_cases c msg : reject_if c msg = Ok () ↔ c = false.
Proof. apply reject_if_ok. Qed.

Lemma reject_then {A} c msg (k : result A) a :
  (_ ← reject_if c msg; k) = Ok a ↔ c = false ∧ k = Ok a.
Proof. destruct c; simpl; naive_solver. Qed.

Lemma then_ok {A} (m : result unit) (k : result A) a :
  (_ ← m; k) = Ok a ↔ m = Ok () ∧ k = Ok a.
Proof. destruct m as [[]|]; simpl; naive_solver. Qed.

Lemma Counts_Validate_iff c :
  counts_u64 c → Counts_Validate c = Ok () ↔ counts_consistent c.
Proof.
  unfold counts_u64. rewrite !Forall_cons. intros (? & ? & ? & ? & ? & ? & _).
  unfold Counts_Validate. rewrite !reject_then sumCounts_sum. cbn [foldr].
  rewrite !N.add_0_r N.add_assoc.
  destruct (N.ltb_spec (Accounts c + StorageSlots c + CodeRecords c) two64); cycle 1.
  { rewrite reject_then /=. split; [naive_solver|]. intros []. lia. }
  rewrite !reject_then.
  destruct (N.eqb_spec (Records c) 0); rewrite ?reject_then reject_if_cases;
    rewrite ?andb_false_iff ?N.ltb_ge ?negb_false_iff ?N.eqb_eq ?N.eqb_neq.
  - split; [intros; split; lia|intros []; lia].
  - split; [intros; split; lia|intros []; lia].
Qed.

Section Validators.
Context `{Keccak, HeaderRLP}.

Lemma ValidatedHeader_ok s h :
  ValidatedHeader s = Ok h ↔
  source_bound s ∧
  h = MkHeader (Some (BlockNumber (HeadBefore s))) (StateRoot (HeadBefore s)).
Proof.
  unfold ValidatedHeader. rewrite !reject_then.
  rewrite !negb_false_iff !bool_decide_eq_true !bool_decide_eq_false.
  destruct (rlp_decode_header (HeaderRLP_ s)) as [[num root]|e] eqn:Hd; simpl.
  - destruct num as [n|]; rewrite ?reject_then ?negb_false_iff ?N.ltb_lt ?N.eqb_eq ?bool_decide_eq_true /=.
    + split.
      * intros (? & ? & ? & ? & ? & ? & ? & ? & [= <-]). subst. split; [split|]; auto.
      * intros [[? ? Hh ? ? ? ?] ->]. rewrite Hd in Hh. simplify_eq. naive_solver.
    + split; [naive_solver|]. intros [[? ? Hh] _]. congruence.
  - split; [naive_solver|]. intros [[? ? Hh] _]. congruence.
Qed.

Lemma file_name_base_ok n : n = RecordsFileZstd ∨ n = RecordsFileRaw → filepath_base n = n.
Proof. intros [->| ->]; reflexivity. Qed.

Lemma SourceEvidence_Validate_iff s : SourceEvidence_Validate s = Ok () ↔ source_bound s.
Proof.
  unfold SourceEvidence_Validate. rewrite result_bind_ok. setoid_rewrite ValidatedHeader_ok.
  naive_solver.
Qed.

Lemma Manifest_Validate_iff m :
  counts_u64 (mCounts m) → Manifest_Validate m = Ok () ↔ manifest_wf m.
Proof.
  intros Hu. unfold Manifest_Validate.
  pose proof (Counts_Validate_iff _ Hu) as Hcv. pose proof (SourceEvidence_Validate_iff (Source m)) as Hsv.
  revert Hcv Hsv. generalize (Counts_Validate (mCounts m)), (SourceEvidence_Validate (Source m)).
  intros cv sv Hcv Hsv. rewrite !then_ok Hcv Hsv !reject_if_cases.
  rewrite !orb_false_iff !andb_false_iff !negb_false_iff !bool_decide_eq_true !bool_decide_eq_false.
  rewrite !N.eqb_eq !N.eqb_neq N.ltb_ge Z.leb_gt.
  split.
  - intros ([? ?] & ? & ? & ? & ? & ? & Hc & Hz & Hr & ? & ? & ? & ? & Hb1 & Hb2 & ? & ?).
    split; auto; [|destruct Hb1, Hb2; naive_solver].
    destruct Hc; [left|right]; naive_solver.
  - intros [[? ?] [? ?] ? Hf ? [? ?] ? Hrb ? ?].
    assert (filepath_base (Name (mStateFile m)) = Name (mStateFile m)).
    { apply file_name_base_ok. naive_solver. }
    destruct (N.eq_dec (Records (mCounts m)) 0); destruct Hf as [[-> ->]|[-> ->]]; naive_solver.
Qed.

End Validators.
