(* ===== verification/StrictIO.v ===== *)
(** * Strict inputs ([internal/strictio/strictio.go])

    A directory is a finite map from entry names to nodes; a node has the mode,
    size and identity that [Lstat] and [Stat] report, its content, and the
    error (if any) that reading it ends with. Where the source inspects a path
    before and after opening it, the operation takes both observations. The
    theorems say that an accepted layout is exactly the expected one, and that
    a bounded read never yields more than its limit nor follows a symbolic
    link. *)

From S2P Require Import Prelude Manifest.

(** ** File system data *)

Inductive file_mode := ModeRegular | ModeDir | ModeSymlink | ModeOther.
#[export] Instance file_mode_eq_dec : EqDecision file_mode.
Proof. solve_decision. Defined.

Record file_info := MkFileInfo {
  fi_mode : file_mode;
  fi_size : Z;
  fi_id : N      (* device and inode: what os.SameFile compares *)
}.

Record dir_node := MkDirNode {
  dn_info : file_info;
  dn_content : bytes;
  dn_read_err : option error
}.

Abbreviation directory := (gmap string dir_node).

Definition MaxMetadataSize : Z := Z.shiftl 1 20.

Inductive EntryKind := RegularFile | Directory.
#[export] Instance EntryKind_eq_dec : EqDecision EntryKind.
Proof. solve_decision. Defined.

Definition isSymlink (i : file_info) : bool := bool_decide (fi_mode i = ModeSymlink).
Definition isRegular (i : file_info) : bool := bool_decide (fi_mode i = ModeRegular).
Definition isDir (i : file_info) : bool := bool_decide (fi_mode i = ModeDir).
Definition sameFile (a b : file_info) : bool := fi_id a =? fi_id b.

(** ** Operations *)

Section StrictIO.
Context {St : Type}.

(** [before] is what [Lstat] reports at the path, [opened] what it reports for
    the opened root. *)
Definition OpenRoot (before opened : result file_info) : M St unit :=
  info ← lift (wrap_err "inspect input root" before);
  _ ← lift (reject_if (isSymlink info) "input root must not be a symbolic link");
  _ ← lift (reject_if (negb (isDir info)) "input root is not a directory");
  _ ← wrap "open input root" io;
  match opened with
  | Err e =>
      c ← attempt io;
      match c with
      | Ok _ => fail (EWrap "inspect opened input root" e)
      | Err e' => fail (EJoin (EWrap "inspect opened input root" e) (EWrap "close rejected input root" e'))
      end
  | Ok after =>
      if sameFile info after then mret ()
      else
        c ← attempt io;
        match c with
        | Ok _ => fail (EMsg "input root changed while it was being opened")
        | Err e' => fail (EJoin (EMsg "input root changed while it was being opened")
                                (EWrap "close rejected input root" e'))
        end
  end.

(** The name test shared by [requireKind] and [OpenRegular]. *)
Definition invalid_name (name : string) : bool :=
  negb (bool_decide (filepath_base name = name)) || bool_decide (name = "."%string) || bool_decide (name = ".."%string).

Definition lstat (dir : directory) (name : string) : result file_info :=
  match dir !! name with Some n => Ok (dn_info n) | None => Err ENotExist end.

Definition requireKind (dir : directory) (name : string) (kind : EntryKind) : result unit :=
  _ ← reject_if (invalid_name name) "invalid top-level entry name";
  info ← wrap_err "inspect input entry" (lstat dir name);
  _ ← reject_if (isSymlink info) "input entry must not be a symbolic link";
  match kind with
  | RegularFile => reject_if (negb (isRegular info)) "input entry is not a regular file"
  | Directory => reject_if (negb (isDir info)) "input entry is not a directory"
  end.

(** The loop over the inventory of [RequireExactLayout]. *)
Fixpoint check_entries (dir : directory) (expected : gmap string EntryKind) (names : list string) : result unit :=
  match names with
  | [] => Ok ()
  | name :: names' =>
      match expected !! name with
      | None => Err (EMsg "input root contains unexpected entry")
      | Some kind => _ ← requireKind dir name kind; check_entries dir expected names'
      end
  end.

Definition RequireExactLayout (dir : directory) (expected : gmap string EntryKind) : result unit :=
  let entries := (map_to_list dir).*1 in
  _ ← reject_if (negb (length entries =? size expected)%nat) "input root contains the wrong number of entries";
  check_entries dir expected entries.

(** [dir] is inspected before the file is opened and [dir'] after. *)
Definition OpenRegular (dir dir' : directory) (name : string) : M St dir_node :=
  _ ← lift (reject_if (invalid_name name) "invalid regular-file name");
  before ← lift (wrap_err "inspect input file" (lstat dir name));
  _ ← lift (reject_if (isSymlink before || negb (isRegular before))
              "input file must be a regular file, not a symbolic link");
  _ ← wrap "open input file" io;
  node ← lift (wrap_err "open input file"
                 (match dir' !! name with Some n => Ok n | None => Err ENotExist end));
  s ← attempt io;
  match s with
  | Err e =>
      c ← attempt io;
      match c with
      | Ok _ => fail (EWrap "inspect opened input file" e)
      | Err e' => fail (EJoin (EWrap "inspect opened input file" e) (EWrap "close rejected input file" e'))
      end
  | Ok _ =>
      if negb (isRegular (dn_info node)) || negb (sameFile before (dn_info node)) then
        c ← attempt io;
        match c with
        | Ok _ => fail (EMsg "input file changed while it was being opened")
        | Err e' => fail (EJoin (EMsg "input file changed while it was being opened")
                                (EWrap "close rejected input file" e'))
        end
      else mret node
  end.

(** [io.ReadAll(io.LimitReader(file, limit))]. *)
Definition read_limited (node : dir_node) (limit : nat) : result bytes :=
  match dn_read_err node with
  | Some e => if (limit <=? length (dn_content node))%nat then Ok (take limit (dn_content node)) else Err e
  | None => Ok (take limit (dn_content node))
  end.

Definition ReadRegular (dir dir' : directory) (name : string) (maximum : Z) : M St bytes :=
  _ ← lift (reject_if (maximum <? 0)%Z "maximum read size is negative");
  node ← OpenRegular dir dir' name;
  let body :=
    _ ← reject_if (maximum <? fi_size (dn_info node))%Z "input file is larger than its maximum";
    data ← wrap_err "read input file" (read_limited node (Z.to_nat (maximum + 1)));
    _ ← reject_if (maximum <? Z.of_nat (length data))%Z "input file exceeds maximum size";
    Ok data in
  c ← attempt io;
  match body, c with
  | Ok data, Ok _ => mret data
  | Ok _, Err e => fail (EWrap "close input file" e)
  | Err e, Ok _ => fail e
  | Err e, Err e' => fail (EJoin e (EWrap "close input file" e'))
  end.

End StrictIO.

(** ** Lemmas *)

(** The node has the expected kind and is not a symbolic link. *)
Definition kind_matches (n : dir_node) (k : EntryKind) : Prop :=
  fi_mode (dn_info n) = match k with RegularFile => ModeRegular | Directory => ModeDir end.

Lemma requireKind_iff dir name kind :
  invalid_name name = false →
  requireKind dir name kind = Ok () ↔ ∃ n, dir !! name = Some n ∧ kind_matches n kind.
Proof.
  intros Hn. unfold requireKind, lstat, kind_matches. rewrite Hn /=.
  destruct (dir !! name) as [n|]; simpl; [|split; [done|by intros (? & ? & _)]].
  unfold isSymlink, isRegular, isDir.
  rewrite reject_then. destruct kind; rewrite reject_if_cases negb_false_iff bool_decide_eq_false bool_decide_eq_true.
  all: split; [intros [_ ?]; eauto|intros (? & [= <-] & Hm)].
  all: by rewrite Hm.
Qed.

Lemma requireKind_valid dir name kind u : requireKind dir name kind = Ok u → invalid_name name = false.
Proof. unfold requireKind. intros H. minv. done. Qed.

Lemma check_entries_ok dir expected names :
  (∀ name, is_Some (expected !! name) → invalid_name name = false) →
  check_entries dir expected names = Ok () ↔
  ∀ name, name ∈ names → ∃ n k, expected !! name = Some k ∧ dir !! name = Some n ∧ kind_matches n k.
Proof.
  intros Hv. induction names as [|name names IH]; cbn [check_entries].
  - split; [|done]. intros _ name. by rewrite elem_of_nil.
  - destruct (expected !! name) as [k|] eqn:E; cycle 1.
    { split; [done|]. intros H. destruct (H name) as (? & ? & ? & _); [left|congruence]. }
    rewrite then_ok IH requireKind_iff; [|naive_solver].
    split.
    + intros [(n & ? & ?) Hrest] name' [->|?]%elem_of_cons; eauto 10.
    + intros Hall. split.
      * destruct (Hall name) as (n & k' & ? & ? & ?); [left|]. naive_solver.
      * intros name' ?. apply Hall. by right.
Qed.

Lemma RequireExactLayout_ok dir expected :
  (∀ name, is_Some (expected !! name) → invalid_name name = false) →
  RequireExactLayout dir expected = Ok () ↔
  dom dir = dom expected ∧
  map_Forall (λ name k, ∃ n, dir !! name = Some n ∧ kind_matches n k) expected.
Proof.
  intros Hv. unfold RequireExactLayout. rewrite reject_then check_entries_ok // negb_false_iff Nat.eqb_eq.
  rewrite length_fmap length_map_to_list.
  assert (Hin : ∀ name, name ∈ (map_to_list dir).*1 ↔ is_Some (dir !! name)).
  { intros name. rewrite list_elem_of_fmap. split.
    - intros ([? n] & -> & ?%elem_of_map_to_list). by exists n.
    - intros [n ?]. exists (name, n). by rewrite elem_of_map_to_list. }
  setoid_rewrite Hin. split.
  - intros [Hsz Hall].
    assert (Hd : dom dir = dom expected).
    { apply set_eq_subseteq. assert (dom dir ⊆ dom expected).
      { intros name ?%elem_of_dom. apply elem_of_dom. destruct (Hall name) as (? & ? & ? & _); eauto. }
      split; [done|]. intros name Hn.
      destruct (decide (name ∈ dom dir)) as [|Hnd]; [done|]. exfalso.
      assert (dom dir ⊂ dom expected) as Hlt by set_solver.
      apply subset_size in Hlt. rewrite !size_dom in Hlt. lia. }
    split; [done|]. intros name k Hk. destruct (Hall name) as (n & k' & ? & ? & ?).
    { apply elem_of_dom. rewrite Hd. apply elem_of_dom. eauto. }
    naive_solver.
  - intros [Hd Hall]. split; [by rewrite -!size_dom Hd|].
    intros name Hn. assert (is_Some (expected !! name)) as [k Hk].
    { apply elem_of_dom. rewrite -Hd. by apply elem_of_dom. }
    destruct (Hall name k Hk) as (n & ? & ?). eauto 10.
Qed.

Lemma OpenRegular_ok {St} dir dir' name (s : St) w node s' w' :
  OpenRegular dir dir' name s w = (Ok node, s', w') →
  s' = s ∧ dir' !! name = Some node ∧ fi_mode (dn_info node) = ModeRegular ∧
  ∃ n0, dir !! name = Some n0 ∧ fi_mode (dn_info n0) = ModeRegular ∧ fi_id (dn_info n0) = fi_id (dn_info node).
Proof.
  unfold OpenRegular, lstat. intros H. minv.
  destruct (dir !! name) as [n0|] eqn:E0; [|done]. destruct (dir' !! name) as [n1|] eqn:E1; [|done].
  simplify_eq/=.
  mcases. destruct (negb _ || _) eqn:Ec; mcases.
  apply orb_false_iff in Ec as [?%negb_false_iff%bool_decide_eq_true ?%negb_false_iff%N.eqb_eq].
  match goal with Hs : isSymlink _ || _ = false |- _ =>
    apply orb_false_iff in Hs as [_ ?%negb_false_iff%bool_decide_eq_true] end.
  repeat match goal with Hi : io _ _ = _ |- _ => apply io_state in Hi; subst end.
  eauto 10.
Qed.

Lemma read_limited_ok node limit data :
  read_limited node limit = Ok data → data = take limit (dn_content node) ∧
    (length data < limit → data = dn_content node ∧ dn_read_err node = None)%nat.
Proof.
  unfold read_limited. destruct (dn_read_err node); [destruct (Nat.leb_spec limit (length (dn_content node)))|];
    intros [= <-]; (split; [done|]); rewrite length_take; intros Hl; [lia|].
  split; [|done]. apply take_ge. lia.
Qed.

Lemma ReadRegular_ok {St} dir dir' name maximum (s : St) w data s' w' :
  ReadRegular dir dir' name maximum s w = (Ok data, s', w') →
  (0 ≤ maximum)%Z ∧ (Z.of_nat (length data) ≤ maximum)%Z ∧
  ∃ node, dir' !! name = Some node ∧ fi_mode (dn_info node) = ModeRegular ∧
          data = dn_content node ∧ dn_read_err node = None.
Proof.
  unfold ReadRegular. intros H. minv.
  match goal with Ho : OpenRegular _ _ _ _ _ = _ |- _ => apply OpenRegular_ok in Ho as (-> & ? & ? & _) end.
  destruct (reject_if _ _ ≫= _) eqn:Eb; destruct x4; minv.
  rename H0 into Hmax. apply Z.ltb_ge in Hmax.
  match goal with Hd : (maximum <? Z.of_nat _)%Z = false |- _ => apply Z.ltb_ge in Hd end.
  match goal with Hl : read_limited _ _ = _ |- _ => apply read_limited_ok in Hl as [Hl1 Hl2] end.
  destruct Hl2 as [-> ?]; [lia|]. eauto 10.
Qed.

Lemma OpenRoot_keeps {St} (P : St → Prop) before opened : keeps P (OpenRoot before opened).
Proof. unfold OpenRoot. repeat keeps_step. Qed.
Lemma OpenRegular_keeps {St} (P : St → Prop) dir dir' name : keeps P (OpenRegular dir dir' name).
Proof. unfold OpenRegular. repeat keeps_step. Qed.
Lemma ReadRegular_keeps {St} (P : St → Prop) dir dir' name maximum : keeps P (ReadRegular dir dir' name maximum).
Proof. unfold ReadRegular. repeat first [apply OpenRegular_keeps | keeps_step]. Qed.

Lemma OpenRoot_calm {St} info (s : St) :
  isDir info = true → OpenRoot (Ok info) (Ok info) s calm = (Ok (), s, calm).
Proof.
  intros Hd. unfold OpenRoot, isSymlink, sameFile. mrun. unfold isDir in *. rewrite Hd.
  apply bool_decide_eq_true in Hd. rewrite Hd. mrun. by rewrite N.eqb_refl.
Qed.

Lemma OpenRegular_calm {St} dir name node (s : St) :
  invalid_name name = false → dir !! name = Some node → fi_mode (dn_info node) = ModeRegular →
  OpenRegular dir dir name s calm = (Ok node, s, calm).
Proof.
  intros Hn Hd Hm. unfold OpenRegular, lstat, isSymlink, isRegular, sameFile. rewrite Hn Hd. mrun.
  rewrite Hm. mrun. by rewrite Hm N.eqb_refl.
Qed.
