(* ===== verification/Records.v ===== *)
(** * Record streams: writer ([internal/bundle/records.go])

    [Writer] is the state of the record writer: the bytes its buffered file has
    accepted, the sticky error of the buffer, the running record-chain hash and
    its Keccak state, the counts. The file content is the accepted stream, or
    its zstd encoding; the SHA-256 of the result is over the same bytes
    ([io.MultiWriter]). The bytes of a write that fails are not tracked: a
    writer that has failed never yields a [WriterResult].

    The specification of the stream is [encode_record] and [chain_step]; the
    main lemma, [run_ops_spec], says what any successful sequence of writer
    calls has produced. *)

From S2P Require Import Prelude Sha256 Geth Manifest.

(** ** Constants and data *)

Definition streamMagic : bytes := bytes_of_string "L2STATE1".
Definition recordEnd : byte := x00.
Definition RecordAccount : byte := x01.
Definition RecordStorage : byte := x02.
Definition RecordCode : byte := x03.
Definition maxAccountPayload : N := 110.
Definition maxStoragePayload : N := 33.
Definition maxCodePayload : N := N.shiftl 128 20.
Definition ioChunkSize : N := N.shiftl 256 10.

(** [formatversion.RecordChainDomain]. *)
Definition RecordChainDomain : bytes :=
  bytes_of_string (String.append "metis-l2state-record-chain/v" (pretty.pretty Bundle)).

Record bundle_record := MkRecord {
  Type_ : byte;
  AccountHash : Hash;
  SubHash : Hash;
  Payload : bytes
}.

#[export] Instance bundle_record_eq_dec : EqDecision bundle_record.
Proof. solve_decision. Defined.

Record WriterResult := MkWriterResult {
  wr_Counts : Counts;
  wr_RecordPayloadBytes : N;
  wr_FileName : string;
  wr_Compression : string;
  wr_Size : Z;
  wr_SHA256 : Hash;
  wr_RecordChainHash : Hash;
  wr_content : bytes   (* the file the result describes *)
}.

Record Writer := MkWriter {
  w_stream : bytes;
  w_bufErr : option error;
  w_chain : Hash;
  w_hasher : bytes;
  w_counts : Counts;
  w_recordBytes : N;
  w_fileName : string;
  w_compression : string;
  w_closed : bool
}.

Definition zero_counts : Counts := MkCounts 0 0 0 0 0 0.

(** ** Record framing *)

Definition recordKeyLength (typ : byte) : result nat :=
  if bool_decide (typ = RecordAccount) || bool_decide (typ = RecordCode) then Ok HashLength
  else if bool_decide (typ = RecordStorage) then Ok (2 * HashLength)%nat
  else Err (EMsg "unknown record type").

Definition validatePayloadLength (typ : byte) (len : N) : result unit :=
  max ← (if bool_decide (typ = RecordAccount) then Ok maxAccountPayload
         else if bool_decide (typ = RecordStorage) then Ok maxStoragePayload
         else if bool_decide (typ = RecordCode) then Ok maxCodePayload
         else Err (EMsg "unknown record type"));
  _ ← reject_if (len =? 0) "record type has empty payload";
  reject_if (max <? len) "record type payload exceeds maximum".

(** The switch on the record type shared by the writer and consumers. *)
Definition count_type (typ : byte) (c : Counts) : Counts :=
  if bool_decide (typ = RecordAccount) then
    MkCounts (add64 (Accounts c) 1) (StorageSlots c) (CodeReferences c) (CodeRecords c) (Records c) (PayloadBytes c)
  else if bool_decide (typ = RecordStorage) then
    MkCounts (Accounts c) (add64 (StorageSlots c) 1) (CodeReferences c) (CodeRecords c) (Records c) (PayloadBytes c)
  else if bool_decide (typ = RecordCode) then
    MkCounts (Accounts c) (StorageSlots c) (CodeReferences c) (add64 (CodeRecords c) 1) (Records c) (PayloadBytes c)
  else c.

(** [Records++; PayloadBytes += n] followed by the switch. *)
Definition count_record (typ : byte) (n : N) (c : Counts) : Counts :=
  count_type typ
    (MkCounts (Accounts c) (StorageSlots c) (CodeReferences c) (CodeRecords c)
              (add64 (Records c) 1) (add64 (PayloadBytes c) n)).

Definition count_reference (c : Counts) : Counts :=
  MkCounts (Accounts c) (StorageSlots c) (add64 (CodeReferences c) 1) (CodeRecords c) (Records c) (PayloadBytes c).

(** ** Writer operations *)

Section Writer.
Context `{Keccak, Zstd}.

Definition initialChainHash (head : Head) (headerRLP : bytes) : Hash :=
  keccak256 (RecordChainDomain ++ put_uint64 (BlockNumber head) ++ hash_bytes (BlockHash head) ++
             hash_bytes (StateRoot head) ++ hash_bytes (keccak256 headerRLP)).

(** [recordChainHasher]: the Keccak state is the bytes absorbed so far. *)
Definition chain_Start (previous : Hash) (header : bytes) : bytes := hash_bytes previous ++ header.
Definition chain_Write (state payload : bytes) : bytes := state ++ payload.
Definition chain_SumInto (state : bytes) : Hash := keccak256 state.

Definition set_stream (stream : bytes) (err : option error) (w : Writer) : Writer :=
  MkWriter stream err (w_chain w) (w_hasher w) (w_counts w) (w_recordBytes w)
           (w_fileName w) (w_compression w) (w_closed w).
Definition set_chain (chain : Hash) (hasher : bytes) (w : Writer) : Writer :=
  MkWriter (w_stream w) (w_bufErr w) chain hasher (w_counts w) (w_recordBytes w)
           (w_fileName w) (w_compression w) (w_closed w).
Definition set_counts (c : Counts) (recordBytes : N) (w : Writer) : Writer :=
  MkWriter (w_stream w) (w_bufErr w) (w_chain w) (w_hasher w) c recordBytes
           (w_fileName w) (w_compression w) (w_closed w).
Definition set_closed (w : Writer) : Writer :=
  MkWriter (w_stream w) (w_bufErr w) (w_chain w) (w_hasher w) (w_counts w) (w_recordBytes w)
           (w_fileName w) (w_compression w) true.

(** A call on the [bufio.Writer] with the bytes it adds; the first error of
    the underlying writer is returned by every later call. *)
Definition buffer_Write (data : bytes) : M Writer unit :=
  err ← gets w_bufErr;
  match err with
  | Some e => fail e
  | None =>
      r ← attempt io;
      match r with
      | Ok _ => modify (λ w, set_stream (w_stream w ++ data) None w)
      | Err e => _ ← modify (λ w, set_stream (w_stream w) (Some e) w); fail e
      end
  end.
Definition buffer_Flush : M Writer unit := buffer_Write [].

Definition CountCodeReference : M Writer unit :=
  closed ← gets w_closed;
  _ ← lift (reject_if closed "state record writer is closed");
  modify (λ w, set_counts (count_reference (w_counts w)) (w_recordBytes w) w).

(** The payload loop of [writeRecord]; [fuel] bounds the iterations, each of
    which removes at least one byte. *)
Fixpoint write_chunks (fuel : nat) (payload : bytes) : M Writer unit :=
  match fuel, payload with
  | S fuel', _ :: _ =>
      _ ← poll;
      let chunk := take (N.to_nat ioChunkSize) payload in
      _ ← wrap "write record payload" (buffer_Write chunk);
      _ ← modify (λ w, set_chain (w_chain w) (chain_Write (w_hasher w) chunk) w);
      write_chunks fuel' (drop (N.to_nat ioChunkSize) payload)
  | _, _ => mret ()
  end.

Definition writeRecord (typ : byte) (key subkey payload : bytes) (consensusPayloadBytes : N) : M Writer unit :=
  closed ← gets w_closed;
  _ ← lift (reject_if closed "state record writer is closed");
  _ ← poll;
  _ ← lift (validatePayloadLength typ (blen payload));
  let keyLen := (length key + length subkey)%nat in
  expectedKeyLen ← lift (recordKeyLength typ);
  _ ← lift (reject_if (negb (keyLen =? expectedKeyLen)%nat) "record key has wrong length");
  let header := typ :: key ++ subkey ++ put_uint64 (blen payload) in
  _ ← wrap "write record header" (buffer_Write header);
  _ ← modify (λ w, set_chain (w_chain w) (chain_Start (w_chain w) header) w);
  _ ← write_chunks (length payload) payload;
  _ ← modify (λ w, set_chain (chain_SumInto (w_hasher w)) [] w);
  modify (λ w, set_counts (count_record typ consensusPayloadBytes (w_counts w))
                          (add64 (w_recordBytes w) (blen payload)) w).

Definition WriteAccount (accountHash : Hash) (accountRLP : bytes) (consensusPayloadBytes : N) : M Writer unit :=
  _ ← lift (reject_if (consensusPayloadBytes <? blen accountRLP)
              "slim account payload exceeds expanded consensus payload");
  writeRecord RecordAccount (hash_bytes accountHash) [] accountRLP consensusPayloadBytes.

Definition WriteStorage (accountHash slotHash : Hash) (valueRLP : bytes) : M Writer unit :=
  writeRecord RecordStorage (hash_bytes accountHash) (hash_bytes slotHash) valueRLP (blen valueRLP).

Definition WriteCode (codeHash : Hash) (code : bytes) : M Writer unit :=
  writeRecord RecordCode (hash_bytes codeHash) [] code (blen code).

(** The bytes of the file: the encoder sits between the buffer and the file
    when the stream is compressed. *)
Definition file_content (compression : string) (stream : bytes) : bytes :=
  if bool_decide (compression = CompressionZstd) then zstd_encode stream else stream.

Definition err_of {A} (msg : string) (r : result A) : option error :=
  match r with Ok _ => None | Err e => Some (EWrap msg e) end.

Definition Writer_Abort : M Writer unit :=
  closed ← gets w_closed;
  if (closed : bool) then mret () else
  _ ← modify set_closed;
  compression ← gets w_compression;
  e1 ← (if bool_decide (compression = CompressionZstd)
        then r ← attempt io; mret (err_of "close zstd stream" r) else mret None);
  r2 ← attempt io;
  match errors_join e1 (err_of "close state stream" r2) with
  | Some e => fail e
  | None => mret ()
  end.

Definition Writer_Close : M Writer WriterResult :=
  closed ← gets w_closed;
  if (closed : bool) then fail (EMsg "state record writer is already closed") else
  _ ← modify set_closed;
  r1 ← attempt (buffer_Write [recordEnd]);
  r2 ← attempt buffer_Flush;
  compression ← gets w_compression;
  e3 ← (if bool_decide (compression = CompressionZstd)
        then r ← attempt io; mret (err_of "close zstd stream" r) else mret None);
  r4 ← attempt io;
  r5 ← attempt io;
  r6 ← attempt io;
  let closeErr :=
    errors_join (errors_join (errors_join (errors_join (errors_join
      (err_of "write stream terminator" r1) (err_of "flush state stream" r2)) e3)
      (err_of "sync state stream" r4)) (err_of "stat state stream" r5))
      (err_of "close state stream" r6) in
  match closeErr with
  | Some e => fail e
  | None =>
      w ← get;
      let content := file_content (w_compression w) (w_stream w) in
      mret {| wr_Counts := w_counts w;
              wr_RecordPayloadBytes := w_recordBytes w;
              wr_FileName := w_fileName w;
              wr_Compression := w_compression w;
              wr_Size := Z.of_nat (length content);
              wr_SHA256 := sha256 content;
              wr_RecordChainHash := w_chain w;
              wr_content := content |}
  end.

(** [dir] lists the names already present in the output directory. *)
Definition NewWriter {St} (dir : list string) (compression : string) (head : Head) (headerRLP : bytes) : M St Writer :=
  fileName ← lift (if bool_decide (compression = CompressionZstd) then Ok RecordsFileZstd
                   else if bool_decide (compression = CompressionNone) then Ok RecordsFileRaw
                   else Err (EMsg "unsupported compression"));
  _ ← lift (if bool_decide (fileName ∈ dir) then Err (EWrap "create state records" EExist) else Ok ());
  _ ← wrap "create state records" io;
  _ ← (if bool_decide (compression = CompressionZstd) then
         r ← attempt io;
         match r with
         | Ok _ => mret ()
         | Err e =>
             c ← attempt io;
             match errors_join (Some (EWrap "create zstd writer" e))
                     (err_of "close state records after zstd setup failure" c) with
             | Some e' => fail e'
             | None => mret ()
             end
         end
       else mret ());
  let writer := MkWriter [] None (initialChainHash head headerRLP) [] zero_counts 0 fileName compression false in
  '(r, writer) ← run_on (buffer_Write streamMagic) writer;
  match r with
  | Ok _ => mret writer
  | Err e =>
      '(a, _) ← run_on Writer_Abort writer;
      match errors_join (Some (EWrap "write state stream header" e)) (err_of "abort state stream" a) with
      | Some e' => fail e'
      | None => fail e
      end
  end.

End Writer.

(** ** Specification of the stream *)

(** The key bytes a record carries. *)
Definition record_key (r : bundle_record) : bytes :=
  if bool_decide (Type_ r = RecordStorage) then hash_bytes (AccountHash r) ++ hash_bytes (SubHash r)
  else if bool_decide (Type_ r = RecordCode) then hash_bytes (SubHash r)
  else hash_bytes (AccountHash r).

Definition encode_header (r : bundle_record) : bytes :=
  Type_ r :: record_key r ++ put_uint64 (blen (Payload r)).
Definition encode_record (r : bundle_record) : bytes := encode_header r ++ Payload r.
Definition encode_records (rs : list bundle_record) : bytes := mjoin (map encode_record rs).
Definition encode_stream (rs : list bundle_record) : bytes :=
  streamMagic ++ encode_records rs ++ [recordEnd].

(** A record of one of the three kinds, with the unused hash zero and a
    payload within the bounds of its kind. *)
Definition record_wf (r : bundle_record) : Prop :=
  validatePayloadLength (Type_ r) (blen (Payload r)) = Ok () ∧
  (Type_ r = RecordAccount → SubHash r = zero_hash) ∧
  (Type_ r = RecordCode → AccountHash r = zero_hash).

Definition chain_step `{Keccak} (chain : Hash) (r : bundle_record) : Hash :=
  keccak256 (hash_bytes chain ++ encode_record r).
Definition chain_of `{Keccak} (init : Hash) (rs : list bundle_record) : Hash := foldl chain_step init rs.

(** Calls on a writer. *)
Inductive writer_op :=
| OpAccount (h : Hash) (rlp : bytes) (consensus : N)
| OpStorage (a s : Hash) (value : bytes)
| OpCode (h : Hash) (code : bytes)
| OpReference.

Definition run_op `{Keccak} (op : writer_op) : M Writer unit :=
  match op with
  | OpAccount h rlp n => WriteAccount h rlp n
  | OpStorage a s v => WriteStorage a s v
  | OpCode h c => WriteCode h c
  | OpReference => CountCodeReference
  end.

Definition op_records (op : writer_op) : list bundle_record :=
  match op with
  | OpAccount h rlp _ => [MkRecord RecordAccount h zero_hash rlp]
  | OpStorage a s v => [MkRecord RecordStorage a s v]
  | OpCode h c => [MkRecord RecordCode zero_hash h c]
  | OpReference => []
  end.

Definition op_counts (c : Counts) (op : writer_op) : Counts :=
  match op with
  | OpAccount _ _ n => count_record RecordAccount n c
  | OpStorage _ _ v => count_record RecordStorage (blen v) c
  | OpCode _ code => count_record RecordCode (blen code) c
  | OpReference => count_reference c
  end.

(** The call is one the writer accepts. *)
Definition op_ok (op : writer_op) : Prop :=
  Forall record_wf (op_records op) ∧
  match op with OpAccount _ rlp n => blen rlp ≤ n | _ => True end.

(** Payload bytes on the wire, as a 64-bit counter. *)
Definition wire_bytes (rs : list bundle_record) : N :=
  foldl (λ acc r, add64 acc (blen (Payload r))) 0 rs.

(** ** Writer lemmas *)

(** The writer after one record. *)
Definition after_record `{Keccak} (typ : byte) (header payload : bytes) (n : N) (w : Writer) : Writer :=
  MkWriter (w_stream w ++ header ++ payload) None
           (keccak256 (hash_bytes (w_chain w) ++ header ++ payload)) []
           (count_record typ n (w_counts w)) (add64 (w_recordBytes w) (blen payload))
           (w_fileName w) (w_compression w) (w_closed w).

Lemma chunk_pos : (0 < N.to_nat ioChunkSize)%nat.
Proof. assert (0 < ioChunkSize) by reflexivity. lia. Qed.

#[global] Opaque ioChunkSize.

Section WriterLemmas.
Context `{Keccak, Zstd}.
Implicit Types (w : Writer).

Lemma buffer_Write_ok data w wd u w' wd' :
  buffer_Write data w wd = (Ok u, w', wd') →
  w_bufErr w = None ∧ w' = set_stream (w_stream w ++ data) None w.
Proof.
  unfold buffer_Write. intros Hr. mstep Hr. minv.
  destruct (w_bufErr w) eqn:E; minv.
  by destruct x as [?|?]; minv.
Qed.

Lemma buffer_Write_calm data w :
  w_bufErr w = None →
  buffer_Write data w calm = (Ok (), set_stream (w_stream w ++ data) None w, calm).
Proof. intros E. unfold buffer_Write. mrun. by rewrite E. Qed.

Lemma write_chunks_ok fuel payload w wd u w' wd' :
  (length payload ≤ fuel)%nat → w_bufErr w = None →
  write_chunks fuel payload w wd = (Ok u, w', wd') →
  w' = set_chain (w_chain w) (w_hasher w ++ payload) (set_stream (w_stream w ++ payload) None w).
Proof.
  revert payload w wd. induction fuel as [|fuel IH]; intros [|b p] w wd Hl He Hr; try (simpl in Hl; lia).
  1,2: simpl in Hr; minv; rewrite !app_nil_r -He; by destruct w.
  cbn [write_chunks] in Hr. minv.
  match goal with Hb : buffer_Write _ _ _ = _ |- _ => apply buffer_Write_ok in Hb as [_ ->] end.
  apply IH in Hr as ->; [|rewrite length_drop; pose proof chunk_pos; cbn [length] in *; lia|done].
  cbn -[take drop ioChunkSize N.to_nat app]. unfold chain_Write.
  by rewrite -!app_assoc (take_drop (N.to_nat ioChunkSize) (b :: p)).
Qed.

Lemma write_chunks_calm fuel payload w :
  (length payload ≤ fuel)%nat → w_bufErr w = None →
  write_chunks fuel payload w calm =
  (Ok (), set_chain (w_chain w) (w_hasher w ++ payload) (set_stream (w_stream w ++ payload) None w), calm).
Proof.
  revert payload w. induction fuel as [|fuel IH]; intros [|b p] w Hl He; try (simpl in Hl; lia).
  1,2: simpl; unfold mret, M_ret; rewrite !app_nil_r -He; by destruct w.
  cbn [write_chunks]. erewrite bind_run; [|apply poll_calm].
  erewrite bind_run; cycle 1.
  { apply wrap_ok, buffer_Write_calm, He. }
  erewrite bind_run; [|reflexivity].
  rewrite IH; [|rewrite length_drop; pose proof chunk_pos; cbn [length] in *; lia|done].
  cbn -[take drop ioChunkSize N.to_nat app]. unfold chain_Write.
  by rewrite -!app_assoc (take_drop (N.to_nat ioChunkSize) (b :: p)).
Qed.

Lemma writeRecord_ok typ key sub payload n w wd u w' wd' :
  writeRecord typ key sub payload n w wd = (Ok u, w', wd') →
  w_closed w = false ∧ w_bufErr w = None ∧
  validatePayloadLength typ (blen payload) = Ok () ∧
  recordKeyLength typ = Ok (length key + length sub)%nat ∧
  w' = after_record typ (typ :: key ++ sub ++ put_uint64 (blen payload)) payload n w.
Proof.
  unfold writeRecord. intros Hr. minv.
  match goal with Hb : buffer_Write _ _ _ = _ |- _ => apply buffer_Write_ok in Hb as [He ->] end.
  match goal with Hc : write_chunks _ _ _ _ = _ |- _ => apply write_chunks_ok in Hc as -> end; [|done|done].
  match goal with Hn : negb _ = false |- _ => apply negb_false_iff, Nat.eqb_eq in Hn as <- end.
  repeat split; auto.
  unfold after_record, set_counts, set_chain, set_stream, chain_Start, chain_SumInto, count_record. simpl.
  by rewrite -!(app_assoc _ (typ :: _)).
Qed.

Lemma writeRecord_calm typ key sub payload n w :
  w_closed w = false → w_bufErr w = None →
  validatePayloadLength typ (blen payload) = Ok () →
  recordKeyLength typ = Ok (length key + length sub)%nat →
  writeRecord typ key sub payload n w calm =
  (Ok (), after_record typ (typ :: key ++ sub ++ put_uint64 (blen payload)) payload n w, calm).
Proof.
  intros Hc He Hv Hk. unfold writeRecord. mrun. rewrite Hc. mrun.
  rewrite Hv. mrun. rewrite Hk. mrun. rewrite Nat.eqb_refl. mrun.
  erewrite bind_run; [|apply wrap_ok, buffer_Write_calm, He].
  erewrite bind_run; [|reflexivity].
  erewrite bind_run; [|by apply write_chunks_calm].
  mrun. unfold modify, after_record, set_counts, set_chain, set_stream, chain_Start, chain_SumInto. simpl.
  by rewrite -!(app_assoc _ (typ :: _)).
Qed.

End WriterLemmas.

(** ** What a sequence of writer calls produces *)

(** An open writer that has accepted the records [rs]. *)
Definition writer_at `{Keccak} (init : Hash) (fileName compression : string)
    (rs : list bundle_record) (c : Counts) : Writer :=
  MkWriter (streamMagic ++ encode_records rs) None (chain_of init rs) [] c (wire_bytes rs)
           fileName compression false.

(** The result of closing it. *)
Definition result_at `{Keccak, Zstd} (init : Hash) (fileName compression : string)
    (rs : list bundle_record) (c : Counts) : WriterResult :=
  let content := file_content compression (encode_stream rs) in
  MkWriterResult c (wire_bytes rs) fileName compression (Z.of_nat (length content))
                 (sha256 content) (chain_of init rs) content.

(** The record file name that goes with a compression. *)
Definition file_name_of (compression : string) : result string :=
  if bool_decide (compression = CompressionZstd) then Ok RecordsFileZstd
  else if bool_decide (compression = CompressionNone) then Ok RecordsFileRaw
  else Err (EMsg "unsupported compression").

Section WriterRuns.
Context `{Keccak, Zstd}.

Lemma encode_records_snoc rs r : encode_records (rs ++ [r]) = encode_records rs ++ encode_record r.
Proof. unfold encode_records. by rewrite map_app join_app /= app_nil_r. Qed.

Lemma chain_of_snoc init rs r : chain_of init (rs ++ [r]) = chain_step (chain_of init rs) r.
Proof. unfold chain_of. by rewrite foldl_app. Qed.

Lemma wire_bytes_snoc rs r : wire_bytes (rs ++ [r]) = add64 (wire_bytes rs) (blen (Payload r)).
Proof. unfold wire_bytes. by rewrite foldl_app. Qed.

(** One record appended by [writeRecord]. *)
Lemma after_record_at init f cm rs c r n :
  after_record (Type_ r) (encode_header r) (Payload r) n (writer_at init f cm rs c) =
  writer_at init f cm (rs ++ [r]) (count_record (Type_ r) n c).
Proof.
  unfold after_record, writer_at. cbn [w_stream w_chain w_counts w_recordBytes w_fileName w_compression w_closed].
  by rewrite encode_records_snoc chain_of_snoc wire_bytes_snoc -app_assoc.
Qed.

Lemma run_op_ok op init f cm rs c wd u w' wd' :
  run_op op (writer_at init f cm rs c) wd = (Ok u, w', wd') →
  op_ok op ∧ w' = writer_at init f cm (rs ++ op_records op) (op_counts c op).
Proof.
  destruct op as [h rlp n|a s v|h code|]; cbn [run_op]; intros Hr;
    unfold WriteAccount, WriteStorage, WriteCode in Hr.
  - minv. rename H1 into Hle. apply N.ltb_ge in Hle.
    apply writeRecord_ok in Hr as (_ & _ & Hv & _ & ->). split.
    + split; [|done]. apply Forall_singleton. by repeat split.
    + by apply (after_record_at init f cm rs c (MkRecord RecordAccount h zero_hash rlp) n).
  - apply writeRecord_ok in Hr as (_ & _ & Hv & _ & ->). split.
    + split; [|done]. apply Forall_singleton. by repeat split.
    + rewrite -(after_record_at init f cm rs c (MkRecord RecordStorage a s v) (blen v)).
      f_equal. unfold encode_header, record_key. simpl. by rewrite -app_assoc.
  - apply writeRecord_ok in Hr as (_ & _ & Hv & _ & ->). split.
    + split; [|done]. apply Forall_singleton. by repeat split.
    + by apply (after_record_at init f cm rs c (MkRecord RecordCode zero_hash h code) (blen code)).
  - unfold CountCodeReference in Hr. minv. split; [by split|]. simpl. by rewrite app_nil_r.
Qed.

Lemma run_op_calm op init f cm rs c :
  op_ok op →
  run_op op (writer_at init f cm rs c) calm =
  (Ok (), writer_at init f cm (rs ++ op_records op) (op_counts c op), calm).
Proof.
  destruct op as [h rlp n|a s v|h code|]; cbn [run_op op_records]; intros [Hw Ho].
  4: { unfold CountCodeReference. mrun. by rewrite app_nil_r. }
  all: apply Forall_singleton in Hw as (Hv & _).
  - unfold WriteAccount. apply N.ltb_ge in Ho. rewrite Ho. mrun.
    rewrite writeRecord_calm //; [|by rewrite !length_hash_bytes].
    by rewrite -(after_record_at init f cm rs c (MkRecord RecordAccount h zero_hash rlp) n).
  - unfold WriteStorage. rewrite writeRecord_calm //; [|by rewrite !length_hash_bytes].
    rewrite -(after_record_at init f cm rs c (MkRecord RecordStorage a s v) (blen v)).
    do 3 f_equal. unfold encode_header, record_key. simpl. by rewrite -app_assoc.
  - unfold WriteCode. rewrite writeRecord_calm //; [|by rewrite !length_hash_bytes].
    by rewrite -(after_record_at init f cm rs c (MkRecord RecordCode zero_hash h code) (blen code)).
Qed.

Lemma run_ops_ok ops init f cm rs c wd u w' wd' :
  for_each ops run_op (writer_at init f cm rs c) wd = (Ok u, w', wd') →
  Forall op_ok ops ∧
  w' = writer_at init f cm (rs ++ (ops ≫= op_records)) (foldl op_counts c ops).
Proof.
  revert rs c wd. induction ops as [|op ops IH]; intros rs c wd Hr; cbn [for_each] in Hr.
  - minv. split; [done|]. simpl. by rewrite app_nil_r.
  - minv. match goal with Hb : run_op _ _ _ = _ |- _ => apply run_op_ok in Hb as [? ->] end.
    apply IH in Hr as [? ->]. split; [by constructor|]. simpl. by rewrite -app_assoc.
Qed.

Lemma run_ops_calm ops init f cm rs c :
  Forall op_ok ops →
  for_each ops run_op (writer_at init f cm rs c) calm =
  (Ok (), writer_at init f cm (rs ++ (ops ≫= op_records)) (foldl op_counts c ops), calm).
Proof.
  intros Hops. revert rs c. induction Hops as [|op ops Hop _ IH]; intros rs c; cbn [for_each].
  - simpl. by rewrite app_nil_r.
  - erewrite bind_run; [|by apply run_op_calm]. rewrite IH. simpl. by rewrite -app_assoc.
Qed.

Lemma NewWriter_ok {St} dir cm head hdr (s : St) wd w s' wd' :
  NewWriter dir cm head hdr s wd = (Ok w, s', wd') →
  ∃ f, file_name_of cm = Ok f ∧ w = writer_at (initialChainHash head hdr) f cm [] zero_counts.
Proof.
  unfold NewWriter. intros Hr. minv.
  match goal with Hf : (if _ then _ else _) = Ok ?f |- _ => exists f; split; [exact Hf|] end.
  match goal with p : result () * Writer |- _ => destruct p as [[] wr]; simpl in *; minv end.
  - match goal with Hb : buffer_Write _ _ _ = _ |- _ => apply buffer_Write_ok in Hb as [_ Hw] end.
    by subst wr.
  - match goal with p : result () * Writer |- _ => destruct p as [r' wr'] end.
    destruct r'; simpl in *; minv.
Qed.

Lemma NewWriter_state {St} dir cm head hdr (s : St) wd r s' wd' :
  NewWriter dir cm head hdr s wd = (r, s', wd') → s' = s.
Proof.
  intros Hr. symmetry. eapply (keeps_run (λ x, s = x)); [|exact Hr|done].
  unfold NewWriter. eauto 30 with l2.
Qed.

Lemma NewWriter_calm {St} dir cm head hdr f (s : St) :
  file_name_of cm = Ok f → f ∉ dir →
  NewWriter dir cm head hdr s calm =
  (Ok (writer_at (initialChainHash head hdr) f cm [] zero_counts), s, calm).
Proof.
  intros Hf Hn. unfold NewWriter. fold (file_name_of cm). rewrite Hf. mrun.
  rewrite (bool_decide_eq_false_2 (f ∈ dir)) //. mrun.
  destruct (bool_decide (cm = CompressionZstd)); reflexivity.
Qed.

Lemma errors_join_None a b : errors_join a b = None ↔ a = None ∧ b = None.
Proof. destruct a, b; naive_solver. Qed.

Lemma err_of_None {A} msg (r : result A) : err_of msg r = None ↔ ∃ a, r = Ok a.
Proof. destruct r; naive_solver. Qed.

Lemma Writer_Close_ok init f cm rs c wd res w' wd' :
  Writer_Close (writer_at init f cm rs c) wd = (Ok res, w', wd') →
  res = result_at init f cm rs c ∧ w_closed w' = true.
Proof.
  unfold Writer_Close. intros Hr. mstep Hr. minv. cbn [w_closed writer_at] in Hr.
  minv. destruct (errors_join _ _) eqn:E; minv.
  rewrite !errors_join_None !err_of_None in E.
  destruct E as (((((([] & ->) & ([] & ->)) & ->) & _) & _) & _).
  match goal with Hb : buffer_Write _ _ _ = _ |- _ => apply buffer_Write_ok in Hb as [_ ->] end.
  match goal with Hb : buffer_Flush _ _ = _ |- _ => apply buffer_Write_ok in Hb as [_ ->] end.
  repeat match goal with Hi : io _ _ = _ |- _ => apply io_state in Hi; subst end.
  match goal with Hz : (if ?b then _ else _) _ _ = (_, ?x, _) |- _ =>
    assert (x = set_stream (streamMagic ++ encode_records rs ++ [recordEnd]) None
                  (set_closed (writer_at init f cm rs c))) as -> end.
  { destruct (bool_decide _); minv; repeat match goal with Hi : io _ _ = _ |- _ => apply io_state in Hi; subst end;
      unfold set_stream; simpl; by rewrite app_nil_r. }
  done.
Qed.

Lemma Writer_Close_calm init f cm rs c :
  ∃ w', Writer_Close (writer_at init f cm rs c) calm = (Ok (result_at init f cm rs c), w', calm).
Proof.
  unfold Writer_Close. eexists. erewrite bind_run; [|reflexivity]. cbn [w_closed writer_at].
  erewrite bind_run; [|reflexivity].
  erewrite bind_run; [|by apply attempt_ok, buffer_Write_calm].
  erewrite bind_run; [|by apply attempt_ok, buffer_Write_calm].
  erewrite bind_run; [|reflexivity].
  erewrite (bind_run _ _ _ _ None); [|by destruct (bool_decide _)].
  do 3 (erewrite bind_run; [|apply attempt_ok, io_calm]). cbn [errors_join err_of].
  unfold result_at, encode_stream, mbind, M_bind, get, mret, M_ret, set_stream, set_closed. simpl.
  by rewrite app_nil_r.
Qed.

End WriterRuns.
