(* ===== verification/Scanner.v ===== *)
(** * Record streams: scanner ([internal/bundle/scanner.go])

    [recordScanner] decodes a record file and re-derives its integrity
    evidence. A [Reader] is the bytes a stream still has to deliver and the
    error it ends with ([None] is end of file). The file hash is kept as the
    bytes the tee has passed on; [s_raw] is what the decoder has not pulled
    yet. The canonical re-encoder writes to a hash and a counter, neither of
    which fails. *)

From S2P Require Import Prelude Sha256 Geth Manifest StrictIO Records.

(** ** Data *)

Record Reader := MkReader {
  r_data : bytes;
  r_end : option error
}.

Record WireCounts := MkWireCounts {
  wire_Accounts : N;
  wire_StorageSlots : N;
  wire_CodeRecords : N;
  wire_Records : N;
  wire_PayloadBytes : N
}.

Record ScanResult := MkScanResult {
  scan_Counts : WireCounts;
  scan_FileSHA256 : Hash;
  scan_RecordChainHash : Hash
}.

Record canonicalZstdWriter := MkCanonical {
  canon_data : bytes;
  canon_closed : bool
}.

Record recordScanner := MkScanner {
  s_manifest : Manifest;
  s_fileSize : Z;
  s_hashed : bytes;
  s_raw : Reader;
  s_reader : Reader;
  s_canonical : option canonicalZstdWriter;
  s_chain : Hash;
  s_hasher : bytes;
  s_counts : WireCounts;
  s_payloadCap : nat;
  s_borrow : bool;
  s_terminated : bool
}.

(** ** Readers *)

Definition end_error (r : Reader) : error := default EEOF (r_end r).

(** [ReadByte]. *)
Definition read_byte (r : Reader) : result (byte * Reader) :=
  match r_data r with
  | b :: rest => Ok (b, MkReader rest (r_end r))
  | [] => Err (end_error r)
  end.

(** [io.ReadFull] into a slice of length [n]. *)
Definition read_full (n : nat) (r : Reader) : result bytes * Reader :=
  if (n <=? length (r_data r))%nat then (Ok (take n (r_data r)), MkReader (drop n (r_data r)) (r_end r))
  else
    (Err (match r_end r, r_data r with
          | Some e, _ => e
          | None, [] => EEOF
          | None, _ :: _ => EUnexpectedEOF
          end), MkReader [] (r_end r)).

(** ** Operations *)

Section Canonical.
Context `{Zstd}.

Definition canonical_Write (data : bytes) (c : canonicalZstdWriter) : result canonicalZstdWriter :=
  if canon_closed c then Err (EMsg "canonical zstd writer is closed")
  else Ok (MkCanonical (canon_data c ++ data) false).

Definition canonical_WriteByte (value : byte) (c : canonicalZstdWriter) : result canonicalZstdWriter :=
  if canon_closed c then Err (EMsg "canonical zstd writer is closed")
  else Ok (MkCanonical (canon_data c ++ [value]) false).

Definition canonical_Close (c : canonicalZstdWriter) : result (Z * Hash * canonicalZstdWriter) :=
  if canon_closed c then Err (EMsg "canonical zstd writer is already closed")
  else
    let encoded := zstd_encode (canon_data c) in
    Ok (Z.of_nat (length encoded), sha256 encoded, MkCanonical (canon_data c) true).

End Canonical.

Section Scanner.
Context `{Keccak, HeaderRLP, Zstd}.

Definition set_reader (r : Reader) (s : recordScanner) : recordScanner :=
  MkScanner (s_manifest s) (s_fileSize s) (s_hashed s) (s_raw s) r (s_canonical s) (s_chain s)
            (s_hasher s) (s_counts s) (s_payloadCap s) (s_borrow s) (s_terminated s).
Definition set_canonical (c : option canonicalZstdWriter) (s : recordScanner) : recordScanner :=
  MkScanner (s_manifest s) (s_fileSize s) (s_hashed s) (s_raw s) (s_reader s) c (s_chain s)
            (s_hasher s) (s_counts s) (s_payloadCap s) (s_borrow s) (s_terminated s).
Definition set_schain (chain : Hash) (hasher : bytes) (s : recordScanner) : recordScanner :=
  MkScanner (s_manifest s) (s_fileSize s) (s_hashed s) (s_raw s) (s_reader s) (s_canonical s) chain
            hasher (s_counts s) (s_payloadCap s) (s_borrow s) (s_terminated s).
Definition set_scounts (c : WireCounts) (s : recordScanner) : recordScanner :=
  MkScanner (s_manifest s) (s_fileSize s) (s_hashed s) (s_raw s) (s_reader s) (s_canonical s) (s_chain s)
            (s_hasher s) c (s_payloadCap s) (s_borrow s) (s_terminated s).
Definition set_payloadCap (n : nat) (s : recordScanner) : recordScanner :=
  MkScanner (s_manifest s) (s_fileSize s) (s_hashed s) (s_raw s) (s_reader s) (s_canonical s) (s_chain s)
            (s_hasher s) (s_counts s) n (s_borrow s) (s_terminated s).
Definition set_raw (hashed : bytes) (raw : Reader) (s : recordScanner) : recordScanner :=
  MkScanner (s_manifest s) (s_fileSize s) hashed raw (s_reader s) (s_canonical s) (s_chain s)
            (s_hasher s) (s_counts s) (s_payloadCap s) (s_borrow s) (s_terminated s).
Definition set_terminated (s : recordScanner) : recordScanner :=
  MkScanner (s_manifest s) (s_fileSize s) (s_hashed s) (s_raw s) (s_reader s) (s_canonical s) (s_chain s)
            (s_hasher s) (s_counts s) (s_payloadCap s) (s_borrow s) true.

Definition scanner_ReadByte : M recordScanner byte :=
  r ← gets s_reader;
  '(b, r') ← lift (read_byte r);
  _ ← modify (set_reader r');
  mret b.

Definition scanner_ReadFull (n : nat) : M recordScanner bytes :=
  r ← gets s_reader;
  let (res, r') := read_full n r in
  _ ← modify (set_reader r');
  lift res.

(** [if s.canonical != nil { s.canonical.Write(data) }]. *)
Definition tee_canonical (data : bytes) : M recordScanner unit :=
  c ← gets s_canonical;
  match c with
  | None => mret ()
  | Some c => c' ← lift (canonical_Write data c); modify (set_canonical (Some c'))
  end.

(** [readFull]: chunked reads of [n] bytes in all. *)
Fixpoint readFull_loop (fuel n : nat) : M recordScanner bytes :=
  match fuel, n with
  | S fuel', S _ =>
      _ ← poll;
      let size := Nat.min (N.to_nat ioChunkSize) n in
      chunk ← scanner_ReadFull size;
      rest ← readFull_loop fuel' (n - size);
      mret (chunk ++ rest)
  | _, _ => mret []
  end.
Definition readFull (n : nat) : M recordScanner bytes := readFull_loop n n.

(** [readPayload]: the same, feeding the canonical writer and the chain. *)
Fixpoint readPayload_loop (fuel n : nat) : M recordScanner bytes :=
  match fuel, n with
  | S fuel', S _ =>
      _ ← poll;
      let size := Nat.min (N.to_nat ioChunkSize) n in
      chunk ← wrap "read record payload" (scanner_ReadFull size);
      _ ← tee_canonical chunk;
      _ ← modify (λ s, set_schain (s_chain s) (chain_Write (s_hasher s) chunk) s);
      rest ← readPayload_loop fuel' (n - size);
      mret (chunk ++ rest)
  | _, _ => mret []
  end.
Definition readPayload (n : nat) : M recordScanner bytes := readPayload_loop n n.

Definition readHeader (typ : byte) : M recordScanner bytes :=
  keyLen ← lift (recordKeyLength typ);
  rest ← wrap "read record header" (readFull (keyLen + 8));
  mret (typ :: rest).

(** The borrowed buffer grows to the largest payload seen. *)
Definition allocatePayload (len : nat) : M recordScanner unit :=
  s ← get;
  if s_borrow s && (s_payloadCap s <? len)%nat then modify (set_payloadCap len) else mret ().

Definition finishTerminator : M recordScanner unit :=
  c ← gets s_canonical;
  _ ← (match c with
       | None => mret ()
       | Some c => c' ← lift (canonical_WriteByte recordEnd c); modify (set_canonical (Some c'))
       end);
  r ← attempt scanner_ReadByte;
  match r with
  | Ok _ => fail (EMsg "trailing data after state stream terminator")
  | Err e =>
      if error_is EEOF e then modify set_terminated
      else fail (EWrap "finish state stream" e)
  end.

Definition wire_addCount (typ : byte) (len : N) (c : WireCounts) : WireCounts :=
  let c := MkWireCounts (wire_Accounts c) (wire_StorageSlots c) (wire_CodeRecords c)
                        (add64 (wire_Records c) 1) (add64 (wire_PayloadBytes c) len) in
  if bool_decide (typ = RecordAccount) then
    MkWireCounts (add64 (wire_Accounts c) 1) (wire_StorageSlots c) (wire_CodeRecords c) (wire_Records c) (wire_PayloadBytes c)
  else if bool_decide (typ = RecordStorage) then
    MkWireCounts (wire_Accounts c) (add64 (wire_StorageSlots c) 1) (wire_CodeRecords c) (wire_Records c) (wire_PayloadBytes c)
  else if bool_decide (typ = RecordCode) then
    MkWireCounts (wire_Accounts c) (wire_StorageSlots c) (add64 (wire_CodeRecords c) 1) (wire_Records c) (wire_PayloadBytes c)
  else c.

Definition recordFromHeader (typ : byte) (header payload : bytes) : bundle_record :=
  let key := take (length header - 8 - 1) (drop 1 header) in
  let account := BytesToHash (take HashLength key) in
  if bool_decide (typ = RecordStorage) then MkRecord typ account (BytesToHash (drop HashLength key)) payload
  else if bool_decide (typ = RecordCode) then MkRecord typ zero_hash account payload
  else MkRecord typ account zero_hash payload.

(** [None] is the [done] result. *)
Definition Next : M recordScanner (option bundle_record) :=
  terminated ← gets s_terminated;
  if (terminated : bool) then mret None else
  _ ← poll;
  typ ← wrap "read record type" scanner_ReadByte;
  if bool_decide (typ = recordEnd) then _ ← finishTerminator; mret None else
  header ← readHeader typ;
  let len := get_uint64 (drop (length header - 8) header) in
  _ ← lift (validatePayloadLength typ len);
  _ ← allocatePayload (N.to_nat len);
  _ ← tee_canonical header;
  _ ← modify (λ s, set_schain (s_chain s) (chain_Start (s_chain s) header) s);
  payload ← readPayload (N.to_nat len);
  _ ← modify (λ s, set_schain (chain_SumInto (s_hasher s)) [] s);
  _ ← modify (λ s, set_scounts (wire_addCount typ len (s_counts s)) s);
  mret (Some (recordFromHeader typ header payload)).

(** The expected layout of a bundle directory. *)
Definition bundle_layout (m : Manifest) : gmap string EntryKind :=
  {[ ManifestFileName := RegularFile; Name (mStateFile m) := RegularFile ]}.

(** The decoded stream of a record file. *)
Definition stream_of (m : Manifest) (node : dir_node) : Reader :=
  if bool_decide (Compression (mStateFile m) = CompressionZstd)
  then MkReader (zstd_decode (dn_content node)).1 (zstd_decode (dn_content node)).2
  else MkReader (dn_content node) (dn_read_err node).

(** The scanner literal of [openRecordScanner] and its readers: the tee over
    the file, the decoder when the file is compressed. *)
Definition initialScanner (manifest : Manifest) (node : dir_node) (borrow : bool) : recordScanner :=
  let file := dn_content node in
  let compressed := bool_decide (Compression (mStateFile manifest) = CompressionZstd) in
  let consumed := if compressed then (length file - zstd_unread file)%nat else length file in
  MkScanner manifest (fi_size (dn_info node)) (take consumed file)
            (MkReader (drop consumed file) (dn_read_err node)) (stream_of manifest node)
            (if compressed then Some (MkCanonical [] false) else None)
            zero_hash [] (MkWireCounts 0 0 0 0 0) 0 borrow false.

(** [before] and [opened] are the two observations of the bundle root. *)
Definition openRecordScanner {St} (before opened : result file_info) (dir : directory)
    (manifest : Manifest) (borrow : bool) : M St recordScanner :=
  _ ← wrap "validate record manifest" (lift (Manifest_Validate manifest));
  _ ← wrap "open bundle" (OpenRoot before opened);
  _ ← wrap "validate bundle layout" (lift (RequireExactLayout dir (bundle_layout manifest)));
  node ← wrap "open state records" (OpenRegular dir dir (Name (mStateFile manifest)));
  _ ← lift (reject_if (negb (fi_size (dn_info node) =? Size (mStateFile manifest))%Z) "state records size mismatch");
  let scanner := initialScanner manifest node borrow in
  '(r, scanner) ← run_on (readFull (length streamMagic)) scanner;
  magic ← lift (wrap_err "read state stream header" r);
  _ ← lift (reject_if (negb (bytes_equal magic streamMagic)) "invalid state stream magic");
  '(r, scanner) ← run_on (tee_canonical magic) scanner;
  _ ← lift r;
  mret (set_schain (initialChainHash (HeadBefore (Source manifest)) (HeaderRLP_ (Source manifest))) [] scanner).

(** [copyContext] to a destination that never fails; the copied bytes are
    returned. A [Read] of the model delivers as much as fits. *)
Fixpoint copy_loop (fuel : nat) (r : Reader) (acc : bytes) : M recordScanner bytes :=
  match fuel with
  | O => fail (EMsg "out of fuel")
  | S fuel' =>
      _ ← poll;
      match r_data r with
      | [] => match r_end r with None => mret acc | Some e => fail e end
      | _ => copy_loop fuel' (MkReader (drop (N.to_nat ioChunkSize) (r_data r)) (r_end r))
                       (acc ++ take (N.to_nat ioChunkSize) (r_data r))
      end
  end.
Definition copyContext (r : Reader) : M recordScanner bytes :=
  _ ← poll;
  match r_data r with
  | [] => match r_end r with None => mret [] | Some e => fail e end
  | b :: rest => copy_loop (S (length rest)) (MkReader rest (r_end r)) [b]
  end.

Definition finishCanonical (fileHash : Hash) : M recordScanner unit :=
  s ← get;
  match s_canonical s with
  | None => mret ()
  | Some c =>
      '(size, hash, c') ← lift (canonical_Close c);
      _ ← modify (set_canonical (Some c'));
      lift (reject_if (negb (size =? s_fileSize s)%Z || negb (bool_decide (hash = fileHash)))
              "zstd state records do not use the canonical single-frame encoding")
  end.

Definition verifyCounts (s : recordScanner) : result unit :=
  let want := mCounts (s_manifest s) in
  let have := s_counts s in
  _ ← reject_if (negb (wire_Accounts have =? Accounts want) || negb (wire_StorageSlots have =? StorageSlots want) ||
                 negb (wire_CodeRecords have =? CodeRecords want) || negb (wire_Records have =? Records want))
        "record counts mismatch";
  reject_if (negb (wire_PayloadBytes have =? RecordPayloadBytes (mStateFile (s_manifest s))))
    "record payload bytes mismatch".

(** [dir] is the directory as it is when the scan ends. *)
Definition Finish (dir : directory) : M recordScanner ScanResult :=
  terminated ← gets s_terminated;
  _ ← lift (reject_if (negb terminated) "state stream terminator was not consumed");
  raw ← gets s_raw;
  copied ← wrap "finish hashing state records" (copyContext raw);
  _ ← modify (λ s, set_raw (s_hashed s ++ copied) (MkReader [] None) s);
  hashed ← gets s_hashed;
  let fileHash := sha256 hashed in
  _ ← finishCanonical fileHash;
  s ← get;
  _ ← lift (verifyCounts s);
  _ ← wrap "re-check bundle layout" (lift (RequireExactLayout dir (bundle_layout (s_manifest s))));
  let result := MkScanResult (s_counts s) fileHash (s_chain s) in
  _ ← lift (reject_if (negb (bool_decide (scan_FileSHA256 result = SHA256 (mStateFile (s_manifest s)))))
              "state records SHA-256 mismatch");
  _ ← lift (reject_if (negb (bool_decide (scan_RecordChainHash result = RecordChainHash (mStateFile (s_manifest s)))))
              "record chain hash mismatch");
  mret result.

(** [Close]: the canonical writer is aborted, the file and the root closed. *)
Definition scanner_Close : M recordScanner unit :=
  _ ← modify (set_canonical None);
  r1 ← attempt io;
  r2 ← attempt io;
  match errors_join (err_of "close state records" r1) (err_of "close input root" r2) with
  | Some e => fail e
  | None => mret ()
  end.

(** The record loop of [scanRecords]; [consume] runs on the consumer's own
    state [C]. One iteration consumes at least one byte of the stream. *)
Fixpoint scan_loop {C} (fuel : nat) (consume : bundle_record → M C unit) : M (recordScanner * C) unit :=
  match fuel with
  | O => fail (EMsg "out of fuel")
  | S fuel' =>
      record ← zoom fst (λ s p, (s, p.2)) Next;
      match record with
      | None => mret ()
      | Some r =>
          _ ← wrap "consume record" (zoom snd (λ c p, (p.1, c)) (consume r));
          scan_loop fuel' consume
      end
  end.

(** [dir] and [dir'] are the bundle directory at the start and at the end. *)
Definition scanRecords {C} (before opened : result file_info) (dir dir' : directory) (manifest : Manifest)
    (consume : bundle_record → M C unit) (borrow : bool) : M C ScanResult :=
  scanner ← openRecordScanner before opened dir manifest borrow;
  c ← get;
  '(r, (scanner, c)) ←
    run_on (_ ← scan_loop (S (length (r_data (s_reader scanner)))) consume;
            zoom fst (λ s p, (s, p.2)) (Finish dir'))
           (scanner, c);
  _ ← modify (λ _, c);
  '(rc, _) ← run_on scanner_Close scanner;
  match r, rc with
  | Ok res, Ok _ => mret res
  | Ok _, Err e => fail e
  | Err e, Ok _ => fail e
  | Err e, Err e' => fail (EJoin e e')
  end.

Definition ScanRecords {C} (before opened : result file_info) (dir dir' : directory) (manifest : Manifest)
    (consume : bundle_record → M C unit) : M C ScanResult :=
  scanRecords before opened dir dir' manifest consume false.
Definition ScanRecordsBorrowed {C} (before opened : result file_info) (dir dir' : directory) (manifest : Manifest)
    (consume : bundle_record → M C unit) : M C ScanResult :=
  scanRecords before opened dir dir' manifest consume true.

End Scanner.

(** ** What the scanner does with a stream *)

(** The canonical writer after more data. *)
Definition canon_append (data : bytes) (c : option canonicalZstdWriter) : option canonicalZstdWriter :=
  (λ c, MkCanonical (canon_data c ++ data) (canon_closed c)) <$> c.

#[global] Arguments canon_append : simpl never.

Definition canon_open (c : option canonicalZstdWriter) : Prop :=
  match c with Some c => canon_closed c = false | None => True end.

(** The scanner after reading one record, with [rest] left to read. *)
Definition scanner_after `{Keccak} (r : bundle_record) (rest : bytes) (s : recordScanner) : recordScanner :=
  let len := length (Payload r) in
  MkScanner (s_manifest s) (s_fileSize s) (s_hashed s) (s_raw s)
            (MkReader rest (r_end (s_reader s)))
            (canon_append (encode_record r) (s_canonical s))
            (chain_step (s_chain s) r) []
            (wire_addCount (Type_ r) (blen (Payload r)) (s_counts s))
            (if s_borrow s && (s_payloadCap s <? len)%nat then len else s_payloadCap s)
            (s_borrow s) (s_terminated s).

Definition scanner_terminated (s : recordScanner) : recordScanner :=
  set_terminated (set_canonical (canon_append [recordEnd] (s_canonical s))
                                (set_reader (MkReader [] (r_end (s_reader s))) s)).

Section ScannerLemmas.
Context `{Keccak, HeaderRLP, Zstd}.
Implicit Types (s : recordScanner).

Lemma scanner_ReadFull_ok n s w bs s' w' :
  scanner_ReadFull n s w = (Ok bs, s', w') →
  (n ≤ length (r_data (s_reader s)))%nat ∧ bs = take n (r_data (s_reader s)) ∧
  s' = set_reader (MkReader (drop n (r_data (s_reader s))) (r_end (s_reader s))) s.
Proof.
  unfold scanner_ReadFull. intros Hr. mstep Hr. minv. unfold read_full in Hr.
  destruct (Nat.leb_spec n (length (r_data (s_reader s)))); minv; done.
Qed.

Lemma scanner_ReadFull_calm n s :
  (n ≤ length (r_data (s_reader s)))%nat →
  scanner_ReadFull n s calm =
  (Ok (take n (r_data (s_reader s))),
   set_reader (MkReader (drop n (r_data (s_reader s))) (r_end (s_reader s))) s, calm).
Proof.
  intros Hn. unfold scanner_ReadFull. erewrite bind_run; [|reflexivity].
  unfold read_full. apply Nat.leb_le in Hn. by rewrite Hn.
Qed.

Lemma readFull_loop_ok fuel n s w bs s' w' :
  (n ≤ fuel)%nat → readFull_loop fuel n s w = (Ok bs, s', w') →
  (n ≤ length (r_data (s_reader s)))%nat ∧ bs = take n (r_data (s_reader s)) ∧
  s' = set_reader (MkReader (drop n (r_data (s_reader s))) (r_end (s_reader s))) s.
Proof.
  revert n s w bs. induction fuel as [|fuel IH]; intros [|n] s w bs Hn Hr; try lia.
  1,2: simpl in Hr; minv; split; [lia|]; rewrite take_0 drop_0; by destruct s as [????[]].
  cbn [readFull_loop] in Hr. minv.
  match goal with Hc : scanner_ReadFull _ _ _ = _ |- _ => apply scanner_ReadFull_ok in Hc as (? & -> & ->) end.
  match goal with Hc : readFull_loop _ _ _ _ = _ |- _ => apply IH in Hc as (Hl & -> & ->) end;
    [|pose proof chunk_pos; lia].
  set (size := Nat.min (N.to_nat ioChunkSize) (S n)) in *.
  cbn [s_reader set_reader r_data r_end] in *. rewrite length_drop in Hl.
  split; [lia|]. split.
  - rewrite take_take_drop. by replace (size + (S n - size))%nat with (S n) by lia.
  - unfold set_reader. cbn -[drop]. rewrite drop_drop.
    by replace (size + (S n - size))%nat with (S n) by lia.
Qed.

Lemma readFull_loop_calm fuel n s :
  (n ≤ fuel)%nat → (n ≤ length (r_data (s_reader s)))%nat →
  readFull_loop fuel n s calm =
  (Ok (take n (r_data (s_reader s))),
   set_reader (MkReader (drop n (r_data (s_reader s))) (r_end (s_reader s))) s, calm).
Proof.
  revert n s. induction fuel as [|fuel IH]; intros [|n] s Hn Hl; try lia.
  1,2: simpl; unfold mret, M_ret; rewrite drop_0; by destruct s as [????[]].
  cbn [readFull_loop]. erewrite bind_run; [|apply poll_calm].
  pose proof chunk_pos as Hc.
  erewrite bind_run; [|apply scanner_ReadFull_calm; lia].
  set (size := Nat.min (N.to_nat ioChunkSize) (S n)).
  erewrite bind_run; [|apply IH; cbn [s_reader set_reader r_data]; rewrite ?length_drop; lia].
  cbn [s_reader set_reader r_data r_end]. unfold mret, M_ret.
  rewrite take_take_drop. unfold set_reader. cbn -[take drop]. rewrite drop_drop.
  by replace (size + (S n - size))%nat with (S n) by lia.
Qed.

Lemma tee_canonical_ok data s w u s' w' :
  tee_canonical data s w = (Ok u, s', w') →
  canon_open (s_canonical s) ∧ s' = set_canonical (canon_append data (s_canonical s)) s.
Proof.
  unfold tee_canonical. intros Hr. mstep Hr. minv.
  destruct (s_canonical s) as [c|] eqn:E; minv; [|by destruct s; simplify_eq/=].
  unfold canonical_Write in *. destruct (canon_closed c) eqn:Ec; minv.
  split; [done|]. by rewrite /canon_append /= Ec.
Qed.

Lemma tee_canonical_calm data s :
  canon_open (s_canonical s) →
  tee_canonical data s calm = (Ok (), set_canonical (canon_append data (s_canonical s)) s, calm).
Proof.
  intros Ho. unfold tee_canonical. mrun. destruct (s_canonical s) as [c|] eqn:E.
  - simpl in Ho. unfold canonical_Write. rewrite Ho. mrun. by rewrite /canon_append /= Ho.
  - by destruct s; simplify_eq/=.
Qed.

(** The scanner after [n] payload bytes. *)
Definition payload_read (n : nat) s : recordScanner :=
  let p := take n (r_data (s_reader s)) in
  set_schain (s_chain s) (s_hasher s ++ p)
    (set_canonical (canon_append p (s_canonical s))
      (set_reader (MkReader (drop n (r_data (s_reader s))) (r_end (s_reader s))) s)).

Lemma canon_append_nil c : canon_append [] c = c.
Proof. destruct c as [[d b]|]; [|done]. by rewrite /canon_append /= app_nil_r. Qed.

Lemma canon_append_app p q c : canon_append q (canon_append p c) = canon_append (p ++ q) c.
Proof. destruct c as [[d b]|]; [|done]. by rewrite /canon_append /= app_assoc. Qed.

Lemma canon_open_append p c : canon_open c → canon_open (canon_append p c).
Proof. by destruct c. Qed.

Lemma payload_read_0 s : payload_read 0 s = s.
Proof.
  unfold payload_read. rewrite take_0 drop_0 canon_append_nil app_nil_r. by destruct s as [????[]].
Qed.

Lemma payload_read_step a b s :
  payload_read b (payload_read a s) = payload_read (a + b) s.
Proof.
  unfold payload_read. cbn -[take drop app]. rewrite canon_append_app -app_assoc take_take_drop drop_drop.
  done.
Qed.

Lemma readPayload_loop_ok fuel n s w bs s' w' :
  (n ≤ fuel)%nat → readPayload_loop fuel n s w = (Ok bs, s', w') →
  (n ≤ length (r_data (s_reader s)))%nat ∧ bs = take n (r_data (s_reader s)) ∧ s' = payload_read n s.
Proof.
  revert n s w bs. induction fuel as [|fuel IH]; intros [|n] s w bs Hn Hr; try lia.
  1,2: simpl in Hr; minv; rewrite payload_read_0 take_0; auto with lia.
  cbn [readPayload_loop] in Hr. minv.
  match goal with Hc : scanner_ReadFull _ _ _ = _ |- _ => apply scanner_ReadFull_ok in Hc as (? & -> & ->) end.
  match goal with Hc : tee_canonical _ _ _ = _ |- _ => apply tee_canonical_ok in Hc as (_ & ->) end.
  match goal with Hc : readPayload_loop _ _ _ _ = _ |- _ => apply IH in Hc as (Hl & -> & ->) end;
    [|pose proof chunk_pos; lia].
  set (size := Nat.min (N.to_nat ioChunkSize) (S n)) in *.
  change (set_schain _ _ _) with (payload_read size s) in *.
  cbn [payload_read s_reader set_reader set_schain set_canonical r_data r_end] in Hl. rewrite length_drop in Hl.
  split; [lia|]. split.
  - cbn -[take drop app]. rewrite take_take_drop. by replace (size + (S n - size))%nat with (S n) by lia.
  - rewrite payload_read_step. by replace (size + (S n - size))%nat with (S n) by lia.
Qed.

Lemma readPayload_loop_calm fuel n s :
  (n ≤ fuel)%nat → (n ≤ length (r_data (s_reader s)))%nat → canon_open (s_canonical s) →
  readPayload_loop fuel n s calm = (Ok (take n (r_data (s_reader s))), payload_read n s, calm).
Proof.
  revert n s. induction fuel as [|fuel IH]; intros [|n] s Hn Hl Ho; try lia.
  1,2: simpl; unfold mret, M_ret; by rewrite payload_read_0.
  cbn [readPayload_loop]. erewrite bind_run; [|apply poll_calm].
  pose proof chunk_pos as Hc.
  erewrite bind_run; [|apply wrap_ok, scanner_ReadFull_calm; lia].
  set (size := Nat.min (N.to_nat ioChunkSize) (S n)).
  erewrite bind_run; [|by apply tee_canonical_calm].
  erewrite bind_run; [|reflexivity].
  change (set_schain _ _ _) with (payload_read size s).
  erewrite bind_run; [|apply IH].
  - unfold mret, M_ret. rewrite payload_read_step. cbn -[take drop app].
    rewrite take_take_drop. by replace (size + (S n - size))%nat with (S n) by lia.
  - lia.
  - cbn -[take drop app]. rewrite length_drop. lia.
  - by apply canon_open_append.
Qed.

End ScannerLemmas.

(** ** Framing: headers and records determine each other *)

Section Framing.

Lemma validatePayloadLength_ok typ len u :
  validatePayloadLength typ len = Ok u →
  (typ = RecordAccount ∨ typ = RecordStorage ∨ typ = RecordCode) ∧ 0 < len ∧ len < two64.
Proof.
  unfold validatePayloadLength. intros H. minv. apply N.eqb_neq in H1. apply N.ltb_ge in H.
  repeat case_bool_decide; simplify_eq; (split; [tauto|]); unfold maxAccountPayload, maxStoragePayload in H.
  all: split; [lia|]; eapply N.le_lt_trans; [exact H|reflexivity].
Qed.

Lemma recordKeyLength_wf r : record_wf r → recordKeyLength (Type_ r) = Ok (length (record_key r)).
Proof.
  intros [Hv _]. apply validatePayloadLength_ok in Hv as [Ht _].
  unfold recordKeyLength, record_key.
  destruct Ht as [->|[->| ->]]; simpl; by rewrite ?length_app !length_hash_bytes.
Qed.

Lemma drop_length_app (l k : bytes) n : n = length l → drop n (l ++ k) = k.
Proof. intros ->. by rewrite drop_app_length. Qed.

Lemma take_length_app (l k : bytes) n : n = length l → take n (l ++ k) = l.
Proof. intros ->. by rewrite take_app_length. Qed.

Lemma header_length_field r :
  record_wf r →
  get_uint64 (drop (length (encode_header r) - 8) (encode_header r)) = blen (Payload r).
Proof.
  intros [Hv _]. apply validatePayloadLength_ok in Hv as (_ & _ & Hl).
  unfold encode_header. rewrite app_comm_cons.
  rewrite drop_length_app; [by apply get_put_uint64|].
  rewrite length_app length_put_uint64. lia.
Qed.

Lemma header_key (typ : byte) (key field : bytes) :
  length field = 8%nat →
  take (length (typ :: key ++ field) - 8 - 1) (drop 1 (typ :: key ++ field)) = key.
Proof. intros H. cbn [drop]. apply take_length_app. simpl. rewrite length_app H. lia. Qed.

Lemma record_key_account a s p : record_key (MkRecord RecordAccount a s p) = hash_bytes a.
Proof. reflexivity. Qed.
Lemma record_key_storage a s p : record_key (MkRecord RecordStorage a s p) = hash_bytes a ++ hash_bytes s.
Proof. reflexivity. Qed.
Lemma record_key_code a s p : record_key (MkRecord RecordCode a s p) = hash_bytes s.
Proof. reflexivity. Qed.

Lemma recordFromHeader_account key field p :
  length field = 8%nat →
  recordFromHeader RecordAccount (RecordAccount :: key ++ field) p =
  MkRecord RecordAccount (BytesToHash (take HashLength key)) zero_hash p.
Proof. intros Hf. unfold recordFromHeader. by rewrite header_key. Qed.
Lemma recordFromHeader_storage key field p :
  length field = 8%nat →
  recordFromHeader RecordStorage (RecordStorage :: key ++ field) p =
  MkRecord RecordStorage (BytesToHash (take HashLength key)) (BytesToHash (drop HashLength key)) p.
Proof. intros Hf. unfold recordFromHeader. by rewrite header_key. Qed.
Lemma recordFromHeader_code key field p :
  length field = 8%nat →
  recordFromHeader RecordCode (RecordCode :: key ++ field) p =
  MkRecord RecordCode zero_hash (BytesToHash (take HashLength key)) p.
Proof. intros Hf. unfold recordFromHeader. by rewrite header_key. Qed.

Lemma recordFromHeader_encode r :
  record_wf r → recordFromHeader (Type_ r) (encode_header r) (Payload r) = r.
Proof.
  intros (Hv & Ha & Hc). apply validatePayloadLength_ok in Hv as (Ht & _).
  unfold encode_header. destruct r as [typ a s p]; cbn [Type_ AccountHash SubHash Payload] in *.
  pose proof (length_put_uint64 (blen p)) as Hf.
  destruct Ht as [->|[->| ->]].
  - rewrite record_key_account recordFromHeader_account //.
    rewrite take_ge ?length_hash_bytes // BytesToHash_hash. by rewrite Ha.
  - rewrite record_key_storage recordFromHeader_storage //.
    rewrite take_length_app ?length_hash_bytes // drop_length_app ?length_hash_bytes //.
    by rewrite !BytesToHash_hash.
  - rewrite record_key_code recordFromHeader_code //.
    rewrite take_ge ?length_hash_bytes // BytesToHash_hash. by rewrite Hc.
Qed.

(** A header read from a stream is the header of the record it is turned into. *)
Lemma recordFromHeader_wf typ rest payload keyLen :
  recordKeyLength typ = Ok keyLen → length rest = (keyLen + 8)%nat →
  validatePayloadLength typ (get_uint64 (drop (length (typ :: rest) - 8) (typ :: rest))) = Ok () →
  N.of_nat (length payload) = get_uint64 (drop (length (typ :: rest) - 8) (typ :: rest)) →
  let r := recordFromHeader typ (typ :: rest) payload in
  record_wf r ∧ encode_header r = typ :: rest ∧ Payload r = payload ∧ Type_ r = typ.
Proof.
  intros Hk Hl Hv Hp. cbv zeta.
  assert (∃ key field, rest = key ++ field ∧ length key = keyLen ∧ length field = 8%nat) as (key & field & -> & Hkl & Hfl).
  { exists (take keyLen rest), (drop keyLen rest). rewrite take_drop length_take length_drop. repeat split; lia. }
  replace (length (typ :: key ++ field) - 8)%nat with (S (length key)) in Hv, Hp
    by (simpl; rewrite length_app; lia).
  cbn [drop] in Hv, Hp. rewrite drop_app_length in Hv, Hp.
  assert (Hfield : put_uint64 (blen payload) = field).
  { unfold blen. rewrite Hp. by apply put_get_uint64. }
  rewrite -Hp in Hv. unfold record_wf, encode_header.
  destruct (validatePayloadLength_ok _ _ _ Hv) as [[->|[->| ->]] _]; injection Hk as Hk.
  - rewrite recordFromHeader_account //. cbn [Type_ AccountHash SubHash Payload].
    rewrite record_key_account Hfield take_ge; [|lia]. rewrite BytesToHash_exact; [done|congruence].
  - rewrite recordFromHeader_storage //. cbn [Type_ AccountHash SubHash Payload].
    rewrite record_key_storage Hfield !BytesToHash_exact ?length_take ?length_drop; [|lia..].
    by rewrite take_drop.
  - rewrite recordFromHeader_code //. cbn [Type_ AccountHash SubHash Payload].
    rewrite record_key_code Hfield take_ge; [|lia]. rewrite BytesToHash_exact; [done|congruence].
Qed.

End Framing.

(** ** One step of the scanner *)

Section Steps.
Context `{Keccak, HeaderRLP, Zstd}.
Implicit Types (s : recordScanner).

Lemma set_reader_idem r1 r2 s : set_reader r2 (set_reader r1 s) = set_reader r2 s.
Proof. done. Qed.

Lemma readHeader_calm r tl s :
  record_wf r → r_data (s_reader s) = (record_key r ++ put_uint64 (blen (Payload r))) ++ tl →
  readHeader (Type_ r) s calm =
  (Ok (encode_header r), set_reader (MkReader tl (r_end (s_reader s))) s, calm).
Proof.
  intros Hr Hd. unfold readHeader. rewrite recordKeyLength_wf //. erewrite bind_run; [|reflexivity].
  set (key := record_key r ++ put_uint64 (blen (Payload r))) in *.
  assert (Hl : (length (record_key r) + 8)%nat = length key).
  { unfold key. by rewrite (length_app (record_key r)) length_put_uint64. }
  rewrite Hl. erewrite bind_run; [|apply wrap_ok, readFull_loop_calm; [done|]]; cycle 1.
  { rewrite Hd length_app. lia. }
  rewrite Hd take_app_length drop_app_length. done.
Qed.

Lemma type_not_end r : record_wf r → Type_ r ≠ recordEnd.
Proof.
  intros [Hv _] E. apply validatePayloadLength_ok in Hv as [Hty _]. rewrite E in Hty.
  by destruct Hty as [?|[?|?]].
Qed.

Lemma allocatePayload_ok n s w u s' w' :
  allocatePayload n s w = (Ok u, s', w') →
  s' = set_payloadCap (if s_borrow s && (s_payloadCap s <? n)%nat then n else s_payloadCap s) s.
Proof.
  unfold allocatePayload. intros Hr. mstep Hr. minv.
  destruct (_ && _); minv; [done|]. by destruct s.
Qed.

Lemma allocatePayload_calm n s :
  allocatePayload n s calm =
  (Ok (), set_payloadCap (if s_borrow s && (s_payloadCap s <? n)%nat then n else s_payloadCap s) s, calm).
Proof.
  unfold allocatePayload. erewrite bind_run; [|reflexivity]. destruct (_ && _); [done|]. by destruct s.
Qed.

Lemma readPayload_calm p rest s :
  r_data (s_reader s) = p ++ rest → canon_open (s_canonical s) →
  readPayload (length p) s calm =
  (Ok p, set_schain (s_chain s) (s_hasher s ++ p)
           (set_canonical (canon_append p (s_canonical s))
             (set_reader (MkReader rest (r_end (s_reader s))) s)), calm).
Proof.
  intros Hd Ho. unfold readPayload. rewrite readPayload_loop_calm //.
  - unfold payload_read. by rewrite Hd take_app_length drop_app_length.
  - rewrite Hd length_app. lia.
Qed.

(** A record at the front of the stream is delivered as it is, and the
    canonical writer, the chain and the counters have absorbed it. *)
Lemma Next_record_calm r rest s :
  record_wf r → s_terminated s = false → canon_open (s_canonical s) →
  r_data (s_reader s) = encode_record r ++ rest →
  Next s calm = (Ok (Some r), scanner_after r rest s, calm).
Proof.
  intros Hr Ht Ho Hd. pose proof (type_not_end _ Hr).
  unfold Next. erewrite bind_run; [|reflexivity]. rewrite Ht.
  erewrite bind_run; [|apply poll_calm].
  unfold encode_record, encode_header in Hd. rewrite -!app_assoc -app_comm_cons -!app_assoc in Hd.
  erewrite (bind_run _ _ _ _ (Type_ r)); cycle 1.
  { apply wrap_ok. unfold scanner_ReadByte. erewrite bind_run; [|reflexivity].
    unfold read_byte. rewrite Hd. reflexivity. }
  rewrite bool_decide_eq_false_2 //.
  erewrite bind_run; [|apply (readHeader_calm r (Payload r ++ rest)); [done|by rewrite -app_assoc]].
  rewrite set_reader_idem header_length_field //.
  replace (N.to_nat (blen (Payload r))) with (length (Payload r)) by (unfold blen; lia).
  erewrite bind_run; [|apply lift_ok; split; [apply Hr|done]].
  erewrite bind_run; [|apply allocatePayload_calm].
  erewrite bind_run; [|by apply tee_canonical_calm].
  erewrite bind_run; [|reflexivity].
  erewrite bind_run; [|apply (readPayload_calm (Payload r) rest); [done|by apply canon_open_append]].
  unfold mbind, M_bind, modify, mret, M_ret. rewrite recordFromHeader_encode //.
  unfold scanner_after, chain_step, encode_record. rewrite -canon_append_app (app_assoc (hash_bytes (s_chain s))).
  reflexivity.
Qed.

Lemma readHeader_ok typ s w h s' w' :
  readHeader typ s w = (Ok h, s', w') →
  ∃ keyLen rest tl, recordKeyLength typ = Ok keyLen ∧ length rest = (keyLen + 8)%nat ∧
    h = typ :: rest ∧ r_data (s_reader s) = rest ++ tl ∧
    s' = set_reader (MkReader tl (r_end (s_reader s))) s.
Proof.
  unfold readHeader. intros Hr. minv.
  match goal with Hk : recordKeyLength _ = Ok ?n, Hf : readFull _ _ _ = _ |- _ =>
    apply readFull_loop_ok in Hf as (Hl & -> & ->); [|done]; exists n end.
  eexists _, _. split; [done|]. split; [|split; [reflexivity|split; [|reflexivity]]].
  - rewrite length_take. lia.
  - by rewrite take_drop.
Qed.

Lemma scanner_ReadByte_ok s w b s' w' :
  scanner_ReadByte s w = (Ok b, s', w') →
  ∃ rest, r_data (s_reader s) = b :: rest ∧ s' = set_reader (MkReader rest (r_end (s_reader s))) s.
Proof.
  unfold scanner_ReadByte, read_byte. intros Hr. mstep Hr. minv.
  destruct (r_data (s_reader s)) as [|c rest] eqn:E; minv. eauto.
Qed.

Lemma finishTerminator_ok s w u s' w' :
  finishTerminator s w = (Ok u, s', w') →
  r_data (s_reader s) = [] ∧ error_is EEOF (end_error (s_reader s)) = true ∧
  s' = set_terminated (set_canonical (canon_append [recordEnd] (s_canonical s)) s).
Proof.
  unfold finishTerminator. intros Hr. mstep Hr. minv.
  match goal with Hb : scanner_ReadByte ?x _ = _ |- _ => rename x into s1;
    unfold scanner_ReadByte, gets, lift, modify, mret, M_ret, mbind, M_bind, read_byte in Hb; simpl in Hb; rename Hb into Hb1 end.
  assert (Hc : s1 = set_canonical (canon_append [recordEnd] (s_canonical s)) s).
  { destruct (s_canonical s) as [c|] eqn:E; minv; [|by destruct s; simplify_eq/=].
    unfold canonical_WriteByte in *. destruct (canon_closed c) eqn:Ec; minv.
    by rewrite /canon_append /= Ec. }
  subst s1. cbn [s_reader set_canonical] in Hb1.
  destruct (r_data (s_reader s)); simplify_eq/=; minv.
  destruct (error_is EEOF _) eqn:E; minv. done.
Qed.

(** A delivered record was at the front of the stream, well formed; the end
    is reported only at the terminator, with nothing after it. *)
Lemma Next_ok s w o s' w' :
  s_terminated s = false → Next s w = (Ok o, s', w') →
  match o with
  | Some r => ∃ rest, record_wf r ∧ r_data (s_reader s) = encode_record r ++ rest ∧ s' = scanner_after r rest s
  | None => r_data (s_reader s) = [recordEnd] ∧ error_is EEOF (end_error (s_reader s)) = true ∧
            s' = scanner_terminated s
  end.
Proof.
  intros Ht Hn. unfold Next in Hn. mstep Hn. minv. rewrite Ht in Hn. minv.
  match goal with Hb : scanner_ReadByte _ _ = _ |- _ => apply scanner_ReadByte_ok in Hb as (rest0 & Hd & ->) end.
  rename x into typ. case_bool_decide as Hend; [subst typ; minv|].
  { match goal with Hb : finishTerminator _ _ = _ |- _ => apply finishTerminator_ok in Hb as (Hd' & He & ->) end.
    simpl in *. subst. done. }
  minv.
  match goal with Hb : readHeader _ _ _ = _ |- _ =>
    apply readHeader_ok in Hb as (keyLen & key & tl & Hk & Hl & -> & Hd' & ->) end.
  match goal with Hb : allocatePayload _ _ _ = _ |- _ => apply allocatePayload_ok in Hb as -> end.
  match goal with Hb : tee_canonical _ _ _ = _ |- _ => apply tee_canonical_ok in Hb as [_ ->] end.
  match goal with Hb : readPayload _ _ _ = _ |- _ => apply readPayload_loop_ok in Hb as (Hpl & Hp & ->); [|done] end.
  match goal with p : bytes, Hp : ?p = take _ _ |- _ => rename p into payload end.
  unfold payload_read. cbn [s_reader set_reader set_schain set_canonical set_payloadCap r_data r_end] in *.
  set (len := get_uint64 (drop (length (typ :: key) - 8) (typ :: key))) in *.
  assert (Hpay : N.of_nat (length payload) = len) by (rewrite Hp length_take; lia).
  rewrite -Hp. set (rest := drop (N.to_nat len) tl).
  assert (Htl : tl = payload ++ rest) by (by rewrite Hp take_drop). clearbody rest.
  destruct (recordFromHeader_wf typ key payload keyLen) as (Hwf & Hhd & HP & HT); [done..|].
  set (r := recordFromHeader typ (typ :: key) payload) in *. clearbody r.
  exists rest. split; [done|]. split.
  - unfold encode_record. by rewrite Hhd HP Hd Hd' Htl /= app_assoc.
  - unfold scanner_after, chain_step, encode_record, blen.
    rewrite Hhd HP HT Hpay -canon_append_app (app_assoc (hash_bytes (s_chain s))) -Hpay Nat2N.id.
    reflexivity.
Qed.

End Steps.

(** ** Whole scans *)

(** The counters after a list of records. *)
Definition wire_counts_from (c : WireCounts) (rs : list bundle_record) : WireCounts :=
  foldl (λ c r, wire_addCount (Type_ r) (blen (Payload r)) c) c rs.
Definition wire_counts (rs : list bundle_record) : WireCounts :=
  wire_counts_from (MkWireCounts 0 0 0 0 0) rs.

(** The scanner after the records [rs] and the terminator. *)
Definition scanner_end `{Keccak} (rs : list bundle_record) (s : recordScanner) : recordScanner :=
  MkScanner (s_manifest s) (s_fileSize s) (s_hashed s) (s_raw s)
            (MkReader [] (r_end (s_reader s)))
            (canon_append (encode_records rs ++ [recordEnd]) (s_canonical s))
            (chain_of (s_chain s) rs) []
            (wire_counts_from (s_counts s) rs)
            (foldl (λ cap r, if s_borrow s && (cap <? length (Payload r))%nat then length (Payload r) else cap)
                   (s_payloadCap s) rs)
            (s_borrow s) true.

(** The consumer accepted a record, in some environment or in a calm one. *)
Definition accepts {C} (consume : bundle_record → M C unit) (r : bundle_record) (c c' : C) : Prop :=
  ∃ w w', consume r c w = (Ok (), c', w').
Definition accepts_calm {C} (consume : bundle_record → M C unit) (r : bundle_record) (c c' : C) : Prop :=
  consume r c calm = (Ok (), c', calm).

Section Scans.
Context `{Keccak, HeaderRLP, Zstd}.
Implicit Types (s : recordScanner).

Lemma encode_records_cons r rs : encode_records (r :: rs) = encode_record r ++ encode_records rs.
Proof. reflexivity. Qed.

Lemma encode_record_pos r : (0 < length (encode_record r))%nat.
Proof. unfold encode_record, encode_header. simpl. lia. Qed.

Lemma scanner_end_nil s : s_hasher s = [] → scanner_end [] s = scanner_terminated s.
Proof. intros Hh. unfold scanner_end, scanner_terminated, set_terminated. simpl. by rewrite Hh. Qed.

Lemma scanner_end_cons r rest rs s : scanner_end rs (scanner_after r rest s) = scanner_end (r :: rs) s.
Proof.
  unfold scanner_end, scanner_after.
  cbn [s_manifest s_fileSize s_hashed s_raw s_reader s_canonical s_chain s_hasher s_counts s_payloadCap s_borrow s_terminated r_end].
  rewrite canon_append_app encode_records_cons -app_assoc. done.
Qed.

Lemma scan_loop_ok {C} fuel (consume : bundle_record → M C unit) s c w u s' c' w' :
  s_terminated s = false → s_hasher s = [] →
  scan_loop fuel consume (s, c) w = (Ok u, (s', c'), w') →
  ∃ rs, Forall record_wf rs ∧ r_data (s_reader s) = encode_records rs ++ [recordEnd] ∧
    error_is EEOF (end_error (s_reader s)) = true ∧ s' = scanner_end rs s ∧ steps (accepts consume) rs c c'.
Proof.
  revert s c w. induction fuel as [|fuel IH]; intros s c w Ht Hh Hr; cbn [scan_loop] in Hr; minv.
  match goal with Hn : Next _ _ = _ |- _ => apply Next_ok in Hn; [|done]; rename Hn into HN end.
  cbn [fst snd] in *. destruct x as [r|]; minv.
  - destruct HN as (rest & Hwf & Hd & ->). cbn [fst snd] in *.
    apply IH in Hr as (rs & Hrs & Hd' & He & -> & Hc); [|done|done].
    exists (r :: rs). split; [by constructor|].
    cbn [s_reader scanner_after r_data] in Hd'. rewrite Hd Hd' encode_records_cons app_assoc scanner_end_cons.
    repeat split; [done|]. econstructor; [|done]. eexists _, _. eassumption.
  - destruct HN as (Hd & He & ->). simplify_eq. exists []. rewrite scanner_end_nil //.
    repeat split; [constructor|done..|constructor].
Qed.

Lemma Next_end_calm s :
  s_terminated s = false → canon_open (s_canonical s) →
  r_data (s_reader s) = [recordEnd] → r_end (s_reader s) = None →
  Next s calm = (Ok None, scanner_terminated s, calm).
Proof.
  intros Ht Ho Hd He. unfold Next. erewrite bind_run; [|reflexivity]. rewrite Ht.
  erewrite bind_run; [|apply poll_calm].
  erewrite (bind_run _ _ _ _ recordEnd); cycle 1.
  { apply wrap_ok. unfold scanner_ReadByte. erewrite bind_run; [|reflexivity].
    unfold read_byte. rewrite Hd. reflexivity. }
  rewrite bool_decide_eq_true_2 //. erewrite bind_run; [reflexivity|].
  unfold finishTerminator. erewrite bind_run; [|reflexivity].
  cbn [s_canonical set_reader]. unfold scanner_terminated. rewrite He. destruct s as [??????????? ?]; simpl in *.
  destruct s_canonical0 as [[d b]|]; simpl in Ho; subst; reflexivity.
Qed.

Lemma scan_loop_calm {C} fuel (consume : bundle_record → M C unit) rs s c c' :
  Forall record_wf rs → s_terminated s = false → s_hasher s = [] → canon_open (s_canonical s) →
  r_data (s_reader s) = encode_records rs ++ [recordEnd] → r_end (s_reader s) = None →
  steps (accepts_calm consume) rs c c' →
  (length (encode_records rs) < fuel)%nat →
  scan_loop fuel consume (s, c) calm = (Ok (), (scanner_end rs s, c'), calm).
Proof.
  intros Hrs. revert fuel s c. induction Hrs as [|r rs Hr Hrs IH];
    intros [|fuel] s c Ht Hh Ho Hd He Hc Hf; try lia; cbn [scan_loop for_each] in *.
  - inversion Hc; subst. unfold zoom, mbind, M_bind. cbn [fst]. by rewrite Next_end_calm // scanner_end_nil.
  - inversion Hc as [|? ? ? c1 ? Hc1 Hc2]; subst.
    rewrite encode_records_cons length_app in Hf. rewrite encode_records_cons in Hd.
    pose proof (encode_record_pos r).
    erewrite bind_run; [|apply zoom_ok; eexists; split; [|reflexivity];
      apply (Next_record_calm r (encode_records rs ++ [recordEnd])); [done..|by rewrite Hd -app_assoc]].
    cbn [fst snd]. erewrite bind_run; [|apply wrap_ok, zoom_ok; eexists; split; [exact Hc1|reflexivity]].
    cbn [fst snd].
    rewrite IH //; [by rewrite scanner_end_cons|by apply canon_open_append|lia].
Qed.

End Scans.

(** ** Opening and finishing *)

(** A scanner that has accepted the header of the file [node], with [rest]
    left of the stream. *)
Record opened `{Keccak, Zstd} (m : Manifest) (node : dir_node) (borrow : bool) (rest : bytes) (s : recordScanner) : Prop := {
  op_manifest : s_manifest s = m;
  op_fileSize : s_fileSize s = Size (mStateFile m);
  op_bytes : s_hashed s ++ r_data (s_raw s) = dn_content node;
  op_raw_end : r_end (s_raw s) = dn_read_err node;
  op_reader : s_reader s = MkReader rest (r_end (stream_of m node));
  op_canonical : s_canonical s =
    if bool_decide (Compression (mStateFile m) = CompressionZstd)
    then Some (MkCanonical streamMagic false) else None;
  op_chain : s_chain s = initialChainHash (HeadBefore (Source m)) (HeaderRLP_ (Source m));
  op_hasher : s_hasher s = [];
  op_counts0 : s_counts s = MkWireCounts 0 0 0 0 0;
  op_cap : s_payloadCap s = 0%nat;
  op_borrow : s_borrow s = borrow;
  op_terminated : s_terminated s = false
}.

Section OpenFinish.
Context `{Keccak, HeaderRLP, Zstd}.
Implicit Types (s : recordScanner).

Lemma OpenRoot_state {St} before after (st : St) w u st' w' :
  OpenRoot before after st w = (Ok u, st', w') → st' = st.
Proof.
  unfold OpenRoot. intros Hr. minv. destruct after as [info|e].
  - destruct (sameFile _ _); mcases. done.
  - mcases.
Qed.

Lemma openRecordScanner_ok {St} before after dir m borrow (st : St) w s st' w' :
  openRecordScanner before after dir m borrow st w = (Ok s, st', w') →
  st' = st ∧ Manifest_Validate m = Ok () ∧ RequireExactLayout dir (bundle_layout m) = Ok () ∧
  ∃ node rest, dir !! Name (mStateFile m) = Some node ∧ fi_size (dn_info node) = Size (mStateFile m) ∧
    r_data (stream_of m node) = streamMagic ++ rest ∧ opened m node borrow rest s.
Proof.
  unfold openRecordScanner. intros Hr. minv.
  match goal with Ho : OpenRoot _ _ _ _ = _ |- _ => apply OpenRoot_state in Ho as -> end.
  match goal with Ho : OpenRegular _ _ _ _ _ = (Ok ?n, _, _) |- _ =>
    apply OpenRegular_ok in Ho as (-> & Hnode & _); rename n into node end.
  repeat match goal with p : result _ * _ |- _ => destruct p as [r ?]; destruct r; cbn [fst snd] in *; minv end.
  repeat match goal with Ho : negb _ = false |- _ => apply negb_false_iff in Ho end.
  match goal with Ho : bytes_equal _ _ = true |- _ => apply bytes_equal_spec in Ho as -> end.
  match goal with Ho : readFull _ _ _ = _ |- _ => apply readFull_loop_ok in Ho as (Hl & Hm & ->); [|done] end.
  match goal with Ho : tee_canonical _ _ _ = _ |- _ => apply tee_canonical_ok in Ho as [_ ->] end.
  match goal with Ho : (_ =? _)%Z = true |- _ => apply Z.eqb_eq in Ho; rename Ho into Hsize end.
  cbn [s_reader initialScanner] in Hm, Hl. split; [done|]. split; [done|]. split; [done|].
  exists node, (drop (length streamMagic) (r_data (stream_of m node))).
  split; [done|]. split; [done|]. split; [by rewrite {1}Hm take_drop|].
  split; try done.
  - apply take_drop.
  - cbn [s_canonical set_schain set_canonical set_reader initialScanner]. by case_bool_decide.
Qed.

Lemma state_name_valid m : Manifest_Validate m = Ok () → invalid_name (Name (mStateFile m)) = false.
Proof.
  unfold Manifest_Validate. rewrite !then_ok !reject_if_cases !andb_false_iff !negb_false_iff !bool_decide_eq_true.
  intros (_ & _ & _ & _ & [Hn|Hn] & _); by rewrite Hn.
Qed.

Lemma openRecordScanner_calm {St} info dir m node rest borrow (st : St) :
  isDir info = true → Manifest_Validate m = Ok () → RequireExactLayout dir (bundle_layout m) = Ok () →
  dir !! Name (mStateFile m) = Some node → fi_mode (dn_info node) = ModeRegular →
  fi_size (dn_info node) = Size (mStateFile m) →
  r_data (stream_of m node) = streamMagic ++ rest →
  ∃ s, openRecordScanner (Ok info) (Ok info) dir m borrow st calm = (Ok s, st, calm) ∧ opened m node borrow rest s.
Proof.
  intros Hdir Hm Hlay Hnode Hreg Hsize Hd. unfold openRecordScanner.
  erewrite bind_run; [|apply wrap_ok, lift_ok; by split].
  erewrite bind_run; [|apply wrap_ok, OpenRoot_calm, Hdir].
  erewrite bind_run; [|apply wrap_ok, lift_ok; by split].
  erewrite bind_run; [|apply wrap_ok, OpenRegular_calm; [|done..]]; cycle 1.
  { by eapply state_name_valid. }
  rewrite Hsize Z.eqb_refl. erewrite bind_run; [|reflexivity].
  eexists. split.
  - erewrite bind_run; [|apply run_on_run, readFull_loop_calm; [done|cbn [s_reader initialScanner]; rewrite Hd length_app; lia]].
    cbn [s_reader initialScanner].
    erewrite bind_run; [|reflexivity].
    rewrite Hd take_app_length drop_app_length.
    erewrite bind_run; [|apply lift_run; by rewrite (proj2 (bytes_equal_spec _ _))].
    erewrite bind_run; [|apply run_on_run, tee_canonical_calm; simpl; by case_bool_decide].
    reflexivity.
  - split; try done.
    + apply take_drop.
    + cbn [s_canonical set_schain set_canonical set_reader initialScanner]. by case_bool_decide.
Qed.

Lemma copy_loop_ok fuel r acc s w out s' w' :
  copy_loop fuel r acc s w = (Ok out, s', w') → out = acc ++ r_data r ∧ r_end r = None ∧ s' = s.
Proof.
  revert r acc w. induction fuel as [|fuel IH]; intros r acc w Hr; cbn [copy_loop] in Hr; minv.
  destruct (r_data r) as [|b d] eqn:Hd.
  - destruct (r_end r); minv. by rewrite app_nil_r.
  - apply IH in Hr as (-> & He & ->). cbn [r_data r_end] in *. split; [|done].
    by rewrite -app_assoc take_drop.
Qed.

Lemma copy_loop_calm fuel r acc s :
  (length (r_data r) < fuel)%nat → r_end r = None →
  copy_loop fuel r acc s calm = (Ok (acc ++ r_data r), s, calm).
Proof.
  revert r acc. induction fuel as [|fuel IH]; intros r acc Hf He; [lia|]. cbn [copy_loop].
  erewrite bind_run; [|apply poll_calm]. destruct (r_data r) as [|b d] eqn:Hd.
  - by rewrite He app_nil_r.
  - rewrite IH //; cbn [r_data].
    + by rewrite -app_assoc take_drop.
    + rewrite length_drop. pose proof chunk_pos. cbn [length] in *. lia.
Qed.

Lemma copyContext_ok r s w out s' w' :
  copyContext r s w = (Ok out, s', w') → out = r_data r ∧ r_end r = None ∧ s' = s.
Proof.
  unfold copyContext. intros Hr. minv. destruct (r_data r) as [|b d] eqn:Hd.
  - destruct (r_end r); minv. done.
  - by apply copy_loop_ok in Hr as (-> & ? & ->).
Qed.

Lemma copyContext_calm r s : r_end r = None → copyContext r s calm = (Ok (r_data r), s, calm).
Proof.
  intros He. unfold copyContext. erewrite bind_run; [|apply poll_calm].
  destruct (r_data r) as [|b d] eqn:Hd; [by rewrite He|].
  rewrite copy_loop_calm //. cbn [r_data]. lia.
Qed.

(** The counters equal the counts of the manifest. *)
Definition counts_match (m : Manifest) (c : WireCounts) : Prop :=
  c = MkWireCounts (Accounts (mCounts m)) (StorageSlots (mCounts m)) (CodeRecords (mCounts m))
                   (Records (mCounts m)) (RecordPayloadBytes (mStateFile m)).

Lemma verifyCounts_iff s : verifyCounts s = Ok () ↔ counts_match (s_manifest s) (s_counts s).
Proof.
  unfold verifyCounts, counts_match. rewrite reject_then reject_if_cases.
  rewrite !orb_false_iff !negb_false_iff !N.eqb_eq. destruct (s_counts s); simpl. naive_solver.
Qed.

(** The canonical re-encoding of what was read has the size and the hash of
    the file. *)
Definition canonical_match (s : recordScanner) (fileHash : Hash) : Prop :=
  match s_canonical s with
  | None => True
  | Some c =>
      canon_closed c = false ∧ Z.of_nat (length (zstd_encode (canon_data c))) = s_fileSize s ∧
      sha256 (zstd_encode (canon_data c)) = fileHash
  end.

Lemma finishCanonical_ok h s w u s' w' :
  finishCanonical h s w = (Ok u, s', w') →
  canonical_match s h ∧ ∃ c, s' = set_canonical c s.
Proof.
  unfold finishCanonical, canonical_match. intros Hr. mstep Hr. minv.
  destruct (s_canonical s) as [c|] eqn:Hc; minv.
  - unfold canonical_Close in *. destruct (canon_closed c); minv. minv.
    match goal with Ho : _ || _ = false |- _ => apply orb_false_iff in Ho as [Ho1 Ho2] end.
    apply negb_false_iff, Z.eqb_eq in Ho1. apply negb_false_iff, bool_decide_eq_true in Ho2. eauto.
  - split; [done|]. exists None. by destruct s; simplify_eq/=.
Qed.

Lemma finishCanonical_calm h s :
  canonical_match s h → ∃ c, finishCanonical h s calm = (Ok (), set_canonical c s, calm).
Proof.
  unfold finishCanonical, canonical_match. intros Hm. destruct (s_canonical s) as [c|] eqn:Hc.
  - destruct Hm as (Ho & Hz & Hs). eexists. erewrite bind_run; [|reflexivity]. rewrite Hc.
    unfold canonical_Close. rewrite Ho. erewrite bind_run; [|reflexivity].
    cbv beta iota zeta. erewrite bind_run; [|reflexivity]. by rewrite Hz Z.eqb_refl bool_decide_eq_true_2.
  - exists None. erewrite bind_run; [|reflexivity]. rewrite Hc. by destruct s; simplify_eq/=.
Qed.

(** What a finished scan has checked. *)
Record scan_checked (s : recordScanner) (dir : directory) (res : ScanResult) : Prop := {
  sc_terminated : s_terminated s = true;
  sc_read : r_end (s_raw s) = None;
  sc_layout : RequireExactLayout dir (bundle_layout (s_manifest s)) = Ok ();
  sc_canonical : canonical_match s (scan_FileSHA256 res);
  sc_counts : counts_match (s_manifest s) (s_counts s);
  sc_result : res = MkScanResult (s_counts s) (sha256 (s_hashed s ++ r_data (s_raw s))) (s_chain s);
  sc_sha : scan_FileSHA256 res = SHA256 (mStateFile (s_manifest s));
  sc_chain : scan_RecordChainHash res = RecordChainHash (mStateFile (s_manifest s))
}.

Lemma Finish_ok dir s w res s' w' :
  Finish dir s w = (Ok res, s', w') → scan_checked s dir res.
Proof.
  unfold Finish. intros Hr. minv.
  match goal with Hc : copyContext _ _ _ = _ |- _ => apply copyContext_ok in Hc as (-> & ? & ->) end.
  match goal with Hc : finishCanonical _ _ _ = _ |- _ => apply finishCanonical_ok in Hc as (? & ? & ->) end.
  match goal with Hc : verifyCounts _ = _ |- _ => apply verifyCounts_iff in Hc end.
  repeat match goal with Hc : negb _ = false |- _ => apply negb_false_iff in Hc; try apply bool_decide_eq_true in Hc end.
  split; done.
Qed.

Lemma Finish_calm dir s res :
  scan_checked s dir res → ∃ s', Finish dir s calm = (Ok res, s', calm).
Proof.
  intros [Ht Hr Hl Hcan Hcnt -> Hs Hch]. unfold Finish.
  erewrite bind_run; [|reflexivity]. rewrite Ht. erewrite bind_run; [|reflexivity].
  erewrite bind_run; [|reflexivity].
  erewrite bind_run; [|by apply wrap_ok, copyContext_calm].
  erewrite bind_run; [|reflexivity]. erewrite bind_run; [|reflexivity].
  edestruct (finishCanonical_calm (sha256 (s_hashed s ++ r_data (s_raw s)))) as [c Hc]; cycle 1.
  { eexists. erewrite bind_run; [|exact Hc]. erewrite bind_run; [|reflexivity].
    erewrite bind_run; [|apply lift_run, verifyCounts_iff, Hcnt].
    erewrite bind_run; [|by apply wrap_ok, lift_run].
    cbn [s_manifest set_canonical set_raw scan_FileSHA256 scan_RecordChainHash s_chain s_counts] in *.
    erewrite bind_run; [|apply lift_run; by rewrite bool_decide_eq_true_2].
    erewrite bind_run; [|apply lift_run; by rewrite bool_decide_eq_true_2].
    reflexivity. }
  exact Hcan.
Qed.

End OpenFinish.

(** ** The scan of a bundle *)

(** What a successful scan says about the bundle: the file [node] decodes to
    exactly the stream of the records [rs], and the manifest describes it. *)
Record scan_accepts `{Keccak, HeaderRLP, Zstd} (m : Manifest) (dir : directory)
    (node : dir_node) (rs : list bundle_record) (res : ScanResult) : Prop := {
  sa_manifest : Manifest_Validate m = Ok ();
  sa_layout : RequireExactLayout dir (bundle_layout m) = Ok ();
  sa_file : dir !! Name (mStateFile m) = Some node;
  sa_size : fi_size (dn_info node) = Size (mStateFile m);
  sa_records : Forall record_wf rs;
  sa_stream : r_data (stream_of m node) = encode_stream rs;
  sa_stream_end : error_is EEOF (end_error (stream_of m node)) = true;
  sa_read : dn_read_err node = None;
  sa_counts : counts_match m (wire_counts rs);
  sa_sha : sha256 (dn_content node) = SHA256 (mStateFile m);
  sa_chain : chain_of (initialChainHash (HeadBefore (Source m)) (HeaderRLP_ (Source m))) rs =
             RecordChainHash (mStateFile m);
  sa_canonical : Compression (mStateFile m) = CompressionZstd →
    Z.of_nat (length (zstd_encode (encode_stream rs))) = Size (mStateFile m) ∧
    sha256 (zstd_encode (encode_stream rs)) = sha256 (dn_content node);
  sa_result : res = MkScanResult (wire_counts rs) (SHA256 (mStateFile m)) (RecordChainHash (mStateFile m))
}.

Section ScanRecords.
Context `{Keccak, HeaderRLP, Zstd}.

Lemma layout_regular m dir node :
  Manifest_Validate m = Ok () → RequireExactLayout dir (bundle_layout m) = Ok () →
  dir !! Name (mStateFile m) = Some node → fi_mode (dn_info node) = ModeRegular.
Proof.
  intros Hm Hl Hn. apply RequireExactLayout_ok in Hl as [_ Hl].
  - destruct (Hl (Name (mStateFile m)) RegularFile) as (n & Hn' & Hk); [|by simplify_eq].
    unfold bundle_layout. destruct (decide (ManifestFileName = Name (mStateFile m))) as [->|].
    + by rewrite lookup_insert_eq.
    + rewrite lookup_insert_ne // lookup_singleton_eq //.
  - unfold bundle_layout. intros name [k Hk].
    apply lookup_insert_Some in Hk as [[<- _]|[_ Hk]]; [done|].
    apply lookup_singleton_Some in Hk as [<- _]. by apply state_name_valid.
Qed.

Lemma canonical_after m node borrow rest s rs :
  opened m node borrow rest s →
  s_canonical (scanner_end rs s) =
  if bool_decide (Compression (mStateFile m) = CompressionZstd)
  then Some (MkCanonical (encode_stream rs) false) else None.
Proof.
  intros Ho. cbn [s_canonical scanner_end]. rewrite (op_canonical _ _ _ _ _ Ho).
  by case_bool_decide.
Qed.

Lemma scan_accepts_of m dir dir' node borrow rest s rs res :
  Manifest_Validate m = Ok () → RequireExactLayout dir (bundle_layout m) = Ok () →
  dir !! Name (mStateFile m) = Some node → fi_size (dn_info node) = Size (mStateFile m) →
  r_data (stream_of m node) = streamMagic ++ rest → opened m node borrow rest s →
  Forall record_wf rs → rest = encode_records rs ++ [recordEnd] →
  error_is EEOF (end_error (stream_of m node)) = true →
  scan_checked (scanner_end rs s) dir' res →
  scan_accepts m dir node rs res.
Proof.
  intros Hm Hl Hn Hs Hd Ho Hrs -> He [_ Hr _ Hcan Hcnt -> Hsha Hch].
  pose proof (canonical_after _ _ _ _ _ rs Ho) as Hca. unfold canonical_match in Hcan. rewrite Hca in Hcan.
  destruct Ho. cbn in Hr, Hsha, Hch, Hcnt, Hcan. rewrite op_bytes0 op_manifest0 in Hsha.
  rewrite op_manifest0 op_chain0 in Hch. unfold counts_match in *. rewrite op_manifest0 op_counts1 in Hcnt.
  split; try done.
  - by rewrite -op_raw_end0.
  - intros Hz. rewrite bool_decide_eq_true_2 // op_bytes0 op_fileSize0 in Hcan. naive_solver.
  - cbn. by rewrite op_bytes0 op_chain0 op_counts1 Hsha Hch.
Qed.

(** A successful scan accepted a bundle, and its consumer every record. *)
Lemma scanRecords_ok {C} before after dir dir' m (consume : bundle_record → M C unit) borrow c w res c' w' :
  scanRecords before after dir dir' m consume borrow c w = (Ok res, c', w') →
  ∃ node rs, scan_accepts m dir node rs res ∧ steps (accepts consume) rs c c'.
Proof.
  unfold scanRecords. intros Hr. minv.
  match goal with Ho : openRecordScanner _ _ _ _ _ _ _ = _ |- _ =>
    apply openRecordScanner_ok in Ho as (-> & Hm & Hl & node & rest & Hn & Hs & Hd & Ho); rename Ho into Hop end.
  match goal with p : result ScanResult * _ |- _ => destruct p as [r [s2 c2]]; cbn [fst snd] in * end.
  minv. match goal with p : result () * _ |- _ => destruct p as [[] s3]; destruct r; cbn [fst snd] in *; minv end.
  match goal with p : recordScanner * C |- _ => destruct p end.
  match goal with Hc : scan_loop _ _ _ _ = _ |- _ =>
    apply scan_loop_ok in Hc as (rs & Hrs & Hd' & He & -> & Hc); [|by destruct Hop..] end.
  match goal with Hf : Finish _ _ _ = _ |- _ => apply Finish_ok in Hf; cbn [fst snd] in Hf end.
  exists node, rs. rewrite (op_reader _ _ _ _ _ Hop) in Hd', He. simplify_eq/=. split; [|done].
  eapply scan_accepts_of; try done; eassumption.
Qed.

(** A bundle whose manifest describes it is accepted when nothing fails. *)
Lemma scanRecords_calm {C} info dir m node (consume : bundle_record → M C unit) borrow rs res c c' :
  isDir info = true → scan_accepts m dir node rs res → r_end (stream_of m node) = None →
  steps (accepts_calm consume) rs c c' →
  scanRecords (Ok info) (Ok info) dir dir m consume borrow c calm = (Ok res, c', calm).
Proof.
  intros Hi [Hm Hl Hn Hs Hrs Hst He Hre Hcnt Hsha Hch Hcan ->] Hend Hc.
  assert (Hreg : fi_mode (dn_info node) = ModeRegular) by (eapply layout_regular; eauto).
  edestruct (openRecordScanner_calm (St:=C) info dir m node (encode_records rs ++ [recordEnd]) borrow c)
    as (s & Ho & Hop); [done..|].
  unfold scanRecords. erewrite bind_run; [|exact Ho]. erewrite bind_run; [|reflexivity].
  assert (Hck : scan_checked (scanner_end rs s) dir
     (MkScanResult (wire_counts rs) (SHA256 (mStateFile m)) (RecordChainHash (mStateFile m)))).
  { pose proof (canonical_after _ _ _ _ _ rs Hop) as Hca. destruct Hop.
    split; cbn; rewrite ?op_manifest0 ?op_bytes0 ?op_chain0 ?op_counts1 ?op_raw_end0 //.
    - unfold canonical_match. rewrite Hca. case_bool_decide as Hz; [|done]. cbn.
      destruct Hcan as [? Hcan]; [done|]. rewrite op_fileSize0 Hcan. done.
    - by rewrite Hsha Hch. }
  destruct (Finish_calm _ _ _ Hck) as [s' Hf].
  erewrite bind_run; cycle 1.
  { apply run_on_run. erewrite bind_run; cycle 1.
    { apply (scan_loop_calm _ _ rs); try by destruct Hop.
      - destruct Hop as [????? -> ?]. by case_bool_decide.
      - by rewrite (op_reader _ _ _ _ _ Hop).
      - by rewrite (op_reader _ _ _ _ _ Hop).
      - rewrite (op_reader _ _ _ _ _ Hop) /= length_app. lia. }
    apply zoom_ok. eexists. split; [exact Hf|reflexivity]. }
  reflexivity.
Qed.

End ScanRecords.
