(* ===== verification/Bundle.v ===== *)
(** * Bundles: what the writer and the scanner promise each other

    The two ends of the record format meet here. A bundle written by any
    accepted sequence of writer calls is scanned back to exactly the records
    written, with the counts, the size, the SHA-256 and the record-chain hash
    that the writer reported; a scanned bundle is nothing but the canonical
    encoding of the records delivered; and the record-chain hash binds the
    source head and every record up to a Keccak collision. *)

From S2P Require Import Prelude Sha256 Geth Instances Manifest StrictIO Records Scanner.

(** ** Writing a whole record file *)

Section WriteAll.
Context `{Keccak, Zstd}.

(** [NewWriter], a sequence of calls on it, [Close]. *)
Definition write_all (dir : list string) (compression : string) (head : Head) (headerRLP : bytes)
    (ops : list writer_op) : M unit WriterResult :=
  writer ← NewWriter dir compression head headerRLP;
  '(r, writer) ← run_on (for_each ops run_op) writer;
  _ ← lift r;
  '(r, _) ← run_on Writer_Close writer;
  lift r.

(** The state file entry that goes with a writer result. *)
Definition state_file_of (r : WriterResult) : StateFile :=
  MkStateFile (wr_FileName r) (wr_Compression r) (wr_Size r) (wr_RecordPayloadBytes r)
              (wr_SHA256 r) (wr_RecordChainHash r).

Lemma write_all_ok dir cm head hdr ops w res w' :
  write_all dir cm head hdr ops () w = (Ok res, (), w') →
  ∃ f, file_name_of cm = Ok f ∧ Forall op_ok ops ∧
    res = result_at (initialChainHash head hdr) f cm (ops ≫= op_records) (foldl op_counts zero_counts ops).
Proof.
  unfold write_all. intros Hr. minv.
  match goal with Hn : NewWriter _ _ _ _ _ _ = _ |- _ => apply NewWriter_ok in Hn as (f & Hf & ->) end.
  repeat match goal with p : result _ * Writer |- _ => destruct p as [[] ?]; cbn [fst snd] in *; minv end.
  match goal with Hn : for_each _ _ _ _ = _ |- _ => apply run_ops_ok in Hn as [Hops ->] end.
  match goal with Hn : Writer_Close _ _ = _ |- _ => apply Writer_Close_ok in Hn as [-> _] end.
  eauto.
Qed.

Lemma write_all_calm dir cm head hdr ops f :
  file_name_of cm = Ok f → f ∉ dir → Forall op_ok ops →
  write_all dir cm head hdr ops () calm =
  (Ok (result_at (initialChainHash head hdr) f cm (ops ≫= op_records) (foldl op_counts zero_counts ops)), (), calm).
Proof.
  intros Hf Hn Ho. unfold write_all. erewrite bind_run; [|by apply NewWriter_calm].
  erewrite bind_run; [|by apply run_on_run, run_ops_calm]. cbv beta iota.
  erewrite bind_run; [|reflexivity].
  edestruct Writer_Close_calm as [wr Hc]. erewrite bind_run; [|by apply run_on_run, Hc]. done.
Qed.

End WriteAll.

(** ** Counters of the two sides *)

(** The counts a scanner can check, read off the writer's counts. *)
Definition wire_view (c : Counts) (payload : N) : WireCounts :=
  MkWireCounts (Accounts c) (StorageSlots c) (CodeRecords c) (Records c) payload.

Lemma op_counts_wire op c n rs :
  n = wire_bytes rs →
  wire_counts_from (wire_view c n) (op_records op) = wire_view (op_counts c op) (wire_bytes (rs ++ op_records op)).
Proof.
  intros ->. destruct op; cbn [op_records]; rewrite ?wire_bytes_snoc ?app_nil_r; done.
Qed.

Lemma wire_counts_from_app c rs rs' :
  wire_counts_from c (rs ++ rs') = wire_counts_from (wire_counts_from c rs) rs'.
Proof. unfold wire_counts_from. by rewrite foldl_app. Qed.

Lemma ops_counts_wire ops c rs :
  wire_counts_from (wire_view c (wire_bytes rs)) (ops ≫= op_records) =
  wire_view (foldl op_counts c ops) (wire_bytes (rs ++ (ops ≫= op_records))).
Proof.
  revert c rs. induction ops as [|op ops IH]; intros c rs.
  - by rewrite /= app_nil_r.
  - cbn [mbind list_bind foldl]. rewrite wire_counts_from_app (op_counts_wire _ _ _ rs) //.
    by rewrite IH app_assoc.
Qed.

Lemma ops_wire_counts ops :
  wire_counts (ops ≫= op_records) =
  wire_view (foldl op_counts zero_counts ops) (wire_bytes (ops ≫= op_records)).
Proof. apply (ops_counts_wire ops zero_counts []). Qed.

Lemma op_records_wf ops : Forall op_ok ops → Forall record_wf (ops ≫= op_records).
Proof.
  induction 1 as [|op ops [Hop _] _ IH]; [constructor|]. simpl. by apply Forall_app.
Qed.

(** ** Record streams are uniquely decodable *)

Section Decodable.

(** A record is determined by any stream it starts, whatever follows. *)
Lemma encode_record_prefix r r' x x' :
  record_wf r → record_wf r' → encode_record r ++ x = encode_record r' ++ x' → r = r' ∧ x = x'.
Proof.
  intros Hr Hr' He.
  pose (K := {| keccak256 := λ _, zero_hash |}).
  set (s := MkScanner (NewManifest 0 "" "" (MkSourceEvidence (MkHead 0 zero_hash zero_hash) (MkHead 0 zero_hash zero_hash) [])
      (MkCounts 0 0 0 0 0 0) (MkStateFile "" "" 0 0 zero_hash zero_hash)) 0 [] (MkReader [] None)
      (MkReader (encode_record r ++ x) None) None zero_hash [] (MkWireCounts 0 0 0 0 0) 0 false false).
  pose proof (Next_record_calm (H:=K) r x s Hr eq_refl I eq_refl) as H1.
  pose proof (Next_record_calm (H:=K) r' x' s Hr' eq_refl I He) as H2.
  rewrite H1 in H2. injection H2 as -> H2. split; [done|]. by simplify_eq.
Qed.

Lemma encode_records_inj rs rs' :
  Forall record_wf rs → Forall record_wf rs' →
  encode_records rs ++ [recordEnd] = encode_records rs' ++ [recordEnd] → rs = rs'.
Proof.
  intros Hrs. revert rs'. induction Hrs as [|r rs Hr Hrs IH]; intros rs' Hrs' He;
    destruct Hrs' as [|r' rs' Hr' Hrs']; rewrite ?encode_records_cons in He; [done| | |].
  - cbn in He. injection He as He _. by apply type_not_end in Hr'.
  - cbn in He. injection He as He _. by apply type_not_end in Hr.
  - rewrite -(app_assoc (encode_record r)) -(app_assoc (encode_record r')) in He.
    apply encode_record_prefix in He as [-> He]; [|done..].
    f_equal. by apply IH.
Qed.

End Decodable.

(** ** The record chain *)

Section Chain.
Context `{Keccak}.

(** Two different inputs with one Keccak hash. *)
Definition keccak_collision : Prop := ∃ a b, a ≠ b ∧ keccak256 a = keccak256 b.

Lemma keccak_inj a b : keccak256 a = keccak256 b → a = b ∨ keccak_collision.
Proof.
  intros He. destruct (decide (a = b)) as [|Hn]; [by left|]. right. by exists a, b.
Qed.

Lemma app_same_length_inj {A} (a b c d : list A) :
  length a = length b → a ++ c = b ++ d → a = b ∧ c = d.
Proof. intros Hl He. by apply app_inj_1 in He. Qed.

Lemma encode_record_inj r r' : record_wf r → record_wf r' → encode_record r = encode_record r' → r = r'.
Proof.
  intros Hr Hr' He. apply (encode_record_prefix r r' [] []); [done..|]. by rewrite He.
Qed.

Lemma chain_of_inj init init' rs rs' :
  Forall record_wf rs → Forall record_wf rs' → length rs = length rs' →
  chain_of init rs = chain_of init' rs' → (init = init' ∧ rs = rs') ∨ keccak_collision.
Proof.
  revert rs'. induction rs as [|r rs IH] using rev_ind; intros rs' Hrs Hrs' Hl He;
    destruct rs' as [|r' rs' _] using rev_ind; rewrite ?length_app /= in Hl; try lia; [by left|].
  apply Forall_app in Hrs as [Hrs Hr], Hrs' as [Hrs' Hr'].
  apply (proj1 (Forall_singleton _ _)) in Hr, Hr'. rewrite !chain_of_snoc in He.
  apply keccak_inj in He as [He|]; [|by right].
  apply app_same_length_inj in He as [Hc He]; [|by rewrite !length_hash_bytes].
  apply hash_bytes_inj in Hc. apply encode_record_inj in He; [|done..].
  apply IH in Hc as [[-> ->]|]; [left|by right|done..|lia]. by rewrite He.
Qed.

Lemma initialChainHash_inj head head' hdr hdr' :
  BlockNumber head < two64 → BlockNumber head' < two64 →
  initialChainHash head hdr = initialChainHash head' hdr' →
  (head = head' ∧ hdr = hdr') ∨ keccak_collision.
Proof.
  intros Hn Hn' He. apply keccak_inj in He as [He|]; [|by right].
  apply app_same_length_inj in He as [_ He]; [|done].
  apply app_same_length_inj in He as [Hnum He]; [|by rewrite !length_put_uint64].
  apply app_same_length_inj in He as [Hh He]; [|by rewrite !length_hash_bytes].
  apply app_same_length_inj in He as [Hs He]; [|by rewrite !length_hash_bytes].
  apply hash_bytes_inj in Hh, Hs, He. apply keccak_inj in He as [->|]; [left|by right].
  assert (BlockNumber head = BlockNumber head') by (by rewrite -(get_put_uint64 _ Hn) Hnum get_put_uint64).
  destruct head, head'; simpl in *. by subst.
Qed.

End Chain.

(** ** The consumer that keeps the records *)

Definition collect (r : bundle_record) : M (list bundle_record) unit := modify (λ l, l ++ [r]).

Lemma collect_steps rs l l' : steps (accepts collect) rs l l' → l' = l ++ rs.
Proof.
  induction 1 as [l|r rs l l1 l2 (w & w' & Hr) _ IH]; [by rewrite app_nil_r|].
  unfold collect in Hr. minv. by rewrite -app_assoc.
Qed.

(** ** A sample bundle *)

Module Sample.

#[export] Existing Instances toy_keccak toy_header toy_zstd toy_accounts toy_empty toy_stack toy_keys toy_batch.

Definition hash_of (name : string) : Hash := vec_of_bytes 32 (bytes_of_string name).

Definition ops : list writer_op :=
  [OpStorage (hash_of "account-1") (hash_of "slot-1") [x01; x02];
   OpAccount (hash_of "account-1") [xc0; x01] 70;
   OpReference;
   OpCode (hash_of "code-1") (bytes_of_string "contract")].

Definition header_rlp : bytes := toy_header_bytes 7 (hash_of "root").
Definition head : Head := MkHead 7 (keccak256 header_rlp) (hash_of "root").
Definition source : SourceEvidence := MkSourceEvidence head head header_rlp.

Definition result_for (compression : string) : WriterResult :=
  match write_all [] compression head header_rlp ops () calm with
  | (Ok r, _, _) => r
  | _ => MkWriterResult zero_counts 0 "" "" 0 zero_hash zero_hash []
  end.

Definition manifest (compression : string) : Manifest :=
  NewManifest 1 "v1" "v1.17.6" source (wr_Counts (result_for compression)) (state_file_of (result_for compression)).

Definition dir_info : file_info := MkFileInfo ModeDir 0 1.
Definition node (compression : string) : dir_node :=
  MkDirNode (MkFileInfo ModeRegular (wr_Size (result_for compression)) 2) (wr_content (result_for compression)) None.
Definition dir (compression : string) : directory :=
  <[wr_FileName (result_for compression) := node compression]>
    {[ManifestFileName := MkDirNode (MkFileInfo ModeRegular 2 3) (bytes_of_string "{}") None]}.

End Sample.

(** ** The theorems *)

Section Theorems.
Context `{Keccak, HeaderRLP, Zstd}.

Lemma stream_of_written `{!ZstdLaws} m node cm rs :
  Compression (mStateFile m) = cm → dn_content node = file_content cm (encode_stream rs) →
  dn_read_err node = None → stream_of m node = MkReader (encode_stream rs) None.
Proof.
  intros Hc Hn He. unfold stream_of, file_content in *. rewrite Hc Hn He.
  case_bool_decide; [|done]. by rewrite zstd_roundtrip.
Qed.

Lemma written_accepts `{!ZstdLaws} now tool geth source f cm ops dir node :
  let rs := ops ≫= op_records in
  let res := result_at (initialChainHash (HeadBefore source) (HeaderRLP_ source)) f cm rs (foldl op_counts zero_counts ops) in
  let m := NewManifest now tool geth source (wr_Counts res) (state_file_of res) in
  Forall op_ok ops → Manifest_Validate m = Ok () → RequireExactLayout dir (bundle_layout m) = Ok () →
  dir !! f = Some node → dn_content node = wr_content res → fi_size (dn_info node) = wr_Size res →
  dn_read_err node = None →
  scan_accepts m dir node rs (MkScanResult (wire_counts rs) (wr_SHA256 res) (wr_RecordChainHash res)).
Proof.
  intros rs res m Ho Hm Hl Hn Hc Hs He.
  assert (Hst : stream_of m node = MkReader (encode_stream rs) None) by (by eapply stream_of_written).
  split; try done.
  - by apply op_records_wf.
  - by rewrite Hst.
  - by rewrite Hst.
  - apply ops_wire_counts.
  - by rewrite Hc.
  - intros Hz. cbn in Hz. rewrite Hc. cbn. unfold file_content. by rewrite bool_decide_eq_true_2.
Qed.

(** C17: A record file written by any successful sequence of writer calls, in
    any environment, is scanned back completely: with the manifest built from
    the writer's result, the scan succeeds, hands exactly the written records
    to the consumer in order, and returns the writer's counts, SHA-256 and
    record-chain hash, for both compressions and both buffer modes. *)
Theorem bundle_roundtrip `{!ZstdLaws} {C} existing compression source ops w res w' now tool geth
    info dir node (consume : bundle_record → M C unit) borrow c c' :
  write_all existing compression (HeadBefore source) (HeaderRLP_ source) ops () w = (Ok res, (), w') →
  let m := NewManifest now tool geth source (wr_Counts res) (state_file_of res) in
  let rs := ops ≫= op_records in
  Manifest_Validate m = Ok () →
  RequireExactLayout dir (bundle_layout m) = Ok () → isDir info = true →
  dir !! wr_FileName res = Some node → dn_content node = wr_content res →
  fi_size (dn_info node) = wr_Size res → dn_read_err node = None →
  steps (accepts_calm consume) rs c c' →
  scanRecords (Ok info) (Ok info) dir dir m consume borrow c calm =
  (Ok (MkScanResult (wire_view (wr_Counts res) (wr_RecordPayloadBytes res))
                    (wr_SHA256 res) (wr_RecordChainHash res)), c', calm).
Proof.
  intros Hw m rs Hm Hl Hi Hn Hc Hs He Hsteps.
  apply write_all_ok in Hw as (f & Hf & Ho & ->).
  rewrite -(ops_wire_counts ops).
  pose proof (written_accepts now tool geth source f compression ops dir node Ho Hm Hl Hn Hc Hs He) as Ha.
  apply (scanRecords_calm _ _ _ node _ _ rs); [done|exact Ha| |done].
  by rewrite (stream_of_written _ _ compression rs).
Qed.

(** Two different inputs with one SHA-256. *)
Definition sha256_collision : Prop := ∃ a b, a ≠ b ∧ sha256 a = sha256 b.



(** The calls of [ops] with every error ignored by the caller. *)
Definition run_ignoring (ops : list writer_op) : M Writer unit :=
  for_each ops (λ op, _ ← attempt (run_op op); mret ()).

Definition poisoned (e : error) (wr : Writer) : Prop := w_bufErr wr = Some e.

Lemma buffer_Write_poisoned e data : keeps (poisoned e) (buffer_Write data).
Proof.
  intros wr w Hp. unfold buffer_Write, mbind, M_bind, gets. by rewrite Hp.
Qed.

Lemma write_chunks_poisoned e fuel payload : keeps (poisoned e) (write_chunks fuel payload).
Proof.
  revert payload. induction fuel as [|fuel IH]; intros [|b p]; cbn [write_chunks];
    eauto 10 using buffer_Write_poisoned with l2.
Qed.

Lemma run_op_poisoned e op : keeps (poisoned e) (run_op op).
Proof.
  destruct op; cbn [run_op]; unfold WriteAccount, WriteStorage, WriteCode, writeRecord, CountCodeReference;
    eauto 25 using buffer_Write_poisoned, write_chunks_poisoned with l2.
Qed.


(** In an undisturbed run the writer accepts exactly the well-formed calls:
    into a directory without the record file, and for a supported compression,
    a sequence of calls yields a result if and only if every record has a
    payload of its kind's size and no account is larger than its consensus
    encoding. *)
Theorem writer_accepts_iff existing compression head hdr ops f :
  file_name_of compression = Ok f → f ∉ existing →
  (∃ res, (write_all existing compression head hdr ops () calm).1.1 = Ok res) ↔ Forall op_ok ops.
Proof.
  intros Hf Hn. split.
  - intros [res Hr]. destruct (write_all existing compression head hdr ops () calm) as [[r []] w'] eqn:E.
    simpl in Hr. subst r. apply write_all_ok in E as (_ & _ & ? & _). done.
  - intros Ho. rewrite (write_all_calm _ _ _ _ _ f) //. by eexists.
Qed.

End Theorems.

(** ** Witnesses *)

Section Witnesses.
Import Sample.

Lemma collect_steps_calm rs l : steps (accepts_calm collect) rs l (l ++ rs).
Proof.
  revert l. induction rs as [|r rs IH]; intros l; [rewrite app_nil_r; constructor|].
  econstructor; [reflexivity|]. specialize (IH (l ++ [r])). by rewrite -app_assoc in IH.
Qed.

Lemma bundle_roundtrip_witness :
  scanRecords (Ok dir_info) (Ok dir_info) (dir "zstd") (dir "zstd") (manifest "zstd") collect true [] calm =
  (Ok (MkScanResult (MkWireCounts 1 1 1 3 12) (wr_SHA256 (result_for "zstd")) (wr_RecordChainHash (result_for "zstd"))),
   [] ++ (ops ≫= op_records), calm).
Proof.
  apply (bundle_roundtrip (H1:=toy_zstd) [] "zstd" source ops calm (result_for "zstd") calm 1 "v1" "v1.17.6" dir_info
           (dir "zstd") (node "zstd") collect true []); try by vm_compute.
  apply collect_steps_calm.
Defined.

Lemma sample_scan compression :
  compression = "none"%string ∨ compression = "zstd"%string →
  ∃ res, scanRecords (Ok dir_info) (Ok dir_info) (dir compression) (dir compression) (manifest compression) collect true [] calm
         = (Ok res, ops ≫= op_records, calm).
Proof. intros [->| ->]; eexists; by vm_compute. Qed.


Definition failed_writer : Writer :=
  MkWriter streamMagic (Some EIO) zero_hash [] zero_counts 0 RecordsFileRaw CompressionNone false.


Lemma writer_accepts_iff_witness :
  (∃ res, (write_all [] "zstd" head header_rlp ops () calm).1.1 = Ok res) ↔ Forall op_ok ops.
Proof.
  apply (writer_accepts_iff [] "zstd" head header_rlp ops RecordsFileZstd); [done|apply not_elem_of_nil].
Defined.


End Witnesses.
