(* ===== verification/Account.v ===== *)
(** * Account payloads ([internal/bundle/account.go])

    The slim account encoding of bundles. A nil account is [None]. The two
    codecs are inverse to each other on the accounts a state can hold, and a
    decoded payload is the only one its account has. *)

From S2P Require Import Prelude Geth Instances.

Section Account.
Context `{AccountRLP, EmptyHashes}.

(** The optional fields of the slim form: empty stands for the empty hash. *)
Definition slim_root (root : Hash) : bytes :=
  if bool_decide (root = EmptyRootHash) then [] else hash_bytes root.
Definition slim_code (codeHash : bytes) : bytes :=
  if bytes_equal codeHash (hash_bytes EmptyCodeHash) then [] else codeHash.
Definition full_root (root : bytes) : Hash :=
  if (length root =? 0)%nat then EmptyRootHash else BytesToHash root.
Definition full_code (codeHash : bytes) : bytes :=
  if (length codeHash =? 0)%nat then hash_bytes EmptyCodeHash else codeHash.

Definition EncodeAccount (account : option StateAccount) : result bytes :=
  match account with
  | None => Err (EMsg "account is nil")
  | Some account =>
      match acc_Balance account with
      | None => Err (EMsg "account balance is nil")
      | Some _ =>
          _ ← reject_if (negb (length (acc_CodeHash account) =? HashLength)%nat) "account code hash has wrong length";
          let slim := MkSlimAccount (acc_Nonce account) (acc_Balance account)
                                    (slim_root (acc_Root account)) (slim_code (acc_CodeHash account)) in
          wrap_err "encode slim account RLP" (rlp_encode_slim slim)
      end
  end.

(** The length test of an optional 32-byte field. *)
Definition bad_optional_hash (data : bytes) : bool :=
  negb (length data =? 0)%nat && negb (length data =? HashLength)%nat.

Definition DecodeAccount (data : bytes) : result (StateAccount * bytes) :=
  slim ← wrap_err "decode slim account RLP" (rlp_decode_slim data);
  match slim_Balance slim with
  | None => Err (EMsg "account balance is nil")
  | Some _ =>
      _ ← reject_if (bad_optional_hash (slim_Root slim)) "account storage root has wrong length";
      _ ← reject_if (bad_optional_hash (slim_CodeHash slim)) "account code hash has wrong length";
      _ ← reject_if (bytes_equal (slim_Root slim) (hash_bytes EmptyRootHash))
            "account explicitly encodes the empty storage root";
      _ ← reject_if (bytes_equal (slim_CodeHash slim) (hash_bytes EmptyCodeHash))
            "account explicitly encodes the empty code hash";
      let account := MkStateAccount (slim_Nonce slim) (slim_Balance slim)
                                    (full_root (slim_Root slim)) (full_code (slim_CodeHash slim)) in
      fullRLP ← wrap_err "encode full account RLP" (rlp_encode_account account);
      Ok (account, fullRLP)
  end.

End Account.

(** ** Lemmas *)

Section AccountLemmas.
Context `{AccountRLP, !AccountRLPLaws, EmptyHashes}.

Lemma bad_optional_hash_ok d :
  bad_optional_hash d = false ↔ d = [] ∨ length d = HashLength.
Proof.
  unfold bad_optional_hash. rewrite andb_false_iff !negb_false_iff !Nat.eqb_eq length_zero_iff_nil. done.
Qed.

Lemma slim_full_root d :
  bad_optional_hash d = false → bytes_equal d (hash_bytes EmptyRootHash) = false → slim_root (full_root d) = d.
Proof.
  rewrite bad_optional_hash_ok. intros Hl Hne%bool_decide_eq_false. unfold slim_root, full_root.
  destruct Hl as [->|Hl]; [by rewrite bool_decide_eq_true_2|]. rewrite Hl /=.
  case_bool_decide as E; [|by apply BytesToHash_exact]. by rewrite -E BytesToHash_exact in Hne.
Qed.

Lemma full_slim_root root : full_root (slim_root root) = root.
Proof.
  unfold slim_root, full_root. case_bool_decide; [done|].
  by rewrite length_hash_bytes /= BytesToHash_hash.
Qed.

Lemma slim_root_ok root :
  bad_optional_hash (slim_root root) = false ∧ bytes_equal (slim_root root) (hash_bytes EmptyRootHash) = false.
Proof.
  rewrite bad_optional_hash_ok. unfold slim_root. case_bool_decide as E.
  - split; [by left|]. apply bool_decide_eq_false. intros E'. apply (f_equal length) in E'.
    by rewrite length_hash_bytes in E'.
  - split; [right; by apply length_hash_bytes|]. apply bool_decide_eq_false. intros E'.
    by apply hash_bytes_inj in E'.
Qed.

Lemma slim_full_code d :
  bad_optional_hash d = false → bytes_equal d (hash_bytes EmptyCodeHash) = false →
  slim_code (full_code d) = d ∧ length (full_code d) = HashLength.
Proof.
  rewrite bad_optional_hash_ok. intros Hl Hne. unfold slim_code, full_code.
  destruct Hl as [->|Hl]; simpl.
  - split; [|apply length_hash_bytes]. by rewrite /bytes_equal bool_decide_eq_true_2.
  - rewrite Hl /= Hl. by rewrite Hne.
Qed.

Lemma full_slim_code d :
  length d = HashLength →
  full_code (slim_code d) = d ∧ bad_optional_hash (slim_code d) = false ∧
  bytes_equal (slim_code d) (hash_bytes EmptyCodeHash) = false.
Proof.
  intros Hl. rewrite bad_optional_hash_ok. unfold full_code, slim_code.
  destruct (bytes_equal d (hash_bytes EmptyCodeHash)) eqn:E.
  - apply bool_decide_eq_true in E as ->. split; [done|]. split; [by left|].
    apply bool_decide_eq_false. intros E'. apply (f_equal length) in E'. by rewrite length_hash_bytes in E'.
  - rewrite Hl. by auto.
Qed.

(** What [DecodeAccount] accepts, and what it returns. *)
Lemma DecodeAccount_ok data a full :
  DecodeAccount data = Ok (a, full) →
  EncodeAccount (Some a) = Ok data ∧ rlp_encode_account a = Ok full ∧
  length (acc_CodeHash a) = HashLength ∧ account_ok a.
Proof.
  unfold DecodeAccount. intros Hd. minv. destruct x as [nonce bal root code].
  match goal with Hx : rlp_decode_slim _ = _ |- _ => apply slim_encode_decode in Hx as [[Hn Hb] He] end.
  cbn [slim_Nonce slim_Balance slim_Root slim_CodeHash] in *.
  destruct bal as [v|]; [|done]. minv.
  destruct (slim_full_code code) as [Hc Hcl]; [done..|].
  unfold EncodeAccount. cbn [acc_Nonce acc_Balance acc_Root acc_CodeHash].
  rewrite Hcl slim_full_root // Hc. by rewrite /= He.
Qed.

(** Every account of a state is encodable, and decodes to itself. *)
Lemma EncodeAccount_ok a :
  account_ok a → length (acc_CodeHash a) = HashLength →
  ∃ data full, EncodeAccount (Some a) = Ok data ∧ rlp_encode_account a = Ok full ∧ DecodeAccount data = Ok (a, full).
Proof.
  intros Ha Hl. destruct (account_encodes a Ha) as [full Hf]. destruct Ha as [Hn Hb].
  destruct a as [nonce bal root code]. cbn [acc_Nonce acc_Balance acc_Root acc_CodeHash] in *.
  destruct bal as [v|]; [|done].
  destruct (slim_encodes (MkSlimAccount nonce (Some v) (slim_root root) (slim_code code))) as [d Hd]; [done|].
  exists d, full. unfold EncodeAccount, DecodeAccount. cbn [acc_Nonce acc_Balance acc_Root acc_CodeHash].
  rewrite Hl /= Hd. split; [done|]. split; [done|].
  rewrite (slim_decode_encode _ _ _ Hd) /=; [|done].
  destruct (slim_root_ok root) as [-> ->]. destruct (full_slim_code code Hl) as (Hfc & -> & ->).
  by rewrite /= full_slim_root Hfc Hf.
Qed.

(** C32: The slim account codec is a bijection between payloads and accounts:
    [DecodeAccount] returns the account [a] (with its consensus encoding)
    exactly on the one payload [EncodeAccount] produces for [a], for every
    account with a 64-bit nonce, a 256-bit balance and a 32-byte code hash;
    so no account has two payloads and no payload two accounts. *)
Theorem account_codec_bijection data a full :
  DecodeAccount data = Ok (a, full) ↔
  EncodeAccount (Some a) = Ok data ∧ rlp_encode_account a = Ok full ∧ account_ok a.
Proof.
  split; [by intros (? & ? & _ & ?)%DecodeAccount_ok|]. intros (He & Hf & Ha).
  assert (Hl : length (acc_CodeHash a) = HashLength).
  { unfold EncodeAccount in He. destruct (acc_Balance a); [|done]. minv.
    by match goal with Hx : negb _ = false |- _ => apply negb_false_iff, Nat.eqb_eq in Hx end. }
  destruct (EncodeAccount_ok a Ha Hl) as (d & f & Hd & Hf' & Hdec). congruence.
Qed.

End AccountLemmas.

Lemma account_codec_bijection_witness :
  let a := MkStateAccount 3 (Some 5) (EmptyRootHash (EmptyHashes:=toy_empty))
             (hash_bytes (EmptyCodeHash (EmptyHashes:=toy_empty))) in
  ∃ data full, DecodeAccount (H:=toy_accounts) (H0:=toy_empty) data = Ok (a, full).
Proof.
  do 2 eexists. apply (account_codec_bijection (H:=toy_accounts) (H1:=toy_empty)).
  split; [by vm_compute|]. split; [by vm_compute|]. split; by vm_compute.
Defined.
