(* ===== verification/StateTrie.v ===== *)
(** * State entries: visitors, trie-node sinks, entry validators

    What [bundle.go], [state.go] and [state_trie.go] share: the [StateVisitor]
    and [trieNodeSink] interfaces (records of operations over an environment
    [V]), the stack tries that report their nodes to a sink with a sticky
    error ([newTraversalStackTrie]), the validators of storage values and
    account leaves, [hashSet], and the events a visitor and a sink receive. *)

From S2P Require Import Prelude Geth Manifest Records.

(** ** Interfaces *)

(** [StateVisitor]; [AccountFromBundle] is the optional [bundleAccountVisitor]
    extension. *)
Record StateVisitor (V : Type) := MkVisitor {
  v_Account : Hash → StateAccount → bytes → M V unit;
  v_Storage : Hash → Hash → bytes → M V unit;
  v_Code : Hash → Hash → bytes → M V unit;
  v_AccountFromBundle : option (Hash → StateAccount → bytes → bytes → M V unit)
}.
Arguments MkVisitor {V}.
Arguments v_Account {V}.
Arguments v_Storage {V}.
Arguments v_Code {V}.
Arguments v_AccountFromBundle {V}.

Record trieNodeSink (V : Type) := MkSink { TrieNode : Hash → bytes → Hash → bytes → M V unit }.
Arguments MkSink {V}.
Arguments TrieNode {V}.

(** [StateResult]. *)
Record StateResult := MkStateResult { st_Root : Hash; st_Counts : Counts }.
#[export] Instance StateResult_eq_dec : EqDecision StateResult.
Proof. solve_decision. Defined.

(** ** [hashSet] *)

Abbreviation hashSet := (gset Hash).
Definition newHashSet : hashSet := ∅.
Definition hashSet_Has (s : hashSet) (h : Hash) : bool := bool_decide (h ∈ s).
(** The new set and whether the hash was absent. *)
Definition hashSet_Add (s : hashSet) (h : Hash) : hashSet * bool :=
  if hashSet_Has s h then (s, false) else ({[h]} ∪ s, true).

(** ** Node sinks with a sticky error *)

(** The environment of the visitor and the sink, and [nodeWriteErr]. *)
Record sink_state (V : Type) := MkSinkState { env : V; nodeWriteErr : option error }.
Arguments MkSinkState {V}.
Arguments env {V}.
Arguments nodeWriteErr {V}.

Section Sink.
Context `{StackTrie} {V : Type} (nodes : option (trieNodeSink V)).

(** The [OnTrieNode] callback of [newTraversalStackTrie]. *)
Definition on_trie_node (owner : Hash) (n : trie_node) : M (sink_state V) unit :=
  match nodes with
  | None => mret ()
  | Some sink =>
      s ← get;
      match nodeWriteErr s with
      | Some _ => mret ()
      | None =>
          '(r, v) ← run_on (TrieNode sink owner (node_path n) (node_hash n) (node_blob n)) (env s);
          modify (λ _, MkSinkState v (match r with Ok _ => None | Err e => Some e end))
      end
  end.

(** [stack.Update] and [stack.Hash] with the callback installed. *)
Definition traversal_Update (owner : Hash) (st : stack) (key value : bytes) : M (sink_state V) stack :=
  '(st', ns) ← lift (stack_update st key value);
  _ ← for_each ns (on_trie_node owner);
  mret st'.
Definition traversal_Hash (owner : Hash) (st : stack) : M (sink_state V) Hash :=
  _ ← for_each (stack_hash st).2 (on_trie_node owner);
  mret (stack_hash st).1.

(** [if t.nodeWriteErr != nil { return ... }]. *)
Definition check_node_err (msg : string) : M (sink_state V) unit :=
  s ← get;
  match nodeWriteErr s with Some e => fail (EWrap msg e) | None => mret () end.

(** A call on the visitor. *)
Definition call_visitor (m : M V unit) : M (sink_state V) unit :=
  zoom env (λ v s, MkSinkState v (nodeWriteErr s)) m.

End Sink.

(** ** Entry validators *)

Section Validators.
Context `{RLPSplit, AccountRLP}.

Definition validateStorageRLP (data : bytes) : result unit :=
  '(kind, content, rest) ← wrap_err "decode storage value RLP" (rlp_split data);
  _ ← reject_if (negb (bool_decide (kind = RlpByte)) && negb (bool_decide (kind = RlpString)))
        "storage value is not an RLP byte string";
  _ ← reject_if (negb (length rest =? 0)%nat) "storage value has trailing RLP data";
  _ ← reject_if (length content =? 0)%nat "zero storage value must not be present in the trie";
  _ ← reject_if (HashLength <? length content)%nat "storage value is too long";
  reject_if (bool_decide (head content = Some x00)) "storage value contains a leading zero".

Definition decodeFullAccount (data : bytes) : result StateAccount :=
  account ← wrap_err "decode account RLP" (rlp_decode_account data);
  match acc_Balance account with
  | None => Err (EMsg "account balance is nil")
  | Some _ =>
      _ ← reject_if (negb (length (acc_CodeHash account) =? HashLength)%nat) "account code hash has wrong length";
      Ok account
  end.

End Validators.

(** ** Events *)

(** What a visitor and a sink observe. *)
Inductive event :=
| EvAccount (hash : Hash) (account : StateAccount) (fullRLP : bytes) (slimRLP : option bytes)
| EvStorage (accountHash slotHash : Hash) (value : bytes)
| EvCode (accountHash codeHash : Hash) (code : bytes)
| EvNode (owner : Hash) (n : trie_node).

Section StickyError.
Context {V : Type} (nodes : option (trieNodeSink V)).

Lemma on_trie_node_error owner n e s w :
  nodeWriteErr s = Some e → on_trie_node nodes owner n s w = (Ok (), s, w).
Proof.
  intros He. unfold on_trie_node. destruct nodes; [|done].
  unfold mbind, M_bind, get. by rewrite He.
Qed.

Lemma for_each_node_error owner ns e s w :
  nodeWriteErr s = Some e → for_each ns (on_trie_node nodes owner) s w = (Ok (), s, w).
Proof.
  intros He. induction ns as [|n ns IH]; [done|]. cbn [for_each].
  erewrite bind_run; [exact IH|]. by eapply on_trie_node_error.
Qed.

End StickyError.

Section Events.
Context `{StackTrie} {V : Type} (visitor : option (StateVisitor V)) (nodes : option (trieNodeSink V)).

Definition observe (e : event) : M V unit :=
  match e with
  | EvAccount h a full slim =>
      match visitor with
      | None => mret ()
      | Some v =>
          match v_AccountFromBundle v, slim with
          | Some f, Some slim => f h a full slim
          | _, _ => v_Account v h a full
          end
      end
  | EvStorage a s val => match visitor with None => mret () | Some v => v_Storage v a s val end
  | EvCode a h code => match visitor with None => mret () | Some v => v_Code v a h code end
  | EvNode owner n =>
      match nodes with
      | None => mret ()
      | Some s => TrieNode s owner (node_path n) (node_hash n) (node_blob n)
      end
  end.

Definition observed (e : event) (v v' : V) : Prop := ∃ w w', observe e v w = (Ok (), v', w').
Definition observed_calm (e : event) (v v' : V) : Prop := observe e v calm = (Ok (), v', calm).

Definition node_events (owner : Hash) (ns : list trie_node) : list event := map (EvNode owner) ns.

Lemma steps_app {A C} (R : A → C → C → Prop) l1 l2 c c1 c2 :
  steps R l1 c c1 → steps R l2 c1 c2 → steps R (l1 ++ l2) c c2.
Proof. induction 1; [done|]. intros. econstructor; eauto. Qed.

Lemma steps_app_inv {A C} (R : A → C → C → Prop) l1 l2 c c2 :
  steps R (l1 ++ l2) c c2 → ∃ c1, steps R l1 c c1 ∧ steps R l2 c1 c2.
Proof.
  revert c. induction l1 as [|x l1 IH]; intros c; simpl; [intros; eexists; split; [constructor|done]|].
  inversion 1 as [|? ? ? c1 ? HR Hs]; subst. apply IH in Hs as (c3 & ? & ?). exists c3. split; [econstructor|]; eauto.
Qed.

Lemma steps_one {A C} (R : A → C → C → Prop) x c c' : R x c c' → steps R [x] c c'.
Proof. intros. econstructor; [done|constructor]. Qed.

(** Nodes reported without a sticky error were all observed. *)
Lemma for_each_node_ok owner ns s w u s' w' :
  for_each ns (on_trie_node nodes owner) s w = (Ok u, s', w') →
  nodeWriteErr s = None → nodeWriteErr s' = None →
  steps observed (node_events owner ns) (env s) (env s').
Proof.
  revert s w. induction ns as [|n ns IH]; intros s w Hr He He'; cbn [for_each] in Hr; [minv; constructor|].
  apply bind_ok in Hr as ([] & s1 & w1 & Hn & Hr).
  assert (nodeWriteErr s1 = None ∧ observed (EvNode owner n) (env s) (env s1)) as [He1 Ho].
  { unfold observed. cbn [observe]. unfold on_trie_node in Hn. destruct nodes as [sink|].
    - mstep Hn. minv. rewrite He in Hn. minv. match goal with p : _ * V |- _ => destruct p as [r v] end.
      cbn [fst snd] in *. minv. destruct r as [[]|e]; cbn [env nodeWriteErr] in *; [eauto|].
      erewrite for_each_node_error in Hr; [|reflexivity]. minv. by simplify_eq/=.
    - minv. split; [done|]. by exists calm, calm. }
  econstructor; [exact Ho|]. by eapply IH.
Qed.

Lemma for_each_node_calm owner ns s v' :
  nodeWriteErr s = None → steps observed_calm (node_events owner ns) (env s) v' →
  for_each ns (on_trie_node nodes owner) s calm = (Ok (), MkSinkState v' None, calm).
Proof.
  revert s. induction ns as [|n ns IH]; intros [v e] He Hs; cbn [nodeWriteErr env] in *; subst e.
  - inversion Hs; subst. done.
  - inversion Hs as [|? ? ? v1 ? Ho Hs']; subst. cbn [for_each].
    erewrite bind_run; [by apply (IH (MkSinkState v1 None))|].
    unfold observed_calm in Ho. cbn [observe] in Ho. unfold on_trie_node. destruct nodes as [sink|].
    + erewrite bind_run; [|reflexivity]. cbn [nodeWriteErr env].
      erewrite bind_run; [|by apply run_on_run]. done.
    + by minv.
Qed.

Lemma traversal_Update_ok owner st k v s w st' s' w' :
  traversal_Update nodes owner st k v s w = (Ok st', s', w') →
  nodeWriteErr s = None → nodeWriteErr s' = None →
  ∃ ns, stack_update st k v = Ok (st', ns) ∧ steps observed (node_events owner ns) (env s) (env s').
Proof.
  unfold traversal_Update. intros Hr He He'. mstep Hr. minv. destruct x as [st1 ns]. minv.
  exists ns. split; [done|]. by eapply for_each_node_ok.
Qed.

Lemma traversal_Hash_ok owner st s w h s' w' :
  traversal_Hash nodes owner st s w = (Ok h, s', w') →
  nodeWriteErr s = None → nodeWriteErr s' = None →
  h = (stack_hash st).1 ∧ steps observed (node_events owner (stack_hash st).2) (env s) (env s').
Proof.
  unfold traversal_Hash. intros Hr He He'. minv. split; [done|]. by eapply for_each_node_ok.
Qed.

Lemma check_node_err_ok (s : sink_state V) msg w u s' w' :
  check_node_err msg s w = (Ok u, s', w') → nodeWriteErr s = None ∧ s' = s.
Proof. unfold check_node_err. intros Hr. mstep Hr. minv. destruct (nodeWriteErr s); by minv. Qed.

Lemma traversal_Update_calm owner st k v s st' ns v' :
  nodeWriteErr s = None → stack_update st k v = Ok (st', ns) →
  steps observed_calm (node_events owner ns) (env s) v' →
  traversal_Update nodes owner st k v s calm = (Ok st', MkSinkState v' None, calm).
Proof.
  intros He Hu Hs. unfold traversal_Update. rewrite Hu. erewrite bind_run; [|reflexivity]. cbv beta iota.
  erewrite bind_run; [|by apply for_each_node_calm]. done.
Qed.

Lemma traversal_Hash_calm owner st s v' :
  nodeWriteErr s = None → steps observed_calm (node_events owner (stack_hash st).2) (env s) v' →
  traversal_Hash nodes owner st s calm = (Ok (stack_hash st).1, MkSinkState v' None, calm).
Proof.
  intros He Hs. unfold traversal_Hash. erewrite bind_run; [|by apply for_each_node_calm]. done.
Qed.

End Events.
