(* ===== verification/Consumer.v ===== *)
(** * Semantic scan of a bundle ([internal/migration/bundle.go])

    [recordConsumer] turns the record stream back into a state: it checks the
    order of accounts and slots, that code is provided once and at its first
    reference, rebuilds every storage trie and the account trie, and compares
    the roots. A pointer to an account is an [option]; dereferencing nil is
    the error [nil_account], which the invariant shows never happens. *)

From S2P Require Import Prelude Sha256 Geth Instances Manifest StrictIO Records Scanner Bundle Account StateTrie.

(** ** Data *)

Record recordConsumer `{StackTrie} (V : Type) := MkConsumer {
  c_sink : sink_state V;
  c_accountStack : stack;
  c_counts : Counts;
  c_knownCodes : hashSet;
  c_haveAccount : bool;
  c_accountHash : Hash;
  c_account : option StateAccount;
  c_accountRLP : bytes;
  c_storage : option stack;
  c_lastAccount : Hash;
  c_lastSlot : Hash;
  c_haveSlot : bool;
  c_codeSeen : bool;
  c_finished : bool
}.
Arguments MkConsumer {_ V}.
Arguments c_sink {_ V}.
Arguments c_accountStack {_ V}.
Arguments c_counts {_ V}.
Arguments c_knownCodes {_ V}.
Arguments c_haveAccount {_ V}.
Arguments c_accountHash {_ V}.
Arguments c_account {_ V}.
Arguments c_accountRLP {_ V}.
Arguments c_storage {_ V}.
Arguments c_lastAccount {_ V}.
Arguments c_lastSlot {_ V}.
Arguments c_haveSlot {_ V}.
Arguments c_codeSeen {_ V}.
Arguments c_finished {_ V}.

Record BundleResult := MkBundleResult {
  br_Manifest : Manifest;
  br_ManifestBytes : bytes;
  br_ManifestSHA256 : Hash;
  br_State : StateResult;
  br_Records : ScanResult
}.

(** ** Operations *)

Section Consumer.
Context `{Keccak, EmptyHashes, AccountRLP, RLPSplit, StackTrie} {V : Type}.
Context (expectedRoot : Hash) (visitor : option (StateVisitor V)) (nodes : option (trieNodeSink V)).

Definition newRecordConsumer (v : V) : recordConsumer V :=
  MkConsumer (MkSinkState v None) stack_new zero_counts newHashSet
             false zero_hash None [] None zero_hash zero_hash false false false.

Definition set_sink (s : sink_state V) (c : recordConsumer V) : recordConsumer V :=
  MkConsumer s (c_accountStack c) (c_counts c) (c_knownCodes c) (c_haveAccount c) (c_accountHash c) (c_account c)
             (c_accountRLP c) (c_storage c) (c_lastAccount c) (c_lastSlot c) (c_haveSlot c) (c_codeSeen c) (c_finished c).
Definition set_accountStack (st : stack) (c : recordConsumer V) : recordConsumer V :=
  MkConsumer (c_sink c) st (c_counts c) (c_knownCodes c) (c_haveAccount c) (c_accountHash c) (c_account c)
             (c_accountRLP c) (c_storage c) (c_lastAccount c) (c_lastSlot c) (c_haveSlot c) (c_codeSeen c) (c_finished c).
Definition set_ccounts (n : Counts) (c : recordConsumer V) : recordConsumer V :=
  MkConsumer (c_sink c) (c_accountStack c) n (c_knownCodes c) (c_haveAccount c) (c_accountHash c) (c_account c)
             (c_accountRLP c) (c_storage c) (c_lastAccount c) (c_lastSlot c) (c_haveSlot c) (c_codeSeen c) (c_finished c).
Definition set_storage (st : option stack) (c : recordConsumer V) : recordConsumer V :=
  MkConsumer (c_sink c) (c_accountStack c) (c_counts c) (c_knownCodes c) (c_haveAccount c) (c_accountHash c) (c_account c)
             (c_accountRLP c) st (c_lastAccount c) (c_lastSlot c) (c_haveSlot c) (c_codeSeen c) (c_finished c).
Definition set_slot (slot : Hash) (c : recordConsumer V) : recordConsumer V :=
  MkConsumer (c_sink c) (c_accountStack c) (c_counts c) (c_knownCodes c) (c_haveAccount c) (c_accountHash c) (c_account c)
             (c_accountRLP c) (c_storage c) (c_lastAccount c) slot true (c_codeSeen c) (c_finished c).
Definition set_code (known : hashSet) (c : recordConsumer V) : recordConsumer V :=
  MkConsumer (c_sink c) (c_accountStack c) (c_counts c) known (c_haveAccount c) (c_accountHash c) (c_account c)
             (c_accountRLP c) (c_storage c) (c_lastAccount c) (c_lastSlot c) (c_haveSlot c) true (c_finished c).
Definition set_finished (c : recordConsumer V) : recordConsumer V :=
  MkConsumer (c_sink c) (c_accountStack c) (c_counts c) (c_knownCodes c) (c_haveAccount c) (c_accountHash c) (c_account c)
             (c_accountRLP c) (c_storage c) (c_lastAccount c) (c_lastSlot c) (c_haveSlot c) (c_codeSeen c) true.
(** The final assignments of [finalizeAccount]. *)
Definition drop_account (c : recordConsumer V) : recordConsumer V :=
  MkConsumer (c_sink c) (c_accountStack c) (c_counts c) (c_knownCodes c) false (c_accountHash c) None
             [] None (c_lastAccount c) (c_lastSlot c) (c_haveSlot c) (c_codeSeen c) (c_finished c).

Definition startAccount (hash : Hash) (account : StateAccount) (fullRLP : bytes) (c : recordConsumer V) : recordConsumer V :=
  MkConsumer (c_sink c) (c_accountStack c) (c_counts c) (c_knownCodes c) true hash (Some account)
             fullRLP None hash (c_lastSlot c) false false (c_finished c).

Definition on_sink {A} (m : M (sink_state V) A) : M (recordConsumer V) A := zoom c_sink set_sink m.

(** Dereference of [c.account]. *)
Definition the_account : M (recordConsumer V) StateAccount :=
  a ← gets c_account;
  match a with Some a => mret a | None => fail (EMsg "nil_account") end.

Definition addCount (typ : byte) (payloadLen : nat) : M (recordConsumer V) unit :=
  modify (λ c, set_ccounts (count_record typ (N.of_nat payloadLen) (c_counts c)) c).

Definition finalizeAccount : M (recordConsumer V) unit :=
  have ← gets c_haveAccount;
  if negb have then mret () else
  hash ← gets c_accountHash;
  storage ← gets c_storage;
  computed ← (match storage with
              | None => mret EmptyRootHash
              | Some st =>
                  computed ← on_sink (traversal_Hash nodes hash st);
                  _ ← on_sink (check_node_err "write final storage trie nodes");
                  mret computed
              end);
  account ← the_account;
  _ ← lift (reject_if (negb (bool_decide (computed = acc_Root account))) "storage root mismatch");
  let expected := BytesToHash (acc_CodeHash account) in
  let expectsCode := negb (bool_decide (expected = EmptyCodeHash)) in
  codeSeen ← gets c_codeSeen;
  _ ← lift (reject_if (negb expectsCode && codeSeen) "account has an unexpected code record");
  _ ← (if expectsCode then
         known ← gets c_knownCodes;
         _ ← lift (reject_if (negb (codeSeen || hashSet_Has known expected)) "code has not been provided");
         modify (λ c, set_ccounts (count_reference (c_counts c)) c)
       else mret ());
  rlp ← gets c_accountRLP;
  stack ← gets c_accountStack;
  stack' ← wrap "rebuild account trie" (on_sink (traversal_Update nodes zero_hash stack (hash_bytes hash) rlp));
  _ ← modify (set_accountStack stack');
  _ ← on_sink (check_node_err "write account trie nodes");
  modify drop_account.

Definition visitAccount (hash : Hash) (account : StateAccount) (fullRLP slimRLP : bytes) : M (recordConsumer V) unit :=
  match visitor with
  | None => mret ()
  | Some v =>
      match v_AccountFromBundle v with
      | Some f => on_sink (call_visitor (f hash account fullRLP slimRLP))
      | None => on_sink (call_visitor (v_Account v hash account fullRLP))
      end
  end.

Definition consumeAccount (record : bundle_record) : M (recordConsumer V) unit :=
  _ ← finalizeAccount;
  c ← get;
  _ ← lift (reject_if ((0 <? Accounts (c_counts c)) &&
                       negb (bool_decide (bytes_lt (hash_bytes (c_lastAccount c)) (hash_bytes (AccountHash record)))))
              "account records are not strictly increasing");
  '(account, fullRLP) ← lift (wrap_err "account" (DecodeAccount (Payload record)));
  _ ← modify (startAccount (AccountHash record) account fullRLP);
  _ ← visitAccount (AccountHash record) account fullRLP (Payload record);
  addCount RecordAccount (length fullRLP).

Definition validateStorageRecord (record : bundle_record) : M (recordConsumer V) unit :=
  c ← get;
  _ ← lift (reject_if (negb (c_haveAccount c)) "storage record appears before an account record");
  _ ← lift (reject_if (c_codeSeen c) "storage record appears after its code record");
  _ ← lift (reject_if (negb (bool_decide (AccountHash record = c_accountHash c))) "storage record belongs to another account");
  account ← the_account;
  _ ← lift (reject_if (bool_decide (acc_Root account = EmptyRootHash)) "account has storage records but an empty storage root");
  _ ← lift (reject_if (c_haveSlot c &&
                       negb (bool_decide (bytes_lt (hash_bytes (c_lastSlot c)) (hash_bytes (SubHash record)))))
              "storage records are not strictly increasing");
  lift (wrap_err "account slot" (validateStorageRLP (Payload record))).

Definition consumeStorage (record : bundle_record) : M (recordConsumer V) unit :=
  _ ← validateStorageRecord record;
  _ ← modify (λ c, match c_storage c with None => set_storage (Some stack_new) c | Some _ => c end);
  hash ← gets c_accountHash;
  storage ← gets c_storage;
  st' ← wrap "rebuild storage trie"
          (on_sink (traversal_Update nodes hash (default stack_new storage) (hash_bytes (SubHash record)) (Payload record)));
  _ ← modify (set_storage (Some st'));
  _ ← on_sink (check_node_err "write storage trie nodes");
  _ ← modify (set_slot (SubHash record));
  _ ← (match visitor with
       | None => mret ()
       | Some v => on_sink (call_visitor (v_Storage v hash (SubHash record) (Payload record)))
       end);
  addCount RecordStorage (length (Payload record)).

Definition validateCodeRecord (record : bundle_record) : M (recordConsumer V) Hash :=
  c ← get;
  _ ← lift (reject_if (negb (c_haveAccount c)) "code record appears before an account record");
  _ ← lift (reject_if (c_codeSeen c) "account has more than one code record");
  account ← the_account;
  let expected := BytesToHash (acc_CodeHash account) in
  _ ← lift (reject_if (bool_decide (expected = EmptyCodeHash)) "account has a code record but its code hash is empty");
  _ ← lift (reject_if (negb (bool_decide (SubHash record = expected))) "code hash mismatch");
  _ ← lift (reject_if (negb (bool_decide (keccak256 (Payload record) = expected))) "code content hash mismatch");
  _ ← lift (reject_if (hashSet_Has (c_knownCodes c) expected) "account repeats code record");
  mret expected.

Definition consumeCode (record : bundle_record) : M (recordConsumer V) unit :=
  expected ← validateCodeRecord record;
  _ ← modify (λ c, set_code (hashSet_Add (c_knownCodes c) expected).1 c);
  hash ← gets c_accountHash;
  _ ← (match visitor with
       | None => mret ()
       | Some v => on_sink (call_visitor (v_Code v hash expected (Payload record)))
       end);
  addCount RecordCode (length (Payload record)).

Definition consume (record : bundle_record) : M (recordConsumer V) unit :=
  finished ← gets c_finished;
  _ ← lift (reject_if finished "record received after semantic scanner finished");
  if bool_decide (Type_ record = RecordAccount) then consumeAccount record
  else if bool_decide (Type_ record = RecordStorage) then consumeStorage record
  else if bool_decide (Type_ record = RecordCode) then consumeCode record
  else fail (EMsg "unknown semantic record type").

Definition finish : M (recordConsumer V) StateResult :=
  finished ← gets c_finished;
  _ ← lift (reject_if finished "semantic scanner is already finished");
  _ ← modify set_finished;
  _ ← finalizeAccount;
  stack ← gets c_accountStack;
  root ← on_sink (traversal_Hash nodes zero_hash stack);
  _ ← on_sink (check_node_err "write final account trie nodes");
  _ ← lift (reject_if (negb (bool_decide (root = expectedRoot))) "bundle state root mismatch");
  counts ← gets c_counts;
  mret (MkStateResult root counts).

End Consumer.

(** [scanBundle] after [LoadManifest]: [manifest] and [manifestBytes] are what
    the first load returned, [manifestAfter] what the second returns. *)
Definition scanBundle `{Keccak, EmptyHashes, AccountRLP, RLPSplit, StackTrie, HeaderRLP, Zstd} {V : Type}
    (before opened : result file_info) (dir dir' : directory)
    (loaded : result (Manifest * bytes)) (reloaded : result (Manifest * bytes))
    (visitor : option (StateVisitor V)) (nodes : option (trieNodeSink V)) (borrowRecords : bool) : M V BundleResult :=
  '(manifest, manifestBytes) ← lift loaded;
  v ← get;
  let consumer := newRecordConsumer v in
  '(r, consumer) ←
    run_on ((if borrowRecords then ScanRecordsBorrowed else ScanRecords)
              before opened dir dir' manifest (consume visitor nodes)) consumer;
  _ ← modify (λ _, env (c_sink consumer));
  records ← lift r;
  '(_, manifestAfter) ← lift (wrap_err "re-read bundle manifest" reloaded);
  _ ← lift (reject_if (negb (bytes_equal manifestAfter manifestBytes)) "bundle manifest changed during record scan");
  '(r, consumer) ← run_on (finish (StateRoot (HeadBefore (Source manifest))) nodes) consumer;
  _ ← modify (λ _, env (c_sink consumer));
  state ← lift r;
  _ ← lift (reject_if (negb (bool_decide (st_Counts state = mCounts manifest))) "semantic counts mismatch");
  mret (MkBundleResult manifest manifestBytes (sha256 manifestBytes) state records).

(** ** Specification: the states a record stream stands for *)

(** An account with its payloads, its storage in order, and the code record it
    introduces, if any. *)
Record entry := MkEntry {
  e_hash : Hash;
  e_account : StateAccount;
  e_full : bytes;
  e_slim : bytes;
  e_slots : list (Hash * bytes);
  e_code : option bytes
}.

Definition e_codeHash (e : entry) : Hash := BytesToHash (acc_CodeHash (e_account e)).

(** Its records, in order. *)
Definition slot_record (h : Hash) (kv : Hash * bytes) : bundle_record := MkRecord RecordStorage h kv.1 kv.2.
Definition code_records (e : entry) : list bundle_record :=
  match e_code e with Some code => [MkRecord RecordCode zero_hash (e_codeHash e) code] | None => [] end.
Definition entry_records (e : entry) : list bundle_record :=
  MkRecord RecordAccount (e_hash e) zero_hash (e_slim e) :: map (slot_record (e_hash e)) (e_slots e) ++ code_records e.
Definition state_records (es : list entry) : list bundle_record := es ≫= entry_records.

(** Trie leaves. *)
Definition slot_leaves (slots : list (Hash * bytes)) : list (bytes * bytes) :=
  map (λ kv, (hash_bytes kv.1, kv.2)) slots.
Definition account_leaves (es : list entry) : list (bytes * bytes) :=
  map (λ e, (hash_bytes (e_hash e), e_full e)) es.

Definition hash_lt (a b : Hash) : Prop := bytes_lt (hash_bytes a) (hash_bytes b).

(** The code an entry introduces. *)
Definition entry_codes (e : entry) : hashSet :=
  match e_code e with Some _ => {[e_codeHash e]} | None => ∅ end.
Definition state_codes (es : list entry) : hashSet := ⋃ (map entry_codes es).

Section Spec.
Context `{Keccak, EmptyHashes, AccountRLP, RLPSplit, StackTrie}.

Definition stack_after (leaves : list (bytes * bytes)) : stack :=
  match stack_feed stack_new leaves with Ok (st, _) => st | Err _ => stack_new end.

(** The root of a storage trie as the stack trie computes it. *)
Definition slots_root (slots : list (Hash * bytes)) : Hash :=
  match slots with [] => EmptyRootHash | _ => (stack_hash (stack_after (slot_leaves slots))).1 end.

(** The part of an entry that does not depend on what follows its records. *)
Record entry_open (known : hashSet) (e : entry) : Prop := {
  eo_account : DecodeAccount (e_slim e) = Ok (e_account e, e_full e);
  eo_sorted : StronglySorted hash_lt (e_slots e).*1;
  eo_values : Forall (λ kv, validateStorageRLP kv.2 = Ok ()) (e_slots e);
  eo_root : e_slots e ≠ [] → acc_Root (e_account e) ≠ EmptyRootHash;
  eo_code : ∀ code, e_code e = Some code →
    e_codeHash e ≠ EmptyCodeHash ∧ keccak256 code = e_codeHash e ∧ e_codeHash e ∉ known
}.

(** A complete entry, after accounts that provided the codes [known]. *)
Record entry_wf (known : hashSet) (e : entry) : Prop := {
  ew_open : entry_open known e;
  ew_root : acc_Root (e_account e) = slots_root (e_slots e);
  ew_code : e_codeHash e = EmptyCodeHash ∨ e_codeHash e ∈ known ∪ entry_codes e
}.

Fixpoint entries_wf (known : hashSet) (es : list entry) : Prop :=
  match es with
  | [] => True
  | e :: es' => entry_wf known e ∧ entries_wf (known ∪ entry_codes e) es'
  end.

(** A state: accounts in strictly increasing order of their hashes, every
    entry well formed, with root [root]. *)
Record state_wf (es : list entry) (root : Hash) : Prop := {
  sw_sorted : StronglySorted hash_lt (map e_hash es);
  sw_entries : entries_wf ∅ es;
  sw_root : (stack_hash (stack_after (account_leaves es))).1 = root
}.

(** Its counts. *)
Definition open_counts (c : Counts) (e : entry) : Counts :=
  let c := count_record RecordAccount (blen (e_full e)) c in
  let c := foldl (λ c kv, count_record RecordStorage (blen kv.2) c) c (e_slots e) in
  match e_code e with Some code => count_record RecordCode (blen code) c | None => c end.
Definition entry_counts (c : Counts) (e : entry) : Counts :=
  let c := open_counts c e in
  if bool_decide (e_codeHash e = EmptyCodeHash) then c else count_reference c.
Definition state_counts (es : list entry) : Counts := foldl entry_counts zero_counts es.

(** What the visitor and the node sink observe. *)
Fixpoint slots_trace (h : Hash) (st : stack) (slots : list (Hash * bytes)) : list event :=
  match slots with
  | [] => []
  | (k, v) :: slots' =>
      match stack_update st (hash_bytes k) v with
      | Ok (st', ns) => node_events h ns ++ [EvStorage h k v] ++ slots_trace h st' slots'
      | Err _ => []
      end
  end.
Definition open_trace (e : entry) : list event :=
  EvAccount (e_hash e) (e_account e) (e_full e) (Some (e_slim e)) ::
  slots_trace (e_hash e) stack_new (e_slots e) ++
  match e_code e with Some code => [EvCode (e_hash e) (e_codeHash e) code] | None => [] end.
Definition close_trace (e : entry) : list event :=
  match e_slots e with [] => [] | _ => node_events (e_hash e) (stack_hash (stack_after (slot_leaves (e_slots e)))).2 end.
Fixpoint entries_trace (st : stack) (es : list entry) : list event :=
  match es with
  | [] => []
  | e :: es' =>
      open_trace e ++ close_trace e ++
      match stack_update st (hash_bytes (e_hash e)) (e_full e) with
      | Ok (st', ns) => node_events zero_hash ns ++ entries_trace st' es'
      | Err _ => []
      end
  end.
Definition state_trace (es : list entry) : list event :=
  entries_trace stack_new es ++ node_events zero_hash (stack_hash (stack_after (account_leaves es))).2.

End Spec.

(** ** Lists grow at the end *)

Section SpecLemmas.
Context `{Keccak, EmptyHashes, AccountRLP, RLPSplit, StackTrie}.

Lemma state_records_snoc es e : state_records (es ++ [e]) = state_records es ++ entry_records e.
Proof. unfold state_records. rewrite bind_app /=. by rewrite app_nil_r. Qed.

Lemma state_codes_snoc es e : state_codes (es ++ [e]) = state_codes es ∪ entry_codes e.
Proof. unfold state_codes. rewrite map_app union_list_app_L /=. set_solver. Qed.

Lemma entries_wf_snoc known es e :
  entries_wf known (es ++ [e]) ↔ entries_wf known es ∧ entry_wf (known ∪ state_codes es) e.
Proof.
  revert known. induction es as [|e' es IH]; intros known; cbn [entries_wf app].
  - unfold state_codes. simpl. rewrite right_id_L. tauto.
  - rewrite IH. replace (known ∪ state_codes (e' :: es)) with (known ∪ entry_codes e' ∪ state_codes es).
    + tauto.
    + unfold state_codes. simpl. set_solver.
Qed.

Lemma state_counts_snoc es e : state_counts (es ++ [e]) = entry_counts (state_counts es) e.
Proof. unfold state_counts. by rewrite foldl_app. Qed.

Lemma account_leaves_snoc es e :
  account_leaves (es ++ [e]) = account_leaves es ++ [(hash_bytes (e_hash e), e_full e)].
Proof. unfold account_leaves. by rewrite map_app. Qed.

Lemma slot_leaves_snoc l k v : slot_leaves (l ++ [(k, v)]) = slot_leaves l ++ [(hash_bytes k, v)].
Proof. unfold slot_leaves. by rewrite map_app. Qed.

Lemma stack_feed_split st l1 l2 st2 ns :
  stack_feed st (l1 ++ l2) = Ok (st2, ns) →
  ∃ st1 n1 n2, stack_feed st l1 = Ok (st1, n1) ∧ stack_feed st1 l2 = Ok (st2, n2).
Proof.
  rewrite stack_feed_app. destruct (stack_feed st l1) as [[st1 n1]|]; [|done]. simpl.
  destruct (stack_feed st1 l2) as [[? n2]|] eqn:E; [|done]. simpl. intros [= <- <-]. eauto.
Qed.

Lemma slots_trace_snoc h st l k v st1 n1 st2 n2 :
  stack_feed st (slot_leaves l) = Ok (st1, n1) → stack_update st1 (hash_bytes k) v = Ok (st2, n2) →
  slots_trace h st (l ++ [(k, v)]) = slots_trace h st l ++ node_events h n2 ++ [EvStorage h k v].
Proof.
  revert st n1. induction l as [|[k' v'] l IH]; intros st n1 Hf Hu; cbn [slots_trace app slot_leaves map] in *.
  - injection Hf as <- <-. rewrite Hu. done.
  - cbn [stack_feed fst snd] in Hf. destruct (stack_update st (hash_bytes k') v') as [[st' ns]|]; [|done]. simpl in Hf.
    fold (slot_leaves l) in Hf. destruct (stack_feed st' (slot_leaves l)) as [[s3 n3]|] eqn:E; [|done].
    simpl in Hf. injection Hf as -> <-. erewrite IH; [|done..]. by rewrite -!app_assoc.
Qed.

Lemma entries_trace_snoc st es e st1 n1 st2 n2 :
  stack_feed st (account_leaves es) = Ok (st1, n1) →
  stack_update st1 (hash_bytes (e_hash e)) (e_full e) = Ok (st2, n2) →
  entries_trace st (es ++ [e]) = entries_trace st es ++ open_trace e ++ close_trace e ++ node_events zero_hash n2.
Proof.
  revert st n1. induction es as [|e' es IH]; intros st n1 Hf Hu; cbn [entries_trace app account_leaves map] in *.
  - injection Hf as <- <-. rewrite Hu. by rewrite app_nil_r.
  - cbn [stack_feed] in Hf. destruct (stack_update st _ _) as [[st' ns]|]; [|done]. simpl in Hf.
    fold (account_leaves es) in Hf. destruct (stack_feed st' (account_leaves es)) as [[s3 n3]|] eqn:E; [|done].
    simpl in Hf. injection Hf as -> <-. erewrite IH; [|done..]. by rewrite -!app_assoc.
Qed.

Lemma stack_after_ok leaves st ns : stack_feed stack_new leaves = Ok (st, ns) → stack_after leaves = st.
Proof. unfold stack_after. by intros ->. Qed.

End SpecLemmas.

#[global] Arguments open_trace : simpl never.
#[global] Arguments slot_leaves : simpl never.
#[global] Arguments account_leaves : simpl never.
#[global] Arguments state_codes : simpl never.
#[global] Arguments state_counts : simpl never.
#[global] Arguments open_counts : simpl never.
#[global] Arguments count_record : simpl never.

(** ** The invariant of the consumer *)

Section Invariant.
Context `{Keccak, EmptyHashes, AccountRLP, RLPSplit, StackTrie} {V : Type}.
Context (visitor : option (StateVisitor V)) (nodes : option (trieNodeSink V)).
Implicit Types (c : recordConsumer V).

(** The fields that describe the account being read. *)
Record current c (e : entry) : Prop := {
  cu_have : c_haveAccount c = true;
  cu_hash : c_accountHash c = e_hash e;
  cu_account : c_account c = Some (e_account e);
  cu_rlp : c_accountRLP c = e_full e;
  cu_code : c_codeSeen c = bool_decide (is_Some (e_code e));
  cu_haveSlot : c_haveSlot c = negb (bool_decide (e_slots e = []));
  cu_lastSlot : ∀ kv, last (e_slots e) = Some kv → c_lastSlot c = kv.1;
  cu_storage : match c_storage c with
               | None => e_slots e = []
               | Some st => e_slots e ≠ [] ∧ ∃ ns, stack_feed stack_new (slot_leaves (e_slots e)) = Ok (st, ns)
               end
}.

(** After reading the complete entries [es] and the open entry [cur]. *)
Record cinv (v0 : V) c (es : list entry) (cur : option entry) : Prop := {
  ci_err : nodeWriteErr (c_sink c) = None;
  ci_entries : entries_wf ∅ es;
  ci_open : ∀ e, cur = Some e → entry_open (state_codes es) e;
  ci_sorted : StronglySorted hash_lt (map e_hash (es ++ option_list cur));
  ci_stack : ∃ ns, stack_feed stack_new (account_leaves es) = Ok (c_accountStack c, ns);
  ci_known : c_knownCodes c = state_codes (es ++ option_list cur);
  ci_counts : c_counts c = foldl open_counts (state_counts es) (option_list cur);
  ci_last : ∀ e, last (es ++ option_list cur) = Some e → c_lastAccount c = e_hash e;
  ci_env : steps (observed visitor nodes)
             (entries_trace stack_new es ++ (option_list cur ≫= open_trace)) v0 (env (c_sink c));
  ci_current : match cur with Some e => current c e | None => c_haveAccount c = false end
}.

(** The records read so far. *)
Definition read_records (es : list entry) (cur : option entry) : list bundle_record :=
  state_records (es ++ option_list cur).

Lemma cinv_init v0 : cinv v0 (newRecordConsumer v0) [] None.
Proof.
  split; simpl; try done; try constructor.
  exists []. done.
Qed.

Lemma Accounts_count_record typ n k :
  Accounts (count_record typ n k) = if bool_decide (typ = RecordAccount) then add64 (Accounts k) 1 else Accounts k.
Proof. unfold count_record, count_type. repeat case_bool_decide; simplify_eq; done. Qed.

Lemma Accounts_open_counts k e : Accounts (open_counts k e) = add64 (Accounts k) 1.
Proof.
  unfold open_counts.
  assert (Hs : ∀ l k', Accounts (foldl (λ k0 (kv : Hash * bytes), count_record RecordStorage (blen kv.2) k0) k' l) = Accounts k').
  { induction l as [|kv l IH]; intros k'; [done|]. simpl. by rewrite IH Accounts_count_record. }
  destruct (e_code e); rewrite ?Accounts_count_record ?Hs Accounts_count_record; done.
Qed.

Lemma Accounts_state_counts es : Accounts (state_counts es) = N.of_nat (length es) mod two64.
Proof.
  induction es as [|e es IH] using rev_ind; [done|]. rewrite state_counts_snoc length_app. unfold entry_counts.
  assert (Ha : Accounts (open_counts (state_counts es) e) = N.of_nat (length es + 1) mod two64).
  { rewrite Accounts_open_counts IH add64_mod_l. f_equal. lia. }
  case_bool_decide; exact Ha.
Qed.

Lemma Accounts_nonzero v0 c es cur :
  cinv v0 c es cur → N.of_nat (length (es ++ option_list cur)) < two64 →
  (0 <? Accounts (c_counts c)) = negb (bool_decide (es ++ option_list cur = [])).
Proof.
  intros Hc Hb. rewrite (ci_counts _ _ _ _ Hc).
  assert (Ha : Accounts (foldl open_counts (state_counts es) (option_list cur)) = N.of_nat (length (es ++ option_list cur))).
  { rewrite length_app in Hb. rewrite length_app. destruct cur as [e|]; simpl in Hb; simpl.
    - rewrite Accounts_open_counts Accounts_state_counts add64_mod_l N.mod_small; lia.
    - rewrite Accounts_state_counts N.mod_small; lia. }
  rewrite Ha. destruct (es ++ option_list cur); [done|]. rewrite bool_decide_eq_false_2 //=.
Qed.

(** A call on an optional visitor. *)
Lemma visit_ok (f : StateVisitor V → M V unit) (ev : event) c w u c' w' :
  observe visitor nodes ev = (match visitor with None => mret () | Some v => f v end) →
  (match visitor with None => mret () | Some v => on_sink (call_visitor (f v)) end) c w = (Ok u, c', w') →
  ∃ v', observed visitor nodes ev (env (c_sink c)) v' ∧
        c' = set_sink (MkSinkState v' (nodeWriteErr (c_sink c))) c.
Proof.
  unfold observed. intros -> Hr. destruct visitor as [v|].
  - unfold on_sink, call_visitor in Hr; minv; eauto 10.
  - minv. exists (env (c_sink c)). split; [by exists calm, calm|]. by destruct c as [[]].
Qed.

Lemma visitAccount_ok h a full slim c w u c' w' :
  visitAccount visitor h a full slim c w = (Ok u, c', w') →
  ∃ v', observed visitor nodes (EvAccount h a full (Some slim)) (env (c_sink c)) v' ∧
        c' = set_sink (MkSinkState v' (nodeWriteErr (c_sink c))) c.
Proof.
  intros Hr. apply (visit_ok (λ v, match v_AccountFromBundle v with
    | Some f => f h a full slim | None => v_Account v h a full end) _ _ w u _ w'); [done|].
  rewrite -Hr. unfold visitAccount. destruct visitor as [v|]; [|done]. by destruct (v_AccountFromBundle v).
Qed.

Lemma the_account_ok c w a c' w' :
  the_account c w = (Ok a, c', w') → c_account c = Some a ∧ c' = c ∧ w' = w.
Proof. unfold the_account. intros Hr. mstep Hr. minv. destruct (c_account c); by minv. Qed.

Lemma on_sink_ok {A} (m : M (sink_state V) A) c w a c' w' :
  on_sink m c w = (Ok a, c', w') ↔ ∃ s, m (c_sink c) w = (Ok a, s, w') ∧ c' = set_sink s c.
Proof. apply zoom_ok. Qed.

Lemma sink_state_eta (s : sink_state V) : nodeWriteErr s = None → s = MkSinkState (env s) None.
Proof. destruct s as [v o]. simpl. by intros ->. Qed.

(** The storage trie of the account is closed. *)
Lemma close_storage_ok c e w h c' w' :
  nodeWriteErr (c_sink c) = None → current c e →
  (match c_storage c with
   | None => mret EmptyRootHash
   | Some st =>
       computed ← on_sink (traversal_Hash nodes (c_accountHash c) st);
       _ ← on_sink (check_node_err "write final storage trie nodes");
       mret computed
   end) c w = (Ok h, c', w') →
  h = slots_root (e_slots e) ∧
  ∃ v', steps (observed visitor nodes) (close_trace e) (env (c_sink c)) v' ∧ c' = set_sink (MkSinkState v' None) c.
Proof.
  intros Herr Hcur Hr. pose proof (cu_storage _ _ Hcur) as Hs. unfold close_trace, slots_root.
  destruct (c_storage c) as [st|].
  - destruct Hs as [Hne [ns Hf]]. rewrite (stack_after_ok _ _ _ Hf) -(cu_hash _ _ Hcur).
    mstep Hr. minv. apply on_sink_ok in H4 as (s1 & Ht & ->).
    apply on_sink_ok in H5 as (s2 & Hc & ->). apply check_node_err_ok in Hc as [He ->].
    apply (traversal_Hash_ok visitor) in Ht as [-> Hsteps]; [|done..].
    destruct (e_slots e) as [|kv l] eqn:El; [done|]. split; [done|].
    exists (env s1). split; [done|]. by rewrite -sink_state_eta.
  - rewrite Hs. minv. split; [done|]. exists (env (c_sink c)). split; [constructor|].
    rewrite -sink_state_eta //. by destruct c.
Qed.

(** Code references are counted, and the code must be available. *)
Lemma count_reference_ok expected seen c w u c' w' :
  (if negb (bool_decide (expected = EmptyCodeHash)) then
     known ← gets c_knownCodes;
     _ ← lift (reject_if (negb (seen || hashSet_Has known expected)) "code has not been provided");
     modify (λ c, set_ccounts (count_reference (c_counts c)) c)
   else mret ()) c w = (Ok u, c', w') →
  (expected = EmptyCodeHash ∨ seen = true ∨ expected ∈ c_knownCodes c) ∧
  c' = set_ccounts (if bool_decide (expected = EmptyCodeHash) then c_counts c else count_reference (c_counts c)) c.
Proof.
  intros Hr. case_bool_decide as He; cbn [negb] in Hr.
  - minv. split; [by left|]. by destruct c.
  - minv. split; [|done]. right.
    match goal with Hx : negb (_ || _) = false |- _ => apply negb_false_iff, orb_true_iff in Hx as [|Hx] end; [by left|].
    right. unfold hashSet_Has in *. by apply bool_decide_eq_true in H5.
Qed.

(** The end of an entry: its storage root is rebuilt and matches, its code is
    available, and the account trie has absorbed it. *)
Lemma finalizeAccount_ok v0 c es e w u c' w' :
  cinv v0 c es (Some e) → finalizeAccount nodes c w = (Ok u, c', w') →
  cinv v0 c' (es ++ [e]) None.
Proof.
  intros [Herr Hes Hopen Hsort [ns0 Hst] Hkn Hcnt Hlast Henv Hcur] Hr.
  specialize (Hopen e eq_refl). pose proof Hcur as [Ha1 Ha2 Ha3 Ha4 Ha5 Ha6 Ha7 Ha8].
  unfold finalizeAccount in Hr. mstep Hr. minv. rewrite Ha1 in Hr. cbn [negb] in Hr. mstep Hr. minv.
  match goal with Hx : (match c_storage c with _ => _ end) _ _ = _ |- _ =>
    apply (close_storage_ok c e) in Hx as (-> & v1 & Hclose & ->); [|done..] end.
  match goal with Hx : the_account _ _ = _ |- _ =>
    apply the_account_ok in Hx as (Hacc & -> & ->); cbn [c_account set_sink] in Hacc; rewrite Ha3 in Hacc; injection Hacc as <- end.
  match goal with Hx : (if negb _ then _ else _) _ _ = _ |- _ => apply count_reference_ok in Hx as [Hcode ->] end.
  fold (e_codeHash e) in *. cbn [c_knownCodes c_codeSeen c_accountStack c_accountRLP c_counts set_sink set_ccounts] in *.
  match goal with Hx : on_sink (traversal_Update _ _ _ _ _) _ _ = (Ok ?st, _, _) |- _ =>
    apply on_sink_ok in Hx as (s2 & Hup & ->); rename st into st' end.
  match goal with Hx : on_sink (check_node_err _) _ _ = _ |- _ =>
    apply on_sink_ok in Hx as (s3 & Hck & ->); apply check_node_err_ok in Hck as [He2 ->] end.
  cbn [c_sink set_sink set_accountStack set_ccounts] in *.
  apply (traversal_Update_ok visitor) in Hup as (ns & Hup & Hsteps); [|done..].
  rewrite Ha2 Ha4 in Hup. cbn [env] in *.
  match goal with Hx : negb (bool_decide (_ = acc_Root _)) = false |- _ =>
    apply negb_false_iff, bool_decide_eq_true in Hx; rename Hx into Hroot end.
  assert (Hwf : entry_wf (∅ ∪ state_codes es) e).
  { rewrite left_id_L. split; [done|done|]. rewrite Hkn state_codes_snoc in Hcode.
    destruct Hcode as [?|[Hseen|Hin]]; [by left|right|by right].
    rewrite Ha5 in Hseen. apply bool_decide_eq_true in Hseen as [code Hc]. unfold entry_codes. rewrite Hc. set_solver. }
  split; cbn; rewrite ?app_nil_r; try done.
  - rewrite entries_wf_snoc. done.
  - rewrite account_leaves_snoc. eexists. by eapply stack_feed_snoc.
  - rewrite state_counts_snoc. unfold entry_counts. rewrite Hcnt. done.
  - erewrite entries_trace_snoc; [|done..]. cbn in Henv. rewrite app_nil_r in Henv. rewrite app_assoc.
    eapply steps_app; [done|]. by eapply steps_app.
Qed.

(** [finalizeAccount] with or without an open account. *)
Lemma finalizeAccount_any v0 c es cur w u c' w' :
  cinv v0 c es cur → finalizeAccount nodes c w = (Ok u, c', w') →
  cinv v0 c' (es ++ option_list cur) None.
Proof.
  intros Hc Hr. destruct cur as [e|]; [by eapply finalizeAccount_ok|].
  unfold finalizeAccount in Hr. mstep Hr. minv. rewrite (ci_current _ _ _ _ Hc) in Hr. cbn [negb] in Hr. minv.
  by rewrite app_nil_r.
Qed.

#[local] Instance hash_lt_trans : Transitive hash_lt.
Proof. intros a b d. unfold hash_lt. apply transitivity. Qed.

Lemma consumeAccount_ok v0 c es cur r w u c' w' :
  cinv v0 c es cur → N.of_nat (length (es ++ option_list cur)) < two64 →
  consumeAccount visitor nodes r c w = (Ok u, c', w') →
  ∃ a full, DecodeAccount (Payload r) = Ok (a, full) ∧
    cinv v0 c' (es ++ option_list cur) (Some (MkEntry (AccountHash r) a full (Payload r) [] None)).
Proof.
  intros Hc Hb Hr. unfold consumeAccount in Hr. mstep Hr. minv.
  match goal with Hx : finalizeAccount _ _ _ = _ |- _ => apply (finalizeAccount_any v0 _ es cur) in Hx as Hc1; [|done] end.
  set (es1 := es ++ option_list cur) in *.
  match goal with p : StateAccount * bytes |- _ => destruct p as [a full] end. minv.
  match goal with Hx : visitAccount _ _ _ _ _ _ _ = _ |- _ => apply visitAccount_ok in Hx as (v' & Hob & ->) end.
  match goal with Hx : _ && _ = false |- _ => rename Hx into Hord end.
  erewrite Accounts_nonzero in Hord; [|exact Hc1|by rewrite app_nil_r]. cbn [option_list] in Hord. rewrite app_nil_r in Hord.
  unfold addCount in Hr. minv. exists a, full. split; [done|]. clearbody es1. clear Hc.
  destruct Hc1 as [Herr Hes _ Hsort Hst Hkn Hcnt Hlast Henv Hcur]. cbn in Hsort, Hkn, Hcnt, Hlast, Henv.
  rewrite ?app_nil_r in Hsort, Hkn, Hlast, Henv.
  split; cbn; rewrite ?app_nil_r; try done.
  - intros ? [= <-]. split; cbn; try done; constructor.
  - rewrite map_app. apply StronglySorted_snoc; [apply _|done|]. intros h Hh.
    change (last (e_hash <$> es1) = Some h) in Hh. rewrite fmap_last in Hh. destruct (last es1) as [e1|] eqn:El; [|done]. injection Hh as <-.
    rewrite (Hlast e1 eq_refl) in Hord. apply andb_false_iff in Hord as [Hord|Hord].
    + apply negb_false_iff, bool_decide_eq_true in Hord. by subst.
    + by apply negb_false_iff, bool_decide_eq_true in Hord.
  - rewrite Hkn state_codes_snoc. cbn. by rewrite right_id_L.
  - rewrite Hcnt. done.
  - intros e0. rewrite last_snoc. by intros [= <-].
  - eapply steps_app; [done|]. apply steps_one. done.
Qed.

(** The open entry with one more slot, or with its code. *)
Definition add_slot (e : entry) (k : Hash) (v : bytes) : entry :=
  MkEntry (e_hash e) (e_account e) (e_full e) (e_slim e) (e_slots e ++ [(k, v)]) (e_code e).
Definition add_code (e : entry) (code : bytes) : entry :=
  MkEntry (e_hash e) (e_account e) (e_full e) (e_slim e) (e_slots e) (Some code).

Lemma entry_open_add_slot known e k v :
  entry_open known e → acc_Root (e_account e) ≠ EmptyRootHash →
  (∀ kv, last (e_slots e) = Some kv → hash_lt kv.1 k) → validateStorageRLP v = Ok () →
  entry_open known (add_slot e k v).
Proof.
  intros [Ha Hs Hv Hr Hc] Hroot Hord Hval. split; cbn; try done.
  - rewrite fmap_app. apply StronglySorted_snoc; [apply _|done|]. intros y. rewrite fmap_last.
    destruct (last (e_slots e)) as [kv|]; [|done]. intros [= <-]. by apply Hord.
  - apply Forall_app. split; [done|]. by constructor.
Qed.

Lemma open_counts_add_slot k e key v :
  e_code e = None → open_counts k (add_slot e key v) = count_record RecordStorage (blen v) (open_counts k e).
Proof. intros Hc. unfold open_counts. cbn. rewrite Hc foldl_app. done. Qed.

Lemma open_trace_add_slot e k v st ns st' ns' :
  e_code e = None → stack_feed stack_new (slot_leaves (e_slots e)) = Ok (st, ns) →
  stack_update st (hash_bytes k) v = Ok (st', ns') →
  open_trace (add_slot e k v) = open_trace e ++ node_events (e_hash e) ns' ++ [EvStorage (e_hash e) k v].
Proof.
  intros Hc Hf Hu. unfold open_trace. cbn. rewrite Hc !app_nil_r. erewrite slots_trace_snoc; done.
Qed.

Lemma validateStorageRecord_ok c e r w u c' w' :
  current c e → validateStorageRecord r c w = (Ok u, c', w') →
  c' = c ∧ e_code e = None ∧ AccountHash r = e_hash e ∧ acc_Root (e_account e) ≠ EmptyRootHash ∧
  (∀ kv, last (e_slots e) = Some kv → hash_lt kv.1 (SubHash r)) ∧ validateStorageRLP (Payload r) = Ok ().
Proof.
  intros [Ha1 Ha2 Ha3 Ha4 Ha5 Ha6 Ha7 Ha8] Hr. unfold validateStorageRecord in Hr. mstep Hr. minv.
  match goal with Hx : the_account _ _ = _ |- _ => apply the_account_ok in Hx as (Hacc & -> & ->) end.
  rewrite Ha3 in Hacc. injection Hacc as <-.
  repeat match goal with
  | Hx : bool_decide _ = false |- _ => apply bool_decide_eq_false in Hx
  | Hx : negb (bool_decide _) = false |- _ => apply negb_false_iff, bool_decide_eq_true in Hx
  end.
  split; [done|]. split.
  { rewrite Ha5 in H6. apply bool_decide_eq_false in H6. by destruct (e_code e); [destruct H6|]. }
  split; [by rewrite H7 Ha2|]. split; [done|]. split; [|done].
  intros kv Hkv. match goal with Hx : _ && _ = false |- _ => apply andb_false_iff in Hx as [Hx|Hx]; rename Hx into Hord end.
  - rewrite Ha6 in Hord. apply negb_false_iff, bool_decide_eq_true in Hord. by rewrite Hord in Hkv.
  - apply negb_false_iff, bool_decide_eq_true in Hord. by rewrite (Ha7 _ Hkv) in Hord.
Qed.

(** A fresh storage stack is installed when there is none. *)
Lemma storage_stack c e :
  current c e →
  ∃ st ns, match c_storage c with Some _ => c | None => set_storage (Some stack_new) c end = set_storage (Some st) c ∧
           stack_feed stack_new (slot_leaves (e_slots e)) = Ok (st, ns).
Proof.
  intros Hcur. pose proof (cu_storage _ _ Hcur) as Hs. destruct (c_storage c) as [st|] eqn:Es.
  - destruct Hs as [_ [ns Hf]]. exists st, ns. split; [|done]. destruct c; cbn in *. by subst.
  - exists stack_new, []. by rewrite Hs.
Qed.

Lemma consumeStorage_ok v0 c es cur r w u c' w' :
  cinv v0 c es cur → consumeStorage visitor nodes r c w = (Ok u, c', w') →
  ∃ e, cur = Some e ∧ e_code e = None ∧ AccountHash r = e_hash e ∧
       cinv v0 c' es (Some (add_slot e (SubHash r) (Payload r))).
Proof.
  intros [Herr Hes Hopen Hsort Hst Hkn Hcnt Hlast Henv Hcur] Hr.
  unfold consumeStorage in Hr. mstep Hr. destruct cur as [e|]; cycle 1.
  { exfalso. match goal with Hx : validateStorageRecord _ _ _ = _ |- _ => unfold validateStorageRecord in Hx; mstep Hx end.
    minv. match goal with Hx : negb (c_haveAccount _) = false |- _ => by rewrite Hcur in Hx end. }
  specialize (Hopen e eq_refl).
  match goal with Hx : validateStorageRecord _ _ _ = _ |- _ =>
    apply (validateStorageRecord_ok c e) in Hx as (-> & Hcode & Hah & Hroot & Hord & Hval); [|done] end.
  exists e. split; [done|]. split; [done|]. split; [done|]. pose proof Hcur as [Ha1 Ha2 Ha3 Ha4 Ha5 Ha6 Ha7 Ha8].
  minv.
  destruct (storage_stack c e Hcur) as (st0 & ns0 & Hc0 & Hf). rewrite Hc0 in H7, H11.
  cbn [c_accountHash set_storage c_storage default] in *. rewrite Ha2 in H7, H11.
  apply on_sink_ok in H7 as (s1 & Hup & ->). apply on_sink_ok in H9 as (s2 & Hck & ->).
  apply check_node_err_ok in Hck as [He1 ->]. cbn [c_sink set_sink set_storage] in *.
  apply (traversal_Update_ok visitor) in Hup as (ns & Hup & Hsteps); [|done..].
  apply (visit_ok (λ v, v_Storage v (e_hash e) (SubHash r) (Payload r)) (EvStorage (e_hash e) (SubHash r) (Payload r)))
    in H11 as (v' & Hob & ->); [|done]. unfold addCount in Hr. minv.
  cbn in Henv, Hsort, Hkn, Hcnt, Hlast. split; cbn; try done.
  - intros ? [= <-]. by apply entry_open_add_slot.
  - by rewrite !map_app in Hsort |- *.
  - by rewrite !state_codes_snoc in Hkn |- *.
  - rewrite Hcnt open_counts_add_slot //.
  - intros e0. rewrite last_snoc. intros [= <-]. apply (Hlast e). by rewrite last_snoc.
  - rewrite app_nil_r in Henv. rewrite app_nil_r (open_trace_add_slot _ _ _ _ _ _ _ Hcode Hf Hup) !app_assoc.
    rewrite -(app_assoc _ (node_events _ _)). eapply steps_app; [done|]. eapply steps_app; [done|by apply steps_one].
  - split; cbn; try done.
    + rewrite bool_decide_eq_false_2 //. by destruct (e_slots e).
    + intros kv. rewrite last_snoc. by intros [= <-].
    + split; [by destruct (e_slots e)|]. eexists. rewrite slot_leaves_snoc. by eapply stack_feed_snoc.
Qed.

Lemma consumeCode_ok v0 c es cur r w u c' w' :
  cinv v0 c es cur → consumeCode visitor r c w = (Ok u, c', w') →
  ∃ e, cur = Some e ∧ e_code e = None ∧ SubHash r = e_codeHash e ∧
       cinv v0 c' es (Some (add_code e (Payload r))).
Proof.
  intros [Herr Hes Hopen Hsort Hst Hkn Hcnt Hlast Henv Hcur] Hr.
  unfold consumeCode, validateCodeRecord in Hr. minv. destruct cur as [e|]; cycle 1.
  { exfalso. match goal with Hx : negb (c_haveAccount _) = false |- _ => by rewrite Hcur in Hx end. }
  specialize (Hopen e eq_refl). exists e. split; [done|]. pose proof Hcur as [Ha1 Ha2 Ha3 Ha4 Ha5 Ha6 Ha7 Ha8].
  match goal with Hx : the_account _ _ = _ |- _ =>
    apply the_account_ok in Hx as (Hacc & -> & ->); rewrite Ha3 in Hacc; injection Hacc as <- end.
  fold (e_codeHash e) in *.
  repeat match goal with
  | Hx : bool_decide _ = false |- _ => apply bool_decide_eq_false in Hx
  | Hx : hashSet_Has _ _ = false |- _ => apply bool_decide_eq_false in Hx
  | Hx : negb (bool_decide _) = false |- _ => apply negb_false_iff, bool_decide_eq_true in Hx
  end.
  assert (Hcode : e_code e = None).
  { match goal with Hx : c_codeSeen c = false |- _ => rewrite Ha5 in Hx; apply bool_decide_eq_false in Hx; rename Hx into Hn end.
    destruct (e_code e); [by destruct Hn|done]. }
  cbn [c_accountHash set_code] in *. rewrite Ha2 in H7.
  apply (visit_ok (λ v, v_Code v (e_hash e) (e_codeHash e) (Payload r)) (EvCode (e_hash e) (e_codeHash e) (Payload r)))
    in H7 as (v' & Hob & ->); [|done]. unfold addCount in Hr. minv.
  split; [done|]. split; [done|].
  cbn in Henv, Hsort, Hkn, Hcnt, Hlast. rewrite state_codes_snoc /entry_codes Hcode right_id_L in Hkn.
  split; cbn; try done.
  - intros ? [= <-]. destruct Hopen as [Ho1 Ho2 Ho3 Ho4 _]. split; cbn; try done.
    intros code [= <-]. rewrite -Hkn. done.
  - by rewrite !map_app in Hsort |- *.
  - unfold hashSet_Add, hashSet_Has. rewrite bool_decide_eq_false_2 //= state_codes_snoc Hkn.
    unfold entry_codes, add_code, e_codeHash. cbn. set_solver.
  - rewrite Hcnt. unfold open_counts. cbn. by rewrite Hcode.
  - intros e0. rewrite last_snoc. intros [= <-]. apply (Hlast e). by rewrite last_snoc.
  - rewrite app_nil_r in Henv. rewrite app_nil_r. eapply (steps_app _ _ [_]) in Henv; [|by apply steps_one].
    unfold open_trace in *. cbn in *. rewrite Hcode app_nil_r in Henv. by rewrite -app_assoc in Henv.
Qed.

Lemma entry_records_pos es : (length es ≤ length (state_records es))%nat.
Proof.
  induction es as [|e es IH] using rev_ind; [done|]. rewrite state_records_snoc !length_app /=. lia.
Qed.

Lemma consume_ok v0 c es cur r w u c' w' :
  cinv v0 c es cur → record_wf r → N.of_nat (length (read_records es cur)) < two64 →
  consume visitor nodes r c w = (Ok u, c', w') →
  ∃ es' cur', cinv v0 c' es' cur' ∧ read_records es' cur' = read_records es cur ++ [r].
Proof.
  intros Hc (Hv & Hsub & Hah) Hb Hr. unfold read_records in *. unfold consume in Hr. mstep Hr. minv.
  repeat case_bool_decide; [| | |minv].
  - apply (consumeAccount_ok v0 _ es cur) in Hr as (a & full & _ & Hc'); [|done|].
    + eexists _, _. split; [exact Hc'|]. rewrite state_records_snoc. f_equal.
      unfold entry_records, code_records. cbn. destruct r; cbn in *. subst. by rewrite Hsub.
    + pose proof (entry_records_pos (es ++ option_list cur)). lia.
  - apply (consumeStorage_ok v0 _ es cur) in Hr as (e & -> & Hcode & Hh & Hc'); [|done].
    eexists _, _. split; [exact Hc'|]. cbn. rewrite !state_records_snoc -app_assoc. f_equal.
    unfold entry_records, code_records. cbn. rewrite Hcode map_app !app_nil_r. cbn. do 3 f_equal.
    unfold slot_record. cbn. destruct r; cbn in *. by subst.
  - apply (consumeCode_ok v0 _ es cur) in Hr as (e & -> & Hcode & Hh & Hc'); [|done].
    eexists _, _. split; [exact Hc'|]. cbn. rewrite !state_records_snoc -app_assoc. f_equal.
    unfold entry_records, code_records. cbn. rewrite Hcode app_nil_r. cbn. do 3 f_equal.
    destruct r; cbn in *. subst. rewrite Hah //.
Qed.

Lemma consume_steps v0 rs c es cur c' :
  cinv v0 c es cur → Forall record_wf rs → N.of_nat (length (read_records es cur) + length rs) < two64 →
  steps (accepts (consume visitor nodes)) rs c c' →
  ∃ es' cur', cinv v0 c' es' cur' ∧ read_records es' cur' = read_records es cur ++ rs.
Proof.
  revert c es cur. induction rs as [|r rs IH]; intros c es cur Hc Hw Hb Hs; inversion Hs as [|? ? ? c1 ? (w & w' & Hx) Hy]; subst.
  - exists es, cur. by rewrite app_nil_r.
  - apply Forall_cons in Hw as [Hw Hws].
    apply (consume_ok v0 _ es cur) in Hx as (es1 & cur1 & Hc1 & He); [|done..|lia].
    apply (IH _ es1 cur1) in Hy as (es2 & cur2 & Hc2 & He2); [|done..|].
    + exists es2, cur2. split; [done|]. by rewrite He2 He -app_assoc.
    + rewrite He length_app /=. cbn [length] in Hb. lia.
Qed.

Lemma cinv_finished v0 c es cur : cinv v0 c es cur → cinv v0 (set_finished c) es cur.
Proof.
  intros [? ? ? ? ? ? ? ? ? Hcur]. split; try done. destruct cur; [|done]. destruct Hcur; by split.
Qed.

(** [finish] accepts exactly a complete state with the expected root. *)
Lemma finish_ok v0 c es cur root w res c' w' :
  cinv v0 c es cur → finish root nodes c w = (Ok res, c', w') →
  let all := es ++ option_list cur in
  state_wf all root ∧ res = MkStateResult root (state_counts all) ∧
  steps (observed visitor nodes) (state_trace all) v0 (env (c_sink c')).
Proof.
  intros Hc Hr all. unfold finish in Hr. mstep Hr. minv.
  apply cinv_finished in Hc as Hc0.
  match goal with Hx : finalizeAccount _ _ _ = _ |- _ => apply (finalizeAccount_any v0 _ es cur) in Hx; [|done]; rename Hx into Hc1 end.
  fold all in Hc1.
  match goal with Hx : on_sink (traversal_Hash _ _ _) _ _ = _ |- _ => apply on_sink_ok in Hx as (s1 & Ht & ->) end.
  match goal with Hx : on_sink (check_node_err _) _ _ = _ |- _ => apply on_sink_ok in Hx as (s2 & Hck & ->) end.
  apply check_node_err_ok in Hck as [He ->]. cbn [c_sink set_sink] in *.
  destruct Hc1 as [Herr Hes _ Hsort [ns Hst] Hkn Hcnt Hlast Henv _]. cbn in Hsort, Hcnt, Henv. rewrite !app_nil_r in Hsort, Henv.
  apply (traversal_Hash_ok visitor) in Ht as [-> Hsteps]; [|done..].
  match goal with Hx : negb (bool_decide _) = false |- _ => apply negb_false_iff, bool_decide_eq_true in Hx; rename Hx into Hroot end.
  split; [|split].
  - split; [done|done|]. by rewrite (stack_after_ok _ _ _ Hst).
  - by rewrite Hroot Hcnt.
  - unfold state_trace. rewrite (stack_after_ok _ _ _ Hst). by eapply steps_app.
Qed.

(** ** Soundness of the semantic scan *)

Lemma consumer_sound v0 root rs c w res c' w' :
  Forall record_wf rs → N.of_nat (length rs) < two64 →
  steps (accepts (consume visitor nodes)) rs (newRecordConsumer v0) c →
  finish root nodes c w = (Ok res, c', w') →
  ∃ es, rs = state_records es ∧ state_wf es root ∧ res = MkStateResult root (state_counts es) ∧
        steps (observed visitor nodes) (state_trace es) v0 (env (c_sink c')).
Proof.
  intros Hw Hb Hs Hf.
  apply (consume_steps v0 _ _ [] None) in Hs as (es & cur & Hc & He); [|apply cinv_init|done|done].
  apply (finish_ok v0 _ es cur) in Hf as (H1' & H2' & H3'); [|done].
  exists (es ++ option_list cur). split; [|done]. by rewrite -/(read_records es cur) He.
Qed.

End Invariant.

(** ** Roots of a well-formed state *)

Section Roots.
Context `{Keccak, EmptyHashes, AccountRLP, !AccountRLPLaws, RLPSplit, StackTrie}.
Context (trie_root : list (bytes * bytes) → Hash) `{!StackTrieLaws trie_root}.

(** Every slot value is a possible record payload. *)
Definition values_nonempty (es : list entry) : Prop :=
  Forall (λ e, Forall (λ kv, kv.2 ≠ []) (e_slots e)) es.

Lemma hash_lt_leaves {A} (l : list (Hash * A)) (f : Hash * A → bytes) :
  StronglySorted hash_lt l.*1 → StronglySorted bytes_lt (map (λ kv, (hash_bytes kv.1, f kv)) l).*1.
Proof.
  induction l as [|[k v] l IH]; cbn; [constructor|]. inversion 1 as [|? ? Hs Hf]; subst.
  constructor; [by apply IH|]. rewrite !Forall_fmap in Hf |- *. clear -Hf. induction l; constructor; inversion Hf; subst; auto.
Qed.

Lemma slot_leaves_ok slots :
  StronglySorted hash_lt slots.*1 → Forall (λ kv, kv.2 ≠ []) slots → leaves_ok (slot_leaves slots).
Proof.
  intros Hs Hv. split; [by apply hash_lt_leaves|].
  unfold slot_leaves. apply Forall_fmap. eapply Forall_impl; [exact Hv|]. intros [k v] Hne.
  split; [apply length_hash_bytes|done].
Qed.

Lemma entries_wf_open known es e : entries_wf known es → e ∈ es → ∃ known', entry_wf known' e.
Proof.
  revert known. induction es as [|e' es IH]; intros known Hw Hin; [by apply elem_of_nil in Hin|].
  destruct Hw as [Hw Hws]. apply elem_of_cons in Hin as [->|Hin]; [by eexists|by eapply IH].
Qed.

Lemma account_leaves_ok known es :
  StronglySorted hash_lt (map e_hash es) → entries_wf known es → leaves_ok (account_leaves es).
Proof.
  intros Hs Hw. split.
  - clear Hw. induction es as [|e es IH]; cbn; [constructor|]. inversion Hs as [|? ? Hs' Hf]; subst.
    constructor; [by apply IH|]. clear -Hf. induction es; constructor; inversion Hf; subst; auto.
  - unfold account_leaves. apply Forall_fmap, Forall_forall. intros e He. cbn.
    split; [apply length_hash_bytes|].
    destruct (entries_wf_open _ _ _ Hw He) as (k & [[Hd _ _ _ _] _ _]).
    apply DecodeAccount_ok in Hd as (_ & Hf & _). by eapply account_nonempty.
Qed.

Lemma slots_root_trie slots :
  StronglySorted hash_lt slots.*1 → Forall (λ kv, kv.2 ≠ []) slots →
  slots_root slots = trie_root (slot_leaves slots).
Proof.
  intros Hs Hv. pose proof (slot_leaves_ok _ Hs Hv) as Hl. unfold slots_root. destruct slots as [|kv l].
  - symmetry. apply stack_root_empty.
  - destruct (stack_feed_ok _ Hl) as (st & ns & Hf). rewrite (stack_after_ok _ _ _ Hf). by eapply stack_root.
Qed.

(** The root of a well-formed state is the trie root of its accounts, and
    every account's storage root is the trie root of its slots. *)
Lemma state_wf_roots es root :
  state_wf es root → values_nonempty es →
  root = trie_root (account_leaves es) ∧
  Forall (λ e, acc_Root (e_account e) = trie_root (slot_leaves (e_slots e))) es.
Proof.
  intros [Hs Hw Hr] Hv. pose proof (account_leaves_ok _ _ Hs Hw) as Hl. split.
  - destruct (stack_feed_ok _ Hl) as (st & ns & Hf). rewrite (stack_after_ok _ _ _ Hf) in Hr. rewrite -Hr.
    by eapply stack_root.
  - apply Forall_forall. intros e He. destruct (entries_wf_open _ _ _ Hw He) as (k & [[_ Ho _ _ _] Hroot _]).
    rewrite Hroot. apply slots_root_trie; [done|]. by apply (proj1 (Forall_forall _ _) Hv).
Qed.

End Roots.

Lemma record_payload_nonempty r : record_wf r → Payload r ≠ [].
Proof.
  intros [Hv _]. apply validatePayloadLength_ok in Hv as (_ & Hp & _). unfold blen in Hp. by destruct (Payload r).
Qed.

Lemma state_records_values es : Forall record_wf (state_records es) → values_nonempty es.
Proof.
  induction es as [|e es IH] using rev_ind; [constructor|]. rewrite state_records_snoc Forall_app.
  intros [Hes He]. apply Forall_app. split; [by apply IH|]. constructor; [|constructor].
  unfold entry_records in He. apply Forall_cons in He as [_ He]. apply Forall_app in He as [He _].
  rewrite Forall_fmap in He. eapply Forall_impl; [exact He|]. intros kv Hkv. by apply record_payload_nonempty in Hkv.
Qed.

(** ** Completeness of the semantic scan *)

Section Complete.
Context `{Keccak, EmptyHashes, AccountRLP, !AccountRLPLaws, RLPSplit, StackTrie} {V : Type}.
Context (trie_root : list (bytes * bytes) → Hash) `{!StackTrieLaws trie_root}.
Context (visitor : option (StateVisitor V)) (nodes : option (trieNodeSink V)).
(** An undisturbed visitor and sink whose calls succeed and keep [P]. *)
Context (P : V → Prop).
Hypothesis visitor_total : ∀ ev v, P v → ∃ v', observe visitor nodes ev v calm = (Ok (), v', calm) ∧ P v'.
Implicit Types (c : recordConsumer V).

Record ready (fin : bool) (v0 : V) c (es : list entry) (cur : option entry) : Prop := {
  rd_inv : cinv visitor nodes v0 c es cur;
  rd_open : c_finished c = fin;
  rd_env : P (env (c_sink c))
}.

Lemma events_progress evs v : P v → ∃ v', steps (observed_calm visitor nodes) evs v v' ∧ P v'.
Proof.
  revert v. induction evs as [|ev evs IH]; intros v Hv; [exists v; split; [constructor|done]|].
  destruct (visitor_total ev v Hv) as (v1 & Ho & H1'). destruct (IH v1 H1') as (v2 & Hs & H2').
  exists v2. split; [|done]. by econstructor.
Qed.

Lemma update_progress owner st k v st' ns s :
  nodeWriteErr s = None → P (env s) → stack_update st k v = Ok (st', ns) →
  ∃ s', traversal_Update nodes owner st k v s calm = (Ok st', s', calm) ∧ nodeWriteErr s' = None ∧ P (env s').
Proof.
  intros He Hp Hu. destruct (events_progress (node_events owner ns) (env s) Hp) as (v' & Hs & Hp').
  eexists. split; [by eapply traversal_Update_calm|]. done.
Qed.

Lemma hash_progress owner st s :
  nodeWriteErr s = None → P (env s) →
  ∃ s', traversal_Hash nodes owner st s calm = (Ok (stack_hash st).1, s', calm) ∧ nodeWriteErr s' = None ∧ P (env s').
Proof.
  intros He Hp. destruct (events_progress (node_events owner (stack_hash st).2) (env s) Hp) as (v' & Hs & Hp').
  eexists. split; [by eapply traversal_Hash_calm|]. done.
Qed.

Lemma check_node_err_calm (s : sink_state V) msg :
  nodeWriteErr s = None → check_node_err msg s calm = (Ok (), s, calm).
Proof. intros He. unfold check_node_err. erewrite bind_run; [|reflexivity]. by rewrite He. Qed.

Lemma visit_progress (f : StateVisitor V → M V unit) ev c :
  observe visitor nodes ev = (match visitor with None => mret () | Some v => f v end) → P (env (c_sink c)) →
  ∃ v', (match visitor with None => mret () | Some v => on_sink (call_visitor (f v)) end) c calm =
        (Ok (), set_sink (MkSinkState v' (nodeWriteErr (c_sink c))) c, calm) ∧ P v'.
Proof.
  intros He Hp. destruct (visitor_total ev _ Hp) as (v' & Ho & Hp'). rewrite He in Ho. exists v'. split; [|done].
  destruct visitor as [vis|].
  - apply zoom_ok. eexists. split; [|reflexivity]. apply zoom_ok. eexists. split; [exact Ho|done].
  - minv. by destruct c as [[]].
Qed.

Lemma feed_next leaves k v st ns :
  leaves_ok (leaves ++ [(k, v)]) → stack_feed stack_new leaves = Ok (st, ns) →
  ∃ st' ns', stack_update st k v = Ok (st', ns').
Proof.
  intros Hl Hf. destruct (stack_feed_ok _ Hl) as (st2 & ns2 & Hf2).
  apply stack_feed_split in Hf2 as (st1 & n1 & n2 & Hf1 & Hf2). rewrite Hf in Hf1. injection Hf1 as <- <-.
  cbn [stack_feed] in Hf2. destruct (stack_update st k v) as [[st' ns']|]; [|done]. eauto.
Qed.

Lemma leaves_ok_prefix l1 l2 : leaves_ok (l1 ++ l2) → leaves_ok l1.
Proof.
  intros [Hs Hf]. rewrite fmap_app in Hs. apply StronglySorted_app_1_l in Hs. apply Forall_app in Hf as [Hf _]. by split.
Qed.

Lemma on_sink_run {A} (m : M (sink_state V) A) c w r s' w' :
  m (c_sink c) w = (r, s', w') → on_sink m c w = (r, set_sink s' c, w').
Proof. unfold on_sink, zoom. by intros ->. Qed.

Lemma close_storage_calm c e :
  nodeWriteErr (c_sink c) = None → current c e → P (env (c_sink c)) →
  ∃ s', (match c_storage c with
   | None => mret EmptyRootHash
   | Some st =>
       computed ← on_sink (traversal_Hash nodes (c_accountHash c) st);
       _ ← on_sink (check_node_err "write final storage trie nodes");
       mret computed
   end) c calm = (Ok (slots_root (e_slots e)), set_sink s' c, calm) ∧ nodeWriteErr s' = None ∧ P (env s').
Proof.
  intros He Hcur Hp. pose proof (cu_storage _ _ Hcur) as Hs. unfold slots_root. destruct (c_storage c) as [st|].
  - destruct Hs as [Hne [ns Hf]]. rewrite (stack_after_ok _ _ _ Hf).
    destruct (hash_progress (c_accountHash c) st (c_sink c) He Hp) as (s' & Ht & He' & Hp').
    exists s'. split; [|done]. erewrite bind_run; [|by apply on_sink_run].
    erewrite bind_run; [|by apply on_sink_run, check_node_err_calm]. by destruct (e_slots e).
  - rewrite Hs. exists (c_sink c). split; [|done]. unfold mret, M_ret. by destruct c.
Qed.

Lemma count_reference_calm expected seen c :
  expected = EmptyCodeHash ∨ seen = true ∨ expected ∈ c_knownCodes c →
  ∃ k, (if negb (bool_decide (expected = EmptyCodeHash)) then
     known ← gets c_knownCodes;
     _ ← lift (reject_if (negb (seen || hashSet_Has known expected)) "code has not been provided");
     modify (λ c, set_ccounts (count_reference (c_counts c)) c)
   else mret ()) c calm = (Ok (), set_ccounts k c, calm).
Proof.
  intros Hc. case_bool_decide as He; cbn [negb].
  - exists (c_counts c). by destruct c.
  - eexists. erewrite bind_run; [|reflexivity].
    assert (seen || hashSet_Has (c_knownCodes c) expected = true) as ->.
    { apply orb_true_iff. destruct Hc as [?|[?|?]]; [done|by left|right]. by apply bool_decide_eq_true. }
    reflexivity.
Qed.

(** A complete open entry can be finalized. *)
Lemma finalizeAccount_progress fin v0 c es e :
  ready fin v0 c es (Some e) → entry_wf (state_codes es) e → leaves_ok (account_leaves (es ++ [e])) →
  ∃ c', finalizeAccount nodes c calm = (Ok (), c', calm) ∧ ready fin v0 c' (es ++ [e]) None.
Proof.
  intros [Hinv Hfin Hp] [_ Hroot Hcode] Hl.
  pose proof Hinv as [Herr Hes Hopen Hsort [ns0 Hst] Hkn Hcnt Hlast Henv Hcur]. specialize (Hopen e eq_refl).
  pose proof Hcur as [Ha1 Ha2 Ha3 Ha4 Ha5 Ha6 Ha7 Ha8].
  assert (∃ c', finalizeAccount nodes c calm = (Ok (), c', calm) ∧ c_finished c' = fin ∧ P (env (c_sink c')))
    as (c' & Hr & Hf & Hp').
  2: { exists c'. split; [done|]. split; [by eapply finalizeAccount_ok|done..]. }
  unfold finalizeAccount. erewrite bind_run; [|reflexivity]. rewrite Ha1. cbn [negb].
  erewrite bind_run; [|reflexivity]. erewrite bind_run; [|reflexivity].
  destruct (close_storage_calm c e Herr Hcur Hp) as (s1 & Hclose & He1 & Hp1).
  erewrite bind_run; [|exact Hclose].
  erewrite bind_run; [|unfold the_account; erewrite bind_run; [|reflexivity]; cbn [c_account set_sink]; rewrite Ha3; reflexivity].
  erewrite bind_run; [|apply lift_run; by rewrite Hroot bool_decide_eq_true_2].
  fold (e_codeHash e). erewrite bind_run; [|reflexivity]. cbn [c_codeSeen set_sink].
  erewrite bind_run; cycle 1.
  { apply lift_run. rewrite Ha5. destruct (e_code e) as [code|] eqn:Ec; [|rewrite (bool_decide_eq_false_2 (is_Some None)) ?andb_false_r //; by intros [? ?]].
    destruct (eo_code _ _ Hopen code Ec) as (Hne & _). by rewrite (bool_decide_eq_false_2 (e_codeHash e = _)). }
  destruct (count_reference_calm (e_codeHash e) (c_codeSeen c) (set_sink s1 c)) as [k Hk].
  { cbn [c_knownCodes set_sink]. rewrite Hkn state_codes_snoc. tauto. }
  erewrite bind_run; [|exact Hk]. erewrite bind_run; [|reflexivity]. erewrite bind_run; [|reflexivity].
  cbn [c_accountRLP c_accountStack set_sink set_ccounts]. rewrite Ha2 Ha4.
  rewrite account_leaves_snoc in Hl. destruct (feed_next _ _ _ _ _ Hl Hst) as (st' & ns' & Hup).
  destruct (update_progress zero_hash _ _ _ _ _ s1 He1 Hp1 Hup) as (s2 & Hu2 & He2 & Hp2).
  erewrite bind_run; [|apply wrap_ok, on_sink_run, Hu2]. erewrite bind_run; [|reflexivity].
  erewrite bind_run; [|by apply on_sink_run, check_node_err_calm].
  eexists. split; [reflexivity|]. done.
Qed.

Definition account_record (e : entry) : bundle_record := MkRecord RecordAccount (e_hash e) zero_hash (e_slim e).
Definition bare_entry (e : entry) : entry := MkEntry (e_hash e) (e_account e) (e_full e) (e_slim e) [] None.

Lemma finalizeAccount_any_progress fin v0 c es cur :
  ready fin v0 c es cur →
  (∀ e, cur = Some e → entry_wf (state_codes es) e ∧ leaves_ok (account_leaves (es ++ [e]))) →
  ∃ c', finalizeAccount nodes c calm = (Ok (), c', calm) ∧ ready fin v0 c' (es ++ option_list cur) None.
Proof.
  intros Hr Hcur. destruct cur as [e|].
  - destruct (Hcur e eq_refl). by apply finalizeAccount_progress.
  - exists c. split; [|by rewrite app_nil_r]. unfold finalizeAccount. erewrite bind_run; [|reflexivity].
    by rewrite (ci_current _ _ _ _ _ _ (rd_inv _ _ _ _ _ Hr)).
Qed.

Lemma consume_account_progress v0 c es cur e :
  ready false v0 c es cur →
  (∀ e0, cur = Some e0 → entry_wf (state_codes es) e0 ∧ leaves_ok (account_leaves (es ++ [e0]))) →
  N.of_nat (length (es ++ option_list cur)) < two64 →
  (∀ e0, last (es ++ option_list cur) = Some e0 → hash_lt (e_hash e0) (e_hash e)) →
  DecodeAccount (e_slim e) = Ok (e_account e, e_full e) →
  ∃ c', consume visitor nodes (account_record e) c calm = (Ok (), c', calm) ∧
        ready false v0 c' (es ++ option_list cur) (Some (bare_entry e)).
Proof.
  intros Hr Hcur Hb Hord Hd.
  assert (∃ c', consumeAccount visitor nodes (account_record e) c calm = (Ok (), c', calm) ∧
      c_finished c' = false ∧ P (env (c_sink c'))) as (c' & Hc & Hf & Hp).
  2: { exists c'. split.
       - unfold consume. erewrite bind_run; [|reflexivity]. rewrite (rd_open _ _ _ _ _ Hr).
         erewrite bind_run; [|reflexivity]. exact Hc.
       - split; [|done..]. destruct Hr as [Hinv _ _].
         apply (consumeAccount_ok visitor nodes v0 c es cur) in Hc as (a & full & Hd' & Hc'); [|done..].
         cbn [Payload account_record] in Hd'. rewrite Hd in Hd'. by injection Hd' as <- <-. }
  destruct (finalizeAccount_any_progress false v0 c es cur Hr Hcur) as (c1 & Hf1 & [Hinv1 Hfin1 Hp1]).
  unfold consumeAccount. erewrite bind_run; [|exact Hf1]. erewrite bind_run; [|reflexivity].
  erewrite bind_run; cycle 1.
  { apply lift_run. erewrite Accounts_nonzero; [|exact Hinv1|by rewrite app_nil_r]. cbn [option_list]. rewrite app_nil_r.
    destruct (last (es ++ option_list cur)) as [e0|] eqn:El.
    - assert (Hl : c_lastAccount c1 = e_hash e0) by (apply Hinv1; cbn; by rewrite app_nil_r).
      rewrite Hl (bool_decide_eq_true_2 (bytes_lt _ _)) ?andb_false_r //. by apply Hord.
    - apply last_None in El. rewrite El. done. }
  cbn [Payload AccountHash account_record]. rewrite Hd. erewrite bind_run; [|reflexivity]. cbv beta iota.
  erewrite bind_run; [|reflexivity].
  destruct (visit_progress (λ v, match v_AccountFromBundle v with
    | Some f => f (e_hash e) (e_account e) (e_full e) (e_slim e) | None => v_Account v (e_hash e) (e_account e) (e_full e) end)
    (EvAccount (e_hash e) (e_account e) (e_full e) (Some (e_slim e)))
    (startAccount (e_hash e) (e_account e) (e_full e) c1)) as (v' & Hv & Hp'); [done|done|].
  erewrite bind_run; cycle 1.
  { etransitivity; [|exact Hv]. unfold visitAccount. destruct visitor as [vis|]; [|done]. by destruct (v_AccountFromBundle vis). }
  eexists. split; [reflexivity|]. done.
Qed.

Lemma consume_storage_progress v0 c es e k v :
  ready false v0 c es (Some e) → e_code e = None → acc_Root (e_account e) ≠ EmptyRootHash →
  (∀ kv, last (e_slots e) = Some kv → hash_lt kv.1 k) → validateStorageRLP v = Ok () →
  leaves_ok (slot_leaves (e_slots e ++ [(k, v)])) →
  ∃ c', consume visitor nodes (slot_record (e_hash e) (k, v)) c calm = (Ok (), c', calm) ∧
        ready false v0 c' es (Some (add_slot e k v)).
Proof.
  intros Hr Hcode Hroot Hord Hval Hl.
  assert (∃ c', consumeStorage visitor nodes (slot_record (e_hash e) (k, v)) c calm = (Ok (), c', calm) ∧
      c_finished c' = false ∧ P (env (c_sink c'))) as (c' & Hc & Hf & Hp).
  2: { exists c'. split.
       - unfold consume. erewrite bind_run; [|reflexivity]. rewrite (rd_open _ _ _ _ _ Hr).
         erewrite bind_run; [|reflexivity]. exact Hc.
       - split; [|done..]. destruct Hr as [Hinv _ _].
         apply (consumeStorage_ok visitor nodes v0 c es (Some e)) in Hc as (e' & [= <-] & _ & _ & Hc'); [|done]. done. }
  destruct Hr as [Hinv Hfin Hp]. pose proof (ci_current _ _ _ _ _ _ Hinv) as Hcur. cbn in Hcur.
  pose proof Hcur as [Ha1 Ha2 Ha3 Ha4 Ha5 Ha6 Ha7 Ha8].
  unfold consumeStorage. erewrite bind_run; cycle 1.
  { unfold validateStorageRecord. erewrite bind_run; [|reflexivity]. rewrite Ha1.
    erewrite bind_run; [|reflexivity]. erewrite bind_run; [|apply lift_run; rewrite Ha5 Hcode bool_decide_eq_false_2 //; by intros [? ?]].
    erewrite bind_run; [|apply lift_run; rewrite Ha2 bool_decide_eq_true_2 //].
    erewrite bind_run; [|unfold the_account; erewrite bind_run; [|reflexivity]; rewrite Ha3; reflexivity].
    erewrite bind_run; [|apply lift_run; by rewrite bool_decide_eq_false_2].
    erewrite bind_run; cycle 1.
    { apply lift_run. rewrite Ha6. case_bool_decide as Hs; [done|]. cbn [negb andb].
      destruct (last (e_slots e)) as [kv|] eqn:El; [|by apply last_None in El].
      rewrite (Ha7 kv eq_refl) bool_decide_eq_true_2 //. by apply Hord. }
    cbn [Payload slot_record snd]. rewrite Hval. reflexivity. }
  destruct (storage_stack c e Hcur) as (st0 & ns0 & Hc0 & Hst).
  erewrite bind_run; [|reflexivity]. rewrite Hc0. erewrite bind_run; [|reflexivity]. erewrite bind_run; [|reflexivity].
  cbn [SubHash Payload slot_record fst snd c_accountHash c_storage set_storage default]. rewrite Ha2.
  rewrite slot_leaves_snoc in Hl. destruct (feed_next _ _ _ _ _ Hl Hst) as (st' & ns' & Hup).
  destruct (update_progress (e_hash e) _ _ _ _ _ (c_sink c) (ci_err _ _ _ _ _ _ Hinv) Hp Hup) as (s2 & Hu2 & He2 & Hp2).
  erewrite bind_run; [|by apply wrap_ok, on_sink_run]. erewrite bind_run; [|reflexivity].
  erewrite bind_run; [|by apply on_sink_run, check_node_err_calm]. erewrite bind_run; [|reflexivity].
  edestruct (visit_progress (λ vis, v_Storage vis (e_hash e) k v) (EvStorage (e_hash e) k v)) as (v' & Hv & Hp');
    [done| |erewrite bind_run; [|exact Hv]]; [done|]. eexists. split; [reflexivity|]. done.
Qed.

Lemma consume_code_progress v0 c es e code :
  ready false v0 c es (Some e) → e_code e = None →
  e_codeHash e ≠ EmptyCodeHash → keccak256 code = e_codeHash e → e_codeHash e ∉ state_codes es →
  ∃ c', consume visitor nodes (MkRecord RecordCode zero_hash (e_codeHash e) code) c calm = (Ok (), c', calm) ∧
        ready false v0 c' es (Some (add_code e code)).
Proof.
  intros Hr Hcode Hne Hk Hnew. set (r := MkRecord RecordCode zero_hash (e_codeHash e) code).
  assert (∃ c', consumeCode visitor r c calm = (Ok (), c', calm) ∧
      c_finished c' = false ∧ P (env (c_sink c'))) as (c' & Hc & Hf & Hp).
  2: { exists c'. split.
       - unfold consume. erewrite bind_run; [|reflexivity]. rewrite (rd_open _ _ _ _ _ Hr).
         erewrite bind_run; [|reflexivity]. exact Hc.
       - split; [|done..]. destruct Hr as [Hinv _ _].
         apply (consumeCode_ok visitor nodes v0 c es (Some e)) in Hc as (e' & [= <-] & _ & _ & Hc'); [|done]. done. }
  destruct Hr as [Hinv Hfin Hp]. pose proof (ci_current _ _ _ _ _ _ Hinv) as Hcur. cbn in Hcur.
  pose proof Hcur as [Ha1 Ha2 Ha3 Ha4 Ha5 Ha6 Ha7 Ha8].
  assert (Hkn : c_knownCodes c = state_codes es).
  { rewrite (ci_known _ _ _ _ _ _ Hinv). cbn. by rewrite state_codes_snoc /entry_codes Hcode right_id_L. }
  unfold consumeCode. erewrite bind_run; cycle 1.
  { unfold validateCodeRecord. erewrite bind_run; [|reflexivity]. rewrite Ha1.
    erewrite bind_run; [|reflexivity]. erewrite bind_run; [|apply lift_run; rewrite Ha5 Hcode bool_decide_eq_false_2 //; by intros [? ?]].
    erewrite bind_run; [|unfold the_account; erewrite bind_run; [|reflexivity]; rewrite Ha3; reflexivity].
    fold (e_codeHash e).
    erewrite bind_run; [|apply lift_run; by rewrite bool_decide_eq_false_2].
    erewrite bind_run; [|apply lift_run; by rewrite bool_decide_eq_true_2].
    erewrite bind_run; [|apply lift_run; cbn [Payload r]; by rewrite Hk bool_decide_eq_true_2].
    erewrite bind_run; [|apply lift_run; unfold hashSet_Has; by rewrite Hkn bool_decide_eq_false_2].
    reflexivity. }
  erewrite bind_run; [|reflexivity]. erewrite bind_run; [|reflexivity].
  cbn [c_accountHash set_code]. rewrite Ha2. cbn [Payload r].
  edestruct (visit_progress (λ vis, v_Code vis (e_hash e) (e_codeHash e) code) (EvCode (e_hash e) (e_codeHash e) code)) as (v' & Hv & Hp');
    [done| |erewrite bind_run; [|exact Hv]]; [done|]. eexists. split; [reflexivity|]. done.
Qed.

(** The storage records of an entry, from any point in its slots. *)
Lemma consume_slots_progress v0 c es e done rest :
  ready false v0 c es (Some e) → e_slots e = done → e_code e = None → acc_Root (e_account e) ≠ EmptyRootHash ∨ rest = [] →
  StronglySorted hash_lt (done ++ rest).*1 → Forall (λ kv, kv.2 ≠ []) (done ++ rest) →
  Forall (λ kv, validateStorageRLP kv.2 = Ok ()) rest →
  ∃ c', steps (accepts_calm (consume visitor nodes)) (map (slot_record (e_hash e)) rest) c c' ∧
        ready false v0 c' es (Some (MkEntry (e_hash e) (e_account e) (e_full e) (e_slim e) (done ++ rest) None)).
Proof.
  revert c e done. induction rest as [|[k v] rest IH]; intros c e done Hr Hd Hcode Hroot Hs Hv Hval.
  - exists c. split; [constructor|]. rewrite app_nil_r. destruct e; cbn in *. by subst.
  - apply Forall_cons in Hval as [Hval Hvals]. destruct Hroot as [Hroot|]; [|done].
    destruct (consume_storage_progress v0 c es e k v) as (c1 & Hc1 & Hr1); try done.
    + intros kv Hkv. rewrite Hd in Hkv. apply last_Some in Hkv as [l ->].
      rewrite -app_assoc fmap_app in Hs. apply StronglySorted_app_1_r in Hs. inversion Hs as [|? ? _ Hf]; subst. by inversion Hf.
    + apply slot_leaves_ok; rewrite Hd.
      * replace (done ++ (k, v) :: rest) with ((done ++ [(k, v)]) ++ rest) in Hs by (by rewrite -app_assoc).
        rewrite fmap_app in Hs. by apply StronglySorted_app_1_l in Hs.
      * apply Forall_app in Hv as [Hv1 Hv2]. inversion Hv2; subst. apply Forall_app. split; [done|]. by constructor.
    + destruct (IH c1 (add_slot e k v) (done ++ [(k, v)])) as (c2 & Hs2 & Hr2); cbn; rewrite -?app_assoc ?Hd; try done; [by left|].
      exists c2. split; [by econstructor|]. cbn in Hr2. by rewrite -app_assoc in Hr2.
Qed.

Lemma entry_progress v0 c es cur e :
  ready false v0 c es cur →
  (∀ e0, cur = Some e0 → entry_wf (state_codes es) e0 ∧ leaves_ok (account_leaves (es ++ [e0]))) →
  N.of_nat (length (es ++ option_list cur)) < two64 →
  (∀ e0, last (es ++ option_list cur) = Some e0 → hash_lt (e_hash e0) (e_hash e)) →
  entry_wf (state_codes (es ++ option_list cur)) e → Forall (λ kv, kv.2 ≠ []) (e_slots e) →
  ∃ c', steps (accepts_calm (consume visitor nodes)) (entry_records e) c c' ∧ ready false v0 c' (es ++ option_list cur) (Some e).
Proof.
  intros Hr Hcur Hb Hord Hw Hv. pose proof (ew_open _ _ Hw) as [Hd Hs Hval Hroot Hcode].
  destruct (consume_account_progress v0 c es cur e) as (c1 & Hc1 & Hr1); [done..|].
  destruct (consume_slots_progress v0 c1 (es ++ option_list cur) (bare_entry e) [] (e_slots e)) as (c2 & Hc2 & Hr2); try done.
  { cbn. destruct (e_slots e); [by right|left; by apply Hroot]. }
  cbn [bare_entry e_hash e_account e_full e_slim app] in Hc2, Hr2. unfold entry_records, code_records.
  destruct (e_code e) as [code|] eqn:Ec.
  - destruct (Hcode code eq_refl) as (Hne & Hk & Hnew).
    destruct (consume_code_progress v0 c2 (es ++ option_list cur)
      (MkEntry (e_hash e) (e_account e) (e_full e) (e_slim e) (e_slots e) None) code) as (c3 & Hc3 & Hr3); try done.
    exists c3. split.
    + econstructor; [exact Hc1|]. eapply steps_app; [exact Hc2|]. by apply steps_one.
    + unfold add_code in Hr3. cbn in Hr3. destruct e; cbn in *. by subst.
  - exists c2. split.
    + econstructor; [exact Hc1|]. by rewrite app_nil_r.
    + destruct e; cbn in *. by subst.
Qed.

Lemma entries_wf_app known l1 l2 :
  entries_wf known (l1 ++ l2) ↔ entries_wf known l1 ∧ entries_wf (known ∪ state_codes l1) l2.
Proof.
  revert known. induction l1 as [|e l1 IH]; intros known; cbn [entries_wf app].
  - unfold state_codes. simpl. rewrite right_id_L. tauto.
  - rewrite IH. replace (known ∪ state_codes (e :: l1)) with (known ∪ entry_codes e ∪ state_codes l1).
    + tauto.
    + unfold state_codes. simpl. set_solver.
Qed.

Lemma entries_progress v0 root all c es cur rest :
  state_wf all root → values_nonempty all → N.of_nat (length all) < two64 →
  all = (es ++ option_list cur) ++ rest → ready false v0 c es cur →
  ∃ c' es' cur', steps (accepts_calm (consume visitor nodes)) (state_records rest) c c' ∧
    ready false v0 c' es' cur' ∧ all = es' ++ option_list cur'.
Proof.
  intros Hw Hv Hb. pose proof (account_leaves_ok _ _ (sw_sorted _ _ Hw) (sw_entries _ _ Hw)) as Hl.
  revert c es cur. induction rest as [|e rest IH]; intros c es cur Hall Hr.
  - exists c, es, cur. split; [constructor|]. split; [done|]. by rewrite Hall app_nil_r.
  - pose proof (sw_entries _ _ Hw) as Hes. rewrite Hall in Hes. apply entries_wf_app in Hes as [Hpre [He _]].
    rewrite left_id_L in He.
    destruct (entry_progress v0 c es cur e) as (c1 & Hc1 & Hr1); try done.
    + intros e0 ->. cbn in Hpre. apply entries_wf_snoc in Hpre as [_ H0']. rewrite left_id_L in H0'. split; [done|].
      rewrite Hall in Hl. unfold account_leaves in Hl. rewrite map_app in Hl. by apply leaves_ok_prefix in Hl.
    + rewrite Hall length_app in Hb. lia.
    + intros e0 He0. apply last_Some in He0 as [l He0]. pose proof (sw_sorted _ _ Hw) as Hs.
      rewrite Hall He0 map_app map_app -app_assoc in Hs. apply StronglySorted_app_1_r in Hs. cbn in Hs.
      inversion Hs as [|? ? _ Hf]; subst. by inversion Hf.
    + unfold values_nonempty in Hv. rewrite Hall in Hv. apply Forall_app in Hv as [_ Hv]. by inversion Hv.
    + destruct (IH c1 (es ++ option_list cur) (Some e)) as (c2 & es2 & cur2 & Hc2 & Hr2 & Ha2).
      { cbn. by rewrite -!app_assoc in Hall |- *. }
      { done. }
      exists c2, es2, cur2. split; [|done]. unfold state_records. cbn [mbind list_bind]. by eapply steps_app.
Qed.

Lemma consumer_complete v0 es root :
  state_wf es root → values_nonempty es → N.of_nat (length es) < two64 → P v0 →
  ∃ c c', steps (accepts_calm (consume visitor nodes)) (state_records es) (newRecordConsumer v0) c ∧
    finish root nodes c calm = (Ok (MkStateResult root (state_counts es)), c', calm) ∧ P (env (c_sink c')).
Proof.
  intros Hw Hv Hb Hp.
  destruct (entries_progress v0 root es (newRecordConsumer v0) [] None es) as (c & es' & cur' & Hs & Hr & Ha); try done.
  { split; [apply cinv_init|done..]. }
  exists c. assert (∃ c', finish root nodes c calm = (Ok (MkStateResult root (state_counts es)), c', calm) ∧ P (env (c_sink c')))
    as (c' & Hf & Hp'); [|by exists c'].
  pose proof (account_leaves_ok _ _ (sw_sorted _ _ Hw) (sw_entries _ _ Hw)) as Hl.
  unfold finish. erewrite bind_run; [|reflexivity]. rewrite (rd_open _ _ _ _ _ Hr). erewrite bind_run; [|reflexivity].
  erewrite bind_run; [|reflexivity].
  assert (Hr0 : ready true v0 (set_finished c) es' cur').
  { destruct Hr as [Hinv _ Hp0]. split; [|done..]. by apply cinv_finished. }
  destruct (finalizeAccount_any_progress true v0 _ es' cur' Hr0) as (c1 & Hf1 & [Hinv1 _ Hp1]).
  { intros e ->. cbn in Ha. subst es. split; [|done]. pose proof (sw_entries _ _ Hw) as Hes.
    apply entries_wf_snoc in Hes as [_ Hes]. by rewrite left_id_L in Hes. }
  erewrite bind_run; [|exact Hf1]. erewrite bind_run; [|reflexivity]. rewrite -Ha in Hinv1.
  destruct Hinv1 as [Herr _ _ _ [ns Hst] _ Hcnt _ _ _].
  destruct (hash_progress zero_hash (c_accountStack c1) (c_sink c1) Herr Hp1) as (s' & Hh & He' & Hp').
  erewrite bind_run; [|by apply on_sink_run]. erewrite bind_run; [|by apply on_sink_run, check_node_err_calm].
  pose proof (sw_root _ _ Hw) as Hroot. rewrite (stack_after_ok _ _ _ Hst) in Hroot.
  erewrite bind_run; [|apply lift_run; by rewrite Hroot bool_decide_eq_true_2].
  eexists. split.
  - unfold mbind, M_bind, gets, mret, M_ret. cbn [c_counts set_sink]. rewrite Hcnt Hroot. reflexivity.
  - exact Hp'.
Qed.

End Complete.

(** ** The theorems *)

Section Theorems.
Context `{Keccak, EmptyHashes, AccountRLP, !AccountRLPLaws, RLPSplit, StackTrie, HeaderRLP, Zstd} {V : Type}.
Context (trie_root : list (bytes * bytes) → Hash) `{!StackTrieLaws trie_root}.

Lemma encode_records_length rs : (length rs ≤ length (encode_records rs))%nat.
Proof.
  induction rs as [|r rs IH]; [done|]. rewrite encode_records_cons length_app. cbn [length].
  pose proof (encode_record_pos r). lia.
Qed.

(** What an accepted bundle is: the records of a well-formed state, all of it
    observed. *)
Lemma scanBundle_accepted before opened dir dir' m mb reloaded (visitor : option (StateVisitor V)) nodes borrow v0 w res v' w' :
  scanBundle before opened dir dir' (Ok (m, mb)) reloaded visitor nodes borrow v0 w = (Ok res, v', w') →
  (∀ node, dir !! Name (mStateFile m) = Some node → N.of_nat (length (r_data (stream_of m node))) < two64) →
  let root := StateRoot (HeadBefore (Source m)) in
  ∃ node es,
    dir !! Name (mStateFile m) = Some node ∧
    r_data (stream_of m node) = encode_stream (state_records es) ∧
    state_wf es root ∧ values_nonempty es ∧ br_State res = MkStateResult root (mCounts m) ∧ state_counts es = mCounts m ∧
    br_Manifest res = m ∧ steps (observed visitor nodes) (state_trace es) v0 v'.
Proof.
  intros Hr Hb root. unfold scanBundle in Hr. mstep Hr. minv.
  repeat match goal with p : _ * recordConsumer V |- _ => destruct p as [[] ?]; cbn [fst snd] in *; minv end.
  match goal with p : Manifest * bytes |- _ => destruct p as [m2 mb2] end. minv.
  repeat match goal with p : _ * recordConsumer V |- _ => destruct p as [[] ?]; cbn [fst snd] in *; minv end.
  match goal with x : ScanResult, Hx : _ = (Ok ?x, ?c, _) |- _ =>
    assert (∃ node rs, scan_accepts m dir node rs x ∧ steps (accepts (consume visitor nodes)) rs (newRecordConsumer v0) c)
      as (node & rs & Ha & Hs) by (destruct borrow; eapply scanRecords_ok, Hx) end.
  assert (Hlen : N.of_nat (length rs) < two64).
  { specialize (Hb node (sa_file _ _ _ _ _ Ha)). rewrite (sa_stream _ _ _ _ _ Ha) in Hb.
    unfold encode_stream in Hb. rewrite !length_app in Hb. pose proof (encode_records_length rs). lia. }
  match goal with Hx : finish _ _ _ _ = _ |- _ =>
    destruct (consumer_sound visitor nodes _ _ _ _ _ _ _ _ (sa_records _ _ _ _ _ Ha) Hlen Hs Hx)
      as (es & -> & Hwf & -> & Htr) end.
  match goal with Hx : negb (bool_decide _) = false |- _ => apply negb_false_iff, bool_decide_eq_true in Hx; cbn in Hx; rename Hx into Hcnt end.
  exists node, es. cbn [br_State br_Manifest]. rewrite Hcnt. pose proof (state_records_values _ (sa_records _ _ _ _ _ Ha)).
  destruct Ha. repeat split; try done; apply Hwf.
Qed.

(** C8: A bundle that is accepted, in any environment, is the serialization of
    a well-formed state: the record file decodes to the records of a list of
    accounts in strictly increasing order, every account with its slots in
    order and its storage root equal to the trie root of those slots, every
    code with its hash and provided at its first reference only; the state
    root of the manifest's head is the trie root of the accounts; the result
    carries that root and the exact counts; and the visitor and the node sink
    have observed exactly this state, in order. *)
Theorem scan_bundle_sound before opened dir dir' m mb reloaded (visitor : option (StateVisitor V)) nodes borrow v0 w res v' w' :
  scanBundle before opened dir dir' (Ok (m, mb)) reloaded visitor nodes borrow v0 w = (Ok res, v', w') →
  (∀ node, dir !! Name (mStateFile m) = Some node → N.of_nat (length (r_data (stream_of m node))) < two64) →
  let root := StateRoot (HeadBefore (Source m)) in
  ∃ node es,
    dir !! Name (mStateFile m) = Some node ∧
    r_data (stream_of m node) = encode_stream (state_records es) ∧
    state_wf es root ∧ root = trie_root (account_leaves es) ∧
    Forall (λ e, acc_Root (e_account e) = trie_root (slot_leaves (e_slots e))) es ∧
    br_State res = MkStateResult root (mCounts m) ∧ state_counts es = mCounts m ∧
    steps (observed visitor nodes) (state_trace es) v0 v'.
Proof.
  intros Hr Hb root. destruct (scanBundle_accepted _ _ _ _ _ _ _ _ _ _ _ _ _ _ _ Hr Hb) as (node & es & Hn & Hd & Hwf & Hv & Hst & Hc & _ & Hs).
  destruct (state_wf_roots trie_root es root Hwf Hv) as [Hroot Hroots].
  exists node, es. repeat split; try done; apply Hwf.
Qed.

End Theorems.
