(* ===== verification/StateBinding.v ===== *)
(** * What a state root binds

    The root of a well-formed state determines the state: its accounts, their
    storage in order and the codes it introduces, unless two lists of leaves
    share a Merkle root or two byte strings a Keccak hash. Verification compares
    roots and counts; this is what makes the comparison one of states. *)

From S2P Require Import Prelude Sha256 Geth Instances Manifest StrictIO Records Scanner Bundle Account StateTrie Consumer.

Section Binding.
Context `{Keccak, EmptyHashes, AccountRLP, !AccountRLPLaws, RLPSplit, StackTrie}.
Context (trie_root : list (bytes * bytes) → Hash) `{!StackTrieLaws trie_root}.

(** The tries of a state and the codes it introduces. *)
Definition state_tries (es : list entry) : list (list (bytes * bytes)) := account_leaves es :: map (slot_leaves ∘ e_slots) es.
Definition state_code_list (es : list entry) : list bytes := omap e_code es.

(** Two states share a Merkle root of different tries or a hash of different
    codes. *)
Record state_collision (es1 es2 : list entry) : Prop := {
  sc_found :
    (∃ l1 l2, l1 ∈ state_tries es1 ∧ l2 ∈ state_tries es2 ∧ l1 ≠ l2 ∧ trie_root l1 = trie_root l2) ∨
    (∃ c1 c2, c1 ∈ state_code_list es1 ∧ c2 ∈ state_code_list es2 ∧ c1 ≠ c2 ∧ keccak256 c1 = keccak256 c2)
}.

Lemma slot_leaves_inj s1 s2 : slot_leaves s1 = slot_leaves s2 → s1 = s2.
Proof.
  revert s2. induction s1 as [|[k v] s1 IH]; intros [|[k' v'] s2] He; [done..|]. cbn in He. injection He as Hk -> He.
  apply hash_bytes_inj in Hk as ->. f_equal. by apply IH.
Qed.

(** The encoding of an account determines the account and its slim form. *)
Lemma full_determines known1 known2 e1 e2 :
  entry_wf known1 e1 → entry_wf known2 e2 → e_full e1 = e_full e2 → e_account e1 = e_account e2 ∧ e_slim e1 = e_slim e2.
Proof.
  intros [[Hd1 _ _ _ _] _ _] [[Hd2 _ _ _ _] _ _] He.
  apply DecodeAccount_ok in Hd1 as (Hs1 & Hf1 & _ & Ho1), Hd2 as (Hs2 & Hf2 & _ & Ho2).
  assert (Ha : e_account e1 = e_account e2).
  { apply account_decode_encode in Hf1, Hf2; [|done..]. congruence. }
  split; [done|]. congruence.
Qed.

(** An entry introduces its code exactly when no entry before it did. *)
Lemma code_introduced known e :
  entry_wf known e → e_code e = None ↔ e_codeHash e = EmptyCodeHash ∨ e_codeHash e ∈ known.
Proof.
  intros [[_ _ _ _ Hc] _ Hcov]. unfold entry_codes in Hcov. destruct (e_code e) as [code|].
  - destruct (Hc _ eq_refl) as (Hne & _ & Hnk). split; [done|]. by intros [?|?].
  - split; [|done]. intros _. destruct Hcov as [|Hin]; [by left|]. right. set_solver.
Qed.

(** The slots or the codes of two entries collide. *)
Definition entry_collision (e1 e2 : entry) : Prop :=
  (slot_leaves (e_slots e1) ≠ slot_leaves (e_slots e2) ∧ trie_root (slot_leaves (e_slots e1)) = trie_root (slot_leaves (e_slots e2))) ∨
  (∃ c1 c2, e_code e1 = Some c1 ∧ e_code e2 = Some c2 ∧ c1 ≠ c2 ∧ keccak256 c1 = keccak256 c2).

Lemma entry_bind known e1 e2 :
  entry_wf known e1 → entry_wf known e2 → Forall (λ kv, kv.2 ≠ []) (e_slots e1) → Forall (λ kv, kv.2 ≠ []) (e_slots e2) →
  e_hash e1 = e_hash e2 → e_full e1 = e_full e2 → e1 = e2 ∨ entry_collision e1 e2.
Proof.
  intros W1 W2 V1 V2 Hh Hf. destruct (full_determines _ _ _ _ W1 W2 Hf) as [Ha Hs].
  pose proof (eo_sorted _ _ (ew_open _ _ W1)) as S1. pose proof (eo_sorted _ _ (ew_open _ _ W2)) as S2.
  assert (Hr : trie_root (slot_leaves (e_slots e1)) = trie_root (slot_leaves (e_slots e2))).
  { rewrite -!(slots_root_trie trie_root) // -(ew_root _ _ W1) -(ew_root _ _ W2). by rewrite Ha. }
  destruct (decide (slot_leaves (e_slots e1) = slot_leaves (e_slots e2))) as [Hl|Hl]; [|right; by left].
  apply slot_leaves_inj in Hl.
  assert (Hch : e_codeHash e1 = e_codeHash e2) by (unfold e_codeHash; by rewrite Ha).
  pose proof (code_introduced _ _ W1) as I1. pose proof (code_introduced _ _ W2) as I2. rewrite -Hch -I1 in I2.
  assert (Hc : e_code e1 = e_code e2 ∨ entry_collision e1 e2).
  { unfold entry_collision. destruct (e_code e1) as [c1|] eqn:E1, (e_code e2) as [c2|] eqn:E2; [|naive_solver..|by left].
    destruct (eo_code _ _ (ew_open _ _ W1) _ E1) as (_ & K1 & _). destruct (eo_code _ _ (ew_open _ _ W2) _ E2) as (_ & K2 & _).
    destruct (decide (c1 = c2)) as [->|]; [by left|]. do 2 right. exists c1, c2. split_and!; [done..|]. by rewrite K1 K2. }
  destruct Hc as [Hc|]; [|by right]. left. destruct e1, e2; cbn in *; congruence.
Qed.

Lemma entry_collides es1 es2 e1 e2 : e1 ∈ es1 → e2 ∈ es2 → entry_collision e1 e2 → state_collision es1 es2.
Proof.
  intros H1' H2' [[Hn Hr]|(c1 & c2 & E1 & E2 & Hn & Hk)]; split; [left|right].
  - exists (slot_leaves (e_slots e1)), (slot_leaves (e_slots e2)). unfold state_tries.
    split_and!; try done; apply elem_of_cons; right; apply list_elem_of_fmap; eauto.
  - exists c1, c2. unfold state_code_list. split_and!; try done; apply list_elem_of_omap; eauto.
Qed.

Lemma entries_bind known es1 es2 :
  entries_wf known es1 → entries_wf known es2 → values_nonempty es1 → values_nonempty es2 →
  account_leaves es1 = account_leaves es2 →
  es1 = es2 ∨ ∃ e1 e2, e1 ∈ es1 ∧ e2 ∈ es2 ∧ entry_collision e1 e2.
Proof.
  revert known es2. induction es1 as [|e1 es1 IH]; intros known [|e2 es2] W1 W2 V1 V2 Hl; [by left|done|done|].
  cbn in Hl. injection Hl as Hh Hf Hl. apply hash_bytes_inj in Hh.
  destruct W1 as [W1 Ws1], W2 as [W2 Ws2]. apply Forall_cons in V1 as [V1 Vs1], V2 as [V2 Vs2].
  destruct (entry_bind _ _ _ W1 W2 V1 V2 Hh Hf) as [->|Hc].
  - destruct (IH _ _ Ws1 Ws2 Vs1 Vs2 Hl) as [->|(a & b & Ha & Hb & Hc)]; [by left|]. right. exists a, b. split_and!; [by right..|done].
  - right. exists e1, e2. split_and!; [left..|done].
Qed.

Lemma state_bind es1 es2 root :
  state_wf es1 root → state_wf es2 root → values_nonempty es1 → values_nonempty es2 → es1 = es2 ∨ state_collision es1 es2.
Proof.
  intros W1 W2 V1 V2.
  destruct (state_wf_roots trie_root _ _ W1 V1) as [R1 _], (state_wf_roots trie_root _ _ W2 V2) as [R2 _].
  destruct (decide (account_leaves es1 = account_leaves es2)) as [Hl|Hl].
  - destruct (entries_bind ∅ es1 es2 (sw_entries _ _ W1) (sw_entries _ _ W2) V1 V2 Hl) as [|(a & b & ? & ? & ?)]; [by left|].
    right. by eapply entry_collides.
  - right. split. left. exists (account_leaves es1), (account_leaves es2). unfold state_tries.
    split_and!; [left|left|done|congruence].
Qed.

End Binding.

(** ** Bundles of one state *)

Section BundlesOfOneState.
Context `{Keccak, EmptyHashes, AccountRLP, !AccountRLPLaws, RLPSplit, StackTrie, HeaderRLP, Zstd} {V W : Type}.
Context (trie_root : list (bytes * bytes) → Hash) `{!StackTrieLaws trie_root}.

(** C23: The state root determines a bundle: if two bundles are accepted and
    their manifests name the same state root, then they hold the same records,
    byte for byte in their decoded streams, and their manifests have the same
    counts, whatever their heads, compressions and versions; unless the two
    states collide: two of their tries have one root, or two of their codes one
    hash. *)
Theorem root_determines_bundle before1 opened1 dir1 dir1' m1 mb1 reloaded1 before2 opened2 dir2 dir2' m2 mb2 reloaded2
    (visitor1 : option (StateVisitor V)) nodes1 (visitor2 : option (StateVisitor W)) nodes2 borrow1 borrow2
    v1 v2 w1 w2 res1 res2 v1' v2' w1' w2' :
  (∀ node, dir1 !! Name (mStateFile m1) = Some node → N.of_nat (length (r_data (stream_of m1 node))) < two64) →
  (∀ node, dir2 !! Name (mStateFile m2) = Some node → N.of_nat (length (r_data (stream_of m2 node))) < two64) →
  scanBundle before1 opened1 dir1 dir1' (Ok (m1, mb1)) reloaded1 visitor1 nodes1 borrow1 v1 w1 = (Ok res1, v1', w1') →
  scanBundle before2 opened2 dir2 dir2' (Ok (m2, mb2)) reloaded2 visitor2 nodes2 borrow2 v2 w2 = (Ok res2, v2', w2') →
  StateRoot (HeadBefore (Source m1)) = StateRoot (HeadBefore (Source m2)) →
  ∃ node1 node2 es1 es2,
    (dir1 !! Name (mStateFile m1) = Some node1 ∧ r_data (stream_of m1 node1) = encode_stream (state_records es1)) ∧
    (dir2 !! Name (mStateFile m2) = Some node2 ∧ r_data (stream_of m2 node2) = encode_stream (state_records es2)) ∧
    ((state_records es1 = state_records es2 ∧ r_data (stream_of m1 node1) = r_data (stream_of m2 node2) ∧ mCounts m1 = mCounts m2) ∨
     state_collision trie_root es1 es2).
Proof.
  intros Hb1 Hb2 Hr1 Hr2 Hroot.
  destruct (scanBundle_accepted _ _ _ _ _ _ _ _ _ _ _ _ _ _ _ Hr1 Hb1) as (node1 & es1 & Hn1 & Hd1 & Hw1 & Hv1 & _ & Hc1 & _).
  destruct (scanBundle_accepted _ _ _ _ _ _ _ _ _ _ _ _ _ _ _ Hr2 Hb2) as (node2 & es2 & Hn2 & Hd2 & Hw2 & Hv2 & _ & Hc2 & _).
  exists node1, node2, es1, es2. split; [done|]. split; [done|]. rewrite -Hroot in Hw2.
  destruct (state_bind trie_root es1 es2 _ Hw1 Hw2 Hv1 Hv2) as [->|Hc]; [left|by right].
  split; [done|]. split; [by rewrite Hd1 Hd2|by rewrite -Hc1 -Hc2].
Qed.

End BundlesOfOneState.
