(* ===== verification/Stream.v ===== *)
(** * Leaf streams ([internal/migration/state_stream.go])

    A trie iterator is read ahead by a goroutine that sends leaves over a
    bounded channel ([trieLeafStream]). The two goroutines and the context are
    one transition system, [pipe_step]: the producer loop of
    [produceAccountTrie] and [produceStorageTrie] with its two cancellation
    checks and its [select], the result channel, the closing of the leaf
    channel, the receiving loop of the consumer, and cancellation at any
    moment. The consumer leaves its loop when the channel is closed and
    drained ([drained]) and then reads the result ([wait]). *)

From S2P Require Import Prelude.

(** ** Data *)

Definition accountTrieReadAhead : nat := 64.
Definition storageTrieReadAhead : nat := 64.
Definition storageTriePipelineThreshold : nat := 64.

(** Where the producer goroutine is. An item of the iterator is a leaf or the
    error of a key that has the wrong length. *)
Inductive producer (A : Type) :=
| PLoop (todo : list (result A))
| PNext (todo : list (result A))
| PSend (leaf : A) (todo : list (result A))
| PReturn (err : option error)
| PResult (err : option error)
| PDone.
Arguments PLoop {A}.
Arguments PNext {A}.
Arguments PSend {A}.
Arguments PReturn {A}.
Arguments PResult {A}.
Arguments PDone {A}.

Record pipe (A : Type) := MkPipe {
  p_producer : producer A;
  p_queue : list A;                       (* the leaf channel's buffer *)
  p_result : option (option error);       (* the result channel's buffer *)
  p_closed : bool;                        (* the leaf channel is closed *)
  p_cancelled : bool;                     (* the stream context is done *)
  p_got : list A                          (* leaves the consumer has received *)
}.
Arguments MkPipe {A}.
Arguments p_producer {A}.
Arguments p_queue {A}.
Arguments p_result {A}.
Arguments p_closed {A}.
Arguments p_cancelled {A}.
Arguments p_got {A}.

(** ** Steps *)

Section Pipe.
Context {A : Type} (readAhead : nat) (iterErr : option error).
Implicit Types (p : pipe A).

Definition newTrieLeafStream (items : list (result A)) : pipe A :=
  MkPipe (PLoop items) [] None false false [].

Definition set_producer (pr : producer A) p : pipe A :=
  MkPipe pr (p_queue p) (p_result p) (p_closed p) (p_cancelled p) (p_got p).

(** [ctx.Err()]. *)
Definition ctx_err p : option error := if p_cancelled p then Some ECanceled else None.

(** The producer goroutine. *)
Inductive produce_step p : pipe A → Prop :=
| ps_loop todo : p_producer p = PLoop todo →
    produce_step p (set_producer (if p_cancelled p then PReturn (Some ECanceled) else PNext todo) p)
| ps_end : p_producer p = PNext [] →
    produce_step p (set_producer (PReturn (match iterErr with Some e => Some e | None => ctx_err p end)) p)
| ps_item item todo : p_producer p = PNext (item :: todo) →
    produce_step p (set_producer
      (if p_cancelled p then PReturn (Some ECanceled)
       else match item with Ok a => PSend a todo | Err e => PReturn (Some e) end) p)
| ps_send a todo : p_producer p = PSend a todo → (length (p_queue p) < readAhead)%nat →
    produce_step p (MkPipe (PLoop todo) (p_queue p ++ [a]) (p_result p) (p_closed p) (p_cancelled p) (p_got p))
| ps_send_done a todo : p_producer p = PSend a todo → p_cancelled p = true →
    produce_step p (set_producer (PReturn (Some ECanceled)) p)
| ps_result e : p_producer p = PReturn e →
    produce_step p (MkPipe (PResult e) (p_queue p) (Some e) (p_closed p) (p_cancelled p) (p_got p))
| ps_close e : p_producer p = PResult e →
    produce_step p (MkPipe PDone (p_queue p) (p_result p) true (p_cancelled p) (p_got p)).

(** The consumer receives a leaf. *)
Inductive consume_step p : pipe A → Prop :=
| cs_receive a q : p_queue p = a :: q →
    consume_step p (MkPipe (p_producer p) q (p_result p) (p_closed p) (p_cancelled p) (p_got p ++ [a])).

(** The parent context is cancelled, or the consumer calls [close]. *)
Inductive cancel_step p : pipe A → Prop :=
| cs_cancel : cancel_step p (MkPipe (p_producer p) (p_queue p) (p_result p) (p_closed p) true (p_got p)).

Definition pipe_step p p' : Prop := produce_step p p' ∨ consume_step p p' ∨ cancel_step p p'.

(** [range stream.leaves] has ended. *)
Definition drained p : Prop := p_closed p = true ∧ p_queue p = [].

(** What an undisturbed read of the iterator yields: the leaves before the
    first bad key, and the error it ends with. *)
Fixpoint leaves_of (items : list (result A)) : list A :=
  match items with Ok a :: items' => a :: leaves_of items' | _ => [] end.
Fixpoint error_of (items : list (result A)) : option error :=
  match items with
  | [] => iterErr
  | Ok _ :: items' => error_of items'
  | Err e :: _ => Some e
  end.

(** ** Invariant *)

(** The items not yet sent, and the error the producer has returned. *)
Definition pending (pr : producer A) : option (list (result A)) :=
  match pr with
  | PLoop todo | PNext todo => Some todo
  | PSend a todo => Some (Ok a :: todo)
  | _ => None
  end.
Definition returned (pr : producer A) p : option (option error) :=
  match pr with
  | PReturn e | PResult e => Some e
  | PDone => p_result p
  | _ => None
  end.

Definition sent p : list A := p_got p ++ p_queue p.

(** Leaves have been sent in order and none lost; a returned error is the
    iterator's, or the context is done. *)
Record pipe_inv (items : list (result A)) p : Prop := {
  pi_bound : (length (p_queue p) ≤ readAhead)%nat;
  pi_pending : ∀ todo, pending (p_producer p) = Some todo → items = map Ok (sent p) ++ todo;
  pi_returned : ∀ e, returned (p_producer p) p = Some e →
    (∃ rest, items = map Ok (sent p) ++ rest) ∧
    (leaves_of items = sent p ∧ e = error_of items ∨ p_cancelled p = true ∧ is_Some e);
  pi_result : match p_producer p with PResult e => p_result p = Some e | PDone => is_Some (p_result p) | _ => p_result p = None end;
  pi_closed : p_closed p = true ↔ p_producer p = PDone
}.

Lemma leaves_of_app l items : leaves_of (map Ok l ++ items) = l ++ leaves_of items.
Proof. induction l as [|a l IH]; [done|]. cbn. by rewrite IH. Qed.

Lemma error_of_app l items : error_of (map Ok l ++ items) = error_of items.
Proof. by induction l. Qed.

Lemma pipe_inv_init items : pipe_inv items (newTrieLeafStream items).
Proof. split; cbn; try done; [lia|naive_solver]. Qed.

(** The producer moves on without sending. *)
Lemma pipe_inv_return items p e todo :
  pipe_inv items p → pending (p_producer p) = Some todo →
  (leaves_of items = sent p ∧ e = error_of items ∨ p_cancelled p = true ∧ is_Some e) →
  pipe_inv items (set_producer (PReturn e) p).
Proof.
  intros [Hb Hp _ Hres Hcl] Ht He. split; cbn; try done.
  - intros ? [= <-]. split; [|done]. exists todo. by apply Hp.
  - destruct (p_producer p); done.
  - rewrite Hcl. split; [|done]. intros Hd. by rewrite Hd in Ht.
Qed.

Lemma pipe_inv_pending items p pr todo :
  pipe_inv items p → pending (p_producer p) = Some todo → pending pr = Some todo →
  pipe_inv items (set_producer pr p).
Proof.
  intros [Hb Hp _ Hres Hcl] Ht Hpr. split; cbn; try done.
  - intros t' Ht'. rewrite Hpr in Ht'. injection Ht' as <-. by apply Hp.
  - intros e He. destruct pr; done.
  - destruct pr, (p_producer p); done.
  - rewrite Hcl. destruct pr, (p_producer p); naive_solver.
Qed.

Lemma produce_step_inv items p p' : pipe_inv items p → produce_step p p' → pipe_inv items p'.
Proof.
  intros Hi Hs. pose proof Hi as [Hb Hp Hr Hres Hcl]. destruct Hs as
    [todo E|E|item todo E|a todo E Hl|a todo E Hc|e E|e E]; rewrite E in Hp, Hr, Hres, Hcl; cbn in *.
  - destruct (p_cancelled p) eqn:Hc.
    + eapply pipe_inv_return; [done|by rewrite E|]. right. by eauto.
    + eapply pipe_inv_pending; [done|by rewrite E|done].
  - specialize (Hp [] eq_refl). eapply pipe_inv_return; [done|by rewrite E|].
    rewrite Hp leaves_of_app error_of_app app_nil_r. cbn. unfold ctx_err.
    destruct iterErr; [by left|]. destruct (p_cancelled p); [right; eauto|by left].
  - destruct (p_cancelled p) eqn:Hc.
    + eapply pipe_inv_return; [done|by rewrite E|]. right. by eauto.
    + destruct item as [a|e].
      * eapply pipe_inv_pending; [done|by rewrite E|done].
      * specialize (Hp _ eq_refl). eapply pipe_inv_return; [done|by rewrite E|]. left.
        by rewrite Hp leaves_of_app error_of_app app_nil_r.
  - specialize (Hp _ eq_refl). split; cbn; try done.
    + rewrite length_app /=. lia.
    + intros ? [= <-]. rewrite Hp /sent /=. by rewrite !map_app -!app_assoc.
    + rewrite Hcl. naive_solver.
  - eapply pipe_inv_return; [done|by rewrite E|]. right. by eauto.
  - split; cbn; try done. rewrite Hcl. naive_solver.
  - split; cbn; try done; rewrite Hres //.
Qed.

Lemma pipe_step_inv items p p' : pipe_inv items p → pipe_step p p' → pipe_inv items p'.
Proof.
  intros Hi [Hs|[Hs|Hs]]; [by eapply produce_step_inv| |].
  - destruct Hs as [a q Hq], Hi as [Hb Hp Hr Hres Hcl].
    set (p1 := MkPipe _ q _ _ _ _).
    assert (Hsent : sent p1 = sent p) by (unfold sent, p1; cbn; by rewrite Hq -app_assoc).
    split; rewrite ?Hsent; try done. cbn. rewrite Hq /= in Hb. lia.
  - destruct Hs, Hi as [Hb Hp Hr Hres Hcl]. split; cbn; try done.
    intros e He. destruct (Hr e) as [? [?|[? ?]]]; [by destruct (p_producer p)|by split; [|left]|by split; [|right]].
Qed.

Lemma pipe_reachable items p : rtc pipe_step (newTrieLeafStream items) p → pipe_inv items p.
Proof.
  intros Hr. assert (pipe_inv items (newTrieLeafStream items)) as Hi by apply pipe_inv_init.
  induction Hr as [|p1 p2 p3 Hs _ IH]; [done|]. apply IH. by eapply pipe_step_inv.
Qed.

(** ** Termination *)

(** What is left to do, in steps of the two goroutines. *)
Definition producer_work (pr : producer A) : nat :=
  match pr with
  | PLoop todo => 5 * length todo + 4
  | PNext todo => 5 * length todo + 3
  | PSend _ todo => 5 * length todo + 6
  | PReturn _ => 2
  | PResult _ => 1
  | PDone => 0
  end.
Definition work p : nat := (producer_work (p_producer p) + length (p_queue p))%nat.

Lemma produce_step_work p p' : produce_step p p' → (work p' < work p)%nat.
Proof.
  destruct 1 as [todo E|E|item todo E|a todo E Hl|a todo E Hc|e E|e E]; unfold work; rewrite E; cbn;
    rewrite ?length_app; cbn; try lia.
  - destruct (p_cancelled p); cbn; lia.
  - destruct (p_cancelled p), item; cbn; lia.
Qed.

Lemma consume_step_work p p' : consume_step p p' → (work p' < work p)%nat.
Proof. destruct 1 as [a q Hq]. unfold work. cbn. rewrite Hq /=. lia. Qed.

(** ** Theorems *)

(** C25: A leaf stream delivers the iterator's leaves in order, without loss or
    duplication, under every interleaving of producer, consumer and
    cancellation: at any moment the received leaves are a prefix of the
    iterator's; and when the consumer's loop has ended, [wait] reports either
    exactly the outcome of reading the iterator sequentially, in which case
    the consumer has received exactly its leaves, or an error after a
    cancellation. In particular a nil result means that every leaf arrived. *)
Theorem stream_faithful items p :
  rtc pipe_step (newTrieLeafStream items) p →
  (∃ rest, items = map Ok (p_got p) ++ rest) ∧ (length (p_queue p) ≤ readAhead)%nat ∧
  (drained p → ∃ e, p_result p = Some e ∧
     (p_got p = leaves_of items ∧ e = error_of items ∨ p_cancelled p = true ∧ is_Some e)).
Proof.
  intros Hr%pipe_reachable. destruct Hr as [Hb Hp Hret Hres Hcl]. split; [|split; [done|]].
  - assert (∃ rest, items = map Ok (sent p) ++ rest) as [rest Hrest].
    { destruct (pending (p_producer p)) as [todo|] eqn:E; [by eauto|].
      destruct (returned (p_producer p) p) as [e|] eqn:E2; [by apply (Hret e)|].
      destruct (p_producer p); try done. destruct Hres as [e He]. cbn in E2. congruence. }
    rewrite Hrest /sent map_app -app_assoc. eauto.
  - intros [Hd Hq]. apply Hcl in Hd. rewrite Hd in Hres, Hret. destruct Hres as [e He]. exists e. split; [done|].
    destruct (Hret e) as [_ Ho]; [done|]. unfold sent in Ho. rewrite Hq app_nil_r in Ho. naive_solver.
Qed.

(** C26: A leaf stream never deadlocks and always terminates: with a positive
    read-ahead, as long as the consumer's loop has not ended, the producer or
    the consumer can make a step; and both kinds of steps strictly decrease a
    natural-number measure that cancellation leaves unchanged. *)
Theorem stream_terminates items p :
  (0 < readAhead)%nat → rtc pipe_step (newTrieLeafStream items) p →
  (drained p ∨ ∃ p', produce_step p p' ∨ consume_step p p') ∧
  (∀ p', produce_step p p' ∨ consume_step p p' → (work p' < work p)%nat) ∧
  (∀ p', cancel_step p p' → work p' = work p).
Proof.
  intros Hra Hr%pipe_reachable. destruct Hr as [Hb Hp Hret Hres Hcl]. split; [|split].
  - destruct (p_queue p) as [|a q] eqn:Hq; cycle 1.
    { right. eexists. right. by eapply cs_receive. }
    destruct (p_producer p) as [todo|[|item todo]|b todo|e|e|] eqn:E.
    7: { left. split; [by apply Hcl|done]. }
    all: right; eexists; left.
    + by eapply ps_loop.
    + by eapply ps_end.
    + by eapply ps_item.
    + eapply ps_send; [done|]. by rewrite Hq.
    + by eapply ps_result.
    + by eapply ps_close.
  - intros p' [Hs|Hs]; [by apply produce_step_work|by apply consume_step_work].
  - by destruct 1.
Qed.

(** C27: [close] never hangs: once the context is done, the producer reaches its
    end by its own steps, however full the channel is and with no further
    receive by the consumer, so the wait of [close] always finds a result. *)
Theorem stream_close_returns items p :
  rtc pipe_step (newTrieLeafStream items) p → p_cancelled p = true →
  ∃ p', rtc produce_step p p' ∧ p_producer p' = PDone ∧ is_Some (p_result p').
Proof.
  intros Hr%pipe_reachable Hc. remember (work p) as n eqn:Hn.
  revert p Hr Hc Hn. induction n as [n IH] using lt_wf_ind. intros p Hi Hc ->.
  assert (Hstep : p_producer p = PDone ∨ ∃ p', produce_step p p' ∧ p_cancelled p' = true).
  { destruct (p_producer p) as [todo|[|item todo]|b todo|e|e|] eqn:E; [right..|by left]; eexists; split.
    all: try first [by eapply ps_loop|by eapply ps_end|by eapply ps_item|by eapply ps_send_done|by eapply ps_result|by eapply ps_close].
    all: done. }
  destruct Hstep as [Hd|(p1 & Hs & Hc1)].
  - exists p. split; [constructor|]. split; [done|]. pose proof (pi_result _ _ Hi) as Hres. by rewrite Hd in Hres.
  - destruct (IH (work p1)) with (p := p1) as (p2 & Hr2 & Hd2); [by apply produce_step_work|by eapply produce_step_inv|done..|].
    exists p2. split; [|done]. by eapply rtc_l.
Qed.

End Pipe.

(** ** Witnesses *)

Definition sample_items : list (result N) := [Ok 1; Ok 2; Ok 3].
Definition sample_done : pipe N := MkPipe PDone [] (Some None) true false [1; 2; 3].

Lemma sample_run : rtc (pipe_step 64 None) (newTrieLeafStream sample_items) sample_done.
Proof.
  do 3 (eapply rtc_l; [left; by eapply ps_loop|]; eapply rtc_l; [left; by eapply ps_item|];
        eapply rtc_l; [left; eapply ps_send; [done|cbn; lia]|]; eapply rtc_l; [right; left; by eapply cs_receive|]; cbn).
  eapply rtc_l; [left; by eapply ps_loop|]. eapply rtc_l; [left; by eapply ps_end|].
  eapply rtc_l; [left; by eapply ps_result|]. eapply rtc_l; [left; by eapply ps_close|]. constructor.
Qed.

Lemma stream_faithful_witness :
  ∃ e, p_result sample_done = Some e ∧
     (p_got sample_done = leaves_of sample_items ∧ e = error_of None sample_items ∨
      p_cancelled sample_done = true ∧ is_Some e).
Proof. apply (stream_faithful 64 None sample_items sample_done sample_run). by split. Defined.

Lemma stream_terminates_witness : drained sample_done ∨ ∃ p', produce_step 64 None sample_done p' ∨ consume_step sample_done p'.
Proof. apply (stream_terminates 64 None sample_items sample_done); [lia|apply sample_run]. Defined.

Definition sample_blocked : pipe N := MkPipe (PLoop sample_items) [] None false true [].

Lemma stream_close_returns_witness :
  ∃ p', rtc (produce_step 64 None) sample_blocked p' ∧ p_producer p' = PDone ∧ is_Some (p_result p').
Proof.
  apply (stream_close_returns 64 None sample_items sample_blocked); [|done].
  eapply rtc_l; [right; right; constructor|]. constructor.
Defined.
