(* ===== verification/AtomicDir.v ===== *)
(** * Atomic publication of an output directory ([atomicdir.go], [legacy.go])

    The file system is a map from clean absolute paths (lists of components)
    to entries; symbolic links are followed component by component with the
    limit of [filepath.EvalSymlinks]. What the operating system and other
    processes decide is collected in [os_env]: the random part of a temporary
    name, the inode of a new directory, how far a failing [os.RemoveAll] got,
    and what other processes do between the last inspection of the output
    path and the rename. *)

From S2P Require Import Prelude.

(** ** File system *)

Abbreviation path := (list string).

Inductive fs_entry :=
| FDir (id : N)
| FFile (id : N) (content : bytes)
| FLink (absolute : bool) (target : list string).

#[export] Instance fs_entry_eq_dec : EqDecision fs_entry.
Proof. solve_decision. Defined.

Definition fsys : Type := path → option fs_entry.

(** [strip p q] is what is left of [q] below [p]. *)
Fixpoint strip (p q : path) : option path :=
  match p, q with
  | [], _ => Some q
  | c :: p', d :: q' => if bool_decide (c = d) then strip p' q' else None
  | _ :: _, [] => None
  end.
Definition under (p q : path) : bool := match strip p q with Some _ => true | None => false end.

Definition fs_put (p : path) (e : fs_entry) (f : fsys) : fsys :=
  λ q, if bool_decide (q = p) then Some e else f q.
Definition fs_remove (drop : path → bool) (f : fsys) : fsys := λ q, if drop q then None else f q.
Definition fs_move (old new : path) (f : fsys) : fsys := λ q,
  match strip new q with
  | Some rest => f (old ++ rest)
  | None => if under old q then None else f q
  end.

(** [filepath.Dir] and [filepath.Base] of a clean absolute path. *)
Definition path_dir (p : path) : path := removelast p.
Definition path_base (p : path) : string := default "/"%string (last p).

(** [filepath.Clean] of an absolute path given by its components. *)
Definition clean_step (acc : path) (c : string) : path :=
  if bool_decide (c = "" ∨ c = ".")%string then acc
  else if bool_decide (c = "..")%string then removelast acc
  else acc ++ [c].
Definition path_clean (components : list string) : path := foldl clean_step [] components.

(** The components of a path text. *)
Definition slash : Ascii.ascii := Ascii.ascii_of_nat 47.
Fixpoint path_split (s : string) (cur : string) : list string :=
  match s with
  | EmptyString => [cur]
  | String c s' => if Ascii.eqb c slash then cur :: path_split s' "" else path_split s' (cur +:+ String c "")
  end.

(** The text of a path. *)
Fixpoint path_render (p : path) : string :=
  match p with [] => "" | c :: p' => String slash (c +:+ path_render p') end.

(** The text of an absolute path. *)
Definition path_text (p : path) : string := match p with [] => String slash "" | _ => path_render p end.

(** [filepath.Abs], with the working directory. *)
Definition path_abs (cwd : result path) (s : string) : result path :=
  if String.prefix (String slash "") s then Ok (path_clean (path_split s ""))
  else d ← cwd; Ok (path_clean (d ++ path_split s "")).

(** [filepath.Rel] of clean absolute paths. *)
Fixpoint path_rel (base target : path) : path :=
  match base, target with
  | b :: base', t :: target' =>
      if bool_decide (b = t) then path_rel base' target' else replicate (length base) ".."%string ++ target
  | _, _ => replicate (length base) ".."%string ++ target
  end.

(** The walk of [filepath.EvalSymlinks]: at most [links] links are followed. *)
Fixpoint walk_links (f : fsys) (links : nat) : path → list string → result path :=
  fix walk (cur : path) (todo : list string) : result path :=
    match todo with
    | [] => Ok cur
    | c :: todo' =>
        if bool_decide (c = "" ∨ c = ".")%string then walk cur todo'
        else if bool_decide (c = "..")%string then walk (removelast cur) todo'
        else match f (cur ++ [c]) with
             | None => Err ENotExist
             | Some (FDir _) => walk (cur ++ [c]) todo'
             | Some (FFile _ _) =>
                 match todo' with [] => Ok (cur ++ [c]) | _ => Err (EMsg "not a directory") end
             | Some (FLink absolute target) =>
                 match links with
                 | O => Err (EMsg "EvalSymlinks: too many links")
                 | S links' => walk_links f links' (if (absolute : bool) then [] else cur) (target ++ todo')
                 end
             end
    end.
Definition EvalSymlinks (f : fsys) (p : path) : result path := walk_links f 255 [] p.

(** [os.Lstat] and [os.Stat]; the kernel follows at most 40 links. *)
Definition os_Lstat (f : fsys) (p : path) : result fs_entry :=
  match p with
  | [] => match f [] with Some e => Ok e | None => Err ENotExist end
  | _ =>
      d ← walk_links f 40 [] (path_dir p);
      match f (d ++ [path_base p]) with Some e => Ok e | None => Err ENotExist end
  end.
Definition os_Stat (f : fsys) (p : path) : result fs_entry :=
  r ← walk_links f 40 [] p;
  match f r with Some e => Ok e | None => Err ENotExist end.

(** [os.SameFile]. *)
Definition entry_id (e : fs_entry) : option N :=
  match e with FDir id | FFile id _ => Some id | FLink _ _ => None end.
Definition os_SameFile (a b : fs_entry) : bool :=
  match entry_id a, entry_id b with Some x, Some y => x =? y | _, _ => false end.

(** ** The environment *)

Record os_env := MkOsEnv {
  os_cwd : result path;                (* the resolved working directory *)
  temp_suffix : string → string;     (* the random part of a temporary name *)
  inode : path → N;                  (* of a directory that is created *)
  reached : path → bool;             (* what a failing RemoveAll removed *)
  race : fsys → fsys                 (* other processes, before the rename *)
}.

Record atomicDir := MkAtomicDir {
  ad_final : path;
  ad_parent : path;
  ad_temp : path;
  ad_tempPrefix : string;
  ad_committed : bool
}.

(** An operation with an open output: the file system and the output. *)
Definition out_state : Type := fsys * atomicDir.

Definition set_committed (d : atomicDir) : atomicDir :=
  MkAtomicDir (ad_final d) (ad_parent d) (ad_temp d) (ad_tempPrefix d) true.

Section AtomicDir.
Context (E : os_env).

(** ** System calls *)

Definition Lstat (p : path) : M fsys fs_entry := _ ← io; f ← get; lift (os_Lstat f p).

Definition MkdirTemp (parent : path) (prefix : string) : M fsys path :=
  _ ← io;
  f ← get;
  let p := parent ++ [prefix +:+ temp_suffix E prefix] in
  match f parent, f p with
  | Some (FDir _), None => _ ← modify (fs_put p (FDir (inode E p))); mret p
  | Some (FDir _), Some _ => fail EExist
  | _, _ => fail ENotExist
  end.

Definition RemoveAll (p : path) : M fsys unit :=
  r ← attempt io;
  match r with
  | Ok _ => modify (fs_remove (under p))
  | Err e => _ ← modify (fs_remove (λ q, under p q && reached E q)); fail e
  end.

(** Creates the missing directories from [cur] down. *)
Fixpoint mkdir_all (cur : path) (todo : list string) : M fsys unit :=
  match todo with
  | [] => mret ()
  | c :: todo' =>
      f ← get;
      match f (cur ++ [c]) with
      | Some (FDir _) => mkdir_all (cur ++ [c]) todo'
      | Some (FFile _ _) => fail (EMsg "not a directory")
      | Some (FLink _ _) =>
          r ← lift (walk_links f 40 [] (cur ++ [c]));
          match f r with
          | Some (FDir _) => mkdir_all r todo'
          | _ => fail (EMsg "not a directory")
          end
      | None =>
          _ ← io;
          _ ← modify (fs_put (cur ++ [c]) (FDir (inode E (cur ++ [c]))));
          mkdir_all (cur ++ [c]) todo'
      end
  end.
Definition MkdirAll (p : path) : M fsys unit := mkdir_all [] p.

(** [unix.Renameat2] with [RENAME_NOREPLACE]. *)
Definition renameNoReplace (old new : path) : M fsys unit :=
  _ ← io;
  f ← get;
  match f old, f new with
  | None, _ => fail ENotExist
  | Some _, Some _ => fail EExist
  | Some _, None => if under old new then fail (EMsg "invalid argument") else modify (fs_move old new)
  end.

Definition syncDirectory (p : path) : M fsys unit :=
  _ ← wrap "open directory for sync"
        (_ ← io; f ← get; match os_Stat f p with Ok _ => mret () | Err e => fail e end);
  s ← attempt io;
  match s with
  | Err e =>
      c ← attempt io;
      match c with
      | Ok _ => fail (EWrap "sync directory" e)
      | Err e' => fail (EJoin (EWrap "sync directory" e) (EWrap "close directory" e'))
      end
  | Ok _ => wrap "close directory" io
  end.

Definition syncFile {St} : M St unit :=
  _ ← wrap "open file for sync" io;
  s ← attempt io;
  match s with
  | Err e =>
      c ← attempt io;
      match c with
      | Ok _ => fail (EWrap "sync file" e)
      | Err e' => fail (EJoin (EWrap "sync file" e) (EWrap "close file" e'))
      end
  | Ok _ => wrap "close file" io
  end.

(** ** Operations *)

(** The loop of [resolvePathWithMissing]; the probe is given from its last
    component. *)
Fixpoint resolve_missing (f : fsys) (probe : list string) (missing : path) : result path :=
  match EvalSymlinks f (rev probe) with
  | Ok resolved => Ok (resolved ++ missing)
  | Err e =>
      if negb (error_is ENotExist e) then Err e else
      match probe with
      | [] => Err e
      | base :: parent => resolve_missing f parent (base :: missing)
      end
  end.
Definition resolvePathWithMissing (f : fsys) (s : string) : result path :=
  abs ← path_abs (os_cwd E) s;
  resolve_missing f (rev abs) [].

(** [if _, err := os.Lstat(p); err == nil { ... } else if !errors.Is(...)]. *)
Definition require_missing (p : path) (existsMsg inspectMsg : string) : M fsys unit :=
  r ← attempt (Lstat p);
  match r with
  | Ok _ => fail (EMsg existsMsg)
  | Err e => if error_is ENotExist e then mret () else fail (EWrap inspectMsg e)
  end.

(** [defer os.RemoveAll(probe)] after [m]. *)
Definition with_probe (p : path) (msg : string) (m : M fsys unit) : M fsys unit :=
  r ← attempt m;
  c ← attempt (RemoveAll p);
  match r, c with
  | Ok _, Ok _ => mret ()
  | Ok _, Err e => fail (EWrap msg e)
  | Err e, Ok _ => fail e
  | Err e, Err e' => fail (EJoin e (EWrap msg e'))
  end.

Definition verifyRenameNoReplace (parent : path) : M fsys unit :=
  source ← wrap "create no-replace source probe" (MkdirTemp parent ".l2state-rename-source-");
  with_probe source "remove no-replace source probe" (
    destination ← wrap "create no-replace destination probe" (MkdirTemp parent ".l2state-rename-destination-");
    with_probe destination "remove no-replace destination probe" (
      r ← attempt (renameNoReplace source destination);
      match r with
      | Ok _ => fail (EMsg "platform rename primitive replaced an existing directory")
      | Err e =>
          if error_is EExist e then mret ()
          else fail (EWrap "atomic no-replace directory publication is unavailable" e)
      end)).

Definition newAtomicDir (final : string) : M fsys atomicDir :=
  _ ← lift (reject_if (bool_decide (final = ""%string)) "output path is empty");
  f ← get;
  abs ← lift (wrap_err "resolve output path" (resolvePathWithMissing f final));
  _ ← require_missing abs "output path already exists" "inspect output path";
  _ ← wrap "create output parent" (MkdirAll (path_dir abs));
  f ← get;
  parent ← lift (wrap_err "resolve output parent" (EvalSymlinks f (path_dir abs)));
  let abs := parent ++ [path_base abs] in
  _ ← require_missing abs "output path already exists" "inspect resolved output path";
  _ ← wrap "preflight output-parent directory sync" (syncDirectory parent);
  _ ← verifyRenameNoReplace parent;
  let prefix := "." +:+ path_base abs +:+ ".partial-" in
  temp ← wrap "create temporary output" (MkdirTemp parent prefix);
  mret (MkAtomicDir abs parent temp prefix false).

(** Code of the first component of a pair of states. *)
Definition on_fst {S T A} (m : M S A) : M (S * T) A := zoom fst (λ x s, (x, s.2)) m.

Definition Commit : M out_state unit :=
  d ← gets snd;
  if ad_committed d then fail (EMsg "output is already committed") else
  _ ← on_fst (require_missing (ad_final d) "output path appeared during operation" "inspect output before publish");
  _ ← on_fst (syncDirectory (ad_temp d));
  _ ← on_fst (modify (race E));
  _ ← wrap "publish output" (on_fst (renameNoReplace (ad_temp d) (ad_final d)));
  _ ← modify (λ s, (s.1, set_committed d));
  wrap "output was published, but parent-directory durability is unknown"
    (wrap "sync output parent after publish" (on_fst (syncDirectory (ad_parent d)))).

Definition Abort : M out_state unit :=
  d ← gets snd;
  if ad_committed d then mret () else
  if negb (bool_decide (path_dir (ad_temp d) = ad_parent d)) ||
     negb (String.prefix (ad_tempPrefix d) (path_base (ad_temp d)))
  then fail (EMsg "refusing to remove unexpected temporary path")
  else on_fst (RemoveAll (ad_temp d)).

(** An operation that owns an output: it is created, used, and aborted by a
    deferred call. [T] is the rest of the operation's state. *)
Definition with_output {T A} (final : string) (abortMsg : string) (body : M (out_state * T) A) : M (fsys * T) A :=
  d ← on_fst (newAtomicDir final);
  s ← get;
  '(r, (f, d, t)) ← run_on body (s.1, d, s.2);
  '(c, (f, _)) ← run_on Abort (f, d);
  _ ← modify (λ _, (f, t));
  match r, c with
  | Ok a, Ok _ => mret a
  | Ok _, Err e => fail (EWrap abortMsg e)
  | Err e, Ok _ => fail e
  | Err e, Err e' => fail (EJoin e (EWrap abortMsg e'))
  end.

(** ** Keeping the output away from the input *)

(** The loop over the ancestors of the output, last component first. *)
Fixpoint check_ancestors (f : fsys) (input : fs_entry) (aliasMessage : string) (probe : list string) : result unit :=
  _ ← match os_Stat f (rev probe) with
      | Ok info => reject_if (os_SameFile input info) aliasMessage
      | Err e => if error_is ENotExist e then Ok () else Err (EWrap "inspect output ancestor" e)
      end;
  match probe with
  | [] => Ok ()
  | _ :: parent => check_ancestors f input aliasMessage parent
  end.

(** [filepath.EvalSymlinks] of the text of a path, made absolute. *)
Definition resolve_links (f : fsys) (s : string) : result path :=
  start ← (if String.prefix (String slash "") s then Ok [] else os_cwd E);
  walk_links f 255 start (path_split s "").

Definition rejectOutputInsideDirectory (f : fsys) (input output : string) (insideMessage aliasMessage : string) : result unit :=
  inputAbs ← wrap_err "resolve input path" (resolve_links f input);
  outputAbs ← wrap_err "resolve output path" (resolvePathWithMissing f output);
  let rel := path_rel inputAbs outputAbs in
  _ ← reject_if (bool_decide (rel = []) || negb (bool_decide (head rel = Some ".."%string))) insideMessage;
  inputInfo ← wrap_err "stat input path" (os_Stat f inputAbs);
  check_ancestors f inputInfo aliasMessage (rev outputAbs).

Definition rejectOutputInsideSource (f : fsys) (source output : string) : result unit :=
  rejectOutputInsideDirectory f source output
    "output must not be inside the source chaindata directory"
    "output aliases the source chaindata directory".
Definition rejectOutputInsideBundle (f : fsys) (bundlePath output : string) : result unit :=
  rejectOutputInsideDirectory f bundlePath output
    "artifact output must not be inside the input bundle directory"
    "artifact output aliases the input bundle directory".

End AtomicDir.

(** ** Lemmas on paths *)

Lemma strip_spec p q r : strip p q = Some r ↔ q = p ++ r.
Proof.
  revert q. induction p as [|c p IH]; intros q; cbn; [naive_solver|]. destruct q as [|d q]; [naive_solver|].
  case_bool_decide; subst; [rewrite IH; naive_solver|]. split; [done|]. by intros [= -> ->].
Qed.

Lemma strip_app p r : strip p (p ++ r) = Some r.
Proof. by apply strip_spec. Qed.

Lemma under_spec p q : under p q = true ↔ ∃ r, q = p ++ r.
Proof.
  unfold under. destruct (strip p q) as [r|] eqn:Es.
  - apply strip_spec in Es. split; [eauto|done].
  - split; [done|]. intros [r Hr]. apply strip_spec in Hr. congruence.
Qed.

Lemma under_false p q : under p q = false ↔ strip p q = None.
Proof. unfold under. by destruct (strip p q). Qed.

Lemma under_sibling parent a b r : a ≠ b → under (parent ++ [a]) ((parent ++ [b]) ++ r) = false.
Proof.
  intros Hab. apply not_true_iff_false. rewrite under_spec. intros [r' Hr]. rewrite -!app_assoc in Hr.
  apply app_inv_head in Hr. cbn in Hr. congruence.
Qed.

Lemma fs_move_new old new f r : fs_move old new f (new ++ r) = f (old ++ r).
Proof. unfold fs_move. by rewrite strip_app. Qed.

Lemma fs_move_other old new f q :
  under new q = false → under old q = false → fs_move old new f q = f q.
Proof. unfold fs_move. intros ->%under_false ->. done. Qed.

(** A name that a cleaned path can contain. *)
Definition name_ok (c : string) : Prop := c ≠ ""%string ∧ c ≠ "."%string ∧ c ≠ ".."%string.

(** Paths that are directories all the way down, without links. *)
Inductive solid (f : fsys) : path → Prop :=
| solid_nil : solid f []
| solid_snoc p c id : solid f p → name_ok c → f (p ++ [c]) = Some (FDir id) → solid f (p ++ [c]).

Lemma solid_removelast f p : solid f p → solid f (removelast p).
Proof. destruct 1 as [|p c id Hp]; [constructor|]. by rewrite removelast_last. Qed.

Lemma walk_links_nil f n cur : walk_links f n cur [] = Ok cur.
Proof. by destruct n. Qed.

Lemma walk_links_cons f n cur c todo :
  walk_links f n cur (c :: todo) =
  if bool_decide (c = "" ∨ c = ".")%string then walk_links f n cur todo
  else if bool_decide (c = "..")%string then walk_links f n (removelast cur) todo
  else match f (cur ++ [c]) with
       | None => Err ENotExist
       | Some (FDir _) => walk_links f n (cur ++ [c]) todo
       | Some (FFile _ _) => match todo with [] => Ok (cur ++ [c]) | _ => Err (EMsg "not a directory") end
       | Some (FLink absolute target) =>
           match n with
           | O => Err (EMsg "EvalSymlinks: too many links")
           | S n' => walk_links f n' (if (absolute : bool) then [] else cur) (target ++ todo)
           end
       end.
Proof. by destruct n. Qed.

Lemma name_ok_tests c :
  name_ok c → bool_decide (c = "" ∨ c = ".")%string = false ∧ bool_decide (c = "..")%string = false.
Proof. intros (? & ? & ?). split; apply bool_decide_eq_false_2; naive_solver. Qed.

Lemma walk_solid f n cur todo r :
  solid f cur → walk_links f n cur todo = Ok r → solid f r ∨ ∃ id content, f r = Some (FFile id content).
Proof.
  revert cur todo. induction n as [|n IHn]; intros cur todo; revert cur;
    induction todo as [|c todo IH]; intros cur Hs; rewrite ?walk_links_nil ?walk_links_cons; try (intros [= <-]; by left).
  all: case_bool_decide as H1; [by apply IH|]; case_bool_decide as H2; [by apply IH, solid_removelast|].
  all: destruct (f (cur ++ [c])) as [[id|id ct|ab tg]|] eqn:Ef; try done.
  - intros Hw. apply (IH (cur ++ [c])); [|done]. econstructor; [done| |done]. unfold name_ok. naive_solver.
  - destruct todo; [|done]. intros [= <-]. right. eauto.
  - intros Hw. apply (IH (cur ++ [c])); [|done]. econstructor; [done| |done]. unfold name_ok. naive_solver.
  - destruct todo; [|done]. intros [= <-]. right. eauto.
  - apply IHn. destruct ab; [constructor|done].
Qed.

Lemma solid_walk f n p todo : solid f p → walk_links f n [] (p ++ todo) = walk_links f n p todo.
Proof.
  intros Hp. revert todo. induction Hp as [|p c id Hp IH Hc Hf]; intros todo; [done|].
  rewrite -app_assoc IH. cbn [app]. rewrite walk_links_cons.
  destruct (name_ok_tests c Hc) as [-> ->]. by rewrite Hf.
Qed.

Lemma Lstat_solid f p c : solid f p → os_Lstat f (p ++ [c]) = match f (p ++ [c]) with Some e => Ok e | None => Err ENotExist end.
Proof.
  intros Hp. unfold os_Lstat. destruct (p ++ [c]) as [|x l] eqn:El; [by destruct p|]. rewrite -El. clear El.
  unfold path_dir, path_base. rewrite removelast_last last_snoc. cbn [default].
  pose proof (solid_walk f 40 p [] Hp) as Hw. rewrite app_nil_r walk_links_nil in Hw. rewrite Hw. done.
Qed.

(** ** File systems *)

(** The root is a directory, and everything lies in a directory. *)
Definition fs_wf (f : fsys) : Prop :=
  (∃ id, f [] = Some (FDir id)) ∧ ∀ p c, f (p ++ [c]) ≠ None → ∃ id, f p = Some (FDir id).

(** Everything in [f] is still there, unchanged, in [f']. *)
Definition fs_extends (f f' : fsys) : Prop := ∀ p e, f p = Some e → f' p = Some e.

(** Only directories have been added. *)
Definition fs_added_dirs (f f' : fsys) : Prop := ∀ p e, f' p = Some e → f p = Some e ∨ ∃ id, e = FDir id.

(** Both. *)
Definition fs_grown (f f' : fsys) : Prop := fs_extends f f' ∧ fs_added_dirs f f'.

Lemma fs_grown_refl f : fs_grown f f.
Proof. split; intros p e; [done|]. by left. Qed.

Lemma fs_wf_below f p r : fs_wf f → f p = None → f (p ++ r) = None.
Proof.
  intros [_ Hc] Hp. induction r as [|c r IH] using rev_ind; [by rewrite app_nil_r|].
  rewrite app_assoc. destruct (f ((p ++ r) ++ [c])) eqn:Ef; [|done].
  destruct (Hc (p ++ r) c) as [id Hid]; congruence.
Qed.

Lemma fs_put_wf f p c e : fs_wf f → (∃ id, f p = Some (FDir id)) → f (p ++ [c]) = None → fs_wf (fs_put (p ++ [c]) e f).
Proof.
  intros Hw [id Hd] Hn. pose proof Hw as [[id0 Hr] Hc]. split.
  - exists id0. unfold fs_put. rewrite bool_decide_eq_false_2 //. by destruct p.
  - intros q d. unfold fs_put. case_bool_decide as Hq.
    + apply app_inj_tail in Hq as [-> _]. intros _. exists id. rewrite bool_decide_eq_false_2 //.
      intros Hx. apply (f_equal length) in Hx. rewrite length_app in Hx. cbn in Hx. lia.
    + intros Hq'. destruct (Hc q d Hq') as [id' Hid']. exists id'. rewrite bool_decide_eq_false_2 //. intros ->. congruence.
Qed.

Lemma fs_put_grown f0 f p id : fs_grown f0 f → f p = None → fs_grown f0 (fs_put p (FDir id) f).
Proof.
  intros [He Ha] Hn. split; intros q x; unfold fs_put.
  - intros Hq%He. rewrite bool_decide_eq_false_2 //. intros ->. congruence.
  - case_bool_decide; [|by apply Ha]. intros [= <-]. eauto.
Qed.

(** Removing entries below a name that [f0] does not have. *)
Lemma fs_remove_grown f0 f p drop :
  fs_wf f0 → f0 p = None → (∀ q, drop q = true → under p q = true) → fs_grown f0 f → fs_grown f0 (fs_remove drop f).
Proof.
  intros Hw Hp Hd [He Ha]. split; intros q x; unfold fs_remove; destruct (drop q) eqn:Ed; try done; [|by apply He|by apply Ha].
  apply Hd, under_spec in Ed as [r ->]. by rewrite (fs_wf_below _ _ _ Hw Hp).
Qed.

(** Moving one such name to another. *)
Lemma fs_move_grown f0 f old new :
  fs_wf f0 → f0 old = None → f0 new = None → fs_grown f0 f → fs_grown f0 (fs_move old new f).
Proof.
  intros Hw Ho Hn [He Ha]. split; intros q x.
  - intros Hq. rewrite fs_move_other; [by apply He|apply not_true_iff_false..]; intros [r ->]%under_spec;
      rewrite fs_wf_below // in Hq.
  - unfold fs_move. destruct (strip new q) as [r|].
    + intros Hx. apply Ha in Hx as [Hx|]; [|by right]. rewrite fs_wf_below // in Hx.
    + destruct (under old q); [done|]. apply Ha.
Qed.

Lemma fs_put_remove f p e q : fs_wf f → f p = None → fs_remove (under p) (fs_put p e f) q = f q.
Proof.
  intros Hw Hp. unfold fs_remove, fs_put. destruct (under p q) eqn:Eu.
  - apply under_spec in Eu as [r ->]. by rewrite fs_wf_below.
  - rewrite bool_decide_eq_false_2 //. intros ->. assert (under p p = true) by (apply under_spec; exists []; by rewrite app_nil_r). congruence.
Qed.

(** ** What the operations do to the file system *)

Section FsLemmas.
Context (E : os_env) (f0 : fsys) (Hwf : fs_wf f0).

Lemma Lstat_state p f w r f' w' : Lstat p f w = (r, f', w') → f' = f.
Proof.
  unfold Lstat, mbind, M_bind, get, lift. destruct (io f w) as [[[[]|e] s] w1] eqn:Ei; apply io_state in Ei; subst; naive_solver.
Qed.

Lemma syncDirectory_state p f w r f' w' : syncDirectory p f w = (r, f', w') → f' = f.
Proof.
  intros Hr. assert (Hk : keeps (λ g, g = f) (syncDirectory p)); [|by eapply (keeps_run _ _ _ _ _ _ _ Hk Hr)].
  unfold syncDirectory. auto 12 with l2.
Qed.

Lemma require_missing_state p m1 m2 f w r f' w' : require_missing p m1 m2 f w = (r, f', w') → f' = f.
Proof.
  intros Hr. assert (Hk : keeps (λ g, g = f) (require_missing p m1 m2)); [|by eapply (keeps_run _ _ _ _ _ _ _ Hk Hr)].
  unfold require_missing, Lstat. auto 12 with l2.
Qed.

Lemma require_missing_ok p m1 m2 f w u f' w' :
  require_missing p m1 m2 f w = (Ok u, f', w') → f' = f ∧ ∀ e, os_Lstat f p ≠ Ok e.
Proof.
  intros Hr. split; [by eapply require_missing_state|]. unfold require_missing in Hr. mstep Hr. minv.
  match goal with r : result fs_entry |- _ => destruct r as [|e] end; [minv|].
  match goal with Hx : Lstat p f w = _ |- _ => rename Hx into Hl end. unfold Lstat, mbind, M_bind, get, lift in Hl.
  destruct (io f w) as [[[[]|e'] s] w1] eqn:Ei.
  - apply io_ok in Ei as ->. injection Hl as Hl _ _. by rewrite Hl.
  - apply io_err in Ei as [-> ->]. injection Hl as <- _ _. cbn in Hr. rewrite bool_decide_eq_false_2 in Hr; [|done]. cbn in Hr. minv.
Qed.

Lemma MkdirTemp_grown parent prefix : keeps (fs_grown f0) (MkdirTemp E parent prefix).
Proof.
  intros f w Hf. unfold MkdirTemp, mbind, M_bind, get, modify, mret, M_ret, fail. destruct (io f w) as [[[[]|e] s] w1] eqn:Ei;
    apply io_state in Ei; subst; [|done]. destruct (f parent) as [[]|]; try done.
  destruct (f (parent ++ _)) eqn:Ep; [done|]. by apply fs_put_grown.
Qed.

Lemma MkdirTemp_ok parent prefix f w p f' w' :
  MkdirTemp E parent prefix f w = (Ok p, f', w') →
  p = parent ++ [prefix +:+ temp_suffix E prefix] ∧ (∃ id, f parent = Some (FDir id)) ∧ f p = None ∧
  f' = fs_put p (FDir (inode E p)) f.
Proof.
  unfold MkdirTemp. intros Hr. mstep Hr. minv. destruct (f parent) as [[id|? ?|? ?]|] eqn:Ed; try minv.
  destruct (f (parent ++ _)) eqn:Ep; minv. eauto.
Qed.

Lemma RemoveAll_grown p : f0 p = None → keeps (fs_grown f0) (RemoveAll E p).
Proof.
  intros Hp. unfold RemoveAll. apply keeps_bind; [auto with l2|]. intros [[]|e].
  - apply keeps_modify. intros f. by apply (fs_remove_grown _ _ p).
  - apply keeps_bind; [|auto with l2]. apply keeps_modify. intros f. apply (fs_remove_grown _ _ p); [done..|].
    by intros q [? _]%andb_true_iff.
Qed.

Lemma RemoveAll_ok p f w u f' w' : RemoveAll E p f w = (Ok u, f', w') → f' = fs_remove (under p) f.
Proof.
  unfold RemoveAll. intros Hr. minv. match goal with r : result () |- _ => destruct r; minv end.
  done.
Qed.

Lemma renameNoReplace_grown old new :
  f0 old = None → f0 new = None → keeps (fs_grown f0) (renameNoReplace old new).
Proof.
  intros Ho Hn. unfold renameNoReplace. apply keeps_bind; [auto with l2|]. intros _. apply keeps_bind; [auto with l2|].
  intros f. destruct (f old), (f new); auto with l2. destruct (under old new); auto with l2. apply keeps_modify.
  intros g. by apply fs_move_grown.
Qed.

Lemma renameNoReplace_ok old new f w u f' w' :
  renameNoReplace old new f w = (Ok u, f', w') → f new = None ∧ f old ≠ None ∧ f' = fs_move old new f.
Proof.
  unfold renameNoReplace. intros Hr. mstep Hr. minv. destruct (f old) eqn:Eo, (f new) eqn:En; minv.
  destruct (under old new); minv. done.
Qed.

Lemma renameNoReplace_state old new f w e f' w' : renameNoReplace old new f w = (Err e, f', w') → f' = f.
Proof.
  unfold renameNoReplace, mbind, M_bind, get, modify, fail. destruct (io f w) as [[[[]|e'] s] w1] eqn:Ei;
    apply io_state in Ei; subst; [|naive_solver]. destruct (f old), (f new), (under old new); naive_solver.
Qed.

Lemma with_probe_grown p msg m : f0 p = None → keeps (fs_grown f0) m → keeps (fs_grown f0) (with_probe E p msg m).
Proof.
  intros Hp Hm. unfold with_probe. apply keeps_bind; [by apply keeps_attempt|]. intros r.
  apply keeps_bind; [by apply keeps_attempt, RemoveAll_grown|]. intros c. destruct r, c; auto with l2.
Qed.

Lemma MkdirTemp_fresh parent prefix f w p f' w' :
  fs_grown f0 f → MkdirTemp E parent prefix f w = (Ok p, f', w') → f0 p = None.
Proof.
  intros [Hf _] (_ & _ & Hn & _)%MkdirTemp_ok. destruct (f0 p) eqn:Ep; [|done]. apply Hf in Ep. congruence.
Qed.

Lemma verifyRenameNoReplace_grown parent : keeps (fs_grown f0) (verifyRenameNoReplace E parent).
Proof.
  unfold verifyRenameNoReplace. apply keeps_bind_post; [apply keeps_wrap, MkdirTemp_grown|].
  intros f w src f' w' Hf Hr%wrap_ok%MkdirTemp_fresh; [|done]. apply with_probe_grown; [done|].
  apply keeps_bind_post; [apply keeps_wrap, MkdirTemp_grown|].
  intros g w1 dst g' w1' Hg Hr'%wrap_ok%MkdirTemp_fresh; [|done]. apply with_probe_grown; [done|].
  apply keeps_bind; [by apply keeps_attempt, renameNoReplace_grown|]. intros r. destruct r; auto with l2.
Qed.

Lemma mkdir_all_grown cur todo : keeps (fs_grown f0) (mkdir_all E cur todo).
Proof.
  revert cur. induction todo as [|c todo IH]; intros cur f w Hf; [done|]. cbn [mkdir_all].
  unfold mbind at 1, M_bind at 1. cbn [get]. destruct (f (cur ++ [c])) as [[id|id ct|ab tg]|] eqn:Ef.
  - by apply IH.
  - done.
  - revert Hf. apply keeps_bind; [auto with l2|]. intros r. destruct (f r) as [[]|]; auto with l2.
  - unfold mbind at 1, M_bind at 1. destruct (io f w) as [[[[]|e] s] w1] eqn:Ei; apply io_state in Ei; subst; [|done].
    unfold mbind, M_bind. cbn [modify]. apply IH. by apply fs_put_grown.
Qed.

Lemma newAtomicDir_grown final : keeps (fs_grown f0) (newAtomicDir E final).
Proof.
  unfold newAtomicDir, MkdirAll.
  assert (Hreq : ∀ p m1 m2, keeps (fs_grown f0) (require_missing p m1 m2)).
  { intros p m1 m2. unfold require_missing, Lstat. auto 12 with l2. }
  assert (Hsync : ∀ p, keeps (fs_grown f0) (syncDirectory p)).
  { intros p. unfold syncDirectory. auto 12 with l2. }
  repeat first
  [ apply Hreq | apply keeps_wrap, Hsync | apply keeps_wrap, mkdir_all_grown | apply keeps_wrap, MkdirTemp_grown
  | apply verifyRenameNoReplace_grown | apply keeps_lift | apply keeps_get | apply keeps_ret
  | apply keeps_bind; [|intros ?] ].
Qed.

End FsLemmas.

Lemma fs_wf_ext f f' : (∀ q, f' q = f q) → fs_wf f → fs_wf f'.
Proof. intros He [[id Hr] Hc]. split; [exists id; by rewrite He|]. intros p c. rewrite !He. apply Hc. Qed.

(** A file system [f1] on which the output [d] was opened: nothing of [f] is
    lost, only directories were added, and neither the output path nor the
    temporary path exists. *)
Record fresh_output (f : fsys) (d : atomicDir) (f1 : fsys) : Prop := {
  fo_wf : fs_wf f1;
  fo_grown : fs_grown f f1;
  fo_base : ad_final d = ad_parent d ++ [path_base (ad_final d)];
  fo_temp : ad_temp d = ad_parent d ++ [path_base (ad_temp d)];
  fo_differ : path_base (ad_temp d) ≠ path_base (ad_final d);
  fo_prefix : String.prefix (ad_tempPrefix d) (path_base (ad_temp d)) = true;
  fo_open : ad_committed d = false;
  fo_parent : solid f1 (ad_parent d);
  fo_final_free : f1 (ad_final d) = None;
  fo_temp_free : f1 (ad_temp d) = None
}.

Section OpenLemmas.
Context (E : os_env).

Lemma with_probe_ok p msg m f w u f' w' :
  with_probe E p msg m f w = (Ok u, f', w') → ∃ g w1, m f w = (Ok (), g, w1) ∧ f' = fs_remove (under p) g.
Proof.
  unfold with_probe. intros Hr. mstep Hr. minv.
  repeat match goal with r : result () |- _ => destruct r; minv end.
  match goal with Hx : RemoveAll _ _ _ _ = _ |- _ => apply RemoveAll_ok in Hx as -> end. eauto.
Qed.

Lemma verifyRenameNoReplace_ok parent f w u f' w' :
  fs_wf f → verifyRenameNoReplace E parent f w = (Ok u, f', w') → ∀ q, f' q = f q.
Proof.
  unfold verifyRenameNoReplace. intros Hwf Hr. minv.
  match goal with Hx : MkdirTemp _ _ _ _ _ = _ |- _ => apply MkdirTemp_ok in Hx as (-> & Hd & Hsrc & ->) end.
  set (src := parent ++ [_ +:+ temp_suffix E ".l2state-rename-source-"]) in *.
  apply with_probe_ok in Hr as (g & w1 & Hr & ->). minv.
  match goal with Hx : MkdirTemp _ _ _ _ _ = _ |- _ => apply MkdirTemp_ok in Hx as (-> & _ & Hdst & ->) end.
  set (dst := parent ++ [_ +:+ temp_suffix E ".l2state-rename-destination-"]) in *.
  apply with_probe_ok in Hr as (h & w2 & Hr & ->). minv.
  match goal with r : result () |- _ => destruct r; minv end.
  match goal with Hx : renameNoReplace _ _ _ _ = _ |- _ => apply renameNoReplace_state in Hx; subst end.
  destruct (error_is EExist _); minv.
  assert (Hw1 : fs_wf (fs_put src (FDir (inode E src)) f)) by (by apply fs_put_wf).
  intros q. rewrite -(fs_put_remove f src (FDir (inode E src)) q) //. unfold fs_remove at 1 3.
  destruct (under src q); [done|]. by apply fs_put_remove.
Qed.

Lemma mkdir_all_ok cur todo f w u f' w' :
  fs_wf f → (∃ id, f cur = Some (FDir id)) → mkdir_all E cur todo f w = (Ok u, f', w') → fs_wf f'.
Proof.
  revert cur f w. induction todo as [|c todo IH]; intros cur f w Hwf Hd Hr; cbn [mkdir_all] in Hr.
  { by minv. }
  mstep Hr. minv. destruct (f (cur ++ [c])) as [[id|id ct|ab tg]|] eqn:Ef; try by minv.
  - eapply IH; [done| |exact Hr]. eauto.
  - minv. match type of Hr with (match f ?r with _ => _ end) _ _ = _ => destruct (f r) as [[]|] eqn:Er; try by minv end.
    eapply IH; [done| |exact Hr]. eauto.
  - minv. eapply IH; [| |exact Hr].
    + by apply fs_put_wf.
    + exists (inode E (cur ++ [c])). unfold fs_put. by rewrite bool_decide_eq_true_2.
Qed.

Lemma prefix_self a b : String.prefix a (a +:+ b) = true.
Proof. induction a as [|c a IH]; [by destruct b|]. 
  change (String c a +:+ b) with (String c (a +:+ b)). cbn [String.prefix]. destruct (Ascii.ascii_dec c c); [exact IH|done].
Qed.

Lemma length_str_app a b : String.length (a +:+ b) = (String.length a + String.length b)%nat.
Proof. induction a as [|c a IH]; [done|]. change (S (String.length (a +:+ b)) = S (String.length a + String.length b)). by rewrite IH. Qed.

Lemma partial_name_differs base suffix : ("." +:+ base +:+ ".partial-") +:+ suffix ≠ base.
Proof. intros H%(f_equal String.length). rewrite !length_str_app in H. cbn in H. lia. Qed.

Lemma newAtomicDir_ok final f w d f' w' :
  fs_wf f → newAtomicDir E final f w = (Ok d, f', w') →
  ∃ f1, fresh_output f d f1 ∧ ∀ q, f' q = fs_put (ad_temp d) (FDir (inode E (ad_temp d))) f1 q.
Proof.
  intros Hwf Hr.
  unfold newAtomicDir in Hr. minv.
  repeat match goal with
  | Hx : require_missing _ _ _ _ _ = _ |- _ => apply require_missing_ok in Hx as (-> & ?)
  | Hx : syncDirectory _ _ _ = _ |- _ => apply syncDirectory_state in Hx as ->
  end.
  match goal with Hx : MkdirAll _ _ _ _ = _ |- _ => rename Hx into Hmk end.
  unfold MkdirAll in Hmk. pose proof (keeps_run _ _ _ _ _ _ _ (mkdir_all_grown E f _ _) Hmk (fs_grown_refl f)) as Hext1.
  apply mkdir_all_ok in Hmk as Hwf1; [|done|apply Hwf].
  match goal with Hx : verifyRenameNoReplace _ _ ?g _ = _, Hy : EvalSymlinks ?g (path_dir ?a) = Ok ?x |- _ =>
    pose proof (verifyRenameNoReplace_ok _ _ _ _ _ _ Hwf1 Hx) as Hv; rename Hy into Hpar, g into f1, x into parent, a into abs end.
  match goal with Hx : MkdirTemp _ _ _ _ _ = _ |- _ => apply MkdirTemp_ok in Hx as (-> & [id Hd] & Hn & ->) end.
  rewrite Hv in Hd. rewrite Hv in Hn.
  assert (Hsol : solid f1 parent).
  { destruct (walk_solid _ _ _ _ _ (solid_nil _) Hpar) as [|(? & ? & ?)]; [done|congruence]. }
  exists f1. split; [|intros q; unfold fs_put; by rewrite Hv].
  assert (Hb : ∀ c, path_base (parent ++ [c]) = c) by (intros c; unfold path_base; by rewrite last_snoc).
  split; cbn [ad_final ad_parent ad_temp ad_tempPrefix ad_committed]; rewrite ?Hb //.
  - apply partial_name_differs.
  - apply prefix_self.
  - match goal with Hx : ∀ e, os_Lstat f1 _ ≠ Ok e |- _ => rename Hx into Hl end.
    destruct (f1 (parent ++ [path_base abs])) as [e|] eqn:Ef; [|done]. destruct (Hl e). by rewrite (Lstat_solid _ _ _ Hsol) Ef.
  - by rewrite Hb in Hn.
Qed.

End OpenLemmas.

(** ** The theorems *)

(** Code that works on the file system and the rest of the state. *)
Definition on_work {T A} (m : M (fsys * T) A) : M (out_state * T) A :=
  zoom (λ s, (s.1.1, s.2)) (λ x s, (x.1, s.1.2, x.2)) m.

(** An operation that fills its output and publishes it. *)
Definition publish_work {T A} (E : os_env) (work : atomicDir → M (fsys * T) A) : M (out_state * T) A :=
  d ← gets (λ s, s.1.2);
  a ← on_work (work d);
  _ ← on_fst (Commit E);
  mret a.

(** [f'] holds at the output path what [f2] held at the temporary path, and is
    otherwise [f1]. *)
Definition published (d : atomicDir) (f1 f2 f' : fsys) : Prop :=
  (∀ rest, f' (ad_final d ++ rest) = f2 (ad_temp d ++ rest)) ∧
  (∀ rest, f' (ad_temp d ++ rest) = None) ∧
  ∀ q, under (ad_final d) q = false → under (ad_temp d) q = false → f' q = f1 q.

Section Publication.
Context (E : os_env).

Lemma on_fst_run {S T A} (m : M S A) f (d : T) w :
  on_fst m (f, d) w = ((m f w).1.1, ((m f w).1.2, d), (m f w).2).
Proof. unfold on_fst, zoom. cbn. by destruct (m f w) as [[r f'] w']. Qed.

Lemma Commit_cases f d w r f' d' w' :
  ad_committed d = false → Commit E (f, d) w = (r, (f', d'), w') →
  (d' = d ∧ (f' = f ∨ f' = race E f) ∧ ∃ e, r = Err e) ∨
  (d' = set_committed d ∧ race E f (ad_final d) = None ∧ f' = fs_move (ad_temp d) (ad_final d) (race E f)).
Proof.
  intros Hopen. unfold Commit, mbind, M_bind, gets. cbn [snd]. rewrite Hopen on_fst_run.
  destruct (require_missing _ _ _ f w) as [[r1 g1] w1] eqn:E1. apply require_missing_state in E1 as ->. cbn [fst snd].
  destruct r1 as [[]|e1]; [|intros [= <- <- <- <-]; left; eauto]. rewrite on_fst_run.
  destruct (syncDirectory (ad_temp d) f w1) as [[r2 g2] w2] eqn:E2. apply syncDirectory_state in E2 as ->. cbn [fst snd].
  destruct r2 as [[]|e2]; [|intros [= <- <- <- <-]; left; eauto]. unfold on_fst at 1, zoom at 1, modify at 1. cbn [fst snd].
  unfold wrap at 1. rewrite on_fst_run.
  destruct (renameNoReplace _ _ (race E f) w2) as [[r3 g3] w3] eqn:E3. cbn [fst snd].
  destruct r3 as [[]|e3]; [|apply renameNoReplace_state in E3 as ->; intros [= <- <- <- <-]; left; eauto].
  apply renameNoReplace_ok in E3 as (Hf & _ & ->). unfold modify. cbn [fst snd]. unfold wrap. rewrite on_fst_run.
  destruct (syncDirectory (ad_parent d) _ w3) as [[r4 g4] w4] eqn:E4. apply syncDirectory_state in E4 as ->. cbn [fst snd].
  intros Hr. right. destruct r4; injection Hr as <- <- <- <-; done.
Qed.

Lemma Abort_committed f d w : ad_committed d = true → Abort E (f, d) w = (Ok (), (f, d), w).
Proof. intros Hc. unfold Abort, mbind, M_bind, gets. cbn [snd]. by rewrite Hc. Qed.

(** Whatever [Abort] does, it touches nothing outside the temporary path. *)
Lemma Abort_outside f d w q :
  under (ad_temp d) q = false → (Abort E (f, d) w).1.2.1 q = f q ∧ (Abort E (f, d) w).1.2.2 = d.
Proof.
  intros Hq. unfold Abort, mbind, M_bind, gets. cbn [snd]. destruct (ad_committed d); [done|].
  destruct (_ || _); [done|]. rewrite on_fst_run. cbn [fst snd]. split; [|done].
  unfold RemoveAll, mbind, M_bind, attempt. destruct (io f w) as [[[[]|e] g] w1] eqn:Ei; apply io_state in Ei; subst;
    cbn; unfold fs_remove; by rewrite Hq.
Qed.

Lemma fresh_output_siblings f d f1 r :
  fresh_output f d f1 → under (ad_temp d) (ad_final d ++ r) = false ∧ under (ad_final d) (ad_temp d ++ r) = false.
Proof.
  intros Ho. pose proof (fo_base _ _ _ Ho) as Hb. pose proof (fo_temp _ _ _ Ho) as Ht. pose proof (fo_differ _ _ _ Ho) as Hd.
  rewrite Hb Ht. split; apply under_sibling; naive_solver.
Qed.

(** What an owner of an output does before it publishes: it changes nothing
    outside the temporary directory. *)
Definition stays_inside {T A} (work : atomicDir → M (fsys * T) A) : Prop :=
  ∀ d g w q, under (ad_temp d) q = false → (work d g w).1.2.1 q = g.1 q.

Lemma publish_work_cases {T A} (work : atomicDir → M (fsys * T) A) f d (t : T) w r f' d' t' w' :
  (∀ g, race E g = g) → ad_committed d = false → publish_work E work (f, d, t) w = (r, (f', d', t'), w') →
  ∃ r1 f2 w1, work d (f, t) w = (r1, (f2, t'), w1) ∧
    ((d' = d ∧ f' = f2 ∧ ∃ e, r = Err e) ∨
     (∃ a, r1 = Ok a ∧ d' = set_committed d ∧ f2 (ad_final d) = None ∧ f' = fs_move (ad_temp d) (ad_final d) f2 ∧
           (r = Ok a ∨ ∃ e, r = Err e))).
Proof.
  intros Hq Hc. unfold publish_work. unfold mbind at 1, M_bind at 1, gets at 1. cbn [fst snd].
  unfold mbind at 1, M_bind at 1, on_work, zoom. cbn [fst snd]. destruct (work d (f, t) w) as [[r1 [f2 t2]] w1]. cbn [fst snd].
  intros Hr. exists r1, f2, w1. destruct r1 as [a|e]; [|injection Hr as <- <- <- <- <-; eauto 10].
  unfold mbind, M_bind in Hr. rewrite on_fst_run in Hr. destruct (Commit E (f2, d) w1) as [[r2 [f3 d3]] w3] eqn:Ec. cbn [fst snd] in Hr.
  apply Commit_cases in Ec as [(-> & Hf & e & ->)|(-> & Hf & ->)]; [| |done].
  - injection Hr as <- <- <- <- <-. split; [done|]. left. split; [done|]. split; [|eauto]. rewrite Hq in Hf. by destruct Hf.
  - rewrite !Hq in Hf Hr |- *. destruct r2 as [[]|e]; injection Hr as <- <- <- <- <-; (split; [done|]); right; exists a; eauto 10.
Qed.

(** Moving the finished output into place. *)
Lemma published_move f d f1 f2 e :
  fresh_output f d f1 → (∀ q, under (ad_temp d) q = false → f2 q = fs_put (ad_temp d) e f1 q) →
  published d f1 f2 (fs_move (ad_temp d) (ad_final d) f2).
Proof.
  intros Ho H2. split; [|split].
  - intros rest. apply fs_move_new.
  - intros rest. unfold fs_move. destruct (fresh_output_siblings _ _ _ rest Ho) as [_ Hx]. rewrite (proj1 (under_false _ _) Hx).
    rewrite (proj2 (under_spec _ _)) //. eauto.
  - intros q Hf Ht. rewrite fs_move_other // H2 //. unfold fs_put. rewrite bool_decide_eq_false_2 //. intros ->.
    assert (under (ad_temp d) (ad_temp d) = true) by (apply under_spec; exists []; by rewrite app_nil_r). congruence.
Qed.

(** An entry that existed before is where it was. *)
Lemma output_kept f d f1 f' q :
  fs_wf f → fresh_output f d f1 → (∀ q, under (ad_final d) q = false → under (ad_temp d) q = false → f' q = f1 q) →
  f q ≠ None → f' q = f q.
Proof.
  intros Hw Ho Hout Hq. destruct (f q) as [e|] eqn:Ef; [|done]. destruct (fo_grown _ _ _ Ho) as [Hx _]. apply Hx in Ef as Hq1.
  rewrite Hout //; apply not_true_iff_false; intros [r ->]%under_spec;
    rewrite (fs_wf_below _ _ _ (fo_wf _ _ _ Ho)) in Hq1; try done; by destruct Ho.
Qed.

(** Agreement with [f1] outside the output preserves everything of [f]. *)
Lemma outside_extends f d f1 f' :
  fs_wf f → fresh_output f d f1 → (∀ q, under (ad_final d) q = false → under (ad_temp d) q = false → f' q = f1 q) → fs_extends f f'.
Proof.
  intros Hw Ho Hout q e Hq. rewrite -Hq. apply (output_kept f d f1); try done. congruence.
Qed.

(** Commit never replaces anything, whatever other processes do between
    its check and its rename: it succeeds only if the output path is free at
    the moment of the rename, and then the output path holds exactly the
    temporary tree, the temporary path is gone and every other path is
    untouched; if it fails without having published, the file system is as the
    other processes left it; it can fail after publishing only with the output
    in place, and then the output counts as committed and [Abort] leaves it
    alone. *)
Theorem commit_atomic f d w r f' d' w' :
  ad_committed d = false → Commit E (f, d) w = (r, (f', d'), w') →
  let g := race E f in
  if ad_committed d' then
    g (ad_final d) = None ∧ (∀ rest, f' (ad_final d ++ rest) = g (ad_temp d ++ rest)) ∧
    (∀ q, under (ad_final d) q = false → f' q = if under (ad_temp d) q then None else g q) ∧
    Abort E (f', d') w' = (Ok (), (f', d'), w')
  else d' = d ∧ (f' = f ∨ f' = g) ∧ ∃ e, r = Err e.
Proof.
  intros Hc Hr g. destruct (Commit_cases _ _ _ _ _ _ _ Hc Hr) as [(-> & Hf & He)|(-> & Hf & ->)]; [by rewrite Hc|].
  cbn [ad_committed set_committed]. split; [done|]. split; [intros rest; apply fs_move_new|]. split.
  - intros q Hq. unfold fs_move. by rewrite (proj1 (under_false _ _) Hq).
  - by apply Abort_committed.
Qed.

(** [work], started with its empty temporary directory on top of [f1],
    returned [a] and left [f2]. *)
Definition finished {T A} (work : atomicDir → M (fsys * T) A) (d : atomicDir) (f1 : fsys) (a : A) (f2 : fsys) : Prop :=
  ∃ g t t' w1 w2, (∀ q, g q = fs_put (ad_temp d) (FDir (inode E (ad_temp d))) f1 q) ∧ work d (g, t) w1 = (Ok a, (f2, t'), w2).

Lemma with_output_ext {T A} final msg (body body' : M (out_state * T) A) s w :
  (∀ s w, body s w = body' s w) → with_output E final msg body s w = with_output E final msg body' s w.
Proof.
  intros Hb. unfold with_output, mbind, M_bind, run_on, get. destruct (on_fst _ s w) as [[[d|e] s1] w1]; [|done]. by rewrite Hb.
Qed.

Lemma with_output_cases {T A} final msg (body : M (out_state * T) A) f t w r f' t' w' :
  with_output E final msg body (f, t) w = (r, (f', t'), w') →
  (∃ e, r = Err e ∧ newAtomicDir E final f w = (Err e, f', w') ∧ t' = t) ∨
  ∃ d g w1 r1 f2 d2 w2 c, newAtomicDir E final f w = (Ok d, g, w1) ∧ body (g, d, t) w1 = (r1, (f2, d2, t'), w2) ∧
    Abort E (f2, d2) w2 = (c, (f', d2), w') ∧ (r = r1 ∧ c = Ok () ∨ ∃ e e', r = Err e ∧ c = Err e').
Proof.
  unfold with_output, mbind at 1, M_bind at 1. rewrite on_fst_run.
  destruct (newAtomicDir E final f w) as [[[d|e] g] w1]; cbn [fst snd]; [|intros [= <- <- <- <-]; left; eauto].
  unfold mbind at 1, M_bind at 1, get at 1, mbind at 1, M_bind at 1, run_on at 1. cbn [fst snd].
  destruct (body (g, d, t) w1) as [[r1 [[f2 d2] t2]] w2] eqn:Eb. unfold mbind at 1, M_bind at 1, run_on.
  destruct (Abort E (f2, d2) w2) as [[c [f3 d3]] w3] eqn:Ea. intros Hr. right.
  assert (d3 = d2) as ->.
  { clear -Ea. unfold Abort, mbind, M_bind, gets in Ea. cbn [snd] in Ea. destruct (ad_committed d2); [by injection Ea|].
    destruct (_ || _); [by injection Ea|]. rewrite on_fst_run in Ea. by injection Ea. }
  exists d, g, w1, r1, f2, d2, w2, c. cbn in Hr.
  assert (f' = f3 ∧ t' = t2 ∧ w' = w3) as (-> & -> & ->) by (destruct r1, c; by injection Hr as _ <- <- <-).
  split; [done|]. split; [done|]. split; [done|].
  destruct r1 as [a|e1], c as [[]|e2]; cbn in Hr; inversion Hr; subst; eauto.
Qed.

(** What a successful owner of an output has done and published. *)
Lemma output_owner_run {T A} final msg (work : atomicDir → M (fsys * T) A) f t w a f' t' w' :
  fs_wf f → (∀ g, race E g = g) → stays_inside work →
  with_output E final msg (publish_work E work) (f, t) w = (Ok a, (f', t'), w') →
  ∃ d f1 g f2 w1 w2, fresh_output f d f1 ∧ (∀ q, g q = fs_put (ad_temp d) (FDir (inode E (ad_temp d))) f1 q) ∧
    work d (g, t) w1 = (Ok a, (f2, t'), w2) ∧ published d f1 f2 f'.
Proof.
  intros Hw Hq Hin Hr. destruct (with_output_cases _ _ _ _ _ _ _ _ _ _ Hr)
    as [(e & ? & _)|(d & g & w1 & r1 & f2 & d2 & w2 & c & Hn & Hb & Ha & [[<- ->]|(? & ? & ? & _)])]; [done| |done].
  apply newAtomicDir_ok in Hn as (f1 & Ho & Hg); [|done].
  destruct (publish_work_cases _ _ _ _ _ _ _ _ _ _ Hq (fo_open _ _ _ Ho) Hb) as (r2 & f3 & w3 & Hwork & Hcase).
  destruct Hcase as [(-> & -> & e & ?)|(a' & -> & -> & Hfree & -> & [[= ->]|[e ?]])]; [done| |done].
  rewrite Abort_committed // in Ha. injection Ha as <- <-. exists d, f1, g, f3, w1, w3. split; [done|].
  split; [done|]. split; [done|]. apply (published_move f _ _ _ (FDir (inode E (ad_temp d))) Ho).
  intros q Hq'. specialize (Hin d (g, t) w1 q Hq'). rewrite Hwork /= Hg in Hin. done.
Qed.

Lemma output_owner {T A} final msg (work : atomicDir → M (fsys * T) A) f t w a f' t' w' :
  fs_wf f → (∀ g, race E g = g) → stays_inside work →
  with_output E final msg (publish_work E work) (f, t) w = (Ok a, (f', t'), w') →
  ∃ d f1 f2, fresh_output f d f1 ∧ finished work d f1 a f2 ∧ published d f1 f2 f'.
Proof.
  intros Hw Hq Hin (d & f1 & g & f2 & w1 & w2 & ? & ? & ? & ?)%output_owner_run; [|done..].
  exists d, f1, f2. split; [done|]. split; [|done]. by exists g, t, t', w1, w2.
Qed.

(** Outside its path, a publication has only created directories. *)
Lemma published_outside f d f1 f2 f' :
  fs_wf f → fresh_output f d f1 → published d f1 f2 f' →
  f (ad_final d) = None ∧
  ∀ q, under (ad_final d) q = false → f' q = f q ∨ (f q = None ∧ ((∃ id, f' q = Some (FDir id)) ∨ f' q = None)).
Proof.
  intros Hwf Hfresh (Hpub & Htmp & Hout). split.
  { destruct (f (ad_final d)) eqn:Ef; [|done]. apply (proj1 (fo_grown _ _ _ Hfresh)) in Ef. rewrite (fo_final_free _ _ _ Hfresh) in Ef. done. }
  intros q Hqf. destruct (f q) as [e|] eqn:Ef.
  - left. rewrite -Ef. apply (output_kept f d f1); try done. congruence.
  - right. split; [done|]. destruct (f' q) as [e|] eqn:Ef'; [|by right]. left.
    destruct (under (ad_temp d) q) eqn:Et; [apply under_spec in Et as [r ->]; by rewrite Htmp in Ef'|].
    rewrite Hout // in Ef'. apply (proj2 (fo_grown _ _ _ Hfresh)) in Ef' as [|[id ->]]; [congruence|eauto].
Qed.

(** A published output with two entries. *)
Lemma published_pair f d f1 g f2 f' n1 e1 n2 e2 :
  fresh_output f d f1 → (∀ q, g q = fs_put (ad_temp d) (FDir (inode E (ad_temp d))) f1 q) → n1 ≠ n2 →
  (∀ q, f2 q = fs_put (ad_temp d ++ [n2]) e2 (fs_put (ad_temp d ++ [n1]) e1 g) q) → published d f1 f2 f' →
  (∃ id, f' (ad_final d) = Some (FDir id)) ∧ f' (ad_final d ++ [n1]) = Some e1 ∧ f' (ad_final d ++ [n2]) = Some e2 ∧
  ∀ rest, f' (ad_final d ++ rest) ≠ None → rest = [] ∨ rest = [n1] ∨ rest = [n2].
Proof.
  intros Hfresh Hg Hne Hf2 (Hpub & _ & _).
  assert (Hbelow : ∀ r, f1 (ad_temp d ++ r) = None) by (intros r; apply fs_wf_below; [apply Hfresh|]; by destruct Hfresh).
  assert (Hput : ∀ r, f' (ad_final d ++ r) = if bool_decide (r = [n2]) then Some e2 else if bool_decide (r = [n1]) then Some e1
    else if bool_decide (r = []) then Some (FDir (inode E (ad_temp d))) else None).
  { intros r. rewrite Hpub Hf2. unfold fs_put at 1 2. rewrite Hg. unfold fs_put.
    rewrite (bool_decide_ext (ad_temp d ++ r = ad_temp d ++ [n2]) (r = [n2])); [|by split; [intros ?%app_inv_head|intros ->]].
    rewrite (bool_decide_ext (ad_temp d ++ r = ad_temp d ++ [n1]) (r = [n1])); [|by split; [intros ?%app_inv_head|intros ->]].
    rewrite (bool_decide_ext (ad_temp d ++ r = ad_temp d) (r = [])); [by rewrite Hbelow|].
    split; [|intros ->; apply app_nil_r]. intros Hr. apply (app_inv_head (ad_temp d)). by rewrite app_nil_r. }
  split_and!.
  - exists (inode E (ad_temp d)). rewrite -(app_nil_r (ad_final d)) Hput. done.
  - rewrite Hput bool_decide_eq_false_2; [by rewrite bool_decide_eq_true_2|]. by intros [= ->].
  - rewrite Hput. by rewrite bool_decide_eq_true_2.
  - intros rest. rewrite Hput. repeat case_bool_decide; auto. done.
Qed.

(** C7: An operation that owns an output is all or nothing: whatever it does
    inside its temporary directory, and whichever system call fails, nothing
    that existed is changed or lost. If it succeeds, the output path holds
    exactly the finished tree and the temporary path is gone. If it fails, then
    the output was never opened and at most directories were added; or it was
    not published, the output path does not exist and nothing outside the
    temporary path has changed; or it is completely published. *)
Theorem output_all_or_nothing {T A} final msg (work : atomicDir → M (fsys * T) A) f t w r f' t' w' :
  fs_wf f → (∀ g, race E g = g) → stays_inside work →
  with_output E final msg (publish_work E work) (f, t) w = (r, (f', t'), w') →
  fs_extends f f' ∧
  match r with
  | Ok a => ∃ d f1 f2, fresh_output f d f1 ∧ finished work d f1 a f2 ∧ published d f1 f2 f'
  | Err _ =>
      fs_added_dirs f f' ∨
      ∃ d f1, fresh_output f d f1 ∧
        ((f' (ad_final d) = None ∧ ∀ q, under (ad_temp d) q = false → f' q = f1 q) ∨
         ∃ a f2, finished work d f1 a f2 ∧ published d f1 f2 f')
  end.
Proof.
  intros Hw Hq Hin Hr. destruct (with_output_cases _ _ _ _ _ _ _ _ _ _ Hr) as [(e & -> & Hn & ->)|(d & g & w1 & r1 & f2 & d2 & w2 & c & Hn & Hb & Ha & Hrc)].
  { pose proof (keeps_run _ _ _ _ _ _ _ (newAtomicDir_grown E f Hw final) Hn (fs_grown_refl f)) as [He Hd].
    split; [done|]. by left. }
  apply newAtomicDir_ok in Hn as (f1 & Ho & Hg); [|done].
  destruct (publish_work_cases _ _ _ _ _ _ _ _ _ _ Hq (fo_open _ _ _ Ho) Hb) as (r2 & f3 & w3 & Hwork & Hcase).
  assert (H3 : ∀ q, under (ad_temp d) q = false → f3 q = fs_put (ad_temp d) (FDir (inode E (ad_temp d))) f1 q).
  { intros q Hq'. specialize (Hin d (g, t) w1 q Hq'). rewrite Hwork /= Hg in Hin. done. }
  destruct Hcase as [(-> & -> & e & ->)|(a & -> & -> & Hfree & -> & Hres)].
  - assert (Hout : ∀ q, under (ad_temp d) q = false → f' q = f1 q).
    { intros q Hq'. destruct (Abort_outside f3 d w2 q Hq') as [Hx _]. rewrite Ha /= in Hx. rewrite Hx H3 //.
      unfold fs_put. rewrite bool_decide_eq_false_2 //. intros ->.
      assert (under (ad_temp d) (ad_temp d) = true) by (apply under_spec; exists []; by rewrite app_nil_r). congruence. }
    split; [apply (outside_extends _ _ _ _ Hw Ho); auto|].
    assert (Herr : ∃ e', r = Err e') by (destruct Hrc as [[-> _]|(? & ? & -> & _)]; eauto). destruct Herr as [e' ->].
    right. exists d, f1. split; [done|]. left. split; [|done].
    destruct (fresh_output_siblings _ _ _ [] Ho) as [Hs _]. rewrite app_nil_r in Hs. rewrite Hout //. by destruct Ho.
  - pose proof (published_move _ _ _ _ _ Ho H3) as Hp. rewrite Abort_committed // in Ha. injection Ha as <- <- <-.
    split; [apply (outside_extends _ _ _ _ Hw Ho), Hp|].
    assert (Hfin : finished work d f1 a f3) by (exists g, t, t', w1, w3; done).
    destruct Hrc as [[-> _]|(? & ? & -> & ?)]; [|done]. destruct Hres as [->|[e ->]]; [by exists d, f1, f3|]. right. exists d, f1. eauto 10.
Qed.

End Publication.

(** ** Keeping the output out of the input *)

Section Outside.
Context (E : os_env).

Lemma path_clean_names components : Forall name_ok (path_clean components).
Proof.
  unfold path_clean. assert (Hg : ∀ acc, Forall name_ok acc → Forall name_ok (foldl clean_step acc components)); [|apply Hg; constructor].
  induction components as [|c cs IH]; intros acc Ha; [done|]. cbn [foldl]. apply IH. unfold clean_step.
  case_bool_decide as H1; [done|]. case_bool_decide as H2.
  - destruct acc as [|x acc _] using rev_ind; [done|]. rewrite removelast_last. by apply Forall_app in Ha as [? _].
  - apply Forall_app. split; [done|]. constructor; [|constructor]. unfold name_ok. naive_solver.
Qed.

Lemma walk_names f n cur todo r : Forall name_ok cur → walk_links f n cur todo = Ok r → Forall name_ok r.
Proof.
  revert cur todo. induction n as [|n IHn]; intros cur todo; revert cur;
    induction todo as [|c todo IH]; intros cur Hs; rewrite ?walk_links_nil ?walk_links_cons; try (by intros [= <-]).
  all: assert (Hl : Forall name_ok (removelast cur)) by
    (destruct cur as [|x acc _] using rev_ind; [done|]; rewrite removelast_last; by apply Forall_app in Hs as [? _]).
  all: case_bool_decide as H1; [by apply IH|]; case_bool_decide as H2; [by apply IH|].
  all: assert (Hn : Forall name_ok (cur ++ [c])) by (apply Forall_app; split; [done|]; constructor; [unfold name_ok; naive_solver|constructor]).
  all: destruct (f (cur ++ [c])) as [[id|id ct|ab tg]|] eqn:Ef; try done; try by apply IH.
  all: try (destruct todo; [|done]; by intros [= <-]).
  apply IHn. by destruct ab.
Qed.

Lemma resolve_missing_names f probe missing r :
  Forall name_ok probe → Forall name_ok missing → resolve_missing f probe missing = Ok r → Forall name_ok r.
Proof.
  revert missing. induction probe as [|c probe IH]; intros missing Hp Hm; cbn [resolve_missing];
    (destruct (EvalSymlinks f _) as [d|e] eqn:Ed; [intros [= <-]; apply Forall_app; split; [|done]; by eapply walk_names, Ed|]).
  - by destruct (negb _).
  - destruct (negb _); [done|]. apply Forall_cons in Hp as [Hc Hp]. apply IH; [done|]. by constructor.
Qed.

Lemma resolvePathWithMissing_names f s r : resolvePathWithMissing E f s = Ok r → Forall name_ok r.
Proof.
  unfold resolvePathWithMissing, path_abs. intros (a & Ha & Hr)%result_bind_ok.
  assert (Hn : Forall name_ok a) by (destruct (String.prefix _ s); minv; apply path_clean_names).
  eapply resolve_missing_names; [|constructor|exact Hr]. by apply Forall_rev.
Qed.

Lemma path_rel_under base rest : path_rel base (base ++ rest) = rest.
Proof. induction base as [|b base IH]; [by destruct rest|]. cbn. by rewrite bool_decide_eq_true_2. Qed.

Lemma check_ancestors_ok f input msg probe :
  check_ancestors f input msg probe = Ok () →
  ∀ k i, os_Stat f (rev (drop k probe)) = Ok i → os_SameFile input i = false.
Proof.
  induction probe as [|c probe IH]; cbn [check_ancestors]; intros Hr k i Hi; mstep Hr.
  - rewrite drop_nil in Hi. cbn [rev] in *. rewrite Hi in H. minv. done.
  - destruct k as [|k]; [|by apply (IH Hr k)]. rewrite drop_0 in Hi. rewrite Hi in H. minv. done.
Qed.


End Outside.

(** ** A sample file system *)

Module SampleFs.

(** [/data/chain] and a link [/alias] to [/data]. *)
Definition disk : fsys := λ p,
  match p with
  | [] => Some (FDir 1)
  | [c] => if bool_decide (c = "data")%string then Some (FDir 2)
           else if bool_decide (c = "alias")%string then Some (FLink true ["data"%string]) else None
  | [a; b] => if bool_decide (a = "data" ∧ b = "chain")%string then Some (FDir 3) else None
  | _ => None
  end.

Definition os : os_env := MkOsEnv (Ok []) (λ _, "123"%string) (λ p, 100 + N.of_nat (length p)) (λ _, false) (λ f, f).

Lemma disk_wf : fs_wf disk.
Proof.
  split; [by exists 1|]. intros p c. destruct p as [|a [|b [|x p]]]; cbn.
  - by exists 1.
  - case_bool_decide as Hc; [|done]. destruct Hc as [-> _]. intros _. exists 2. done.
  - done.
  - done.
Qed.

(** Writing one file into the output. *)
Definition work (d : atomicDir) : M (fsys * unit) nat :=
  _ ← on_fst (modify (fs_put (ad_temp d ++ ["state"%string]) (FFile 9 [x01])));
  mret 5%nat.

Lemma work_inside : stays_inside work.
Proof.
  intros d g w q Hq. cbv [work on_fst zoom mbind M_bind modify mret M_ret fst snd fs_put]. rewrite bool_decide_eq_false_2 //. intros ->.
  apply not_true_iff_false in Hq. apply Hq, under_spec. eauto.
Qed.

Definition output : string := "/alias/out/new".

Definition opened : out_state :=
  match newAtomicDir os output disk calm with
  | (Ok d, f, _) => (f, d)
  | (_, f, _) => (f, MkAtomicDir [] [] [] "" true)
  end.

End SampleFs.

Section AtomicDirWitnesses.
Import SampleFs.

Lemma commit_atomic_witness :
  ∃ f' d' w', ad_committed d' = true ∧ f' ["data"; "out"; "new"]%string = Some (FDir 103) ∧
    Abort os (f', d') w' = (Ok (), (f', d'), w').
Proof.
  destruct (Commit os (opened.1, opened.2) calm) as [[r [f' d']] w'] eqn:Ec.
  assert (Hd : ad_committed d' = true).
  { apply (f_equal (λ x, ad_committed x.1.2.2)) in Ec. cbn [fst snd] in Ec. rewrite <- Ec. by vm_compute. }
  pose proof (commit_atomic os opened.1 opened.2 calm r f' d' w' ltac:(by vm_compute) Ec) as Hc. cbv zeta in Hc. rewrite Hd in Hc.
  destruct Hc as (_ & Hf & _ & Ha). exists f', d', w'. split; [exact Hd|]. split; [|exact Ha].
  specialize (Hf []). rewrite !app_nil_r in Hf. by vm_compute in Hf.
Defined.

Lemma output_all_or_nothing_witness :
  let f' := (with_output os output "remove partial" (publish_work os work) (disk, ()) calm).1.2.1 in
  fs_extends disk f' ∧ f' ["data"; "out"; "new"; "state"]%string = Some (FFile 9 [x01]).
Proof.
  intros f'. destruct (with_output os output "remove partial" (publish_work os work) (disk, ()) calm) as [[r [g t']] w'] eqn:Er.
  destruct (output_all_or_nothing os output "remove partial" work disk () calm r g t' w' disk_wf (λ g, eq_refl) work_inside Er) as [He _].
  split; [exact He|]. unfold f'. apply (f_equal (λ x, x.1.2.1 ["data"; "out"; "new"; "state"]%string)) in Er. cbn [fst snd] in *.
  rewrite <- Er. by vm_compute.
Defined.


End AtomicDirWitnesses.
