(* ===== verification/Traverse.v ===== *)
(** * State traversal and export ([state.go], [state_trie.go], [export.go])

    [stateTraverser] walks a state trie, validates every entry, rebuilds every
    root and reports the entries to a visitor. The trie iterators and the code
    reader are parameters ([TrieReader]); reading ahead through a channel is
    the subject of [Stream.v], so the loops here take what a stream delivers:
    its leaves, then its error. The node inventory that verification collects
    is not modelled. [Export] is [recordWriterVisitor] over a record writer,
    followed by [finalizeExportBundle] up to the construction of the
    manifest. *)

From S2P Require Import Prelude Sha256 Geth Instances Manifest StrictIO Records Scanner Bundle Account StateTrie Consumer Stream.

(** ** Sources *)

(** go-ethereum's iterators: opening one fails or yields the leaves in
    iteration order and the error the iteration ends with. *)
Class TrieReader := {
  account_iterator : Hash → result (list (bytes * bytes) * option error);
  storage_iterator : Hash → Hash → Hash → result (list (bytes * bytes) * option error)
}.

(** [ethdb.KeyValueReader]. *)
Class KVReader := {
  kv_Has : bytes → result bool;
  kv_Get : bytes → result bytes
}.

Definition readCodeWithFallback `{KVReader, RawdbKeys} (hash : Hash) : result bytes :=
  has ← kv_Has (CodePrefix ++ hash_bytes hash);
  if (has : bool) then kv_Get (CodePrefix ++ hash_bytes hash)
  else
    has ← kv_Has (hash_bytes hash);
    if (has : bool) then kv_Get (hash_bytes hash) else Ok [].

(** ** The traverser *)

Record stateTraverser `{StackTrie} (V : Type) := MkTraverser {
  t_sink : sink_state V;
  t_codeHashes : hashSet;
  t_counts : Counts;
  t_accountStack : stack
}.
Arguments MkTraverser {_ V}.
Arguments t_sink {_ V}.
Arguments t_codeHashes {_ V}.
Arguments t_counts {_ V}.
Arguments t_accountStack {_ V}.

(** The key check and copy of the producers. *)
Definition leaf_item (msg : string) (kv : bytes * bytes) : result (Hash * bytes) :=
  if (length kv.1 =? HashLength)%nat then Ok (vec_of_bytes 32 kv.1, kv.2) else Err (EMsg msg).

Section Traverser.
Context `{Keccak, EmptyHashes, AccountRLP, RLPSplit, StackTrie, TrieReader} {V : Type}.
Context (root : Hash) (readCode : Hash → result bytes).
Context (visitor : option (StateVisitor V)) (nodes : option (trieNodeSink V)).

Definition newStateTraverser (v : V) : stateTraverser V :=
  MkTraverser (MkSinkState v None) newHashSet zero_counts stack_new.

Definition t_set_sink (s : sink_state V) (t : stateTraverser V) : stateTraverser V :=
  MkTraverser s (t_codeHashes t) (t_counts t) (t_accountStack t).
Definition t_set_codes (codes : hashSet) (t : stateTraverser V) : stateTraverser V :=
  MkTraverser (t_sink t) codes (t_counts t) (t_accountStack t).
Definition t_set_counts (n : Counts) (t : stateTraverser V) : stateTraverser V :=
  MkTraverser (t_sink t) (t_codeHashes t) n (t_accountStack t).
Definition t_set_stack (st : stack) (t : stateTraverser V) : stateTraverser V :=
  MkTraverser (t_sink t) (t_codeHashes t) (t_counts t) st.

Definition t_on_sink {A} (m : M (sink_state V) A) : M (stateTraverser V) A := zoom t_sink t_set_sink m.

(** [if t.visitor != nil { ... }]. *)
Definition t_visit (f : StateVisitor V → M V unit) : M (stateTraverser V) unit :=
  match visitor with None => mret () | Some v => t_on_sink (call_visitor (f v)) end.

(** The storage stack is a local of the caller. *)
Definition processStorageSlot (accountHash : Hash) (st : stack) (key value : bytes) : M (stateTraverser V) stack :=
  _ ← poll;
  _ ← lift (reject_if (negb (length key =? HashLength)%nat) "storage key has wrong length");
  _ ← lift (wrap_err "account slot" (validateStorageRLP value));
  st' ← wrap "rebuild storage trie" (t_on_sink (traversal_Update nodes accountHash st key value));
  _ ← t_on_sink (check_node_err "write storage trie nodes");
  _ ← t_visit (λ v, v_Storage v accountHash (BytesToHash key) value);
  _ ← modify (λ t, t_set_counts (count_record RecordStorage (blen value) (t_counts t)) t);
  mret st'.

(** The first slots are read without a stream; returns the stack, the first
    leaf of the stream if there is one, and what is left of the iterator. *)
Fixpoint consumeStoragePrefix (n : nat) (accountHash : Hash) (st : stack)
    (storage : list (bytes * bytes)) (iterErr : option error)
    : M (stateTraverser V) (stack * option ((Hash * bytes) * list (bytes * bytes))) :=
  match n with
  | S n' =>
      _ ← poll;
      match storage with
      | [] => match iterErr with Some e => fail (EWrap "iterate storage trie" e) | None => mret (st, None) end
      | (key, value) :: storage' =>
          st' ← processStorageSlot accountHash st key value;
          consumeStoragePrefix n' accountHash st' storage' iterErr
      end
  | O =>
      match storage with
      | [] => match iterErr with Some e => fail (EWrap "iterate storage trie" e) | None => mret (st, None) end
      | kv :: storage' =>
          first ← lift (leaf_item "storage key has wrong length" kv);
          mret (st, Some (first, storage'))
      end
  end.

(** The loop over the leaves of a stream. *)
Fixpoint process_slots (accountHash : Hash) (st : stack) (leaves : list (Hash * bytes)) : M (stateTraverser V) stack :=
  match leaves with
  | [] => mret st
  | (slot, value) :: leaves' =>
      st' ← processStorageSlot accountHash st (hash_bytes slot) value;
      process_slots accountHash st' leaves'
  end.

(** [stream.wait()]. *)
Definition stream_wait {St} (e : option error) : M St unit :=
  _ ← poll;
  match e with Some e => fail e | None => mret () end.

Definition t_consumeStorage (accountHash : Hash) (st : stack) (storage : list (bytes * bytes)) (iterErr : option error)
    : M (stateTraverser V) stack :=
  '(st, first) ← consumeStoragePrefix storageTriePipelineThreshold accountHash st storage iterErr;
  match first with
  | None => mret st
  | Some (leaf, rest) =>
      st ← processStorageSlot accountHash st (hash_bytes leaf.1) leaf.2;
      let items := map (leaf_item "storage key has wrong length") rest in
      st ← process_slots accountHash st (leaves_of items);
      _ ← stream_wait (error_of (EWrap "iterate storage trie" <$> iterErr) items);
      mret st
  end.

Definition traverseStorage (accountHash expectedRoot : Hash) : M (stateTraverser V) Hash :=
  if bool_decide (expectedRoot = EmptyRootHash) then mret EmptyRootHash else
  '(storage, iterErr) ← lift (wrap_err "open storage trie" (storage_iterator root accountHash expectedRoot));
  st ← t_consumeStorage accountHash stack_new storage iterErr;
  computedRoot ← t_on_sink (traversal_Hash nodes accountHash st);
  _ ← t_on_sink (check_node_err "write final storage trie nodes");
  mret computedRoot.

Definition processCode (accountHash codeHash : Hash) : M (stateTraverser V) unit :=
  if bool_decide (codeHash = EmptyCodeHash) then mret () else
  _ ← modify (λ t, t_set_counts (count_reference (t_counts t)) t);
  codes ← gets t_codeHashes;
  let '(codes', added) := hashSet_Add codes codeHash in
  _ ← modify (t_set_codes codes');
  if negb added then mret () else
  code ← lift (wrap_err "read account code" (readCode codeHash));
  _ ← lift (reject_if (length code =? 0)%nat "code is missing");
  _ ← lift (reject_if (negb (bool_decide (keccak256 code = codeHash))) "code hash mismatch");
  _ ← t_visit (λ v, v_Code v accountHash codeHash code);
  modify (λ t, t_set_counts (count_record RecordCode (blen code) (t_counts t)) t).

Definition processAccount (leaf : Hash * bytes) : M (stateTraverser V) unit :=
  _ ← poll;
  let '(accountHash, value) := leaf in
  account ← lift (decodeFullAccount value);
  _ ← t_visit (λ v, v_Account v accountHash account value);
  _ ← modify (λ t, t_set_counts (count_record RecordAccount (blen value) (t_counts t)) t);
  computed ← traverseStorage accountHash (acc_Root account);
  _ ← lift (reject_if (negb (bool_decide (computed = acc_Root account))) "storage root mismatch");
  _ ← processCode accountHash (BytesToHash (acc_CodeHash account));
  stack ← gets t_accountStack;
  stack' ← wrap "rebuild account trie"
             (t_on_sink (traversal_Update nodes zero_hash stack (hash_bytes accountHash) value));
  _ ← modify (t_set_stack stack');
  t_on_sink (check_node_err "write account trie nodes").

Definition t_finalize : M (stateTraverser V) StateResult :=
  stack ← gets t_accountStack;
  computedRoot ← t_on_sink (traversal_Hash nodes zero_hash stack);
  _ ← t_on_sink (check_node_err "write final account trie nodes");
  _ ← lift (reject_if (negb (bool_decide (computedRoot = root))) "state root mismatch");
  counts ← gets t_counts;
  mret (MkStateResult computedRoot counts).

Definition traverser_run : M (stateTraverser V) StateResult :=
  '(accounts, iterErr) ← lift (wrap_err "open account trie" (account_iterator root));
  let items := map (leaf_item "account trie key has wrong length") accounts in
  _ ← for_each (leaves_of items) processAccount;
  _ ← stream_wait (error_of (EWrap "iterate account trie" <$> iterErr) items);
  t_finalize.

(** [TraverseState] on the visitor's environment. *)
Definition TraverseState : M V StateResult :=
  v ← get;
  '(r, t) ← run_on traverser_run (newStateTraverser v);
  _ ← modify (λ _, env (t_sink t));
  lift r.

End Traverser.

(** ** What a traversal has seen *)

Section TraverseSpec.
Context `{StackTrie}.

(** The observations of one account: the entry, its slots, the nodes of its
    storage trie, its code at the first reference. *)
Definition visit_trace (e : entry) : list event :=
  EvAccount (e_hash e) (e_account e) (e_full e) None ::
  (slots_trace (e_hash e) stack_new (e_slots e) ++ close_trace e) ++
  match e_code e with Some code => [EvCode (e_hash e) (e_codeHash e) code] | None => [] end.
Fixpoint visits_trace (st : stack) (es : list entry) : list event :=
  match es with
  | [] => []
  | e :: es' =>
      visit_trace e ++
      match stack_update st (hash_bytes (e_hash e)) (e_full e) with
      | Ok (st', ns) => node_events zero_hash ns ++ visits_trace st' es'
      | Err _ => []
      end
  end.

Lemma visits_trace_snoc st es e st1 n1 st2 n2 :
  stack_feed st (account_leaves es) = Ok (st1, n1) →
  stack_update st1 (hash_bytes (e_hash e)) (e_full e) = Ok (st2, n2) →
  visits_trace st (es ++ [e]) = visits_trace st es ++ visit_trace e ++ node_events zero_hash n2.
Proof.
  revert st n1. induction es as [|e' es IH]; intros st n1 Hf Hu; cbn [visits_trace app account_leaves map] in *.
  - injection Hf as <- <-. rewrite Hu. by rewrite app_nil_r.
  - unfold account_leaves in Hf. cbn [map stack_feed] in Hf. destruct (stack_update st _ _) as [[st' ns]|]; [|done]. simpl in Hf.
    fold (account_leaves es) in Hf. destruct (stack_feed st' (account_leaves es)) as [[s3 n3]|] eqn:E; [|done].
    simpl in Hf. injection Hf as -> <-. erewrite IH; [|done..]. by rewrite -!app_assoc.
Qed.

End TraverseSpec.

#[global] Arguments visit_trace : simpl never.

Lemma error_of_None {A} iterErr (items : list (result A)) :
  error_of iterErr items = None → iterErr = None ∧ items = map Ok (leaves_of items).
Proof.
  induction items as [|[a|e] items IH]; cbn; [done| |done]. intros He. destruct (IH He) as [? Hi]. split; [done|].
  by rewrite -Hi.
Qed.

Lemma leaf_items_ok msg kvs l :
  map (leaf_item msg) kvs = map Ok l → kvs = slot_leaves l ∧ Forall (λ kv : bytes * bytes, length kv.1 = HashLength) kvs.
Proof.
  revert l. induction kvs as [|[k v] kvs IH]; intros [|[h v'] l]; cbn; try done. unfold leaf_item. cbn [fst snd].
  destruct (Nat.eqb_spec (length k) HashLength) as [Hk|]; [|done]. intros [= <- <- Hr]. apply IH in Hr as [-> Hf].
  unfold slot_leaves. cbn. rewrite hash_bytes_of //. by split; [|constructor].
Qed.

(** Leaves accepted by a stack trie come from slots in order. *)
Lemma slot_leaves_sorted slots :
  leaves_ok (slot_leaves slots) → StronglySorted hash_lt slots.*1 ∧ Forall (λ kv, kv.2 ≠ []) slots.
Proof.
  intros [Hs Hf]. split; [clear Hf|clear Hs].
  - unfold slot_leaves in Hs. induction slots as [|kv slots IH]; cbn; [constructor|].
    inversion Hs as [|? ? Hs' Hfa]; subst. constructor; [by apply IH|].
    clear -Hfa. induction slots; cbn; constructor; inversion Hfa; subst; auto.
  - unfold slot_leaves in Hf. rewrite Forall_fmap in Hf. eapply Forall_impl; [exact Hf|]. by intros kv [_ ?].
Qed.

Section TraverserLemmas.
Context `{Keccak, EmptyHashes, AccountRLP, RLPSplit, StackTrie, TrieReader} {V : Type}.
Context (root : Hash) (readCode : Hash → result bytes).
Context (visitor : option (StateVisitor V)) (nodes : option (trieNodeSink V)).
Implicit Types (t : stateTraverser V).

Definition t_env t (v : V) : stateTraverser V := t_set_sink (MkSinkState v None) t.

Lemma t_visit_ok (f : StateVisitor V → M V unit) (ev : event) t w u t' w' :
  observe visitor nodes ev = (match visitor with None => mret () | Some v => f v end) →
  t_visit visitor f t w = (Ok u, t', w') →
  ∃ v', observed visitor nodes ev (env (t_sink t)) v' ∧
        t' = t_set_sink (MkSinkState v' (nodeWriteErr (t_sink t))) t.
Proof.
  unfold observed, t_visit. intros -> Hr. destruct visitor as [v|].
  - unfold t_on_sink, call_visitor in Hr; minv; eauto 10.
  - minv. exists (env (t_sink t)). split; [by exists calm, calm|]. by destruct t as [[]].
Qed.

Lemma t_on_sink_ok {A} (m : M (sink_state V) A) t w a t' w' :
  t_on_sink m t w = (Ok a, t', w') ↔ ∃ s, m (t_sink t) w = (Ok a, s, w') ∧ t' = t_set_sink s t.
Proof. apply zoom_ok. Qed.

(** The slots [slots] of account [h] have been processed. *)
Definition slots_done (h : Hash) (st : stack) (slots : list (Hash * bytes)) t (st' : stack) t' : Prop :=
  ∃ ns v', stack_feed st (slot_leaves slots) = Ok (st', ns) ∧
    Forall (λ kv, validateStorageRLP kv.2 = Ok ()) slots ∧
    steps (observed visitor nodes) (slots_trace h st slots) (env (t_sink t)) v' ∧
    t' = t_set_counts (foldl (λ k kv, count_record RecordStorage (blen kv.2) k) (t_counts t) slots) (t_env t v').

Lemma slots_done_nil h st t : nodeWriteErr (t_sink t) = None → slots_done h st [] t st t.
Proof.
  intros He. exists [], (env (t_sink t)). repeat split; try constructor.
  unfold t_env. rewrite -sink_state_eta //. by destruct t.
Qed.

Lemma slots_done_cons h st k v t st1 t1 slots st' t' :
  slots_done h st [(k, v)] t st1 t1 → slots_done h st1 slots t1 st' t' → slots_done h st ((k, v) :: slots) t st' t'.
Proof.
  intros (n1 & v1 & Hf1 & Hv1 & Hs1 & ->) (n2 & v2 & Hf2 & Hv2 & Hs2 & ->).
  assert (Hu : ∃ n, stack_update st (hash_bytes k) v = Ok (st1, n)).
  { unfold slot_leaves in Hf1. cbn in Hf1. destruct (stack_update st (hash_bytes k) v) as [[s1 n]|]; [|done].
    injection Hf1 as <- _. eauto. }
  destruct Hu as [n Hu].
  assert (Htr : slots_trace h st ((k, v) :: slots) = slots_trace h st [(k, v)] ++ slots_trace h st1 slots).
  { cbn [slots_trace]. by rewrite Hu app_nil_r -app_assoc. }
  unfold slots_done, slot_leaves. rewrite Htr. cbn [map stack_feed fst snd]. rewrite Hu. simpl.
  fold (slot_leaves slots). rewrite Hf2. simpl. eexists _, v2. split; [done|].
  split; [inversion Hv1; by constructor|]. split; [by eapply steps_app|done].
Qed.

Lemma slots_done_app h st s1 t st1 t1 s2 st' t' :
  nodeWriteErr (t_sink t) = None →
  slots_done h st s1 t st1 t1 → slots_done h st1 s2 t1 st' t' → slots_done h st (s1 ++ s2) t st' t'.
Proof.
  intros Herr (n1 & v1 & Hf1 & Hv1 & Hs1 & ->) (n2 & v2 & Hf2 & Hv2 & Hs2 & ->).
  exists (n1 ++ n2), v2. split; [|split; [|split]].
  - unfold slot_leaves in *. by rewrite map_app stack_feed_app Hf1 /= Hf2.
  - by apply Forall_app.
  - cbn [t_sink t_set_counts t_env t_set_sink env] in Hs2.
    assert (Ht : ∀ l st n1, stack_feed st (slot_leaves l) = Ok (st1, n1) →
      slots_trace h st (l ++ s2) = slots_trace h st l ++ slots_trace h st1 s2).
    { clear. induction l as [|[k v] l IH]; intros st n1 Hf; [by injection Hf as <- _|].
      unfold slot_leaves in Hf. cbn [map stack_feed fst snd] in Hf. cbn [slots_trace app].
      destruct (stack_update st (hash_bytes k) v) as [[st' ns]|]; [|done]. simpl in Hf. fold (slot_leaves l) in Hf.
      destruct (stack_feed st' (slot_leaves l)) as [[s3 n3]|] eqn:E; [|done]. injection Hf as -> _.
      rewrite (IH _ _ E) -!app_assoc //. }
    rewrite (Ht _ _ _ Hf1). by eapply steps_app.
  - by rewrite foldl_app.
Qed.

Lemma slots_done_err h st slots t st' t' : slots_done h st slots t st' t' → nodeWriteErr (t_sink t') = None.
Proof. by intros (? & ? & _ & _ & _ & ->). Qed.

Lemma processStorageSlot_ok h st key value t w st' t' w' :
  nodeWriteErr (t_sink t) = None →
  processStorageSlot visitor nodes h st key value t w = (Ok st', t', w') →
  length key = HashLength ∧ slots_done h st [(BytesToHash key, value)] t st' t'.
Proof.
  intros Herr Hr. unfold processStorageSlot in Hr. minv.
  match goal with Hx : negb _ = false |- _ => apply negb_false_iff, Nat.eqb_eq in Hx; rename Hx into Hk end.
  match goal with Hx : t_on_sink (traversal_Update _ _ _ _ _) _ _ = _ |- _ => apply t_on_sink_ok in Hx as (s1 & Hup & ->) end.
  match goal with Hx : t_on_sink (check_node_err _) _ _ = _ |- _ => apply t_on_sink_ok in Hx as (s2 & Hck & ->) end.
  apply check_node_err_ok in Hck as [He1 ->]. cbn [t_sink t_set_sink] in *.
  apply (traversal_Update_ok visitor) in Hup as (ns & Hup & Hsteps); [|done..].
  match goal with Hx : t_visit _ _ _ _ = _ |- _ =>
    apply (t_visit_ok _ (EvStorage h (BytesToHash key) value)) in Hx as (v' & Hob & ->); [|done] end.
  split; [done|]. eexists _, v'. unfold slot_leaves. cbn. rewrite BytesToHash_exact // Hup. simpl.
  split; [reflexivity|]. split; [by repeat constructor|]. split.
  - eapply steps_app; [done|]. by apply steps_one.
  - cbn [t_sink t_set_sink nodeWriteErr]. rewrite He1. done.
Qed.

Lemma process_slots_ok h leaves st t w st' t' w' :
  nodeWriteErr (t_sink t) = None →
  process_slots visitor nodes h st leaves t w = (Ok st', t', w') → slots_done h st leaves t st' t'.
Proof.
  revert st t w. induction leaves as [|[k v] leaves IH]; intros st t w Herr Hr; cbn [process_slots] in Hr.
  - minv. by apply slots_done_nil.
  - minv. match goal with Hx : processStorageSlot _ _ _ _ _ _ _ _ = _ |- _ =>
      apply processStorageSlot_ok in Hx as [_ Hd]; [|done] end.
    rewrite BytesToHash_hash in Hd. eapply slots_done_cons; [done|]. eapply IH; [|done]. by eapply slots_done_err.
Qed.

Lemma consumeStoragePrefix_ok n h st storage iterErr t w st' rest t' w' :
  nodeWriteErr (t_sink t) = None →
  consumeStoragePrefix visitor nodes n h st storage iterErr t w = (Ok (st', rest), t', w') →
  ∃ slots, slots_done h st slots t st' t' ∧
    match rest with
    | None => storage = slot_leaves slots ∧ iterErr = None
    | Some (leaf, storage') => storage = slot_leaves (slots ++ [leaf]) ++ storage'
    end.
Proof.
  revert st storage t w. induction n as [|n IH]; intros st storage t w Herr Hr; cbn [consumeStoragePrefix] in Hr.
  - exists []. destruct storage as [|[k v] storage'].
    + destruct iterErr; minv. simplify_eq. split; [by apply slots_done_nil|done].
    + mstep Hr. minv. simplify_eq. split; [by apply slots_done_nil|].
      match goal with Hx : leaf_item _ _ = _ |- _ => unfold leaf_item in Hx; cbn [fst snd] in Hx end.
      destruct (Nat.eqb_spec (length k) HashLength); simplify_eq. unfold slot_leaves. cbn. by rewrite hash_bytes_of.
  - minv. destruct storage as [|[k v] storage'].
    + exists []. destruct iterErr; minv. simplify_eq. split; [by apply slots_done_nil|done].
    + minv. match goal with Hx : processStorageSlot _ _ _ _ _ _ _ _ = _ |- _ =>
        apply processStorageSlot_ok in Hx as [Hk Hd]; [|done] end.
      apply IH in Hr as (slots & Hs & Hm); [|by eapply slots_done_err].
      exists ((BytesToHash k, v) :: slots). split; [by eapply slots_done_cons|].
      unfold slot_leaves in *. cbn. rewrite BytesToHash_exact //.
      destruct rest as [[leaf storage1]|]; [by rewrite Hm|]. destruct Hm as [-> ->]. done.
Qed.

Lemma t_consumeStorage_ok h st storage iterErr t w st' t' w' :
  nodeWriteErr (t_sink t) = None →
  t_consumeStorage visitor nodes h st storage iterErr t w = (Ok st', t', w') →
  ∃ slots, slots_done h st slots t st' t' ∧ storage = slot_leaves slots ∧ iterErr = None.
Proof.
  intros Herr Hr. unfold t_consumeStorage in Hr. mstep Hr. destruct x as [st1 [[leaf rest]|]].
  - match goal with Hx : consumeStoragePrefix _ _ _ _ _ _ _ _ _ = _ |- _ =>
      apply consumeStoragePrefix_ok in Hx as (slots & Hs & Hm); [|done] end.
    minv. match goal with Hx : processStorageSlot _ _ _ _ _ _ _ _ = _ |- _ =>
      apply processStorageSlot_ok in Hx as [_ Hd]; [|by eapply slots_done_err] end.
    match goal with Hx : process_slots _ _ _ _ _ _ _ = _ |- _ =>
      apply process_slots_ok in Hx as Hps; [|by eapply slots_done_err] end.
    match goal with Hx : stream_wait _ _ _ = _ |- _ => unfold stream_wait in Hx; mstep Hx end.
    minv. destruct (error_of _ _) eqn:He; minv. apply error_of_None in He as [Hi Hl].
    apply leaf_items_ok in Hl as [Hl _]. rewrite BytesToHash_hash in Hd.
    exists (slots ++ leaf :: leaves_of (map (leaf_item "storage key has wrong length") rest)). split.
    + eapply slots_done_app; [done|done|]. destruct leaf. by eapply slots_done_cons.
    + split; [|by destruct iterErr]. rewrite {1}Hl. unfold slot_leaves. by rewrite !map_app -app_assoc.
  - minv. match goal with Hx : consumeStoragePrefix _ _ _ _ _ _ _ _ _ = _ |- _ =>
      apply consumeStoragePrefix_ok in Hx as (slots & Hs & Hm); [|done] end. eauto.
Qed.

Lemma count_reference_record typ n k :
  count_record typ n (count_reference k) = count_reference (count_record typ n k).
Proof. unfold count_record, count_type, count_reference. by repeat case_bool_decide. Qed.

(** The code step of an account. *)
Lemma processCode_ok h codeHash t w u t' w' :
  nodeWriteErr (t_sink t) = None →
  processCode readCode visitor h codeHash t w = (Ok u, t', w') →
  ∃ code v',
    steps (observed visitor nodes) (match code with Some c => [EvCode h codeHash c] | None => [] end) (env (t_sink t)) v' ∧
    (∀ c, code = Some c → codeHash ≠ EmptyCodeHash ∧ keccak256 c = codeHash ∧ ¬ (codeHash ∈ t_codeHashes t) ∧
                          readCode codeHash = Ok c ∧ c ≠ []) ∧
    (codeHash = EmptyCodeHash ∨ codeHash ∈ t_codeHashes t ∪ (match code with Some _ => {[codeHash]} | None => ∅ end)) ∧
    t' = MkTraverser (MkSinkState v' None)
           (t_codeHashes t ∪ (match code with Some _ => {[codeHash]} | None => ∅ end))
           (let k := match code with Some c => count_record RecordCode (blen c) (t_counts t) | None => t_counts t end in
            if bool_decide (codeHash = EmptyCodeHash) then k else count_reference k)
           (t_accountStack t).
Proof.
  intros Herr Hr. unfold processCode in Hr. case_bool_decide as He.
  { minv. exists None, (env (t_sink t)). split; [constructor|]. split; [done|]. split; [by left|].
    rewrite right_id_L -sink_state_eta //. by destruct t. }
  unfold hashSet_Add, hashSet_Has in Hr. mstep Hr. minv. cbn [t_codeHashes t_set_counts] in Hr.
  case_bool_decide as Hin.
  - minv. simpl in Hr. minv. exists None, (env (t_sink t)). split; [constructor|]. split; [done|]. split; [right; set_solver|].
    rewrite right_id_L -sink_state_eta //.
  - minv. simpl in Hr. minv.
    match goal with Hx : negb (bool_decide _) = false |- _ => apply negb_false_iff, bool_decide_eq_true in Hx; rename Hx into Hk end.
    match goal with Hx : (length _ =? 0)%nat = false |- _ => apply Nat.eqb_neq in Hx; rename Hx into Hne end.
    match goal with Hx : readCode _ = Ok ?c |- _ => rename c into code; rename Hx into Hrd end.
    match goal with Hx : t_visit _ _ _ _ = _ |- _ => apply (t_visit_ok _ (EvCode h codeHash code)) in Hx as (v' & Hob & ->); [|done] end.
    exists (Some code), v'. split; [by apply steps_one|]. split.
    { intros c [= <-]. repeat split; try done. by intros ->. }
    split; [right; set_solver|]. cbn. rewrite Herr count_reference_record (comm_L (∪)). done.
Qed.

Section WithLaws.
Context `{!AccountRLPLaws} (trie_root : list (bytes * bytes) → Hash) `{!StackTrieLaws trie_root}.

(** The slots and the code of an entry come from the iterator and the reader. *)
Definition entry_source (e : entry) : Prop :=
  decodeFullAccount (e_full e) = Ok (e_account e) ∧
  (acc_Root (e_account e) = EmptyRootHash ∧ e_slots e = [] ∨
   acc_Root (e_account e) ≠ EmptyRootHash ∧
   storage_iterator root (e_hash e) (acc_Root (e_account e)) = Ok (slot_leaves (e_slots e), None)) ∧
  ∀ code, e_code e = Some code → readCode (e_codeHash e) = Ok code ∧ code ≠ [].

Record tinv (v0 : V) t (es : list entry) : Prop := {
  ti_source : Forall entry_source es;
  ti_err : nodeWriteErr (t_sink t) = None;
  ti_entries : entries_wf ∅ es;
  ti_values : values_nonempty es;
  ti_stack : ∃ ns, stack_feed stack_new (account_leaves es) = Ok (t_accountStack t, ns);
  ti_codes : t_codeHashes t = state_codes es;
  ti_counts : t_counts t = state_counts es;
  ti_env : steps (observed visitor nodes) (visits_trace stack_new es) v0 (env (t_sink t))
}.

Lemma stack_hash_new : (stack_hash stack_new).1 = EmptyRootHash.
Proof. rewrite -(stack_root_empty (trie_root:=trie_root)). by eapply stack_root; [apply leaves_ok_nil|]. Qed.

(** The storage of an account whose computed root matches. *)
Lemma traverseStorage_ok h expected t w computed t' w' :
  nodeWriteErr (t_sink t) = None →
  traverseStorage root visitor nodes h expected t w = (Ok computed, t', w') → computed = expected →
  ∃ slots v',
    (expected = EmptyRootHash ∧ slots = [] ∨
     expected ≠ EmptyRootHash ∧ storage_iterator root h expected = Ok (slot_leaves slots, None)) ∧
    StronglySorted hash_lt slots.*1 ∧ Forall (λ kv, kv.2 ≠ []) slots ∧
    Forall (λ kv, validateStorageRLP kv.2 = Ok ()) slots ∧
    slots_root slots = expected ∧ (slots ≠ [] → expected ≠ EmptyRootHash) ∧
    steps (observed visitor nodes)
      (slots_trace h stack_new slots ++
       match slots with [] => [] | _ => node_events h (stack_hash (stack_after (slot_leaves slots))).2 end)
      (env (t_sink t)) v' ∧
    t' = t_set_counts (foldl (λ k kv, count_record RecordStorage (blen kv.2) k) (t_counts t) slots) (t_env t v').
Proof.
  intros Herr Hr Hc. unfold traverseStorage in Hr. case_bool_decide as Hemp.
  { minv. exists [], (env (t_sink t)). subst. split; [by left|]. repeat split; try constructor; try done.
    unfold t_env. rewrite -sink_state_eta //. by destruct t. }
  mstep Hr. minv. destruct x as [storage iterErr]. minv.
  match goal with Hx : t_consumeStorage _ _ _ _ _ _ _ _ = _ |- _ =>
    apply t_consumeStorage_ok in Hx as (slots & Hd & -> & ->); [|done] end.
  match goal with Hx : t_on_sink (traversal_Hash _ _ _) _ _ = _ |- _ => apply t_on_sink_ok in Hx as (s1 & Hh & ->) end.
  match goal with Hx : t_on_sink (check_node_err _) _ _ = _ |- _ => apply t_on_sink_ok in Hx as (s2 & Hck & ->) end.
  apply check_node_err_ok in Hck as [He1 ->]. cbn [t_sink t_set_sink] in *.
  apply (traversal_Hash_ok visitor) in Hh as [Hroot Hsteps]; [|by eapply slots_done_err|done].
  destruct Hd as (ns & v1 & Hf & Hval & Hst & ->). cbn [t_sink t_set_counts t_env t_set_sink env] in Hsteps.
  assert (Hl : leaves_ok (slot_leaves slots)).
  { eapply stack_feed_sorted; [|exact Hf]. unfold slot_leaves. apply Forall_fmap, Forall_true. intros kv. apply length_hash_bytes. }
  apply slot_leaves_sorted in Hl as [Hs Hne].
  assert (Hslots : slots ≠ []).
  { intros ->. injection Hf as <- _. rewrite stack_hash_new in Hroot. by subst. }
  exists slots, (env s1). split; [right; by split|]. do 3 (split; [done|]). split.
  { unfold slots_root. destruct slots; [done|]. by rewrite (stack_after_ok _ _ _ Hf). }
  split; [done|]. split.
  - destruct slots; [done|]. rewrite (stack_after_ok _ _ _ Hf). by eapply steps_app.
  - unfold t_env. by rewrite -sink_state_eta.
Qed.

Lemma decodeFullAccount_ok value a :
  decodeFullAccount value = Ok a →
  ∃ slim, DecodeAccount slim = Ok (a, value) ∧ EncodeAccount (Some a) = Ok slim ∧
          length (acc_CodeHash a) = HashLength ∧ account_ok a.
Proof.
  unfold decodeFullAccount. intros Hd. minv.
  match goal with Hx : rlp_decode_account _ = _ |- _ => apply account_encode_decode in Hx as [Hok He] end.
  match goal with Hx : match acc_Balance ?b with _ => _ end = _ |- _ => destruct (acc_Balance b) eqn:Hb; [|done] end. minv.
  match goal with Hx : negb _ = false |- _ => apply negb_false_iff, Nat.eqb_eq in Hx; rename Hx into Hl end.
  destruct (EncodeAccount_ok a Hok Hl) as (slim & full & Hes & Hf & Hdec).
  exists slim. rewrite He in Hf. injection Hf as <-. done.
Qed.

Lemma processAccount_ok v0 t es leaf w u t' w' :
  tinv v0 t es → processAccount root readCode visitor nodes leaf t w = (Ok u, t', w') →
  ∃ e, e_hash e = leaf.1 ∧ e_full e = leaf.2 ∧ tinv v0 t' (es ++ [e]).
Proof.
  intros [Hsrc Herr Hes Hvals [ns0 Hst] Hcodes Hcnt Henv] Hr. destruct leaf as [h value]. unfold processAccount in Hr. minv.
  match goal with Hx : decodeFullAccount _ = Ok ?b |- _ =>
    pose proof Hx as Hfull; apply decodeFullAccount_ok in Hx as (slim & Hdec & _ & Hlen & _); rename b into a end.
  match goal with Hx : t_visit _ _ _ _ = _ |- _ => apply (t_visit_ok _ (EvAccount h a value None)) in Hx as (v1 & Hob & ->) end; cycle 1.
  { cbn. destruct visitor as [v|]; [|done]. by destruct (v_AccountFromBundle v). }
  match goal with Hx : negb (bool_decide _) = false |- _ => apply negb_false_iff, bool_decide_eq_true in Hx; rename Hx into Hroot end.
  match goal with Hx : traverseStorage _ _ _ _ _ _ _ = _ |- _ =>
    apply traverseStorage_ok in Hx as (slots & v2 & Hstore & Hsort & Hne & Hval & Hsr & Hsne & Hst2 & ->); [|done..] end.
  match goal with Hx : processCode _ _ _ _ _ _ = _ |- _ =>
    apply processCode_ok in Hx as (code & v3 & Hst3 & Hcode & Havail & ->); [|done] end.
  match goal with Hx : t_on_sink (traversal_Update _ _ _ _ _) _ _ = _ |- _ => apply t_on_sink_ok in Hx as (s1 & Hup & ->) end.
  match goal with Hx : t_on_sink (check_node_err _) _ _ = _ |- _ => apply t_on_sink_ok in Hx as (s2 & Hck & ->) end.
  apply check_node_err_ok in Hck as [He1 ->].
  cbn [t_sink t_set_sink t_set_counts t_set_stack t_env t_accountStack t_codeHashes t_counts env nodeWriteErr] in *.
  apply (traversal_Update_ok visitor) in Hup as (ns & Hup & Hst4); [|done..]. cbn [env] in Hst4.
  set (e := MkEntry h a value slim slots code). exists e. split; [done|]. split; [done|].
  assert (Hcode_set : (match code with Some _ => {[BytesToHash (acc_CodeHash a)]} | None => ∅ end : hashSet) = entry_codes e) by done.
  assert (Hwf : entry_wf (∅ ∪ state_codes es) e).
  { rewrite left_id_L -Hcodes. split; [split|..]; cbn; try done.
    intros c Hc. destruct (Hcode c Hc) as (? & ? & ? & _). done. }
  split; cbn; try done.
  - apply Forall_app. split; [done|]. constructor; [|done]. split; [done|]. split; [done|]. intros c Hc. by destruct (Hcode c Hc) as (_ & _ & _ & ? & ?).
  - by rewrite entries_wf_snoc.
  - apply Forall_app. split; [done|]. by constructor.
  - rewrite account_leaves_snoc. eexists. by eapply stack_feed_snoc.
  - by rewrite state_codes_snoc Hcodes.
  - rewrite state_counts_snoc Hcnt. done.
  - erewrite visits_trace_snoc; [|done..]. eapply steps_app; [done|]. eapply steps_app; [|done].
    unfold visit_trace. econstructor; [done|]. by eapply steps_app.
Qed.

Lemma processAccounts_ok v0 leaves t es w u t' w' :
  tinv v0 t es → for_each leaves (processAccount root readCode visitor nodes) t w = (Ok u, t', w') →
  ∃ es', account_leaves es' = slot_leaves leaves ∧ tinv v0 t' (es ++ es').
Proof.
  revert t es w. induction leaves as [|[h value] leaves IH]; intros t es w Hi Hr; cbn [for_each] in Hr.
  - minv. exists []. by rewrite app_nil_r.
  - minv. match goal with Hx : processAccount _ _ _ _ _ _ _ = _ |- _ =>
      apply (processAccount_ok v0 _ es) in Hx as (e & Hh & Hf & Hi1); [|done] end.
    apply (IH _ _ _ Hi1) in Hr as (es' & Hl & Hi2). exists (e :: es'). split.
    + unfold account_leaves, slot_leaves in *. cbn in *. by rewrite Hl Hh Hf.
    + by rewrite -app_assoc in Hi2.
Qed.

(** What a successful traversal has established. *)
Lemma traverser_run_sources v0 w res t' w' :
  traverser_run root readCode visitor nodes (newStateTraverser v0) w = (Ok res, t', w') →
  ∃ es, Forall entry_source es ∧ account_iterator root = Ok (account_leaves es, None) ∧ state_wf es root ∧ values_nonempty es ∧
    res = MkStateResult root (state_counts es) ∧
    steps (observed visitor nodes)
      (visits_trace stack_new es ++ node_events zero_hash (stack_hash (stack_after (account_leaves es))).2)
      v0 (env (t_sink t')).
Proof.
  intros Hr. unfold traverser_run in Hr. mstep Hr. minv. destruct x as [accounts iterErr]. minv.
  match goal with Hx : for_each _ _ _ _ = _ |- _ => apply (processAccounts_ok v0 _ _ []) in Hx as (es & Hl & Hi) end; cycle 1.
  { split; try done; try constructor. by exists []. }
  match goal with Hx : stream_wait _ _ _ = _ |- _ => unfold stream_wait in Hx; mstep Hx end.
  minv. destruct (error_of _ _) eqn:He; minv. apply error_of_None in He as [Hit Hitems].
  apply leaf_items_ok in Hitems as [Hacc Hklen].
  unfold t_finalize in Hr. minv.
  match goal with Hx : t_on_sink (traversal_Hash _ _ _) _ _ = _ |- _ => apply t_on_sink_ok in Hx as (s1 & Hh & ->) end.
  match goal with Hx : t_on_sink (check_node_err _) _ _ = _ |- _ => apply t_on_sink_ok in Hx as (s2 & Hck & ->) end.
  apply check_node_err_ok in Hck as [He1 ->]. cbn [t_sink t_set_sink] in *.
  destruct Hi as [Hsrc Herr Hes Hvals [ns Hst] Hcodes Hcnt Henv]. cbn [app] in *.
  apply (traversal_Hash_ok visitor) in Hh as [-> Hsteps]; [|done..].
  match goal with Hx : negb (bool_decide _) = false |- _ => apply negb_false_iff, bool_decide_eq_true in Hx; rename Hx into Hroot end.
  exists es. split; [done|]. split; [|split; [|split; [done|split]]].
  - rewrite Hl -Hacc. by destruct iterErr.
  - split; [|done|by rewrite (stack_after_ok _ _ _ Hst)].
    assert (Hlo : leaves_ok (account_leaves es)).
    { eapply stack_feed_sorted; [|exact Hst]. unfold account_leaves. apply Forall_fmap, Forall_true. intros e. apply length_hash_bytes. }
    rewrite Hl in Hlo. apply slot_leaves_sorted in Hlo as [Hs _].
    assert (Heq : (leaves_of (map (leaf_item "account trie key has wrong length") accounts)).*1 = map e_hash es).
    { revert Hl. clear. revert es. generalize (leaves_of (map (leaf_item "account trie key has wrong length") accounts)).
      induction l as [|[h v] l IH]; intros [|e es] Hl; try done. unfold account_leaves, slot_leaves in *. cbn in *.
      injection Hl as Hh _ Hl. apply hash_bytes_inj in Hh. f_equal; [done|by apply IH]. }
    by rewrite Heq in Hs.
  - by rewrite Hroot Hcnt.
  - rewrite (stack_after_ok _ _ _ Hst). by eapply steps_app.
Qed.

Lemma traverser_run_ok v0 w res t' w' :
  traverser_run root readCode visitor nodes (newStateTraverser v0) w = (Ok res, t', w') →
  ∃ es, account_iterator root = Ok (account_leaves es, None) ∧ state_wf es root ∧ values_nonempty es ∧
    res = MkStateResult root (state_counts es) ∧
    steps (observed visitor nodes)
      (visits_trace stack_new es ++ node_events zero_hash (stack_hash (stack_after (account_leaves es))).2)
      v0 (env (t_sink t')).
Proof. intros (es & _ & Hes)%traverser_run_sources. by exists es. Qed.

End WithLaws.

End TraverserLemmas.
