(* ===== verification/Export.v ===== *)
(** * Export ([legacy.go], [export.go])

    Reading the legacy head, confirming that it did not move, writing the state
    through [recordWriterVisitor], and building the manifest. A [chain_view] is
    what go-ethereum's accessors return for the legacy database at one moment;
    the export reads one before and one after the traversal. The bytes of the
    manifest file and what [LoadManifest] reads back (JSON) are parameters. The
    output directory is created and published with [AtomicDir.v]; the files of
    the bundle appear in it when the body has returned.

    The main theorem joins both ends of the program: whatever [Export]
    succeeded in writing, [ScanBundle] accepts, and rebuilds the same state. *)

From S2P Require Import Prelude Sha256 Geth Instances Manifest StrictIO Records Scanner Bundle Account StateTrie Consumer Stream Traverse AtomicDir.

(** ** The legacy source *)

Record chain_view := MkChainView {
  ReadHeadBlockHash : Hash;
  ReadHeaderNumber : Hash → option N;
  ReadCanonicalHash : N → Hash;
  ReadHeaderRLP : Hash → N → bytes
}.

Record legacySource := MkLegacySource {
  ls_head : Head;
  ls_headerRLP : bytes;
  ls_closed : bool
}.

Section Legacy.
Context `{Keccak, HeaderRLP}.

Definition readLegacyHead (db : chain_view) : result (Head * bytes) :=
  let hash := ReadHeadBlockHash db in
  _ ← reject_if (bool_decide (hash = zero_hash)) "legacy database has no LastBlock head";
  match ReadHeaderNumber db hash with
  | None => Err (EMsg "legacy head has no hash-to-number mapping")
  | Some number =>
      _ ← reject_if (negb (bool_decide (ReadCanonicalHash db number = hash))) "legacy LastBlock is not canonical";
      let headerRLP := ReadHeaderRLP db hash number in
      _ ← reject_if (length headerRLP =? 0)%nat "legacy head header RLP is missing";
      header ← wrap_err "decode legacy header with geth v1.17.6" (rlp_decode_header headerRLP);
      match header_Number header with
      | None => Err (EMsg "legacy head header number is missing or exceeds uint64")
      | Some n =>
          _ ← reject_if (negb (n <? two64)) "legacy head header number is missing or exceeds uint64";
          _ ← reject_if (negb (n =? number)) "legacy header number mismatch";
          _ ← reject_if (negb (bool_decide (keccak256 headerRLP = hash))) "legacy header hash mismatch";
          _ ← reject_if (bool_decide (header_Root header = zero_hash)) "legacy head state root is empty";
          Ok (MkHead number hash (header_Root header), headerRLP)
      end
  end.

Definition openLegacySource {St} (db : chain_view) : M St legacySource :=
  _ ← io;
  match readLegacyHead db with
  | Ok (head, rlp) => mret (MkLegacySource head rlp false)
  | Err e =>
      c ← attempt io;
      match c with
      | Ok _ => fail e
      | Err e' => fail (EJoin e (EWrap "close legacy source database" e'))
      end
  end.

Definition legacy_Close : M legacySource unit :=
  closed ← gets ls_closed;
  if (closed : bool) then mret () else
  _ ← modify (λ s, MkLegacySource (ls_head s) (ls_headerRLP s) true);
  io.

Definition ConfirmStableAndClose (db : chain_view) : M legacySource SourceEvidence :=
  s ← get;
  let r : result SourceEvidence :=
    match readLegacyHead db with
    | Err e => Err (EWrap "re-read source head" e)
    | Ok (headAfter, rlpAfter) =>
        if negb (bool_decide (headAfter = ls_head s)) || negb (bytes_equal rlpAfter (ls_headerRLP s))
        then Err (EMsg "source head changed")
        else Ok (MkSourceEvidence (ls_head s) headAfter (ls_headerRLP s))
    end in
  c ← attempt legacy_Close;
  match r, c with
  | Ok evidence, Ok _ => mret evidence
  | Ok _, Err e => fail (EWrap "close legacy source database" e)
  | Err e, Ok _ => fail e
  | Err e, Err e' => fail (EJoin e (EWrap "close legacy source database" e'))
  end.

End Legacy.

(** ** Writing the state *)

Section ExportVisitor.
Context `{Keccak, EmptyHashes, AccountRLP}.

Definition rwv_Account (hash : Hash) (account : StateAccount) (fullRLP : bytes) : M Writer unit :=
  payload ← lift (wrap_err "encode account" (EncodeAccount (Some account)));
  _ ← wrap "write account" (WriteAccount hash payload (blen fullRLP));
  if bytes_equal (acc_CodeHash account) (hash_bytes EmptyCodeHash) then mret ()
  else wrap "count account code reference" CountCodeReference.

Definition rwv_Storage (accountHash slotHash : Hash) (valueRLP : bytes) : M Writer unit :=
  wrap "write account slot" (WriteStorage accountHash slotHash valueRLP).

Definition rwv_Code (accountHash codeHash : Hash) (code : bytes) : M Writer unit :=
  wrap "write account code" (WriteCode codeHash code).

Definition recordWriterVisitor : StateVisitor Writer := MkVisitor rwv_Account rwv_Storage rwv_Code None.

End ExportVisitor.

(** ** The export *)

Definition sameSourceEvidence (left right : SourceEvidence) : bool :=
  bool_decide (HeadBefore left = HeadBefore right) && bool_decide (HeadAfter left = HeadAfter right) &&
  bytes_equal (HeaderRLP_ left) (HeaderRLP_ right).

Definition sameManifest (left right : Manifest) : bool :=
  bool_decide (Format left = Format right) && (Version left =? Version right) && (CreatedAt left =? CreatedAt right) &&
  bool_decide (ToolVersion left = ToolVersion right) && bool_decide (GethVersion left = GethVersion right) &&
  sameSourceEvidence (Source left) (Source right) && bool_decide (mCounts left = mCounts right) &&
  bool_decide (mStateFile left = mStateFile right) && bool_decide (SupportedSchemes left = SupportedSchemes right).

Section ExportOperation.
Context `{Keccak, EmptyHashes, AccountRLP, RLPSplit, StackTrie, HeaderRLP, Zstd, TrieReader}.
(** The operating system; the build's clock and version strings; the bytes of
    a manifest file and the manifest that is read back after writing one. *)
Context (E : os_env) (now : N) (tool geth : string) (encode_manifest : Manifest → bytes) (stored : Manifest → result Manifest).

(** [writer.Abort] joined to an error. *)
Definition abort_with {St A} (e : error) (writer : Writer) : M St A :=
  '(r, _) ← run_on Writer_Abort writer;
  match r with Ok _ => fail e | Err e' => fail (EJoin e e') end.

Definition finalizeExportBundle (db : chain_view) (writer : Writer) (state : StateResult)
    : M legacySource (Manifest * WriterResult) :=
  p ← attempt poll;
  match p with
  | Err e => abort_with e writer
  | Ok _ =>
      '(r, _) ← run_on Writer_Close writer;
      writerResult ← lift r;
      _ ← lift (reject_if (negb (bool_decide (wr_Counts writerResult = st_Counts state))) "export record counts mismatch");
      _ ← poll;
      sourceEvidence ← ConfirmStableAndClose db;
      let manifest := NewManifest now tool geth sourceEvidence (st_Counts state) (state_file_of writerResult) in
      _ ← lift (Manifest_Validate manifest);
      _ ← wrap "write manifest" io;
      _ ← wrap "sync manifest" io;
      s ← lift (wrap_err "re-open generated manifest" (stored manifest));
      _ ← lift (reject_if (negb (sameManifest s manifest)) "re-opened manifest does not match generated manifest");
      mret (manifest, writerResult)
  end.

(** [legacySource.traverse]: the traversal and the close of its trie database. *)
Definition legacy_Traverse {V} (visitor : option (StateVisitor V)) (nodes : option (trieNodeSink V)) (readCode : Hash → result bytes)
    (root : Hash) : M V StateResult :=
  r ← attempt (TraverseState root readCode visitor nodes);
  c ← attempt io;
  match r, c with
  | Ok state, Ok _ => mret state
  | Ok _, Err e => fail (EWrap "close source trie database" e)
  | Err e, Ok _ => fail e
  | Err e, Err e' => fail (EJoin e (EWrap "close source trie database" e'))
  end.

(** The body of [Export] between opening the source and publishing the
    output: [after] is the second read of the head, [existing] the names in
    the output directory. *)
Definition export_body (after : chain_view) (readCode : Hash → result bytes)
    (existing : list string) (compression : string) : M legacySource (Manifest * WriterResult) :=
  source ← get;
  recordWriter ← NewWriter existing compression (ls_head source) (ls_headerRLP source);
  '(r, recordWriter) ← run_on (legacy_Traverse (Some recordWriterVisitor) None readCode (StateRoot (ls_head source))) recordWriter;
  match r with
  | Err e => abort_with e recordWriter
  | Ok state => finalizeExportBundle after recordWriter state
  end.

Definition validateExportOptions (f : fsys) (sourceChaindata output : string) : result unit :=
  _ ← reject_if (bool_decide (sourceChaindata = ""%string)) "source chaindata path is required";
  _ ← reject_if (bool_decide (output = ""%string)) "bundle output path is required";
  rejectOutputInsideSource E f sourceChaindata output.

(** The files the body leaves in the output directory: the bundle, or what was
    written before an error. *)
Definition export_files (partial : list (string * bytes)) (r : result (Manifest * WriterResult)) : list (string * bytes) :=
  match r with
  | Ok (m, wr) => [(wr_FileName wr, wr_content wr); (ManifestFileName, encode_manifest m)]
  | Err _ => partial
  end.

Definition write_file (dir : path) (f : fsys) (file : string * bytes) : fsys :=
  fs_put (dir ++ [file.1]) (FFile (inode E (dir ++ [file.1])) file.2) f.

(** From the second check of the output path to the end of
    [finalizeExportBundle]. *)
Definition export_bundle (sourceChaindata : string) (after : chain_view) (readCode : Hash → result bytes)
    (existing : list string) (compression : string) (partial : list (string * bytes)) (d : atomicDir)
    : M (fsys * legacySource) (Manifest * WriterResult) :=
  s ← get;
  _ ← lift (rejectOutputInsideSource E s.1 sourceChaindata (path_render (ad_temp d)));
  '(r, source) ← run_on (export_body after readCode existing compression) s.2;
  _ ← modify (λ s, (foldl (write_file (ad_temp d)) s.1 (export_files partial r), source));
  lift r.

(** The checks of [publishExportBundle] before its commit. *)
Definition publish_checks {T} (sourceChaindata output : string) : M (fsys * T) unit :=
  _ ← poll;
  f ← gets fst;
  _ ← lift (rejectOutputInsideSource E f sourceChaindata output);
  poll.

Definition publishExportBundle (sourceChaindata output : string) : M (out_state * legacySource) unit :=
  _ ← on_work (publish_checks sourceChaindata output);
  on_fst (Commit E).

(** [Export] with its deferred calls; [before] is the first read of the head. *)
Definition Export (sourceChaindata output : string) (before after : chain_view) (readCode : Hash → result bytes)
    (existing : list string) (compression : string) (partial : list (string * bytes)) : M fsys (Manifest * WriterResult) :=
  let compression := if bool_decide (compression = ""%string) then CompressionZstd else compression in
  f ← get;
  _ ← lift (validateExportOptions f sourceChaindata output);
  source ← openLegacySource before;
  f ← get;
  '(r, (f, source)) ← run_on (with_output E output "remove partial bundle" (
      d ← gets (λ s, s.1.2);
      x ← on_work (export_bundle sourceChaindata after readCode existing compression partial d);
      _ ← publishExportBundle sourceChaindata output;
      mret x)) (f, source);
  _ ← modify (λ _, f);
  '(c, _) ← run_on legacy_Close source;
  match r, c with
  | Ok x, Ok _ => mret x
  | Ok _, Err e => fail (EWrap "close legacy source database" e)
  | Err e, Ok _ => fail e
  | Err e, Err e' => fail (EJoin e (EWrap "close legacy source database" e'))
  end.

End ExportOperation.

(** ** What the head evidence establishes *)

Section LegacyLemmas.
Context `{Keccak, HeaderRLP}.

Lemma readLegacyHead_ok db head rlp :
  readLegacyHead db = Ok (head, rlp) → source_bound (MkSourceEvidence head head rlp).
Proof.
  unfold readLegacyHead. intros Hr. minv.
  destruct (ReadHeaderNumber db (ReadHeadBlockHash db)) as [number|]; [|done]. minv.
  match goal with Hx : match header_Number ?h with _ => _ end = _ |- _ => destruct h as [[n|] root]; cbn in Hx; [|done] end. minv.
  repeat match goal with
  | Hx : negb _ = false |- _ => apply negb_false_iff in Hx
  | Hx : (_ <? _) = true |- _ => apply N.ltb_lt in Hx
  | Hx : (_ =? _) = true |- _ => apply N.eqb_eq in Hx
  | Hx : (_ =? 0)%nat = false |- _ => apply Nat.eqb_neq in Hx
  | Hx : bool_decide _ = true |- _ => apply bool_decide_eq_true in Hx
  | Hx : bool_decide _ = false |- _ => apply bool_decide_eq_false in Hx
  end.
  subst. split; cbn; try done. intros Hn. by rewrite Hn in H3.
Qed.

Lemma openLegacySource_ok {St} db (st : St) w s st' w' :
  openLegacySource db st w = (Ok s, st', w') →
  st' = st ∧ source_bound (MkSourceEvidence (ls_head s) (ls_head s) (ls_headerRLP s)).
Proof.
  unfold openLegacySource. intros Hr. minv. destruct (readLegacyHead db) as [[head rlp]|e] eqn:E.
  - minv. split; [done|]. by apply readLegacyHead_ok in E.
  - mcases.
Qed.

Lemma ConfirmStableAndClose_ok db s w ev s' w' :
  ConfirmStableAndClose db s w = (Ok ev, s', w') →
  ev = MkSourceEvidence (ls_head s) (ls_head s) (ls_headerRLP s) ∧ readLegacyHead db = Ok (ls_head s, ls_headerRLP s).
Proof.
  unfold ConfirmStableAndClose. intros Hr. mstep Hr. minv.
  destruct (readLegacyHead db) as [[h rlp]|e]; [|mcases].
  destruct (negb _ || _) eqn:Hc; [mcases|]. apply orb_false_iff in Hc as [Hh Hb].
  apply negb_false_iff, bool_decide_eq_true in Hh. apply negb_false_iff, bytes_equal_spec in Hb. subst. mcases. done.
Qed.

End LegacyLemmas.

(** ** What the visitor writes *)

Section ExportLemmas.
Context `{Keccak, EmptyHashes, AccountRLP, !AccountRLPLaws, RLPSplit, StackTrie}.

(** The writer calls of an observation. *)
Definition slim_of (a : StateAccount) : bytes := match EncodeAccount (Some a) with Ok d => d | Err _ => [] end.
Definition event_ops (ev : event) : list writer_op :=
  match ev with
  | EvAccount h a full _ =>
      OpAccount h (slim_of a) (blen full) ::
      (if bytes_equal (acc_CodeHash a) (hash_bytes EmptyCodeHash) then [] else [OpReference])
  | EvStorage a s v => [OpStorage a s v]
  | EvCode _ h code => [OpCode h code]
  | EvNode _ _ => []
  end.

Lemma observed_writes ev init f cm rs c w' :
  observed (Some recordWriterVisitor) None ev (writer_at init f cm rs c) w' →
  Forall op_ok (event_ops ev) ∧
  w' = writer_at init f cm (rs ++ (event_ops ev ≫= op_records)) (foldl op_counts c (event_ops ev)).
Proof.
  intros (w1 & w2 & Ho). cbn [observe recordWriterVisitor v_Account v_Storage v_Code v_AccountFromBundle] in Ho.
  assert (Hone : ∀ op rs c w w3 w'', run_op op (writer_at init f cm rs c) w = (Ok (), w3, w'') →
     op_ok op ∧ w3 = writer_at init f cm (rs ++ op_records op) (op_counts c op)) by (intros; by eapply run_op_ok).
  destruct ev as [h a full slim|a s v|a h code|owner n].
  - assert (Ha : rwv_Account h a full (writer_at init f cm rs c) w1 = (Ok (), w', w2)) by (by destruct slim).
    clear Ho. unfold rwv_Account in Ha. minv.
    match goal with Hx : EncodeAccount _ = Ok ?d |- _ => assert (slim_of a = d) as Hs by (unfold slim_of; by rewrite Hx) end.
    cbn [event_ops]. rewrite Hs.
    match goal with Hx : WriteAccount _ ?d _ _ _ = _ |- _ => apply (Hone (OpAccount h d (blen full))) in Hx as [Hok ->] end.
    destruct (bytes_equal _ _).
    + minv. cbn. rewrite ?app_nil_r. split; [by constructor|done].
    + minv. apply (Hone OpReference) in Ha as [Hok2 ->]. split; [constructor; [done|]; by constructor|]. cbn. by rewrite ?app_nil_r.
  - change (rwv_Storage a s v (writer_at init f cm rs c) w1 = (Ok (), w', w2)) in Ho. unfold rwv_Storage in Ho. minv. apply (Hone (OpStorage a s v)) in Ho as [Hok ->].
    split; [by constructor|]. done.
  - change (rwv_Code a h code (writer_at init f cm rs c) w1 = (Ok (), w', w2)) in Ho. unfold rwv_Code in Ho. minv. apply (Hone (OpCode h code)) in Ho as [Hok ->].
    split; [by constructor|]. done.
  - cbn in Ho. minv. split; [constructor|]. cbn. by rewrite app_nil_r.
Qed.

Lemma observed_writes_all evs init f cm rs c w' :
  steps (observed (Some recordWriterVisitor) None) evs (writer_at init f cm rs c) w' →
  Forall op_ok (evs ≫= event_ops) ∧
  w' = writer_at init f cm (rs ++ ((evs ≫= event_ops) ≫= op_records)) (foldl op_counts c (evs ≫= event_ops)).
Proof.
  revert rs c. induction evs as [|ev evs IH]; intros rs c Hs; inversion Hs as [|? ? ? w1 ? Ho Hs']; subst.
  - split; [constructor|]. cbn. by rewrite app_nil_r.
  - apply observed_writes in Ho as [Hok ->]. apply IH in Hs' as [Hoks ->].
    cbn [mbind list_bind]. split; [by apply Forall_app|]. by rewrite bind_app foldl_app app_assoc.
Qed.

(** The writer calls of an entry and of a state. *)
Definition entry_ops (e : entry) : list writer_op :=
  event_ops (EvAccount (e_hash e) (e_account e) (e_full e) None) ++
  map (λ kv, OpStorage (e_hash e) kv.1 kv.2) (e_slots e) ++
  match e_code e with Some code => [OpCode (e_codeHash e) code] | None => [] end.

Lemma node_events_ops owner ns : node_events owner ns ≫= event_ops = [].
Proof. induction ns as [|n ns IH]; [done|]. cbn. exact IH. Qed.

Lemma slots_trace_ops h st slots st' ns :
  stack_feed st (slot_leaves slots) = Ok (st', ns) →
  slots_trace h st slots ≫= event_ops = map (λ kv, OpStorage h kv.1 kv.2) slots.
Proof.
  revert st ns. induction slots as [|[k v] slots IH]; intros st ns Hf; [done|].
  unfold slot_leaves in Hf. cbn [map stack_feed fst snd] in Hf. cbn [slots_trace].
  destruct (stack_update st (hash_bytes k) v) as [[st1 n1]|]; [|done]. simpl in Hf. fold (slot_leaves slots) in Hf.
  destruct (stack_feed st1 (slot_leaves slots)) as [[s3 n3]|] eqn:E; [|done]. injection Hf as -> _.
  rewrite !bind_app node_events_ops (IH _ _ E). done.
Qed.

Context (trie_root : list (bytes * bytes) → Hash) `{!StackTrieLaws trie_root}.

Lemma visit_trace_ops known e :
  entry_wf known e → Forall (λ kv, kv.2 ≠ []) (e_slots e) → visit_trace e ≫= event_ops = entry_ops e.
Proof.
  intros [[_ Hs _ _ _] _ _] Hv. destruct (stack_feed_ok _ (slot_leaves_ok _ Hs Hv)) as (st & ns & Hf).
  unfold visit_trace, entry_ops. cbn [mbind list_bind]. f_equal. rewrite !bind_app (slots_trace_ops _ _ _ _ _ Hf).
  assert (Hcl : close_trace e ≫= event_ops = []) by (unfold close_trace; destruct (e_slots e); [done|apply node_events_ops]).
  rewrite Hcl app_nil_r. by destruct (e_code e).
Qed.

Lemma visits_trace_ops known st es st' ns :
  entries_wf known es → values_nonempty es → stack_feed st (account_leaves es) = Ok (st', ns) →
  visits_trace st es ≫= event_ops = es ≫= entry_ops.
Proof.
  revert known st ns. induction es as [|e es IH]; intros known st ns Hw Hv Hf; [done|].
  destruct Hw as [He Hes]. apply Forall_cons in Hv as [Hv Hvs].
  unfold account_leaves in Hf. cbn [map stack_feed] in Hf. cbn [visits_trace].
  destruct (stack_update st (hash_bytes (e_hash e)) (e_full e)) as [[st1 n1]|]; [|done]. simpl in Hf. fold (account_leaves es) in Hf.
  destruct (stack_feed st1 (account_leaves es)) as [[s3 n3]|] eqn:E; [|done]. injection Hf as -> _.
  rewrite !bind_app (visit_trace_ops _ _ He Hv) node_events_ops (IH _ _ _ Hes Hvs E). done.
Qed.

Lemma code_empty_bytes (d : bytes) :
  length d = HashLength → bytes_equal d (hash_bytes EmptyCodeHash) = bool_decide (BytesToHash d = EmptyCodeHash).
Proof.
  intros Hl. unfold bytes_equal. apply bool_decide_ext. split.
  - intros ->. apply BytesToHash_hash.
  - intros He. by rewrite -He BytesToHash_exact.
Qed.

Lemma slots_ops_records h (slots : list (Hash * bytes)) :
  map (λ kv, OpStorage h kv.1 kv.2) slots ≫= op_records = map (slot_record h) slots.
Proof. induction slots as [|kv slots IH]; [done|]. cbn. by rewrite -IH. Qed.

(** An entry is written as its records and counted as itself. *)
Lemma entry_ops_records known e :
  entry_wf known e → entry_ops e ≫= op_records = entry_records e.
Proof.
  intros [[Hd _ _ _ _] _ _]. apply DecodeAccount_ok in Hd as (He & _ & _).
  unfold entry_ops, entry_records, code_records. rewrite !bind_app slots_ops_records.
  cbn [event_ops]. unfold slim_of. rewrite He. destruct (bytes_equal _ _), (e_code e); cbn; by rewrite ?app_nil_r.
Qed.

Lemma slots_ops_counts h slots c :
  foldl op_counts c (map (λ kv, OpStorage h kv.1 kv.2) slots) =
  foldl (λ c (kv : Hash * bytes), count_record RecordStorage (blen kv.2) c) c slots.
Proof. revert c. induction slots as [|kv slots IH]; intros c; [done|]. cbn. apply IH. Qed.

Lemma slots_counts_reference slots c :
  foldl (λ c (kv : Hash * bytes), count_record RecordStorage (blen kv.2) c) (count_reference c) slots =
  count_reference (foldl (λ c (kv : Hash * bytes), count_record RecordStorage (blen kv.2) c) c slots).
Proof. revert c. induction slots as [|kv slots IH]; intros c; [done|]. cbn. by rewrite count_reference_record IH. Qed.

Lemma entry_ops_counts known e c :
  entry_wf known e → foldl op_counts c (entry_ops e) = entry_counts c e.
Proof.
  intros [[Hd _ _ _ _] _ _]. apply DecodeAccount_ok in Hd as (He & _ & Hl & _).
  unfold entry_ops, entry_counts, open_counts. cbn [event_ops]. rewrite (code_empty_bytes _ Hl). fold (e_codeHash e).
  rewrite !foldl_app slots_ops_counts. destruct (bool_decide _), (e_code e); cbn;
    by rewrite ?slots_counts_reference ?count_reference_record.
Qed.

Lemma state_ops known es c :
  entries_wf known es →
  (es ≫= entry_ops) ≫= op_records = state_records es ∧ foldl op_counts c (es ≫= entry_ops) = foldl entry_counts c es.
Proof.
  revert known c. induction es as [|e es IH]; intros known c Hw; [done|]. destruct Hw as [He Hes].
  cbn [mbind list_bind]. rewrite bind_app foldl_app (entry_ops_records _ _ He) (entry_ops_counts _ _ _ He).
  destruct (IH _ (entry_counts c e) Hes) as [-> ->]. done.
Qed.

End ExportLemmas.

(** ** The theorems *)

Section ExportTheorems.
Context `{Keccak, EmptyHashes, AccountRLP, !AccountRLPLaws, RLPSplit, StackTrie, HeaderRLP, Zstd, TrieReader}.
Context (trie_root : list (bytes * bytes) → Hash) `{!StackTrieLaws trie_root}.
Context (E : os_env) (now : N) (tool geth : string) (encode_manifest : Manifest → bytes) (stored : Manifest → result Manifest).

Lemma TraverseState_ok {V} root readCode (visitor : option (StateVisitor V)) nodes v0 w res v' w' :
  TraverseState root readCode visitor nodes v0 w = (Ok res, v', w') →
  ∃ es, account_iterator root = Ok (account_leaves es, None) ∧ state_wf es root ∧ values_nonempty es ∧
    res = MkStateResult root (state_counts es) ∧
    steps (observed visitor nodes)
      (visits_trace stack_new es ++ node_events zero_hash (stack_hash (stack_after (account_leaves es))).2) v0 v'.
Proof.
  unfold TraverseState. intros Hr. mstep Hr. minv.
  match goal with p : result StateResult * _ |- _ => destruct p as [[] t]; cbn [fst snd] in *; minv end.
  by eapply traverser_run_ok.
Qed.

Lemma legacy_Traverse_traversed {V} (visitor : option (StateVisitor V)) nodes readCode root v w res v' w' :
  legacy_Traverse visitor nodes readCode root v w = (Ok res, v', w') →
  ∃ w1, TraverseState root readCode visitor nodes v w = (Ok res, v', w1).
Proof.
  unfold legacy_Traverse. intros Hr. minv.
  match goal with r : result StateResult, c : result () |- _ => destruct r, c; minv end.
  repeat match goal with Hi : io _ _ = _ |- _ => apply io_state in Hi; subst end. eauto.
Qed.

(** The writer after a successful traversal. *)
Lemma legacy_Traverse_ok readCode root init f cm w res wr' w' :
  legacy_Traverse (Some recordWriterVisitor) None readCode root (writer_at init f cm [] zero_counts) w = (Ok res, wr', w') →
  ∃ es, account_iterator root = Ok (account_leaves es, None) ∧ state_wf es root ∧ values_nonempty es ∧
    res = MkStateResult root (state_counts es) ∧ Forall op_ok (es ≫= entry_ops) ∧
    wr' = writer_at init f cm (state_records es) (state_counts es).
Proof.
  intros (w1 & Hr)%legacy_Traverse_traversed. apply TraverseState_ok in Hr as (es & Hit & Hw & Hv & -> & Hs).
  exists es. split; [done|]. split; [done|]. split; [done|]. split; [done|].
  apply observed_writes_all in Hs as [Hok ->]. rewrite bind_app node_events_ops app_nil_r in Hok |- *.
  destruct (stack_feed_ok _ (account_leaves_ok _ _ (sw_sorted _ _ Hw) (sw_entries _ _ Hw))) as (st & ns & Hf).
  rewrite (visits_trace_ops trie_root _ _ _ _ _ (sw_entries _ _ Hw) Hv Hf) in Hok |- *. split; [done|].
  destruct (state_ops ∅ es zero_counts (sw_entries _ _ Hw)) as [-> ->]. done.
Qed.

Lemma export_body_ok source after readCode existing cm w m wr s' w' :
  source_bound (MkSourceEvidence (ls_head source) (ls_head source) (ls_headerRLP source)) →
  export_body now tool geth stored after readCode existing cm source w = (Ok (m, wr), s', w') →
  ∃ ev f es,
    file_name_of cm = Ok f ∧ source_bound ev ∧ Manifest_Validate m = Ok () ∧
    account_iterator (StateRoot (HeadBefore ev)) = Ok (account_leaves es, None) ∧
    state_wf es (StateRoot (HeadBefore ev)) ∧ values_nonempty es ∧ Forall op_ok (es ≫= entry_ops) ∧
    wr = result_at (initialChainHash (HeadBefore ev) (HeaderRLP_ ev)) f cm (state_records es) (state_counts es) ∧
    m = NewManifest now tool geth ev (wr_Counts wr) (state_file_of wr).
Proof.
  intros Hb He. unfold export_body in He. mstep He. minv.
  match goal with Hx : NewWriter _ _ _ _ _ _ = _ |- _ =>
    pose proof (NewWriter_state _ _ _ _ _ _ _ _ _ Hx); subst; apply NewWriter_ok in Hx as (f & Hf & ->) end.
  match goal with p : result StateResult * Writer |- _ => destruct p as [[st|e] wr1]; cbn [fst snd] in * end; cycle 1.
  { unfold abort_with in He. mstep He. match goal with p : result () * Writer |- _ => destruct p as [[] ?] end; minv. }
  match goal with Hx : legacy_Traverse _ _ _ _ _ _ = _ |- _ => apply legacy_Traverse_ok in Hx as (es & Hit & Hw & Hv & -> & Hok & ->) end.
  unfold finalizeExportBundle in He. mstep He. minv. match goal with r : result () |- _ => destruct r end; cycle 1.
  { unfold abort_with in He. mstep He. match goal with p : result () * Writer |- _ => destruct p as [[] ?] end; minv. }
  minv. match goal with p : result WriterResult * Writer |- _ => destruct p as [[] ?]; cbn [fst snd] in * end; minv. simplify_eq.
  match goal with Hx : Writer_Close _ _ = _ |- _ => apply Writer_Close_ok in Hx as [-> _] end.
  repeat match goal with Hx : poll _ _ = _ |- _ => apply poll_state in Hx; subst end.
  match goal with Hx : ConfirmStableAndClose _ _ _ = _ |- _ => apply ConfirmStableAndClose_ok in Hx as [-> _] end.
  eexists _, f, es. split; [done|]. split; [exact Hb|]. split; [done|]. split; [done|]. split; [done|].
  split; [done|]. split; [done|]. split; done.
Qed.

(** [Export] as an owner of an output. *)
Definition export_work sourceChaindata output after readCode existing cm partial (d : atomicDir)
    : M (fsys * legacySource) (Manifest * WriterResult) :=
  x ← export_bundle E now tool geth encode_manifest stored sourceChaindata after readCode existing cm partial d;
  _ ← publish_checks E sourceChaindata output;
  mret x.

Lemma export_publishes sourceChaindata output after readCode existing cm partial s w :
  (d ← gets (λ s : out_state * legacySource, s.1.2);
   x ← on_work (export_bundle E now tool geth encode_manifest stored sourceChaindata after readCode existing cm partial d);
   _ ← publishExportBundle E sourceChaindata output;
   mret x) s w =
  publish_work E (export_work sourceChaindata output after readCode existing cm partial) s w.
Proof.
  destruct s as [[f d] t]. unfold publish_work, export_work, publishExportBundle, on_work, mbind, M_bind, gets, zoom. cbn [fst snd].
  destruct (export_bundle _ _ _ _ _ _ _ _ _ _ _ _ d (f, t) w) as [[[x|e] [f1 t1]] w1]; cbn [fst snd]; [|done].
  destruct (publish_checks _ _ _ (f1, t1) w1) as [[[[]|e] [f2 t2]] w2]; cbn [fst snd]; [|done].
  reflexivity.
Qed.

(** What a successful [Export] has gone through. *)
Lemma Export_cases sourceChaindata output before after readCode existing compression partial f w m wr f' w' :
  Export E now tool geth encode_manifest stored sourceChaindata output before after readCode existing compression partial f w =
    (Ok (m, wr), f', w') →
  let cm := if bool_decide (compression = ""%string) then CompressionZstd else compression in
  ∃ source source' w1 w2,
    source_bound (MkSourceEvidence (ls_head source) (ls_head source) (ls_headerRLP source)) ∧
    with_output E output "remove partial bundle"
      (publish_work E (export_work sourceChaindata output after readCode existing cm partial)) (f, source) w1 =
      (Ok (m, wr), (f', source'), w2).
Proof.
  intros Hr cm. unfold Export in Hr. cbv zeta in Hr. fold cm in Hr. mstep Hr. minv.
  match goal with Hx : openLegacySource _ _ _ = (Ok ?src, _, _) |- _ => apply openLegacySource_ok in Hx as [-> Hb]; rename src into s end.
  match goal with p : result (Manifest * WriterResult) * (fsys * legacySource) |- _ => destruct p as [r [g s']]; cbn [fst snd] in * end.
  mstep Hr. minv. match goal with p : result () * legacySource |- _ => destruct p as [c s'']; cbn [fst snd] in * end.
  destruct r, c; minv. simplify_eq.
  match goal with Hx : with_output _ _ _ ?b _ ?ww = (_, _, ?w2) |- _ => rename Hx into Ho; exists s, s', ww, w2 end.
  split; [exact Hb|]. rewrite -Ho. apply with_output_ext. intros. by rewrite export_publishes.
Qed.

Lemma write_files_outside dir f files q : under dir q = false → foldl (write_file E dir) f files q = f q.
Proof.
  intros Hq. revert f. induction files as [|[name c] files IH]; intros f; [done|]. cbn [foldl]. rewrite IH.
  unfold write_file, fs_put. rewrite bool_decide_eq_false_2 //. intros ->. apply not_true_iff_false in Hq.
  apply Hq, under_spec. eauto.
Qed.

Lemma export_work_inside sourceChaindata output after readCode existing cm partial :
  stays_inside (export_work sourceChaindata output after readCode existing cm partial).
Proof.
  intros d [f s] w q Hq. unfold export_work.
  assert (Hk : keeps (λ x : fsys * legacySource, x.1 q = f q)
    (x ← export_bundle E now tool geth encode_manifest stored sourceChaindata after readCode existing cm partial d;
     _ ← publish_checks E sourceChaindata output; mret x)).
  { unfold export_bundle, publish_checks. repeat first
    [ apply keeps_modify; intros [g s'] Hg; cbn [fst]; by rewrite write_files_outside
    | apply keeps_bind; [|intros ?] | apply keeps_get | apply keeps_gets | apply keeps_lift | apply keeps_run_on
    | apply keeps_poll | apply keeps_ret | progress cbn beta iota
    | match goal with p : _ * _ |- _ => destruct p end ]. }
  by apply (Hk (f, s) w).
Qed.

(** The bundle in the output directory when [export_work] has succeeded. *)
Lemma export_work_ok sourceChaindata output after readCode existing cm partial d f s w m wr f' s' w' :
  export_work sourceChaindata output after readCode existing cm partial d (f, s) w = (Ok (m, wr), (f', s'), w') →
  ∃ w1 w2, export_body now tool geth stored after readCode existing cm s w1 = (Ok (m, wr), s', w2) ∧
    f' = foldl (write_file E (ad_temp d)) f [(wr_FileName wr, wr_content wr); (ManifestFileName, encode_manifest m)].
Proof.
  unfold export_work, export_bundle, publish_checks. intros Hr. minv. cbn [fst snd] in *.
  match goal with p : result _ * legacySource |- _ => destruct p as [r s1]; cbn [fst snd] in * end. minv. simplify_eq.
  match goal with Hx : poll _ _ = _ |- _ => apply poll_ok in Hx | _ => idtac end. simplify_eq. eauto.
Qed.

Lemma Export_ok sourceChaindata output before after readCode existing compression partial f w m wr f' w' :
  Export E now tool geth encode_manifest stored sourceChaindata output before after readCode existing compression partial f w =
    (Ok (m, wr), f', w') →
  ∃ source f cm es,
    file_name_of cm = Ok f ∧ source_bound source ∧ Manifest_Validate m = Ok () ∧
    account_iterator (StateRoot (HeadBefore source)) = Ok (account_leaves es, None) ∧
    state_wf es (StateRoot (HeadBefore source)) ∧ values_nonempty es ∧ Forall op_ok (es ≫= entry_ops) ∧
    wr = result_at (initialChainHash (HeadBefore source) (HeaderRLP_ source)) f cm (state_records es) (state_counts es) ∧
    m = NewManifest now tool geth source (wr_Counts wr) (state_file_of wr).
Proof.
  intros (s & s' & w1 & w2 & Hb & Ho)%Export_cases.
  apply with_output_cases in Ho as [(e & Hx & _)|(d & g & w3 & r1 & f2 & d2 & w4 & c & _ & Hw & _ & [[<- _]|(? & ? & ? & _)])]; [done| |done].
  unfold publish_work, on_work in Hw. minv. cbn [fst snd] in *.
  match goal with Hx : export_work _ _ _ _ _ _ _ _ _ _ = (_, ?p, _) |- _ => destruct p as [g2 s2]; apply export_work_ok in Hx as (? & ? & Hx & _);
    apply export_body_ok in Hx as (ev & fn & es & Hall); [|exact Hb] end. by eexists ev, fn, _, es.
Qed.

(** C1: Export and import are inverse: if [Export] succeeds, in any
    environment, then a bundle directory holding its manifest and record file
    is accepted by [scanBundle] in an undisturbed run, whatever visitor and
    node sink consume it (as long as their own calls succeed), and the rebuilt
    state has the root of the source head and exactly the exported counts. *)
Theorem export_then_import `{!ZstdLaws} {V} sourceChaindata output before after readCode existing compression partial f w m wr f' w'
    info dir node mb (visitor : option (StateVisitor V)) nodes (P : V → Prop) borrow v0 :
  Export E now tool geth encode_manifest stored sourceChaindata output before after readCode existing compression partial f w =
    (Ok (m, wr), f', w') →
  (∀ leaves e, account_iterator (StateRoot (HeadBefore (Source m))) = Ok (leaves, e) → N.of_nat (length leaves) < two64) →
  RequireExactLayout dir (bundle_layout m) = Ok () → isDir info = true →
  dir !! wr_FileName wr = Some node → dn_content node = wr_content wr →
  fi_size (dn_info node) = wr_Size wr → dn_read_err node = None →
  (∀ ev v, P v → ∃ v', observe visitor nodes ev v calm = (Ok (), v', calm) ∧ P v') → P v0 →
  ∃ res v', scanBundle (Ok info) (Ok info) dir dir (Ok (m, mb)) (Ok (m, mb)) visitor nodes borrow v0 calm =
              (Ok res, v', calm) ∧
    br_Manifest res = m ∧ br_State res = MkStateResult (StateRoot (HeadBefore (Source m))) (wr_Counts wr) ∧ P v'.
Proof.
  intros Hex Hlen Hl Hi Hn Hc Hs He Htot Hp.
  apply Export_ok in Hex as (source & fn & cm & es & Hf & Hb & Hm & Hit & Hw & Hv & Hok & -> & ->).
  destruct (state_ops ∅ es zero_counts (sw_entries _ _ Hw)) as [Hrec Hcnt].
  specialize (Hlen _ _ Hit). unfold account_leaves in Hlen. rewrite length_map in Hlen.
  destruct (consumer_complete trie_root visitor nodes P Htot v0 es _ Hw Hv Hlen Hp) as (c & c' & Hsteps & Hfin & Hp').
  pose proof (written_accepts now tool geth source fn cm (es ≫= entry_ops) dir node) as Ha. cbv zeta in Ha.
  rewrite Hrec Hcnt in Ha. specialize (Ha Hok Hm Hl Hn Hc Hs He).
  set (m := NewManifest now tool geth source _ _) in *.
  assert (Hend : r_end (stream_of m node) = None) by (by rewrite (stream_of_written _ _ cm (state_records es))).
  pose proof (scanRecords_calm info dir m node (consume visitor nodes) borrow _ _ _ _ Hi Ha Hend Hsteps) as Hscan.
  exists (MkBundleResult m mb (sha256 mb) (MkStateResult (StateRoot (HeadBefore source)) (state_counts es))
    (MkScanResult (wire_counts (state_records es)) (SHA256 (mStateFile m)) (RecordChainHash (mStateFile m)))), (env (c_sink c')).
  split; [|done]. unfold scanBundle.
  erewrite bind_run; [|reflexivity]. cbv beta iota. erewrite bind_run; [|reflexivity].
  erewrite bind_run; [|apply run_on_run; destruct borrow; exact Hscan]. cbv beta iota.
  erewrite bind_run; [|reflexivity]. erewrite bind_run; [|reflexivity]. erewrite bind_run; [|reflexivity]. cbv beta iota.
  erewrite bind_run; [|apply lift_run; by rewrite (proj2 (bytes_equal_spec _ _))].
  erewrite bind_run; [|apply run_on_run; exact Hfin]. cbv beta iota.
  erewrite bind_run; [|reflexivity]. erewrite bind_run; [|reflexivity].
  erewrite bind_run; [|apply lift_run; by rewrite bool_decide_eq_true_2]. reflexivity.
Qed.



End ExportTheorems.

(** ** A sample chain

    Three accounts, two of which share a contract, one of them with storage. *)
Module SampleChain.
Import Sample.
#[export] Existing Instance toy_split.

Definition code : bytes := bytes_of_string "contract".
Definition slots : list (bytes * bytes) :=
  [(hash_bytes (hash_of "slot-1"), [x05]); (hash_bytes (hash_of "slot-2"), [x82; x01; x02])].
Definition plain : StateAccount := MkStateAccount 1 (Some 1000) EmptyRootHash (hash_bytes EmptyCodeHash).
Definition contract : StateAccount := MkStateAccount 2 (Some 0) (toy_root slots) (hash_bytes (keccak256 code)).
Definition clone : StateAccount := MkStateAccount 3 (Some 7) EmptyRootHash (hash_bytes (keccak256 code)).

Definition leaf (name : string) (a : StateAccount) : bytes * bytes :=
  (hash_bytes (hash_of name), match toy_encode_account a with Ok d => d | Err _ => [] end).
Definition accounts : list (bytes * bytes) := [leaf "account-1" plain; leaf "account-2" contract; leaf "account-3" clone].
Definition state_root : Hash := toy_root accounts.

Definition tries : TrieReader :=
  {| account_iterator root := if bool_decide (root = state_root) then Ok (accounts, None) else Err (EMsg "missing trie node");
     storage_iterator _ _ root := if bool_decide (root = toy_root slots) then Ok (slots, None) else Err (EMsg "missing trie node") |}.
#[export] Existing Instance tries.

Definition readCode (h : Hash) : result bytes := if bool_decide (h = keccak256 code) then Ok code else Ok [].

Definition header : bytes := toy_header_bytes 7 state_root.
Definition chain : chain_view :=
  MkChainView (keccak256 header) (λ h, if bool_decide (h = keccak256 header) then Some 7 else None)
    (λ n, if n =? 7 then keccak256 header else zero_hash) (λ _ _, header).

Definition run := Export SampleFs.os 1 "v1" "v1.17.6" (λ _, bytes_of_string "{}") Ok "/data/chain" "/alias/out/bundle"
  chain chain readCode [] "" [] SampleFs.disk calm.
Definition exported : Manifest * WriterResult :=
  ok_or (Sample.manifest CompressionNone, Sample.result_for CompressionNone) run.1.1.
Definition exported_disk : fsys := run.1.2.
Definition exported_node : dir_node :=
  MkDirNode (MkFileInfo ModeRegular (wr_Size exported.2) 2) (wr_content exported.2) None.
Definition exported_dir : directory :=
  <[wr_FileName exported.2 := exported_node]>
    {[ManifestFileName := MkDirNode (MkFileInfo ModeRegular 2 3) (bytes_of_string "{}") None]}.

End SampleChain.

Module ExportWitnesses.
Import Sample SampleChain.

Lemma exported_run : run = (Ok (exported.1, exported.2), exported_disk, calm).
Proof.
  assert (Hr : run.1.1 = Ok (exported.1, exported.2)) by (by vm_compute). assert (Hw : run.2 = calm) by (by vm_compute).
  rewrite <- Hr, <- Hw. unfold exported_disk. by destruct run as [[r f] w].
Qed.

Lemma exported_root : StateRoot (HeadBefore (Source exported.1)) = state_root.
Proof. by vm_compute. Qed.

Lemma exported_counts : wr_Counts exported.2 = mCounts exported.1.
Proof. by vm_compute. Qed.

Lemma exported_leaves : account_iterator state_root = Ok (accounts, None).
Proof. by vm_compute. Qed.

Lemma export_then_import_witness :
  ∃ res,
    scanBundle (Ok dir_info) (Ok dir_info) exported_dir exported_dir (Ok (exported.1, [])) (Ok (exported.1, []))
      None None true () calm = (Ok res, (), calm) ∧
    br_State res = MkStateResult state_root (mCounts exported.1).
Proof.
  destruct (export_then_import (V:=()) toy_root SampleFs.os 1 "v1" "v1.17.6" (λ _, bytes_of_string "{}") Ok "/data/chain" "/alias/out/bundle"
    chain chain readCode [] "" [] SampleFs.disk calm exported.1 exported.2 exported_disk calm
    dir_info exported_dir exported_node [] None None (λ _, True) true ()) as (res & [] & Hr & _ & Hs & _).
  - exact exported_run.
  - intros leaves e. rewrite exported_root exported_leaves. intros [= <- _]. by vm_compute.
  - by vm_compute.
  - reflexivity.
  - by vm_compute.
  - reflexivity.
  - by vm_compute.
  - reflexivity.
  - intros ev [] _. exists (). by destruct ev.
  - exact I.
  - exists res. split; [exact Hr|]. rewrite exported_root exported_counts in Hs. exact Hs.
Defined.



Definition exported_scan : BundleResult :=
  ok_or (MkBundleResult exported.1 [] zero_hash (MkStateResult zero_hash zero_counts) (MkScanResult (wire_counts []) zero_hash zero_hash))
    (scanBundle (V:=()) (Ok dir_info) (Ok dir_info) exported_dir exported_dir (Ok (exported.1, [])) (Ok (exported.1, []))
      None None false () calm).1.1.

Lemma exported_small node :
  exported_dir !! Name (mStateFile exported.1) = Some node → N.of_nat (length (r_data (stream_of exported.1 node))) < two64.
Proof.
  assert (He : exported_dir !! Name (mStateFile exported.1) = Some exported_node) by (by vm_compute).
  rewrite He. intros [= <-]. by vm_compute.
Qed.

Lemma scan_bundle_sound_witness :
  ∃ es, state_root = toy_root (account_leaves es) ∧ state_counts es = mCounts exported.1.
Proof.
  destruct (scan_bundle_sound (V:=()) toy_root (Ok dir_info) (Ok dir_info) exported_dir exported_dir exported.1 []
    (Ok (exported.1, [])) None None false () calm exported_scan () calm) as (node & es & _ & _ & _ & Hroot & _ & _ & Hc & _).
  - by vm_compute.
  - exact exported_small.
  - exists es. rewrite exported_root in Hroot. split; [exact Hroot|exact Hc].
Defined.

End ExportWitnesses.
