(* ===== verification/DirectWriter.v ===== *)
(** * Writing a target database ([direct_writer.go], [dbkeys.go])

    [directStateWriter] collects the puts and deletes of one operation in a
    batch and writes the batch to the target database when it is large enough
    and when the writer is closed. A database is a finite map; a batch is the
    list of its operations, written atomically. How large a batch counts is a
    parameter ([BatchValueSize]).

    The theorems say that the flush limit is invisible in the result, that an
    aborted deferred writer leaves no trace, that keys of different entries
    never collide, and what an import leaves in the database: exactly the flat
    state of the bundle. *)

From S2P Require Import Prelude Sha256 Geth Instances Manifest StrictIO Records Scanner Bundle Account StateTrie Consumer Stream Traverse AtomicDir Export.

(** ** Databases and batches *)

Abbreviation store := (gmap bytes bytes).

Inductive batch_op :=
| BPut (key value : bytes)
| BDelete (key : bytes).

#[export] Instance batch_op_eq_dec : EqDecision batch_op.
Proof. solve_decision. Defined.

Definition apply_op (db : store) (op : batch_op) : store :=
  match op with BPut k v => <[k := v]> db | BDelete k => delete k db end.
Definition apply_ops (db : store) (ops : list batch_op) : store := foldl apply_op db ops.

(** [batch.ValueSize()]. *)
Class BatchValueSize := { ValueSize : list batch_op → Z }.

(** [types.SlimAccountRLP]: the slim encoding of an account, which the
    account codec of the bundle computes too. *)
Class SlimRLP := { SlimAccountRLP : StateAccount → bytes }.
Class SlimRLPLaws `{SlimRLP, EmptyHashes, AccountRLP} : Prop := {
  slim_account_rlp a d : EncodeAccount (Some a) = Ok d → SlimAccountRLP a = d
}.

(** [rawdb.HashScheme] and [rawdb.PathScheme]. *)
Definition HashScheme : string := "hash".
Definition PathScheme : string := "path".

(** ** [dbkeys.go] *)

(** The loop of [prefixLimit], from the last byte. *)
Fixpoint limit_loop (rev_prefix : bytes) : option bytes :=
  match rev_prefix with
  | [] => None
  | b :: rest => if negb (bool_decide (b = xff)) then Some (byte_of_N (byte_val b + 1) :: rest) else limit_loop rest
  end.
Definition prefixLimit (prefix : bytes) : option bytes := reverse <$> limit_loop (reverse prefix).

Definition prefixedKey (prefix suffix : bytes) : bytes := prefix ++ suffix.

(** ** The writer *)

Record directStateWriter := MkDirectWriter {
  dw_batch : list batch_op;
  dw_scheme : string;
  dw_flushAt : Z;
  dw_closed : bool
}.

(** A database and a writer on it. *)
Record target := MkTarget { tg_db : store; tg_writer : directStateWriter }.

Definition keyBytes (prefix middle suffix : bytes) : bytes := prefix ++ middle ++ suffix.

Section DirectWriter.
Context `{RawdbKeys, BatchSize, BatchValueSize, SlimRLP}.

Definition newDirectStateWriterWithFlushLimit (scheme : string) (flushAt : Z) : directStateWriter :=
  MkDirectWriter [] scheme flushAt false.
Definition newDirectStateWriter (scheme : string) : directStateWriter :=
  newDirectStateWriterWithFlushLimit scheme (Z.of_N IdealBatchSize).
Definition newDeferredDirectStateWriter (scheme : string) : directStateWriter :=
  newDirectStateWriterWithFlushLimit scheme 0.

Definition set_batch (ops : list batch_op) (t : target) : target :=
  MkTarget (tg_db t) (MkDirectWriter ops (dw_scheme (tg_writer t)) (dw_flushAt (tg_writer t)) (dw_closed (tg_writer t))).
Definition set_dw_closed (t : target) : target :=
  MkTarget (tg_db t) (MkDirectWriter (dw_batch (tg_writer t)) (dw_scheme (tg_writer t)) (dw_flushAt (tg_writer t)) true).

(** [batch.Put] and [batch.Delete]. *)
Definition batch_op_add (op : batch_op) : M target unit :=
  _ ← io;
  modify (λ t, set_batch (dw_batch (tg_writer t) ++ [op]) t).

(** [batch.Write]: atomic. *)
Definition batch_Write : M target unit :=
  _ ← io;
  modify (λ t, MkTarget (apply_ops (tg_db t) (dw_batch (tg_writer t))) (tg_writer t)).

Definition flushIfNeeded : M target unit :=
  w ← gets tg_writer;
  if (dw_flushAt w <=? 0)%Z || (ValueSize (dw_batch w) <? dw_flushAt w)%Z then mret () else
  _ ← wrap "flush directly generated state" batch_Write;
  modify (set_batch []).

Definition dw_put (msg : string) (key value : bytes) : M target unit :=
  _ ← wrap msg (batch_op_add (BPut key value));
  flushIfNeeded.

Definition writeFlatAccount (hash : Hash) (slimRLP : bytes) : M target unit :=
  w ← gets tg_writer;
  if bool_decide (dw_scheme w = HashScheme) then mret () else
  dw_put "write flat account" (keyBytes SnapshotAccountPrefix (hash_bytes hash) []) slimRLP.

Definition dw_Account (hash : Hash) (account : StateAccount) (fullRLP : bytes) : M target unit :=
  w ← gets tg_writer;
  if bool_decide (dw_scheme w = HashScheme) then mret () else
  writeFlatAccount hash (SlimAccountRLP account).

Definition dw_AccountFromBundle (hash : Hash) (account : StateAccount) (fullRLP slimRLP : bytes) : M target unit :=
  writeFlatAccount hash slimRLP.

Definition dw_Storage (accountHash slotHash : Hash) (valueRLP : bytes) : M target unit :=
  w ← gets tg_writer;
  if bool_decide (dw_scheme w = HashScheme) then mret () else
  dw_put "write flat slot" (keyBytes SnapshotStoragePrefix (hash_bytes accountHash) (hash_bytes slotHash)) valueRLP.

Definition dw_Code (accountHash codeHash : Hash) (code : bytes) : M target unit :=
  dw_put "write code" (keyBytes CodePrefix (hash_bytes codeHash) []) code.

Definition trieNodeKey (scheme : string) (owner : Hash) (path : bytes) (hash : Hash) : result bytes :=
  if bool_decide (scheme = HashScheme) then Ok (keyBytes [] (hash_bytes hash) [])
  else if bool_decide (scheme = PathScheme) then
    if bool_decide (owner = zero_hash) then Ok (keyBytes TrieNodeAccountPrefix path [])
    else Ok (keyBytes TrieNodeStoragePrefix (hash_bytes owner) path)
  else Err (EMsg "unknown state scheme").

Definition dw_TrieNode (owner : Hash) (path : bytes) (hash : Hash) (blob : bytes) : M target unit :=
  w ← gets tg_writer;
  key ← lift (trieNodeKey (dw_scheme w) owner path hash);
  dw_put "write trie node" key blob.

Definition DeleteTrieNode (owner : Hash) (path : bytes) (hash : Hash) : M target unit :=
  w ← gets tg_writer;
  key ← lift (trieNodeKey (dw_scheme w) owner path hash);
  _ ← wrap "delete trie node" (batch_op_add (BDelete key));
  flushIfNeeded.

Definition dw_Close : M target unit :=
  w ← gets tg_writer;
  if dw_closed w then mret () else
  _ ← modify set_dw_closed;
  wrap "flush final directly generated state" batch_Write.

Definition dw_Abort : M target unit :=
  w ← gets tg_writer;
  if dw_closed w then mret () else
  modify set_dw_closed.

Definition CloseContext : M target unit :=
  p ← attempt poll;
  match p with
  | Err e => _ ← dw_Abort; fail e
  | Ok _ => dw_Close
  end.

(** The writer as a visitor and as a node sink. *)
Definition directVisitor : StateVisitor target := MkVisitor dw_Account dw_Storage dw_Code (Some dw_AccountFromBundle).
Definition directSink : trieNodeSink target := MkSink dw_TrieNode.

(** One call on a writer. *)
Inductive dw_call :=
| CallAccount (hash : Hash) (account : StateAccount) (fullRLP : bytes)
| CallAccountFromBundle (hash : Hash) (account : StateAccount) (fullRLP slimRLP : bytes)
| CallStorage (accountHash slotHash : Hash) (valueRLP : bytes)
| CallCode (accountHash codeHash : Hash) (code : bytes)
| CallNode (owner : Hash) (path : bytes) (hash : Hash) (blob : bytes)
| CallDelete (owner : Hash) (path : bytes) (hash : Hash).

Definition run_call (c : dw_call) : M target unit :=
  match c with
  | CallAccount h a f => dw_Account h a f
  | CallAccountFromBundle h a f s => dw_AccountFromBundle h a f s
  | CallStorage a s v => dw_Storage a s v
  | CallCode a h c => dw_Code a h c
  | CallNode o p h b => dw_TrieNode o p h b
  | CallDelete o p h => DeleteTrieNode o p h
  end.

(** The operation a call adds to the batch, by scheme. *)
Definition flat_op (scheme : string) (op : batch_op) : list batch_op :=
  if bool_decide (scheme = HashScheme) then [] else [op].
Definition node_op (scheme : string) (owner : Hash) (path : bytes) (hash : Hash) (f : bytes → batch_op) : list batch_op :=
  match trieNodeKey scheme owner path hash with Ok k => [f k] | Err _ => [] end.
Definition call_ops (scheme : string) (c : dw_call) : list batch_op :=
  match c with
  | CallAccount h a _ => flat_op scheme (BPut (keyBytes SnapshotAccountPrefix (hash_bytes h) []) (SlimAccountRLP a))
  | CallAccountFromBundle h _ _ s => flat_op scheme (BPut (keyBytes SnapshotAccountPrefix (hash_bytes h) []) s)
  | CallStorage a s v => flat_op scheme (BPut (keyBytes SnapshotStoragePrefix (hash_bytes a) (hash_bytes s)) v)
  | CallCode _ h c => [BPut (keyBytes CodePrefix (hash_bytes h) []) c]
  | CallNode o p h b => node_op scheme o p h (λ k, BPut k b)
  | CallDelete o p h => node_op scheme o p h BDelete
  end.

End DirectWriter.

(** ** The batch as a view of the database *)

Section WriterLemmas.
Context `{RawdbKeys, BatchSize, BatchValueSize, SlimRLP}.
Implicit Types (t : target).

(** The database once the pending batch is written. *)
Definition logical t : store := apply_ops (tg_db t) (dw_batch (tg_writer t)).

(** What no call changes. *)
Definition same_config t t' : Prop :=
  dw_scheme (tg_writer t') = dw_scheme (tg_writer t) ∧ dw_flushAt (tg_writer t') = dw_flushAt (tg_writer t) ∧
  dw_closed (tg_writer t') = dw_closed (tg_writer t).

Lemma apply_ops_app db l1 l2 : apply_ops db (l1 ++ l2) = apply_ops (apply_ops db l1) l2.
Proof. apply foldl_app. Qed.

Lemma flushIfNeeded_ok t w u t' w' :
  flushIfNeeded t w = (Ok u, t', w') → logical t' = logical t ∧ same_config t t'.
Proof. unfold flushIfNeeded, batch_Write. intros Hr. minv. destruct (_ || _); minv; done. Qed.

Lemma batch_op_add_ok op t w u t' w' :
  batch_op_add op t w = (Ok u, t', w') → logical t' = apply_op (logical t) op ∧ same_config t t'.
Proof. unfold batch_op_add. intros Hr. minv. split; [|done]. apply (apply_ops_app _ _ [op]). Qed.

Lemma same_config_trans t1 t2 t3 : same_config t1 t2 → same_config t2 t3 → same_config t1 t3.
Proof. unfold same_config. naive_solver congruence. Qed.

Lemma add_and_flush_ok msg op t w u t' w' :
  (_ ← wrap msg (batch_op_add op); flushIfNeeded) t w = (Ok u, t', w') →
  logical t' = apply_op (logical t) op ∧ same_config t t'.
Proof.
  intros (u0 & t0 & w1 & [Hl Hc]%wrap_ok%batch_op_add_ok & Hr)%bind_ok. rewrite -Hl.
  apply flushIfNeeded_ok in Hr as [-> Hc']. split; [done|]. by eapply same_config_trans.
Qed.

Lemma run_call_ok c t w u t' w' :
  run_call c t w = (Ok u, t', w') →
  logical t' = apply_ops (logical t) (call_ops (dw_scheme (tg_writer t)) c) ∧ same_config t t'.
Proof.
  assert (Hflat : ∀ (k v : bytes) msg t w u t' w',
    (w0 ← gets tg_writer; if bool_decide (dw_scheme w0 = HashScheme) then mret () else dw_put msg k v) t w = (Ok u, t', w') →
    logical t' = apply_ops (logical t) (flat_op (dw_scheme (tg_writer t)) (BPut k v)) ∧ same_config t t').
  { clear. intros k v msg t w u t' w' Hr. apply bind_ok in Hr as (w0 & t0 & w1 & (-> & -> & ->)%gets_ok & Hr). unfold flat_op. case_bool_decide; [minv; done|].
    by apply add_and_flush_ok in Hr. }
  assert (Hnode : ∀ o p h (f : bytes → batch_op) msg t w u t' w',
    (w0 ← gets tg_writer; key ← lift (trieNodeKey (dw_scheme w0) o p h); _ ← wrap msg (batch_op_add (f key)); flushIfNeeded) t w = (Ok u, t', w') →
    logical t' = apply_ops (logical t) (node_op (dw_scheme (tg_writer t)) o p h f) ∧ same_config t t').
  { clear. intros o p h f msg t w u t' w' Hr. apply bind_ok in Hr as (w0 & t0 & w1 & (-> & -> & ->)%gets_ok & Hr).
    apply bind_ok in Hr as (k & t0 & w1 & (Hk & -> & ->)%lift_ok & Hr). unfold node_op. rewrite Hk. by apply add_and_flush_ok in Hr. }
  destruct c; cbn [run_call call_ops].
  - unfold dw_Account. intros Hr. mstep Hr. minv. case_bool_decide as Hs.
    + minv. unfold flat_op. by rewrite bool_decide_eq_true_2.
    + by apply Hflat in Hr.
  - apply Hflat.
  - apply Hflat.
  - apply add_and_flush_ok.
  - apply (Hnode _ _ _ (λ k, BPut k blob)).
  - apply Hnode.
Qed.

Lemma run_calls_ok calls t t' :
  steps (λ c t t', ∃ w w', run_call c t w = (Ok (), t', w')) calls t t' →
  logical t' = apply_ops (logical t) (calls ≫= call_ops (dw_scheme (tg_writer t))) ∧ same_config t t'.
Proof.
  induction 1 as [t|c calls t t1 t2 (w & w' & Hr) _ [IHl IHc]]; [done|]. apply run_call_ok in Hr as [Hl Hc].
  split; [|by eapply same_config_trans]. rewrite bind_cons apply_ops_app -Hl IHl. destruct Hc as [-> _]. done.
Qed.

Lemma CloseContext_ok t w u t' w' :
  dw_closed (tg_writer t) = false → CloseContext t w = (Ok u, t', w') → tg_db t' = logical t.
Proof.
  intros Hc Hr. unfold CloseContext in Hr. minv. match goal with r : result () |- _ => destruct r; [|minv] end.
  match goal with Hx : poll _ _ = _ |- _ => apply poll_state in Hx; subst end.
  unfold dw_Close, batch_Write in Hr. mstep Hr. minv. rewrite Hc in Hr. minv. done.
Qed.

(** A deferred writer never touches the database before it is closed. *)
Definition deferred (db : store) t : Prop := tg_db t = db ∧ (dw_flushAt (tg_writer t) ≤ 0)%Z.

Lemma flushIfNeeded_deferred db : keeps (deferred db) flushIfNeeded.
Proof.
  intros t w [Hd Hf]. unfold flushIfNeeded, mbind, M_bind, gets. apply Z.leb_le in Hf as Hf'. rewrite Hf'. done.
Qed.

Lemma run_call_deferred db c : keeps (deferred db) (run_call c).
Proof.
  assert (Ha : ∀ op, keeps (deferred db) (batch_op_add op)).
  { intros op. unfold batch_op_add. apply keeps_bind; [auto with l2|]. intros _. by apply keeps_modify. }
  destruct c; cbn [run_call]; unfold dw_Account, dw_AccountFromBundle, writeFlatAccount, dw_Storage, dw_Code, dw_TrieNode, DeleteTrieNode, dw_put;
  repeat first [apply flushIfNeeded_deferred | apply keeps_wrap, Ha | apply keeps_gets | apply keeps_lift | apply keeps_ret
    | apply keeps_bind; [|intros ?] | case_bool_decide].
Qed.

End WriterLemmas.

(** ** Keys *)

Section KeyLemmas.
Context `{RawdbKeys, !RawdbKeysLaws}.

(** A single-byte prefix. *)
Lemma single_prefix (p : bytes) : length p = 1%nat → ∃ b, p = [b].
Proof. destruct p as [|b [|]]; try done. eauto. Qed.

(** Keys under different prefixes differ. *)
Lemma prefixes_apart (p q a b : bytes) : length p = 1%nat → length q = 1%nat → p ≠ q → p ++ a ≠ q ++ b.
Proof. intros [x ->]%single_prefix [y ->]%single_prefix Hne [= -> _]. done. Qed.

Lemma prefix_lengths :
  length CodePrefix = 1%nat ∧ length SnapshotAccountPrefix = 1%nat ∧ length SnapshotStoragePrefix = 1%nat ∧
  length TrieNodeAccountPrefix = 1%nat ∧ length TrieNodeStoragePrefix = 1%nat.
Proof. pose proof prefixes_single as Hp. rewrite !Forall_cons in Hp. naive_solver. Qed.

Lemma prefix_differ :
  CodePrefix ≠ SnapshotAccountPrefix ∧ CodePrefix ≠ SnapshotStoragePrefix ∧ CodePrefix ≠ TrieNodeAccountPrefix ∧
  CodePrefix ≠ TrieNodeStoragePrefix ∧ SnapshotAccountPrefix ≠ SnapshotStoragePrefix ∧
  SnapshotAccountPrefix ≠ TrieNodeAccountPrefix ∧ SnapshotAccountPrefix ≠ TrieNodeStoragePrefix ∧
  SnapshotStoragePrefix ≠ TrieNodeAccountPrefix ∧ SnapshotStoragePrefix ≠ TrieNodeStoragePrefix ∧
  TrieNodeAccountPrefix ≠ TrieNodeStoragePrefix.
Proof. pose proof prefixes_distinct as Hp. rewrite !NoDup_cons in Hp. set_solver. Qed.

(** Concatenated hashes are unambiguous. *)
Lemma hash_app_inj (h k : Hash) a b : hash_bytes h ++ a = hash_bytes k ++ b → h = k ∧ a = b.
Proof.
  intros He. apply app_inj_1 in He as [Hh Ht]; [|by rewrite !length_hash_bytes]. split; [by apply hash_bytes_inj|done].
Qed.

End KeyLemmas.

Lemma limit_loop_snoc l b :
  limit_loop (l ++ [b]) = match limit_loop l with Some r => Some (r ++ [b]) | None => limit_loop [b] end.
Proof. induction l as [|x l IH]; [done|]. cbn -[limit_loop] in *. cbn [limit_loop app]. destruct (negb _); [done|]. exact IH. Qed.

Lemma prefixLimit_cons b p :
  prefixLimit (b :: p) =
  match prefixLimit p with
  | Some l => Some (b :: l)
  | None => if negb (bool_decide (b = xff)) then Some [byte_of_N (byte_val b + 1)] else None
  end.
Proof.
  unfold prefixLimit. rewrite reverse_cons limit_loop_snoc. destruct (limit_loop (reverse p)) as [r|]; cbn.
  - by rewrite reverse_snoc.
  - by destruct (negb _).
Qed.

(** ** Theorems on the writer *)

Section WriterTheorems.
Context `{RawdbKeys, BatchSize, BatchValueSize, SlimRLP}.

(** C34: The flush limit of a writer is invisible in its result: for any limit
    and in any environment, if a sequence of calls and the final close all
    succeed, the database is the original one with the operations of the calls
    applied in order; when the batch happened to be flushed does not matter. *)
Theorem flush_limit_invisible db scheme flushAt calls t w t' w' :
  steps (λ c t t', ∃ w w', run_call c t w = (Ok (), t', w')) calls
    (MkTarget db (newDirectStateWriterWithFlushLimit scheme flushAt)) t →
  CloseContext t w = (Ok (), t', w') →
  tg_db t' = apply_ops db (calls ≫= call_ops scheme).
Proof.
  intros [Hl (_ & _ & Hc)]%run_calls_ok Hr. apply CloseContext_ok in Hr as ->; [|by rewrite Hc]. exact Hl.
Qed.

(** A deferred writer that is aborted leaves no trace: whatever calls were
    made and whether they succeeded or not, the database is untouched until the
    writer is closed; aborting it, or closing it after a cancellation, leaves
    the database as it was. *)
Theorem deferred_abort_clean db scheme calls t w r t' w' :
  steps (λ c t t', ∃ w r w', run_call c t w = (r, t', w')) calls
    (MkTarget db (newDeferredDirectStateWriter scheme)) t →
  (dw_Abort t w = (r, t', w') ∨ (CloseContext t w = (r, t', w') ∧ ctx_budget w = Some 0%nat)) →
  tg_db t = db ∧ tg_db t' = db.
Proof.
  intros Hs Hr. assert (Hd : deferred db t).
  { set (t0 := MkTarget db _) in Hs. assert (H0' : deferred db t0) by done. revert H0'. generalize t0, Hs. clear.
    induction 1 as [t|c calls t t1 t2 (w & r & w' & Hc) _ IH]; [done|]. intros Hd. apply IH.
    by apply (keeps_run _ _ _ _ _ _ _ (run_call_deferred db c) Hc). }
  assert (Ha : ∀ w, tg_db (dw_Abort t w).1.2 = db).
  { intros w0. unfold dw_Abort, mbind, M_bind, gets. destruct (dw_closed (tg_writer t)); apply Hd. }
  split; [apply Hd|]. destruct Hr as [Hr|[Hr Hb]].
  - specialize (Ha w). by rewrite Hr in Ha.
  - specialize (Ha w). unfold CloseContext, mbind at 1, M_bind at 1, attempt, poll in Hr. rewrite Hb in Hr.
    unfold mbind, M_bind in Hr. destruct (dw_Abort t w) as [[[[]|e] t1] w1]; by injection Hr as <- <- <-.
Qed.

(** [prefixLimit] bounds exactly the keys with the prefix: a key has the
    prefix if and only if it is not below the prefix and, when there is a
    limit, below the limit; there is no limit only if every byte of the prefix
    is 0xff. *)
Theorem prefix_limit_interval prefix key :
  has_prefix key prefix = true ↔
  ¬ bytes_lt key prefix ∧ match prefixLimit prefix with Some limit => bytes_lt key limit | None => True end.
Proof.
  revert key. induction prefix as [|b p IH]; intros key; [by destruct key|]. rewrite prefixLimit_cons.
  destruct key as [|x k]; [split; [done|]; intros [Hn _]; by destruct Hn|].
  cbn [has_prefix]. rewrite andb_true_iff bool_decide_eq_true IH bytes_lt_cons.
  pose proof (byte_val_lt x) as Hx. assert (Hv : byte_val x = byte_val b → x = b) by apply byte_val_inj.
  destruct (prefixLimit p) as [l|].
  - rewrite bytes_lt_cons. split; [intros [<- [? ?]]; split; [intros [?|[_ ?]]; [lia|done]|auto]|].
    intros [Hn [?|[-> ?]]]; [naive_solver|]. split; [done|]. naive_solver.
  - destruct (negb (bool_decide (b = xff))) eqn:Eb.
    + apply negb_true_iff, bool_decide_eq_false in Eb. pose proof (byte_val_lt b) as Hb.
      assert (Hs : byte_val (byte_of_N (byte_val b + 1)) = byte_val b + 1).
      { rewrite byte_val_of_N. apply N.mod_small. assert (byte_val b ≠ 255); [|lia].
        intros E. apply Eb. apply byte_val_inj. by rewrite E. }
      rewrite bytes_lt_cons Hs. split.
      * intros [<- [? _]]. split; [intros [?|[_ ?]]; [lia|done]|left; lia].
      * intros [Hn [?|[_ Hk]]]; [|by destruct k]. assert (x = b) as -> by (apply Hv; lia). naive_solver.
    + apply negb_false_iff, bool_decide_eq_true in Eb. subst b. change (byte_val xff) with 255 in *.
      split; [intros [<- [? _]]; split; [intros [Hlt|[_ ?]]; [by vm_compute in Hlt|done]|done]|].
      intros [Hn _]. assert (x = xff) as -> by (apply Hv; lia). naive_solver.
Qed.

End WriterTheorems.

(** ** What an import leaves in the database *)

(** The flat entries of a state. *)
Section FlatState.
Context `{RawdbKeys}.

Definition entry_flat (scheme : string) (e : entry) : list (bytes * bytes) :=
  (if bool_decide (scheme = HashScheme) then []
   else (keyBytes SnapshotAccountPrefix (hash_bytes (e_hash e)) [], e_slim e) ::
        map (λ kv, (keyBytes SnapshotStoragePrefix (hash_bytes (e_hash e)) (hash_bytes kv.1), kv.2)) (e_slots e)) ++
  match e_code e with Some code => [(keyBytes CodePrefix (hash_bytes (e_codeHash e)) [], code)] | None => [] end.
Definition flat_state (scheme : string) (es : list entry) : list (bytes * bytes) := es ≫= entry_flat scheme.

(** The keys of flat entries: in a path database everything below the three
    prefixes, in a hash database the code keys, which are one byte longer than
    the node keys. *)
Definition flat_key (scheme : string) (k : bytes) : bool :=
  if bool_decide (scheme = HashScheme) then has_prefix k CodePrefix && (length k =? S HashLength)%nat
  else has_prefix k SnapshotAccountPrefix || has_prefix k SnapshotStoragePrefix || has_prefix k CodePrefix.

Definition op_key (op : batch_op) : bytes := match op with BPut k _ | BDelete k => k end.

(** The call that an observation makes on the writer. *)
Definition event_call (ev : event) : dw_call :=
  match ev with
  | EvAccount h a full (Some slim) => CallAccountFromBundle h a full slim
  | EvAccount h a full None => CallAccount h a full
  | EvStorage a s v => CallStorage a s v
  | EvCode a h code => CallCode a h code
  | EvNode owner n => CallNode owner (node_path n) (node_hash n) (node_blob n)
  end.

(** The observations of an entry other than trie nodes. *)
Definition entry_events (e : entry) : list event :=
  EvAccount (e_hash e) (e_account e) (e_full e) (Some (e_slim e)) ::
  map (λ kv, EvStorage (e_hash e) kv.1 kv.2) (e_slots e) ++
  match e_code e with Some code => [EvCode (e_hash e) (e_codeHash e) code] | None => [] end.

End FlatState.

(** Lookups after puts. *)
Lemma apply_ops_filter (P : bytes → bool) db ops k :
  P k = true → apply_ops db (filter (λ op, P (op_key op) = true) ops) !! k = apply_ops db ops !! k.
Proof.
  intros Hk. assert (Hg : ∀ db db', db !! k = db' !! k →
    apply_ops db (filter (λ op, P (op_key op) = true) ops) !! k = apply_ops db' ops !! k); [|by apply Hg].
  induction ops as [|op ops IH]; intros d d' Hd; [done|]. rewrite filter_cons. cbn [apply_ops foldl] in *.
  case_decide as Hp.
  - apply IH. destruct op as [k' v|k']; cbn; destruct (decide (k = k')) as [->|]; by simplify_map_eq.
  - apply IH. rewrite Hd. destruct op as [k' v|k']; cbn in *; symmetry;
      (rewrite lookup_insert_ne // || rewrite lookup_delete_ne //); intros ->; congruence.
Qed.

Lemma apply_puts_lookup (l : list (bytes * bytes)) k v :
  (∀ v1 v2, (k, v1) ∈ l → (k, v2) ∈ l → v1 = v2) →
  apply_ops ∅ (map (λ kv, BPut kv.1 kv.2) l) !! k = Some v ↔ (k, v) ∈ l.
Proof.
  induction l as [|[k' v'] l IH] using rev_ind; intros Hf; [cbn; rewrite lookup_empty elem_of_nil; naive_solver|].
  rewrite map_app apply_ops_app. cbn. rewrite elem_of_app list_elem_of_singleton.
  assert (Hl : ∀ x, (k, x) ∈ l → (k, x) ∈ l ++ [(k', v')]) by (intros; apply elem_of_app; by left).
  destruct (decide (k' = k)) as [->|Hne].
  - rewrite lookup_insert_eq. split; [intros [= ->]; by right|]. intros [Hv|[= ->]]; [|done]. f_equal.
    apply Hf; [|by apply Hl]. apply elem_of_app. right. by left.
  - rewrite lookup_insert_ne // IH; [naive_solver|]. intros v1 v2 H1 H2. apply Hf; by apply Hl.
Qed.

Lemma filter_map_bind {A} (P : bytes → bool) (f : A → dw_call) (g : dw_call → list batch_op) l :
  filter (λ op, P (op_key op) = true) (map f l ≫= g) = l ≫= (λ x, filter (λ op, P (op_key op) = true) (g (f x))).
Proof. induction l as [|x l IH]; [done|]. cbn [map]. by rewrite !bind_cons filter_app IH. Qed.

Lemma list_bind_ext_elem {A B} (f g : A → list B) l : (∀ x, x ∈ l → f x = g x) → l ≫= f = l ≫= g.
Proof.
  induction l as [|x l IH]; intros Hf; [done|]. rewrite !bind_cons Hf; [|left]. f_equal. apply IH. intros y Hy. apply Hf. by right.
Qed.

Section ImportLemmas.
Context `{Keccak, EmptyHashes, AccountRLP, !AccountRLPLaws, RLPSplit, StackTrie}.
Context (trie_root : list (bytes * bytes) → Hash) `{!StackTrieLaws trie_root}.

(** Folding a trace with a function that ignores trie nodes. *)
Lemma node_events_bind {X} (g : event → list X) owner ns : (∀ o n, g (EvNode o n) = []) → node_events owner ns ≫= g = [].
Proof. intros Hg. induction ns as [|n ns IH]; [done|]. cbn. by rewrite Hg IH. Qed.

Lemma slots_trace_bind {X} (g : event → list X) h st slots st' ns :
  (∀ o n, g (EvNode o n) = []) → stack_feed st (slot_leaves slots) = Ok (st', ns) →
  slots_trace h st slots ≫= g = map (λ kv, EvStorage h kv.1 kv.2) slots ≫= g.
Proof.
  intros Hg. revert st ns. induction slots as [|[k v] slots IH]; intros st ns Hf; [done|].
  unfold slot_leaves in Hf. cbn [map stack_feed fst snd] in Hf. cbn [slots_trace].
  destruct (stack_update st (hash_bytes k) v) as [[st1 n1]|]; [|done]. simpl in Hf. fold (slot_leaves slots) in Hf.
  destruct (stack_feed st1 (slot_leaves slots)) as [[s3 n3]|] eqn:Ef; [|done]. injection Hf as -> _.
  rewrite !bind_app node_events_bind // (IH _ _ Ef). cbn. by rewrite app_nil_r.
Qed.

Lemma entries_trace_bind {X} (g : event → list X) known st es st' ns :
  (∀ o n, g (EvNode o n) = []) → entries_wf known es → values_nonempty es → stack_feed st (account_leaves es) = Ok (st', ns) →
  entries_trace st es ≫= g = (es ≫= entry_events) ≫= g.
Proof.
  intros Hg. revert known st ns. induction es as [|e es IH]; intros known st ns Hw Hv Hf; [done|].
  destruct Hw as [He Hes]. apply Forall_cons in Hv as [Hv Hvs].
  unfold account_leaves in Hf. cbn [map stack_feed] in Hf. cbn [entries_trace].
  destruct (stack_update st (hash_bytes (e_hash e)) (e_full e)) as [[st1 n1]|]; [|done]. simpl in Hf. fold (account_leaves es) in Hf.
  destruct (stack_feed st1 (account_leaves es)) as [[s3 n3]|] eqn:Ef; [|done]. injection Hf as -> _.
  destruct (stack_feed_ok _ (slot_leaves_ok _ (eo_sorted _ _ (ew_open _ _ He)) Hv)) as (st2 & n2 & Hf2).
  assert (Hcl : close_trace e ≫= g = []) by (unfold close_trace; destruct (e_slots e); [done|by apply node_events_bind]).
  rewrite bind_cons !bind_app (IH _ _ _ Hes Hvs Ef) node_events_bind // Hcl. f_equal.
  unfold open_trace, entry_events. rewrite !bind_cons !bind_app (slots_trace_bind _ _ _ _ _ _ Hg Hf2). done.
Qed.

Lemma state_trace_bind {X} (g : event → list X) es root :
  (∀ o n, g (EvNode o n) = []) → state_wf es root → values_nonempty es →
  state_trace es ≫= g = (es ≫= entry_events) ≫= g.
Proof.
  intros Hg [Hs Hw _] Hv. unfold state_trace. rewrite bind_app node_events_bind // app_nil_r.
  destruct (stack_feed_ok _ (account_leaves_ok _ _ Hs Hw)) as (st & ns & Hf). by eapply entries_trace_bind.
Qed.

Lemma entries_wf_elem known es e : entries_wf known es → e ∈ es → ∃ known', entry_wf known' e.
Proof.
  revert known. induction es as [|e' es IH]; intros known Hw He; [by apply elem_of_nil in He|].
  destruct Hw as [Hw Hws]. apply elem_of_cons in He as [->|He]; [eauto|]. by eapply IH.
Qed.

(** A code hash is provided by one entry only. *)
Lemma entries_code_fresh known es e code :
  entries_wf known es → e ∈ es → e_code e = Some code → e_codeHash e ∉ known.
Proof.
  revert known. induction es as [|e' es IH]; intros known Hw He Hc; [by apply elem_of_nil in He|].
  destruct Hw as [Hw Hws]. apply elem_of_cons in He as [->|He].
  - by apply (eo_code _ _ (ew_open _ _ Hw) code) in Hc as (_ & _ & ?).
  - specialize (IH _ Hws He Hc). rewrite elem_of_union in IH. tauto.
Qed.

Lemma entries_code_unique known es e1 e2 c1 c2 :
  entries_wf known es → e1 ∈ es → e2 ∈ es → e_code e1 = Some c1 → e_code e2 = Some c2 →
  e_codeHash e1 = e_codeHash e2 → c1 = c2.
Proof.
  revert known. induction es as [|e es IH]; intros known Hw0 H1' H2' Hc1 Hc2 Hh; [by apply elem_of_nil in H1'|].
  destruct Hw0 as [Hw Hws].
  assert (Hin : ∀ x c, e_code x = Some c → e_codeHash x ∈ entry_codes x) by (intros x c Hx; unfold entry_codes; rewrite Hx; by apply elem_of_singleton).
  apply elem_of_cons in H1' as [->|H1'], H2' as [->|H2'].
  - congruence.
  - destruct (entries_code_fresh _ _ _ _ Hws H2' Hc2). rewrite -Hh. apply elem_of_union_r, (Hin _ _ Hc1).
  - destruct (entries_code_fresh _ _ _ _ Hws H1' Hc1). rewrite Hh. apply elem_of_union_r, (Hin _ _ Hc2).
  - by eapply IH.
Qed.

End ImportLemmas.

Section ImportTheorem.
Context `{Keccak, EmptyHashes, AccountRLP, !AccountRLPLaws, RLPSplit, StackTrie, HeaderRLP, Zstd}.
Context `{RawdbKeys, !RawdbKeysLaws, BatchSize, BatchValueSize, SlimRLP}.
Context (trie_root : list (bytes * bytes) → Hash) `{!StackTrieLaws trie_root}.

Lemma observed_calls ev (t t' : target) :
  observed (Some directVisitor) (Some directSink) ev t t' → ∃ w w', run_call (event_call ev) t w = (Ok (), t', w').
Proof. intros (w & w' & Ho). exists w, w'. destruct ev as [h a full [slim|]|a s v|a h code|o n]; exact Ho. Qed.

Lemma observed_calls_all evs (t t' : target) :
  steps (observed (Some directVisitor) (Some directSink)) evs t t' →
  steps (λ c t t', ∃ w w', run_call c t w = (Ok (), t', w')) (map event_call evs) t t'.
Proof. induction 1; cbn; econstructor; eauto using observed_calls. Qed.

(** The flat operations of an observation; those on trie nodes have other keys. *)
Lemma node_op_not_flat scheme o p h f :
  scheme = HashScheme ∨ scheme = PathScheme → (∀ k, op_key (f k) = k) →
  filter (λ op, flat_key scheme (op_key op) = true) (node_op scheme o p h f) = [].
Proof.
  intros Hs Hf. destruct prefix_lengths as (Lc & La & Lo & LA & LO). destruct prefix_differ as (? & ? & ? & ? & ? & ? & ? & ? & ? & ?).
  assert (Hno : ∀ (q r rest : bytes), length q = 1%nat → length r = 1%nat → r ≠ q → has_prefix (q ++ rest) r = false).
  { intros q r rest Hq Hr Hne. apply not_true_iff_false. rewrite has_prefix_spec. intros [x Hx]. symmetry in Hx.
    by eapply prefixes_apart in Hx. }
  unfold node_op, trieNodeKey. destruct Hs as [->| ->].
  - rewrite bool_decide_eq_true_2 //. rewrite filter_cons_False // Hf. unfold flat_key, keyBytes. rewrite bool_decide_eq_true_2 //.
    rewrite app_nil_r. cbn [app]. rewrite length_hash_bytes andb_false_r. done.
  - rewrite bool_decide_eq_false_2 // bool_decide_eq_true_2 //. case_bool_decide; rewrite filter_cons_False // Hf; unfold flat_key, keyBytes;
      rewrite bool_decide_eq_false_2 // !Hno //; naive_solver.
Qed.

Lemma event_flat_ops scheme e ev :
  scheme = HashScheme ∨ scheme = PathScheme → ev ∈ entry_events e →
  filter (λ op, flat_key scheme (op_key op) = true) (call_ops scheme (event_call ev)) = call_ops scheme (event_call ev).
Proof.
  intros Hs Hev. destruct prefix_lengths as (Lc & La & Lo & LA & LO).
  assert (Hyes : ∀ q rest : bytes, has_prefix (q ++ rest) q = true) by (intros; apply has_prefix_spec; eauto).
  assert (Hone : ∀ op, flat_key scheme (op_key op) = true → filter (λ op, flat_key scheme (op_key op) = true) [op] = [op])
    by (intros op Hop; by rewrite filter_cons_True).
  assert (Hcode : ∀ (h : Hash) c, flat_key scheme (op_key (BPut (keyBytes CodePrefix (hash_bytes h) []) c)) = true).
  { intros h c. unfold flat_key, keyBytes. cbn [op_key]. rewrite Hyes app_nil_r length_app length_hash_bytes Lc orb_true_r. by case_bool_decide. }
  assert (Hflat : ∀ op, flat_key PathScheme (op_key op) = true → filter (λ op, flat_key scheme (op_key op) = true) (flat_op scheme op) = flat_op scheme op).
  { intros op Hop. unfold flat_op. destruct Hs as [->| ->]; [by rewrite bool_decide_eq_true_2|]. rewrite bool_decide_eq_false_2 //. by apply Hone. }
  unfold entry_events in Hev. rewrite elem_of_cons elem_of_app in Hev. destruct Hev as [->|[Hev|Hev]].
  - apply Hflat. unfold flat_key, keyBytes. cbn [op_key]. rewrite bool_decide_eq_false_2 // Hyes. done.
  - apply list_elem_of_fmap in Hev as ([s v] & -> & _). apply Hflat. unfold flat_key, keyBytes. cbn [op_key].
    rewrite bool_decide_eq_false_2 // Hyes orb_true_r. done.
  - destruct (e_code e); [|by apply elem_of_nil in Hev]. apply list_elem_of_singleton in Hev as ->. cbn [event_call call_ops]. by apply Hone.
Qed.

Lemma entry_events_flat scheme e :
  entry_events e ≫= (λ ev, call_ops scheme (event_call ev)) = map (λ kv, BPut kv.1 kv.2) (entry_flat scheme e).
Proof.
  unfold entry_events, entry_flat. rewrite bind_cons bind_app map_app. cbn [event_call call_ops].
  assert (Hsl : ∀ l, map (λ kv : Hash * bytes, EvStorage (e_hash e) kv.1 kv.2) l ≫= (λ ev, call_ops scheme (event_call ev)) =
    if bool_decide (scheme = HashScheme) then []
    else map (λ kv, BPut kv.1 kv.2) (map (λ kv, (keyBytes SnapshotStoragePrefix (hash_bytes (e_hash e)) (hash_bytes kv.1), kv.2)) l)).
  { induction l as [|kv l IH]; [by case_bool_decide|]. cbn [map]. rewrite bind_cons IH. cbn [event_call call_ops]. unfold flat_op. by case_bool_decide. }
  rewrite Hsl. unfold flat_op. case_bool_decide; destruct (e_code e); done.
Qed.

Lemma state_flat_ops scheme es :
  scheme = HashScheme ∨ scheme = PathScheme →
  (es ≫= entry_events) ≫= (λ ev, filter (λ op, flat_key scheme (op_key op) = true) (call_ops scheme (event_call ev))) =
  map (λ kv, BPut kv.1 kv.2) (flat_state scheme es).
Proof.
  intros Hs. unfold flat_state. induction es as [|e es IH]; [done|].
  rewrite (bind_cons entry_events) bind_app IH (bind_cons (entry_flat scheme)) map_app. f_equal.
  rewrite -entry_events_flat. apply list_bind_ext_elem. intros ev Hev. by apply (event_flat_ops _ e).
Qed.

Lemma entry_flat_cases scheme e k v :
  (k, v) ∈ entry_flat scheme e →
  (k = keyBytes SnapshotAccountPrefix (hash_bytes (e_hash e)) [] ∧ v = e_slim e) ∨
  (∃ s, k = keyBytes SnapshotStoragePrefix (hash_bytes (e_hash e)) (hash_bytes s) ∧ (s, v) ∈ e_slots e) ∨
  (k = keyBytes CodePrefix (hash_bytes (e_codeHash e)) [] ∧ e_code e = Some v).
Proof.
  unfold entry_flat. rewrite elem_of_app. intros [Hk|Hk].
  - case_bool_decide; [by apply elem_of_nil in Hk|]. apply elem_of_cons in Hk as [[= -> ->]|Hk]; [by left|].
    apply list_elem_of_fmap in Hk as ([s w] & [= -> ->] & Hw). right. left. eauto.
  - destruct (e_code e); [|by apply elem_of_nil in Hk]. apply list_elem_of_singleton in Hk as [= -> ->]. eauto.
Qed.

Lemma flat_state_functional scheme es root k v v' :
  state_wf es root → (k, v) ∈ flat_state scheme es → (k, v') ∈ flat_state scheme es → v = v'.
Proof.
  intros [Hs Hw _] H1' H2'. unfold flat_state in *.
  apply list_elem_of_bind in H1' as (e1 & Hk1 & He1), H2' as (e2 & Hk2 & He2).
  destruct prefix_lengths as (Lc & La & Lo & _ & _). destruct prefix_differ as (Hca & Hco & _ & _ & Hao & _).
  assert (Hirr : ∀ h, ¬ hash_lt h h) by (intros h; apply bytes_lt_irrefl).
  assert (Hsame : e_hash e1 = e_hash e2 → e1 = e2) by (by apply (StronglySorted_key_unique hash_lt e_hash es)).
  apply entry_flat_cases in Hk1 as [(-> & ->)|[(s & -> & Hv1)|(-> & Hc1)]], Hk2 as [(Hk & ->)|[(s' & Hk & Hv2)|(Hk & Hc2)]]; unfold keyBytes in Hk.
  all: try (exfalso; revert Hk; apply prefixes_apart; [assumption|assumption|congruence]).
  - apply app_inv_head, hash_app_inj in Hk as [Hh _]. by rewrite (Hsame Hh).
  - apply app_inv_head, hash_app_inj in Hk as [Hh Hsl]. apply hash_bytes_inj in Hsl as ->. destruct (Hsame Hh).
    destruct (entries_wf_elem _ _ _ Hw He1) as [known He].
    pose proof (StronglySorted_key_unique hash_lt fst (e_slots e1) _ _ Hirr (eo_sorted _ _ (ew_open _ _ He)) Hv1 Hv2 eq_refl) as [= ->]. done.
  - apply app_inv_head, hash_app_inj in Hk as [Hh _]. by eapply (entries_code_unique ∅ es e1 e2).
Qed.

(** The writer when a scan has succeeded: once its batch is written, the
    database holds the bundle's flat state. *)
Lemma scanned_flat scheme before opened dir dir' m mb reloaded borrow w res t w' :
  scheme = HashScheme ∨ scheme = PathScheme →
  scanBundle before opened dir dir' (Ok (m, mb)) reloaded (Some directVisitor) (Some directSink) borrow
    (MkTarget ∅ (newDirectStateWriter scheme)) w = (Ok res, t, w') →
  (∀ node, dir !! Name (mStateFile m) = Some node → N.of_nat (length (r_data (stream_of m node))) < two64) →
  ∃ es, state_wf es (StateRoot (HeadBefore (Source m))) ∧ values_nonempty es ∧ state_counts es = mCounts m ∧ br_Manifest res = m ∧
    br_State res = MkStateResult (StateRoot (HeadBefore (Source m))) (mCounts m) ∧ dw_closed (tg_writer t) = false ∧
    ∀ k v, flat_key scheme k = true → (logical t !! k = Some v ↔ (k, v) ∈ flat_state scheme es).
Proof.
  intros Hs Hscan Hb.
  destruct (scanBundle_accepted _ _ _ _ _ _ _ _ _ _ _ _ _ _ _ Hscan Hb) as (node & es & _ & _ & Hwf & Hv & Hst & Hcnt & Hm & Hsteps).
  apply observed_calls_all, run_calls_ok in Hsteps as [Hl (_ & _ & Hopen)].
  exists es. split_and!; try done. rewrite Hl. intros k v Hk.
  change (logical (MkTarget ∅ (newDirectStateWriter scheme))) with (∅ : store).
  change (dw_scheme (tg_writer (MkTarget ∅ (newDirectStateWriter scheme)))) with scheme.
  rewrite -(apply_ops_filter (flat_key scheme)) // filter_map_bind.
  rewrite (state_trace_bind trie_root _ es _ (λ o n, node_op_not_flat scheme o (node_path n) (node_hash n) (λ k, BPut k (node_blob n)) Hs (λ k, eq_refl)) Hwf Hv).
  rewrite (state_flat_ops _ es Hs). apply apply_puts_lookup. intros v1 v2. by apply (flat_state_functional _ _ _ _ _ _ Hwf).
Qed.

(** Importing a bundle into an empty database leaves exactly its flat state
    there: if the scan with the direct writer as visitor and node sink succeeds
    and the final flush does, then the bundle is the serialization of a
    well-formed state with the manifest's root, and at the keys of flat entries
    (accounts, slots and codes in a path database, codes in a hash database) the
    database holds the entries of that state and nothing else; trie nodes are
    stored under other keys. *)
Theorem import_flat_state scheme before opened dir dir' m mb reloaded borrow w res t w' w1 t' w2 :
  scheme = HashScheme ∨ scheme = PathScheme →
  scanBundle before opened dir dir' (Ok (m, mb)) reloaded (Some directVisitor) (Some directSink) borrow
    (MkTarget ∅ (newDirectStateWriter scheme)) w = (Ok res, t, w') →
  (∀ node, dir !! Name (mStateFile m) = Some node → N.of_nat (length (r_data (stream_of m node))) < two64) →
  CloseContext t w1 = (Ok (), t', w2) →
  ∃ es, state_wf es (StateRoot (HeadBefore (Source m))) ∧ StateRoot (HeadBefore (Source m)) = trie_root (account_leaves es) ∧
    state_counts es = mCounts m ∧
    ∀ k v, flat_key scheme k = true → (tg_db t' !! k = Some v ↔ (k, v) ∈ flat_state scheme es).
Proof.
  intros Hs Hscan Hb Hcl.
  destruct (scanned_flat _ _ _ _ _ _ _ _ _ _ _ _ _ Hs Hscan Hb) as (es & Hwf & Hv & Hcnt & _ & _ & Hopen & Hflat).
  apply CloseContext_ok in Hcl as ->; [|done].
  exists es. split; [done|]. split; [by apply (state_wf_roots trie_root es)|]. done.
Qed.

End ImportTheorem.

(** ** A sample target *)

Module SampleTarget.
Import Sample SampleChain.

Definition toy_value_size : BatchValueSize :=
  {| ValueSize ops := foldr (λ op n, match op with BPut k v => Z.of_nat (length k + length v) | BDelete k => Z.of_nat (length k) end + n)%Z 0%Z ops |}.
Definition toy_slim : SlimRLP :=
  {| SlimAccountRLP a := match EncodeAccount (Some a) with Ok d => d | Err _ => [] end |}.
#[export] Existing Instances toy_value_size toy_slim.

#[export] Instance toy_slim_laws : SlimRLPLaws.
Proof. split. intros a d Hd. cbn [SlimAccountRLP toy_slim]. by rewrite Hd. Qed.

Definition calls : list dw_call :=
  [CallAccount (hash_of "account-1") plain []; CallStorage (hash_of "account-1") (hash_of "slot-1") [x05];
   CallNode zero_hash [x01] (hash_of "node") [x09]; CallDelete zero_hash [x01] (hash_of "node")].

Definition step_call (t : target) (c : dw_call) : target := (run_call c t calm).1.2.
Fixpoint all_ok (t : target) (cs : list dw_call) : bool :=
  match cs with [] => true | c :: cs' => is_ok (run_call c t calm).1.1 && all_ok (step_call t c) cs' end.
Definition start (flushAt : Z) : target := MkTarget ∅ (newDirectStateWriterWithFlushLimit PathScheme flushAt).
Definition final (flushAt : Z) : target := foldl step_call (start flushAt) calls.

Lemma all_ok_steps cs t :
  all_ok t cs = true → steps (λ c t t', ∃ w w', run_call c t w = (Ok (), t', w')) cs t (foldl step_call t cs).
Proof.
  revert t. induction cs as [|c cs IH]; intros t; cbn; [constructor|]. rewrite andb_true_iff. intros [Hc Hcs].
  econstructor; [|by apply IH]. exists calm, (run_call c t calm).2. unfold step_call.
  destruct (run_call c t calm) as [[[[]|e] t'] w']; done.
Qed.

Definition imported : result BundleResult * target * world :=
  scanBundle (Ok dir_info) (Ok dir_info) exported_dir exported_dir (Ok (exported.1, [])) (Ok (exported.1, []))
    (Some directVisitor) (Some directSink) true (MkTarget ∅ (newDirectStateWriter PathScheme)) calm.

End SampleTarget.

Module DirectWitnesses.
Import Sample SampleChain SampleTarget ExportWitnesses.

Lemma closed_run t :
  is_ok (CloseContext t calm).1.1 = true → CloseContext t calm = (Ok (), (CloseContext t calm).1.2, (CloseContext t calm).2).
Proof. destruct (CloseContext t calm) as [[[[]|e] t'] w]; done. Qed.

Lemma flush_limit_invisible_witness :
  tg_db (CloseContext (final 1) calm).1.2 = tg_db (CloseContext (final 100000) calm).1.2.
Proof.
  etransitivity; [|symmetry].
  - apply (flush_limit_invisible ∅ PathScheme 1 calls (final 1) calm (CloseContext (final 1) calm).1.2 (CloseContext (final 1) calm).2); [|apply closed_run; by vm_compute].
    apply (all_ok_steps calls (start 1)). by vm_compute.
  - apply (flush_limit_invisible ∅ PathScheme 100000 calls (final 100000) calm (CloseContext (final 100000) calm).1.2 (CloseContext (final 100000) calm).2); [|apply closed_run; by vm_compute].
    apply (all_ok_steps calls (start 100000)). by vm_compute.
Defined.

Lemma deferred_abort_clean_witness : tg_db (dw_Abort (final 0) calm).1.2 = ∅.
Proof.
  apply (deferred_abort_clean ∅ PathScheme calls (final 0) calm (Ok ()) _ calm); [|left; by vm_compute].
  assert (Hs : steps (λ c t t', ∃ w w', run_call c t w = (Ok (), t', w')) calls (start 0) (final 0))
    by (apply all_ok_steps; by vm_compute).
  revert Hs. generalize (final 0), calls. change (MkTarget ∅ (newDeferredDirectStateWriter PathScheme)) with (start 0). generalize (start 0).
  induction 1 as [|c cs t1 t2 t3 (w & w' & Hc)]; econstructor; eauto.
Defined.

Lemma import_flat_state_witness :
  ∃ es, state_root = toy_root (account_leaves es) ∧
    ∀ k v, flat_key PathScheme k = true →
      (tg_db (CloseContext imported.1.2 calm).1.2 !! k = Some v ↔ (k, v) ∈ flat_state PathScheme es).
Proof.
  destruct (import_flat_state toy_root PathScheme (Ok dir_info) (Ok dir_info) exported_dir exported_dir exported.1 []
    (Ok (exported.1, [])) true calm exported_scan imported.1.2 calm calm (CloseContext imported.1.2 calm).1.2 (CloseContext imported.1.2 calm).2) as (es & _ & Hr & _ & Hk).
  - by right.
  - by vm_compute.
  - exact exported_small.
  - apply closed_run. by vm_compute.
  - exists es. rewrite exported_root in Hr. split; [exact Hr|exact Hk].
Defined.

End DirectWitnesses.
