(* ===== verification/OvmIndex.v ===== *)
(** * The OVM evidence index ([ovm_input.go], [ovm_storage_cursor.go], [ovm_retention.go])

    The balance conversion keeps its evidence in a temporary key-value
    database, written through a batch: which storage slot belongs to which
    address ([b]), to which allowance ([a]) or to metadata ([k]), which
    contracts transferred tokens ([f]) or were listed by the operator ([R]),
    and the patches for the account trie ([p]) and the token's storage trie
    ([s]). A database iterator is the sorted list of the entries it ranges
    over.

    The main theorem is about [ovmStorageCursor], which answers increasing
    lookups with one moving iterator that re-seeks after eight steps: it is
    equivalent to looking every key up. *)

From S2P Require Import Prelude Geth Instances Manifest StrictIO Records Scanner Bundle Account StateTrie Consumer Stream Traverse AtomicDir Export DirectWriter.

(** ** Iterators *)

Definition bytes_le (a b : bytes) : Prop := ¬ bytes_lt b a.
#[export] Instance bytes_le_dec a b : Decision (bytes_le a b).
Proof. unfold bytes_le. apply _. Defined.

Definition key_le (x y : bytes * bytes) : Prop := bytes_le x.1 y.1.
#[export] Instance key_le_dec x y : Decision (key_le x y).
Proof. unfold key_le. apply _. Defined.

(** [db.NewIterator(prefix, start)]: the entries with the prefix, from
    [prefix ++ start] on, in key order. *)
Definition db_iterate (db : store) (prefix start : bytes) : list (bytes * bytes) :=
  filter (λ kv, has_prefix kv.1 prefix = true ∧ bytes_le (prefix ++ start) kv.1)
    (merge_sort key_le (map_to_list db)).

(** ** Addresses and slots *)

Abbreviation Address := (vec byte 20).

Definition AddressLength : nat := 20.

(** [common.LeftPadBytes(b, 32)]. *)
Definition left_pad32 (b : bytes) : bytes := replicate (32 - length b) x00 ++ b.

(** The fixed address [0xDeadDeAddeAddEAddeadDEaDDEAdDeaDDeAD0000]. *)
Definition ovmETHAddress : Address :=
  vec_of_bytes 20 (mjoin (replicate 9 [xde; xad]) ++ [x00; x00]).

Section Slots.
Context `{Keccak}.

Definition ovmBalanceSlot (address : Address) : Hash :=
  keccak256 (left_pad32 (hash_bytes address) ++ replicate 32 x00).
Definition ovmStorageHash (slot : Hash) : Hash := keccak256 (hash_bytes slot).
Definition allowanceSlot (owner spender : Address) : Hash :=
  let inner := keccak256 (left_pad32 (hash_bytes owner) ++ left_pad32 [x01]) in
  keccak256 (left_pad32 (hash_bytes spender) ++ hash_bytes inner).

End Slots.

(** ** The index *)

Record ovmIndex := MkOvmIndex { ix_db : store; ix_batch : list batch_op }.

Definition newOVMIndex (db : store) : ovmIndex := MkOvmIndex db [].

(** Its content once the batch is written. *)
Definition ix_view (i : ovmIndex) : store := apply_ops (ix_db i) (ix_batch i).

(** The addresses of the retain list written since the last flush. *)
Abbreviation pendingSet := (gset Address).

Section Index.
Context `{Keccak, BatchSize, BatchValueSize}.

Definition index_flush : M ovmIndex unit :=
  _ ← wrap "flush OVM evidence index" io;
  modify (λ i, MkOvmIndex (ix_view i) []).

(** [index.batch.Put]. *)
Definition index_add (prefix : byte) (key value : bytes) : M ovmIndex unit :=
  _ ← io;
  modify (λ i, MkOvmIndex (ix_db i) (ix_batch i ++ [BPut (prefixedKey [prefix] key) value])).

Definition index_full (i : ovmIndex) : bool := (Z.of_N IdealBatchSize <=? ValueSize (ix_batch i))%Z.

Definition index_put (prefix : byte) (key value : bytes) : M ovmIndex unit :=
  _ ← index_add prefix key value;
  i ← get;
  if index_full i then index_flush else mret ().

(** A lookup in the written part. *)
Definition index_get (prefix : byte) (key : bytes) : M ovmIndex (option bytes) :=
  _ ← io;
  i ← get;
  mret (ix_db i !! prefixedKey [prefix] key).

Definition prefix_b : byte := x62.
Definition prefix_a : byte := x61.
Definition prefix_k : byte := x6b.
Definition prefix_f : byte := x66.
Definition prefix_p : byte := x70.
Definition prefix_s : byte := x73.
Definition prefix_q : byte := x71.
Definition ovmERC20RetainPrefix : byte := x52.

Definition index_address (address : Address) : M ovmIndex unit :=
  index_put prefix_b (hash_bytes (ovmStorageHash (ovmBalanceSlot address))) (hash_bytes address).

Definition index_allowance (owner spender : Address) : M ovmIndex unit :=
  _ ← index_address owner;
  _ ← index_address spender;
  index_put prefix_a (hash_bytes (ovmStorageHash (allowanceSlot owner spender))) (hash_bytes owner ++ hash_bytes spender).

Record ovmWitnessRecord := MkWitness {
  w_Type : string;
  w_Address : option Address;
  w_Owner : option Address;
  w_Spender : option Address
}.

Definition addWitness (r : ovmWitnessRecord) : M ovmIndex unit :=
  if bool_decide (w_Type r = "address"%string) then
    match w_Address r, w_Owner r, w_Spender r with
    | Some a, None, None => index_address a
    | _, _, _ => fail (EMsg "address record requires only type and address")
    end
  else if bool_decide (w_Type r = "allowance"%string) then
    match w_Address r, w_Owner r, w_Spender r with
    | None, Some owner, Some spender => index_allowance owner spender
    | _, _, _ => fail (EMsg "allowance record requires only type, owner and spender")
    end
  else fail (EMsg "unknown OVM witness type").

(** One record of the legacy preimage table: the key without its prefix. *)
Definition collect_preimage (key value : bytes) : M ovmIndex unit :=
  _ ← lift (reject_if (negb (length key =? 32)%nat || negb (bytes_equal (hash_bytes (keccak256 value)) key)) "invalid legacy preimage hash");
  if (length value =? AddressLength)%nat then index_address (vec_of_bytes 20 value) else mret ().

Definition collectOVMPreimages (db : store) : M ovmIndex unit :=
  let prefix := bytes_of_string "secure-key-" in
  _ ← poll;
  _ ← for_each (db_iterate db prefix []) (λ kv, _ ← poll; collect_preimage (drop (length prefix) kv.1) kv.2);
  _ ← poll;
  _ ← wrap "read legacy preimages" io;
  _ ← poll;
  index_flush.

(** ** The retain list *)

Definition addOVMRetainAddress (pending : pendingSet) (address : Address) : M ovmIndex pendingSet :=
  if bool_decide (address ∈ pending) then fail (EMsg "duplicate ERC20 retain address") else
  exists_ ← index_get ovmERC20RetainPrefix (hash_bytes address);
  match exists_ with
  | Some _ => fail (EMsg "duplicate ERC20 retain address")
  | None =>
      _ ← index_add ovmERC20RetainPrefix (hash_bytes address) [x01];
      _ ← index_add prefix_b (hash_bytes (ovmStorageHash (ovmBalanceSlot address))) (hash_bytes address);
      i ← get;
      if index_full i then (_ ← index_flush; mret ∅) else mret ({[address]} ∪ pending)
  end.

(** [parseOVMRetainAddress] after [UnmarshalText], which is a parameter. *)
Definition parseOVMRetainAddress (unmarshal : string → result Address) (text : string) : result Address :=
  _ ← reject_if (negb (String.length text =? 42)%nat || negb (String.prefix "0x" text)) "expected one 0x-prefixed 20-byte address";
  address ← unmarshal text;
  _ ← reject_if (bool_decide (address = ovmETHAddress)) "OVM_ETH must not appear in the ERC20 retain list";
  Ok address.

(** The scan over the lines, trimmed. *)
Fixpoint retain_lines (unmarshal : string → result Address) (lines : list string) (pending : pendingSet) : M ovmIndex unit :=
  match lines with
  | [] => mret ()
  | line :: lines' =>
      _ ← poll;
      address ← lift (wrap_err "OVM ERC20 retain list line" (parseOVMRetainAddress unmarshal line));
      pending ← wrap "OVM ERC20 retain list line" (addOVMRetainAddress pending address);
      retain_lines unmarshal lines' pending
  end.

Definition readOVMERC20RetainList (unmarshal : string → result Address) (lines : list string) : M ovmIndex unit :=
  _ ← retain_lines unmarshal lines ∅;
  _ ← wrap "read OVM ERC20 retain list" io;
  _ ← poll;
  index_flush.

End Index.

(** ** The storage cursor *)

Definition ovmEvidenceCursorSteps : nat := 8.

(** The iterator is the list from the current entry on; [valid] means that it
    is not exhausted. *)
Record ovmStorageCursor := MkCursor { c_prefix : byte; c_it : option (list (bytes * bytes)) }.

Definition cursor_seek (db : store) (key : bytes) (c : ovmStorageCursor) : ovmStorageCursor :=
  MkCursor (c_prefix c) (Some (db_iterate db [c_prefix c] key)).

(** The loop of [get]: [n] is how many steps are left. *)
Fixpoint cursor_advance (db : store) (n : nat) (key : bytes) (l : list (bytes * bytes)) {struct l} : M ovmStorageCursor unit :=
  match l with
  | [] => modify (λ c, MkCursor (c_prefix c) (Some l))
  | (k, v) :: l' =>
      if bool_decide (bytes_lt (drop 1 k) key) then
        _ ← poll;
        match n with
        | O => modify (cursor_seek db key)
        | S n' => _ ← modify (λ c, MkCursor (c_prefix c) (Some l')); cursor_advance db n' key l'
        end
      else modify (λ c, MkCursor (c_prefix c) (Some l))
  end.

Definition cursor_get (db : store) (key : bytes) : M ovmStorageCursor (option bytes) :=
  _ ← poll;
  c ← get;
  _ ← match c_it c with None => modify (cursor_seek db key) | Some _ => mret () end;
  c ← get;
  _ ← cursor_advance db ovmEvidenceCursorSteps key (default [] (c_it c));
  _ ← wrap "iterate OVM evidence" io;
  c ← get;
  match default [] (c_it c) with
  | (k, v) :: _ => mret (if bytes_equal (drop 1 k) key then Some v else None)
  | [] => mret None
  end.

(** Increasing lookups with one cursor. *)
Fixpoint cursor_gets (db : store) (keys : list bytes) : M ovmStorageCursor (list (option bytes)) :=
  match keys with
  | [] => mret []
  | key :: keys' => v ← cursor_get db key; vs ← cursor_gets db keys'; mret (v :: vs)
  end.

(** ** Lemmas on iterators *)

#[export] Instance bytes_le_trans : Transitive bytes_le.
Proof.
  intros a b c Hab Hbc Hca. destruct (bytes_lt_trichotomy a b) as [Hl|[->|Hl]]; [|done|done].
  apply Hbc. by transitivity a.
Qed.

#[export] Instance key_le_trans : Transitive key_le.
Proof. intros x y z. apply bytes_le_trans. Qed.
#[export] Instance key_le_total : Total key_le.
Proof.
  intros x y. unfold key_le, bytes_le. destruct (bytes_lt_trichotomy x.1 y.1) as [Hl|[->|Hl]].
  - left. intros Hr. apply (bytes_lt_irrefl x.1). by transitivity y.1.
  - left. apply bytes_lt_irrefl.
  - right. intros Hr. apply (bytes_lt_irrefl x.1). by transitivity y.1.
Qed.

Lemma bytes_le_refl a : bytes_le a a.
Proof. apply bytes_lt_irrefl. Qed.

Lemma bytes_lt_le a b : bytes_lt a b → bytes_le a b.
Proof. intros Hl Hr. apply (bytes_lt_irrefl a). by transitivity b. Qed.

Lemma bytes_le_lt_or_eq a b : bytes_le a b → bytes_lt a b ∨ a = b.
Proof. intros Hl. destruct (bytes_lt_trichotomy a b) as [|[|]]; [auto..|done]. Qed.

Lemma bytes_lt_le_trans a b c : bytes_lt a b → bytes_le b c → bytes_lt a c.
Proof. intros Hab [Hbc| ->]%bytes_le_lt_or_eq; [by transitivity b|done]. Qed.

Lemma StronglySorted_filter {A} (R : relation A) (P : A → Prop) `{∀ x, Decision (P x)} l :
  StronglySorted R l → StronglySorted R (filter P l).
Proof.
  induction 1 as [|x l Hs IH Hf]; [constructor|]. rewrite filter_cons. case_decide; [|done].
  constructor; [done|]. rewrite Forall_forall in Hf. apply Forall_forall. intros y [_ Hy]%list_elem_of_filter. by apply Hf.
Qed.

(** Entries in key order with different keys are in strict key order. *)
Lemma key_le_strict l : StronglySorted key_le l → NoDup l.*1 → StronglySorted bytes_lt l.*1.
Proof.
  induction 1 as [|x l Hs IH Hf]; cbn; intros Hn; [constructor|]. apply NoDup_cons in Hn as [Hx Hn].
  constructor; [by apply IH|]. rewrite Forall_forall in Hf. apply Forall_forall. intros k Hk.
  apply list_elem_of_fmap in Hk as (y & -> & Hy). specialize (Hf y Hy). apply bytes_le_lt_or_eq in Hf as [|He]; [done|].
  destruct Hx. rewrite He. by apply list_elem_of_fmap_2.
Qed.

Lemma db_iterate_elem db prefix start k v :
  (k, v) ∈ db_iterate db prefix start ↔ db !! k = Some v ∧ has_prefix k prefix = true ∧ bytes_le (prefix ++ start) k.
Proof.
  unfold db_iterate. rewrite list_elem_of_filter merge_sort_Permutation elem_of_map_to_list. naive_solver.
Qed.

Lemma db_iterate_sorted db prefix start : StronglySorted bytes_lt (db_iterate db prefix start).*1.
Proof.
  unfold db_iterate. apply key_le_strict.
  - apply StronglySorted_filter, StronglySorted_merge_sort; apply _.
  - eapply sublist_NoDup; [|apply fmap_sublist, sublist_filter]. rewrite merge_sort_Permutation. apply NoDup_fst_map_to_list.
Qed.

(** ** The cursor answers lookups *)

(** [l] is a strictly sorted part of the namespace [p] that holds everything
    from [bound] on. *)
Record covers (db : store) (p : byte) (bound : bytes) (l : list (bytes * bytes)) : Prop := {
  cov_sorted : StronglySorted bytes_lt l.*1;
  cov_sound k v : (k, v) ∈ l → db !! k = Some v ∧ ∃ rest, k = p :: rest;
  cov_complete key v : db !! (p :: key) = Some v → bytes_le bound key → (p :: key, v) ∈ l
}.

Lemma bytes_le_cons p a b : bytes_le (p :: a) (p :: b) ↔ bytes_le a b.
Proof. unfold bytes_le. rewrite bytes_lt_cons. split; [naive_solver|]. intros Hn [?|[_ ?]]; [lia|done]. Qed.

Lemma seek_covers db p key : covers db p key (db_iterate db [p] key).
Proof.
  split; [apply db_iterate_sorted| |].
  - intros k v (Hk & Hp & _)%db_iterate_elem. split; [done|]. apply has_prefix_spec in Hp as [rest ->]. eauto.
  - intros k v Hk Hl. apply db_iterate_elem. split; [done|]. split; [by apply has_prefix_spec; exists k|]. by apply bytes_le_cons.
Qed.

Lemma covers_mono db p b b' l : bytes_le b b' → covers db p b l → covers db p b' l.
Proof. intros Hb [H1 H2 H3]. split; [done..|]. intros key v Hk Hl. apply H3; [done|]. by transitivity b'. Qed.

(** Dropping an entry below the bound. *)
Lemma covers_tail db p b k v l : covers db p b ((k, v) :: l) → bytes_lt (drop 1 k) b → covers db p b l.
Proof.
  intros [H1 H2 H3] Hk. cbn in H1. apply StronglySorted_inv in H1 as [H1 _]. split; [done| |].
  - intros k' v' Hin. apply H2. by right.
  - intros key v' Hl Hb. pose proof (H3 _ _ Hl Hb) as Hin. apply elem_of_cons in Hin as [[= <- <-]|]; [|done]. done.
Qed.

(** The state of a cursor after a lookup of [key]. *)
Definition cursor_at (db : store) (p : byte) (key : bytes) (c : ovmStorageCursor) : Prop :=
  c_prefix c = p ∧ match c_it c with None => True | Some l => covers db p key l end.

(** Positioned at the first entry not below [key]. *)
Definition positioned (key : bytes) (l : list (bytes * bytes)) : Prop :=
  match l with [] => True | (k, _) :: _ => bytes_le key (drop 1 k) end.

Lemma seek_positioned db p key : positioned key (db_iterate db [p] key).
Proof.
  unfold positioned. destruct (db_iterate db [p] key) as [|[k v] l] eqn:E; [done|].
  assert (Hin : (k, v) ∈ db_iterate db [p] key) by (rewrite E; left).
  apply db_iterate_elem in Hin as (_ & Hp & Hl). apply has_prefix_spec in Hp as [rest ->]. by apply bytes_le_cons in Hl.
Qed.

Lemma cursor_advance_ok db p n key l c w u c' w' :
  c_prefix c = p → covers db p key l → cursor_advance db n key l c w = (Ok u, c', w') →
  ∃ l', c' = MkCursor p (Some l') ∧ covers db p key l' ∧ positioned key l'.
Proof.
  revert n c w. induction l as [|[k v] l IH]; intros n c w Hp Hc Hr; cbn [cursor_advance] in Hr.
  - minv. by exists [].
  - case_bool_decide as Hk.
    + apply bind_ok in Hr as (u0 & c0 & w0 & ->%poll_ok & Hr). destruct n as [|n].
      * minv. unfold cursor_seek. eexists. split; [done|]. split; [apply seek_covers|apply seek_positioned].
      * apply bind_ok in Hr as (u1 & c1 & w1 & [-> ->]%modify_ok & Hr). eapply IH; [| |exact Hr]; [done|].
        by eapply covers_tail.
    + minv. by exists ((k, v) :: l).
Qed.

Lemma covers_lookup db p key l :
  covers db p key l → positioned key l →
  match l with (k, v) :: _ => if bytes_equal (drop 1 k) key then Some v else None | [] => None end = db !! (p :: key).
Proof.
  intros Hc Hp. destruct (db !! (p :: key)) as [v0|] eqn:Ed.
  - apply (cov_complete _ _ _ _ Hc) in Ed; [|apply bytes_le_refl]. destruct l as [|[k v] l]; [by apply elem_of_nil in Ed|].
    destruct (cov_sound _ _ _ _ Hc k v) as [Hk [rest ->]]; [left|]. cbn in Hp |- *. rewrite drop_0 in Hp |- *.
    apply elem_of_cons in Ed as [[= <- <-]|Hin]; [by rewrite (proj2 (bytes_equal_spec _ _))|].
    pose proof (cov_sorted _ _ _ _ Hc) as Hs. cbn in Hs. apply StronglySorted_inv in Hs as [_ Hs]. rewrite Forall_forall in Hs.
    specialize (Hs (p :: key)). rewrite bytes_lt_cons in Hs. destruct Hs as [?|[_ Hlt]]; [|lia|].
    { by apply (list_elem_of_fmap_2 fst) in Hin. } by destruct (Hp Hlt).
  - destruct l as [|[k v] l]; [done|]. destruct (cov_sound _ _ _ _ Hc k v) as [Hk [rest ->]]; [left|]. cbn. rewrite drop_0.
    destruct (bytes_equal rest key) eqn:Eb; [|done]. apply bytes_equal_spec in Eb as ->. congruence.
Qed.

Lemma cursor_get_ok db p last key c w r c' w' :
  cursor_at db p last c → bytes_le last key → cursor_get db key c w = (Ok r, c', w') →
  r = db !! (p :: key) ∧ cursor_at db p key c'.
Proof.
  intros [Hp Hc] Hl Hr. unfold cursor_get in Hr.
  apply bind_ok in Hr as (u0 & c0 & w0 & ->%poll_ok & Hr). apply bind_ok in Hr as (c0 & c1 & w1 & (-> & -> & ->)%get_ok & Hr).
  apply bind_ok in Hr as (u1 & c1 & w1 & Hseek & Hr). apply bind_ok in Hr as (c2 & c3 & w2 & (-> & -> & ->)%get_ok & Hr).
  assert (∃ l, c1 = MkCursor p (Some l) ∧ covers db p key l) as (l & -> & Hcov).
  { destruct c as [p' [l|]]; cbn in *; subst p'; minv; eexists; (split; [done|]).
    - by eapply covers_mono.
    - apply seek_covers. }
  apply bind_ok in Hr as (u2 & c2 & w3 & Hadv & Hr). apply cursor_advance_ok with (p := p) in Hadv as (l' & -> & Hcov' & Hpos); [|done|done].
  apply bind_ok in Hr as (u3 & c3 & w4 & ->%wrap_ok%io_ok & Hr). apply bind_ok in Hr as (c4 & c5 & w5 & (-> & -> & ->)%get_ok & Hr).
  cbn [c_it default from_option] in Hr. rewrite -(covers_lookup db p key l') //.
  unfold id in Hr. destruct l' as [|[k v] l']; minv; by split.
Qed.

Section CursorTheorem.

(** C30: The evidence cursor is equivalent to single lookups: for every strictly
    increasing sequence of keys, one cursor that moves forward and re-seeks
    after eight steps returns, in any environment, exactly what looking up
    every key of its namespace returns. *)
Theorem cursor_equals_lookup db p keys w rs c' w' :
  StronglySorted bytes_lt keys → cursor_gets db keys (MkCursor p None) w = (Ok rs, c', w') →
  rs = map (λ key, db !! prefixedKey [p] key) keys.
Proof.
  intros Hs. assert (Hg : ∀ c w last, cursor_at db p last c → Forall (bytes_le last) keys →
    cursor_gets db keys c w = (Ok rs, c', w') → rs = map (λ key, db !! prefixedKey [p] key) keys).
  { revert rs. induction Hs as [|key keys Hs IH Hf]; intros rs c w0 last Hc Hl Hr; cbn [cursor_gets] in Hr; [by minv|].
    apply Forall_cons in Hl as [Hl _].
    apply bind_ok in Hr as (v & c1 & w1 & Hget & Hr). apply bind_ok in Hr as (vs & c2 & w2 & Hgets & Hr). minv.
    eapply cursor_get_ok in Hget as [-> Hc1]; [|done|done]. cbn. f_equal. eapply IH; [exact Hc1| |exact Hgets].
    eapply Forall_impl; [exact Hf|]. intros k. apply bytes_lt_le. }
  intros Hr. destruct keys as [|key keys]; [by cbn in Hr; minv|]. apply (Hg (MkCursor p None) w key); [done| |exact Hr].
  constructor; [apply bytes_le_refl|]. apply StronglySorted_inv in Hs as [_ Hf]. eapply Forall_impl; [exact Hf|].
  intros k. apply bytes_lt_le.
Qed.

End CursorTheorem.

(** ** The retain list holds every address once *)

Section RetainTheorem.
Context `{Keccak, BatchSize, BatchValueSize}.

(** The addresses of the retain list, as the index will hold them. *)
Definition retained (i : ovmIndex) (address : Address) : Prop :=
  ix_view i !! prefixedKey [ovmERC20RetainPrefix] (hash_bytes address) = Some [x01].

(** [seen] is what has been added; [pending] is the part that is only in the
    batch. *)
Record retain_inv (seen : list Address) (pending : pendingSet) (i : ovmIndex) : Prop := {
  ri_nodup : NoDup seen;
  ri_pending a : a ∈ pending → a ∈ seen;
  ri_view a : ix_view i !! prefixedKey [ovmERC20RetainPrefix] (hash_bytes a) = (if bool_decide (a ∈ seen) then Some [x01] else None);
  ri_db a : a ∈ seen → a ∈ pending ∨ ix_db i !! prefixedKey [ovmERC20RetainPrefix] (hash_bytes a) = Some [x01]
}.

Lemma prefixedKey_inj p (a b : Address) : prefixedKey [p] (hash_bytes a) = prefixedKey [p] (hash_bytes b) → a = b.
Proof. intros [= He]. by apply hash_bytes_inj in He. Qed.

Lemma ix_view_add i ops : ix_view (MkOvmIndex (ix_db i) (ix_batch i ++ ops)) = apply_ops (ix_view i) ops.
Proof. apply apply_ops_app. Qed.

Lemma addOVMRetainAddress_ok seen pending address i w pending' i' w' :
  retain_inv seen pending i → addOVMRetainAddress pending address i w = (Ok pending', i', w') →
  (address ∉ seen) ∧ retain_inv (address :: seen) pending' i'.
Proof.
  intros Hinv Hr. unfold addOVMRetainAddress in Hr. case_bool_decide as Hp; [minv|].
  unfold index_get in Hr. mstep Hr. minv.
  match type of Hr with (match ?e with _ => _ end) _ _ = _ => destruct e as [v|] eqn:Hdb; [minv|] end.
  assert (Hnew : address ∉ seen) by (intros Hin; destruct (ri_db _ _ _ Hinv _ Hin) as [|Hx]; [done|congruence]).
  split; [done|]. unfold index_add in Hr. mstep Hr. minv. simplify_eq.
  match type of Hr with (if index_full ?x then _ else _) _ _ = _ => set (i2 := x) in Hr end.
  assert (Hview : ∀ a : Address, ix_view i2 !! prefixedKey [ovmERC20RetainPrefix] (hash_bytes a) =
    (if bool_decide (a ∈ address :: seen) then Some [x01] else None)).
  { intros a. unfold i2. cbn [ix_db ix_batch]. rewrite -app_assoc ix_view_add. cbn. rewrite lookup_insert_ne //.
    destruct (decide (a = address)) as [->|Hne].
    - rewrite lookup_insert_eq bool_decide_eq_true_2 //. left.
    - rewrite lookup_insert_ne; [|by intros ?%prefixedKey_inj]. rewrite (ri_view _ _ _ Hinv). case_bool_decide; [rewrite bool_decide_eq_true_2 //; by right|].
      rewrite bool_decide_eq_false_2 //. by intros [|]%elem_of_cons. }
  destruct (index_full i2).
  - unfold index_flush in Hr. minv. split; [by constructor; [|apply Hinv]|set_solver|exact Hview|].
    intros a Ha. right. cbn [ix_db]. rewrite Hview bool_decide_eq_true_2 //.
  - minv. split; [by constructor; [|apply Hinv]| |exact Hview|].
    + intros a [->%elem_of_singleton|Ha]%elem_of_union; [left|right; by apply (ri_pending _ _ _ Hinv)].
    + intros a [->|Ha]%elem_of_cons; [left; set_solver|].
      destruct (ri_db _ _ _ Hinv a Ha); [left; set_solver|by right].
Qed.

Lemma retain_lines_ok unmarshal lines seen pending i w u i' w' :
  retain_inv seen pending i → retain_lines unmarshal lines pending i w = (Ok u, i', w') →
  ∃ added pending', mapM (λ l, match parseOVMRetainAddress unmarshal l with Ok a => Some a | Err _ => None end) lines = Some added ∧
    retain_inv (reverse added ++ seen) pending' i'.
Proof.
  revert seen pending i w. induction lines as [|line lines IH]; intros seen pending i w Hinv Hr; cbn [retain_lines] in Hr.
  - minv. exists [], pending. done.
  - apply bind_ok in Hr as (u0 & i0 & w0 & ->%poll_ok & Hr).
    apply bind_ok in Hr as (a & i1 & w1 & (Ha%wrap_err_ok & -> & ->)%lift_ok & Hr).
    apply bind_ok in Hr as (p & i2 & w2 & Hadd%wrap_ok & Hr). eapply addOVMRetainAddress_ok in Hadd as [_ Hinv']; [|done].
    destruct (IH _ _ _ _ Hinv' Hr) as (added & p' & Hm & Hinv2). exists (a :: added), p'. split.
    + cbn. rewrite Ha. cbn. by rewrite Hm.
    + by rewrite reverse_cons -app_assoc.
Qed.

(** The retain list is read exactly: if reading it into a fresh index
    succeeds, in any environment, then every line parsed, no address occurred
    twice (whether the first occurrence was still in the batch or already
    flushed), and the index holds a retain entry for exactly the listed
    addresses; the token's own address is not among them. *)
Theorem retain_list_exact unmarshal lines w i' w' :
  readOVMERC20RetainList unmarshal lines (newOVMIndex ∅) w = (Ok (), i', w') →
  ∃ added, mapM (λ l, match parseOVMRetainAddress unmarshal l with Ok a => Some a | Err _ => None end) lines = Some added ∧
    NoDup added ∧ (ovmETHAddress ∉ added) ∧
    ∀ a : Address, ix_db i' !! prefixedKey [ovmERC20RetainPrefix] (hash_bytes a) = (if bool_decide (a ∈ added) then Some [x01] else None).
Proof.
  unfold readOVMERC20RetainList, index_flush. intros Hr. minv.
  match goal with Hx : retain_lines _ _ _ _ _ = _ |- _ => eapply (retain_lines_ok _ _ []) in Hx as (added & p & Hm & Hinv) end.
  2: { split; [constructor|set_solver|intros a; by rewrite /ix_view /= lookup_empty|intros a Ha; by apply elem_of_nil in Ha]. }
  rewrite app_nil_r in Hinv. exists added. split; [done|]. split; [rewrite -(reverse_Permutation added); apply Hinv|]. split.
  - clear -Hm. revert added Hm. induction lines as [|l lines IH]; intros added Hm; cbn in Hm; [injection Hm as <-; by intros ?%elem_of_nil|].
    destruct (parseOVMRetainAddress unmarshal l) as [a|] eqn:Ha; [|done]. cbn in Hm.
    destruct (mapM _ lines) as [added'|] eqn:Hm'; [|done]. injection Hm as <-. intros [Heq|Hin]%elem_of_cons; [|by apply (IH added')].
    subst a. unfold parseOVMRetainAddress in Ha. minv. match goal with Hx : bool_decide (_ = _) = false |- _ => by apply bool_decide_eq_false in Hx end.
  - intros a. cbn [ix_db]. rewrite (ri_view _ _ _ Hinv). by rewrite (bool_decide_ext (a ∈ reverse added) (a ∈ added)); [|apply elem_of_reverse].
Qed.

End RetainTheorem.

Module OvmIndexWitnesses.
Import Sample SampleTarget.

Definition evidence : store :=
  list_to_map (map (λ n, ([prefix_b; byte_of_N n], [byte_of_N n])) (N.of_nat <$> seq 0 40)).

Definition sparse : list bytes := [[x02]; [x03]; [x20]; [xf0]].

Lemma cursor_equals_lookup_witness :
  (cursor_gets evidence sparse (MkCursor prefix_b None) calm).1.1 = Ok [Some [x02]; Some [x03]; Some [x20]; None].
Proof.
  destruct (cursor_gets evidence sparse (MkCursor prefix_b None) calm) as [[r c'] w'] eqn:Er.
  assert (Hr : ∃ rs, r = Ok rs).
  { apply (f_equal (λ x, is_ok x.1.1)) in Er. cbn [fst] in Er. destruct r; [eauto|]. by vm_compute in Er. }
  destruct Hr as [rs ->]. cbn [fst]. rewrite (cursor_equals_lookup evidence prefix_b sparse calm rs c' w'); [by vm_compute| |exact Er].
  repeat (constructor; [|repeat constructor]). constructor.
Defined.

(** Two lines that name two addresses. *)
Definition line_one : string := "0x0000000000000000000000000000000000000001".
Definition line_two : string := "0x0000000000000000000000000000000000000002".
Definition unmarshal (s : string) : result Address :=
  Ok (vec_of_bytes 20 (if bool_decide (s = line_one) then replicate 19 x00 ++ [x01] else replicate 19 x00 ++ [x02])).

Lemma retain_list_exact_witness :
  ∃ i', (readOVMERC20RetainList unmarshal [line_one; line_two] (newOVMIndex ∅) calm).1.2 = i' ∧
    ix_db i' !! prefixedKey [ovmERC20RetainPrefix] (replicate 19 x00 ++ [x01]) = Some [x01].
Proof.
  destruct (readOVMERC20RetainList unmarshal [line_one; line_two] (newOVMIndex ∅) calm) as [[r i'] w'] eqn:Er.
  assert (Hr : r = Ok ()).
  { apply (f_equal (λ x, is_ok x.1.1)) in Er. cbn [fst] in Er. destruct r as [[]|]; [done|]. by vm_compute in Er. }
  subst r. destruct (retain_list_exact unmarshal [line_one; line_two] calm i' w' Er) as (added & Hm & _ & _ & Hk).
  exists i'. split; [reflexivity|]. specialize (Hk (vec_of_bytes 20 (replicate 19 x00 ++ [x01]))).
  vm_compute in Hm. injection Hm as <-. rewrite bool_decide_eq_true_2 in Hk; [exact Hk|left].
Defined.

End OvmIndexWitnesses.
