(* ===== verification/OvmAudit.v ===== *)
(** * The OVM audit summary ([ovm_audit.go])

    An operator may supply an audit summary that explains why the token
    balances do not add up to the total supply. This file models its
    validation and its matching against the conversion. Amounts are decimal
    strings on the wire; [auditInteger] accepts canonical decimals only.

    A JSON document is its syntax tree, with the fields of an object in the
    order of the text, duplicates included; parsing the text and decoding the
    scalars are the JSON library's. [auditJSONFields] is modelled on the tree. *)

From S2P Require Import Prelude Geth Manifest StrictIO.

(** ** Field checking *)

#[warnings="-register-all"]
Inductive json :=
| JNull
| JString (value : string)
| JScalar (text : string)
| JArray (items : list json)
| JObject (fields : list (string * json)).

(** The schema of a struct type, from its [json] tags: the field's name,
    whether the tag has [omitempty], and the schema of its type if that is a
    struct or a pointer to one. *)
#[warnings="-register-all"]
Inductive json_schema :=
| Schema (fields : list (string * (bool * option json_schema))).

Definition schema_fields (s : json_schema) : list (string * (bool * option json_schema)) :=
  match s with Schema fields => fields end.

Fixpoint field_named {A} (name : string) (fields : list (string * A)) : option A :=
  match fields with
  | [] => None
  | (n, f) :: fields' => if bool_decide (n = name) then Some f else field_named name fields'
  end.

Definition is_null (v : json) : bool := match v with JNull => true | _ => false end.

Fixpoint auditJSONFields (schema : json_schema) (data : json) {struct data} : result unit :=
  match data with
  | JObject object =>
      seen ← (fix loop (l : list (string * json)) (seen : gset string) {struct l} : result (gset string) :=
         match l with
         | [] => Ok seen
         | (name, raw) :: l' =>
             match field_named name (schema_fields schema) with
             | None => Err (EMsg "unknown or duplicate OVM audit field")
             | Some (_, inner) =>
                 _ ← reject_if (bool_decide (name ∈ seen)) "unknown or duplicate OVM audit field";
                 _ ← reject_if (is_null raw) "OVM audit field must not be null";
                 _ ← match inner with Some inner => wrap_err name (auditJSONFields inner raw) | None => Ok () end;
                 loop l' ({[name]} ∪ seen)
             end
         end) object ∅;
      reject_if (existsb (λ f, negb (bool_decide (f.1 ∈ seen)) && negb f.2.1) (schema_fields schema)) "missing OVM audit field"
  | _ => Err (EMsg "OVM audit requires an object")
  end.

Definition required (name : string) : string * (bool * option json_schema) := (name, (false, None)).

Definition identity_schema : json_schema := Schema (required <$>
  ["version"; "genesis"; "configHash"; "witnessHash"; "to"; "toHash"; "deSeqBlock"; "seqValidHeight"; "firstSequencer"]%string).
Definition scan_schema : json_schema := Schema (required <$>
  ["root"; "ovmCodeHash"; "balanceSlots"; "balancesWei"; "supplyWei"; "differenceWei"]%string).
Definition delta_schema : json_schema := Schema (required <$>
  ["balanceDeltaWei"; "supplyDeltaWei"; "discrepancyDeltaWei"; "gasShortfallWei"; "legacySelfdestructWei"; "unexplainedDeltaWei"]%string).

Definition summary_schema : json_schema := Schema
  [required "version"; ("identity", (false, Some identity_schema)); required "clientVersion"; required "from";
   required "verifiedBlocks"; ("genesisState", (false, Some scan_schema)); ("targetState", (false, Some scan_schema));
   ("totals", (false, Some delta_schema)); required "executionVerified"; required "accountingReconciled";
   required "intervalCausesFullyExplained"; required "unexplainedEvents"; required "genesisDifferenceExplained";
   ("previousDiagnosisDifferenceWei", (true, None)); ("matchesPreviousDiagnosis", (true, None))]%string.

(** ** Decimal strings *)

Definition digit (c : Ascii.ascii) : option Z :=
  let n := Z.of_nat (Ascii.nat_of_ascii c) in
  if (48 <=? n)%Z && (n <=? 57)%Z then Some (n - 48)%Z else None.

Fixpoint digits (s : string) (acc : Z) : option Z :=
  match s with
  | EmptyString => Some acc
  | String c s' => d ← digit c; digits s' (acc * 10 + d)%Z
  end.

(** [new(big.Int).SetString(s, 10)], with [none] for a failed conversion. A
    sign is accepted. *)
Definition parse_big (s : string) : option Z :=
  match s with
  | EmptyString => None
  | String c EmptyString => digits s 0
  | String c s' =>
      if (Ascii.nat_of_ascii c =? 45)%nat then Z.opp <$> digits s' 0
      else if (Ascii.nat_of_ascii c =? 43)%nat then digits s' 0
      else digits s 0
  end.

(** [v.String()]. *)
Definition big_string (v : Z) : string := pretty.pretty v.

Definition auditInteger (s : string) (unsigned : bool) : result Z :=
  match parse_big s with
  | None => Err (EMsg "invalid OVM audit integer")
  | Some v =>
      if negb (bool_decide (big_string v = s)) || ((unsigned : bool) && ((v <? 0)%Z || (2 ^ 256 <=? v)%Z))
      then Err (EMsg "invalid OVM audit integer") else Ok v
  end.

(** ** Data *)

Record ovmAuditIdentity := MkAuditIdentity {
  ai_Version : Z;
  ai_Genesis : Hash;
  ai_ConfigHash : Hash;
  ai_WitnessHash : Hash;
  ai_To : N;
  ai_ToHash : Hash;
  ai_DeSeqBlock : N;
  ai_SeqValidHeight : N;
  ai_FirstSequencer : vec byte 20
}.

Record ovmAuditScan := MkAuditScan {
  as_Root : Hash;
  as_CodeHash : Hash;
  as_BalanceSlots : N;
  as_Balances : string;
  as_Supply : string;
  as_Difference : string
}.

Record ovmAuditDelta := MkAuditDelta {
  ad_Balance : string;
  ad_Supply : string;
  ad_Difference : string;
  ad_Gas : string;
  ad_Suicide : string;
  ad_Unexplained : string
}.

Record ovmAuditSummary := MkAuditSummary {
  au_Version : Z;
  au_Identity : ovmAuditIdentity;
  au_ClientVersion : string;
  au_From : N;
  au_VerifiedBlocks : N;
  au_Genesis : ovmAuditScan;
  au_Target : ovmAuditScan;
  au_Totals : ovmAuditDelta;
  au_ExecutionVerified : bool;
  au_AccountingReconciled : bool;
  au_IntervalCausesFullyExplained : bool;
  au_UnexplainedEvents : N;
  au_GenesisDifferenceExplained : bool;
  au_PreviousDiagnosisDifference : option string;
  au_MatchesPreviousDiagnosis : bool
}.

(** Amounts of a conversion ([ovm_transform.go]); amounts are pointers, [None]
    is the null pointer. *)
Record OVMBalanceEvidence := MkBalanceEvidence {
  ev_OriginalSupply : option N;
  ev_MigratedNative : option N;
  ev_RemainingSupply : option N;
  ev_EOAs : N;
  ev_ConvertedContracts : N;
  ev_RetainedContracts : N;
  ev_SelfBalance : option N
}.

Record OVMAuditEvidence := MkAuditEvidence {
  ae_FileSHA256 : Hash;
  ae_BalanceSum : N;
  ae_SupplyDifference : string;
  ae_AuditHead : option Head
}.

(** ** Validation *)

(** One pass of the loop over the scans. *)
Definition check_scan (scan : ovmAuditScan) : result unit :=
  b ← auditInteger (as_Balances scan) true;
  s ← auditInteger (as_Supply scan) true;
  d ← auditInteger (as_Difference scan) false;
  reject_if (negb (b - s =? d)%Z) "OVM audit scan arithmetic mismatch".

(** One pass of the loop over the pairs; the first two conversions cannot fail
    any more and their errors are ignored. *)
Definition check_delta (before after delta : string) : result unit :=
  let value s := match auditInteger s false with Ok v => v | Err _ => 0%Z end in
  d ← auditInteger delta false;
  reject_if (negb (value after - value before =? d)%Z) "OVM audit cumulative arithmetic mismatch".

Definition audit_validate (a : ovmAuditSummary) : result unit :=
  _ ← reject_if (negb (au_Version a =? 1)%Z || negb (ai_Version (au_Identity a) =? 1)%Z) "unsupported OVM audit version";
  _ ← reject_if (bool_decide (au_ClientVersion a = ""%string) || negb (au_From a =? 1) || (ai_To (au_Identity a) =? 0) ||
                 negb (au_VerifiedBlocks a =? ai_To (au_Identity a))) "incomplete OVM audit coverage or provenance";
  _ ← reject_if (bool_decide (zero_hash ∈ [ai_Genesis (au_Identity a); ai_ToHash (au_Identity a); ai_ConfigHash (au_Identity a);
                 ai_WitnessHash (au_Identity a); as_Root (au_Genesis a); as_CodeHash (au_Genesis a); as_Root (au_Target a);
                 as_CodeHash (au_Target a)])) "empty OVM audit hash";
  _ ← reject_if (negb (au_ExecutionVerified a) || negb (au_AccountingReconciled a) || negb (au_IntervalCausesFullyExplained a) ||
                 negb (au_GenesisDifferenceExplained a) || negb (au_UnexplainedEvents a =? 0) ||
                 negb (bool_decide (ad_Unexplained (au_Totals a) = "0"%string)) ||
                 negb (bool_decide (as_Difference (au_Genesis a) = "0"%string))) "OVM audit causes are not fully explained";
  _ ← check_scan (au_Genesis a);
  _ ← check_scan (au_Target a);
  _ ← check_delta (as_Balances (au_Genesis a)) (as_Balances (au_Target a)) (ad_Balance (au_Totals a));
  _ ← check_delta (as_Supply (au_Genesis a)) (as_Supply (au_Target a)) (ad_Supply (au_Totals a));
  _ ← check_delta (as_Difference (au_Genesis a)) (as_Difference (au_Target a)) (ad_Difference (au_Totals a));
  gas ← auditInteger (ad_Gas (au_Totals a)) false;
  suicide ← auditInteger (ad_Suicide (au_Totals a)) false;
  _ ← reject_if ((gas <? 0)%Z || (suicide <? 0)%Z || negb (bool_decide (big_string (gas + suicide) = ad_Difference (au_Totals a))))
        "OVM audit cause arithmetic mismatch";
  match au_PreviousDiagnosisDifference a with
  | Some s => _ ← auditInteger s false; Ok ()
  | None => Ok ()
  end.

(** ** Matching the source and the conversion *)

Definition matchHead (a : ovmAuditSummary) (head : Head) : result unit :=
  _ ← reject_if (BlockNumber head <? ai_To (au_Identity a)) "OVM audit target is ahead of source head";
  reject_if ((ai_To (au_Identity a) =? BlockNumber head) &&
             (negb (bool_decide (ai_ToHash (au_Identity a) = BlockHash head)) ||
              negb (bool_decide (as_Root (au_Target a) = StateRoot head)))) "OVM audit target does not match source head".

Definition matchAccounting (a : ovmAuditSummary) (height : N) (code : Hash) (slots balances supply : N) : result unit :=
  let mismatch := "OVM audit target mismatch" in
  _ ← reject_if (height <? ai_To (au_Identity a)) "OVM audit target is ahead of source accounting";
  _ ← reject_if (negb (bool_decide (as_CodeHash (au_Target a) = code))) mismatch;
  _ ← reject_if (negb (bool_decide (as_Difference (au_Target a) = big_string (Z.of_N balances - Z.of_N supply)))) mismatch;
  if ai_To (au_Identity a) =? height then
    _ ← reject_if (negb (as_BalanceSlots (au_Target a) =? slots)) mismatch;
    _ ← reject_if (negb (bool_decide (as_Balances (au_Target a) = big_string (Z.of_N balances)))) mismatch;
    reject_if (negb (bool_decide (as_Supply (au_Target a) = big_string (Z.of_N supply)))) mismatch
  else Ok ().

Definition conversionEvidence (a : ovmAuditSummary) (digest : Hash) (head : Head) (balances : OVMBalanceEvidence) : result OVMAuditEvidence :=
  _ ← matchHead a head;
  match ev_OriginalSupply balances, ev_MigratedNative balances, ev_RemainingSupply balances with
  | Some original, Some migrated, Some remaining =>
      let '(sum, overflow) := add_overflow256 migrated remaining in
      _ ← reject_if overflow "OVM converted balance sum overflows uint256";
      let difference := big_string (Z.of_N sum - Z.of_N original) in
      _ ← reject_if (negb (bool_decide (difference = as_Difference (au_Target a)))) "OVM conversion difference does not match audit";
      Ok (MkAuditEvidence digest sum difference
            (if ai_To (au_Identity a) <? BlockNumber head
             then Some (MkHead (ai_To (au_Identity a)) (ai_ToHash (au_Identity a)) (as_Root (au_Target a))) else None))
  | _, _, _ => Err (EMsg "missing OVM conversion amounts")
  end.

(** [confirmOVMAuditEvidence]: [path] is [None] for the empty path, and
    [hash_file] is [hashOVMInput]. *)
Definition confirmOVMAuditEvidence {P St} (hash_file : P → M St Hash) (path : option P) (evidence : option OVMAuditEvidence) : M St unit :=
  match path, evidence with
  | Some p, Some e =>
      digest ← wrap "confirm OVM audit summary" (hash_file p);
      lift (reject_if (negb (bool_decide (digest = ae_FileSHA256 e))) "OVM audit summary changed or differs from recorded digest")
  | None, None => poll
  | _, _ => fail (EMsg "OVM verification requires the original --ovm-audit-summary exactly when recorded")
  end.

(** ** Canonical decimals *)

Lemma pretty_char_digit n : n < 10 → digit (pretty.pretty_N_char n) = Some (Z.of_N n).
Proof.
  intros Hn. assert (Hc : n = 0 ∨ n = 1 ∨ n = 2 ∨ n = 3 ∨ n = 4 ∨ n = 5 ∨ n = 6 ∨ n = 7 ∨ n = 8 ∨ n = 9) by lia.
  by repeat destruct Hc as [->|Hc]; subst.
Qed.

Lemma digits_pretty_go n : ∀ s, digits (pretty.pretty_N_go n s) 0 = digits s (Z.of_N n).
Proof.
  induction (N.lt_wf_0 n) as [n _ IH]. intros s. destruct (decide (n = 0)) as [->|Hn]; [by rewrite pretty.pretty_N_go_0|].
  rewrite pretty.pretty_N_go_step; [|lia]. rewrite IH; [|apply N.div_lt; lia]. cbn.
  rewrite pretty_char_digit; [|apply N.mod_lt; lia]. cbn. f_equal. pose proof (N.div_mod n 10 ltac:(lia)). lia.
Qed.

Lemma digits_pretty (n : N) : digits (pretty.pretty n) 0 = Some (Z.of_N n).
Proof. unfold pretty.pretty, pretty.pretty_N. case_decide; [by subst|]. by rewrite digits_pretty_go. Qed.

Lemma pretty_nonempty (n : N) : pretty.pretty n ≠ ""%string.
Proof.
  unfold pretty.pretty, pretty.pretty_N. case_decide as Hn; [done|].
  assert (Hg : ∀ m s, s ≠ ""%string → pretty.pretty_N_go m s ≠ ""%string).
  { intros m. induction (N.lt_wf_0 m) as [m _ IH]. intros s Hs. destruct (decide (m = 0)) as [->|Hm]; [by rewrite pretty.pretty_N_go_0|].
    rewrite pretty.pretty_N_go_step; [|lia]. apply IH; [apply N.div_lt; lia|done]. }
  rewrite pretty.pretty_N_go_step; [|lia]. by apply Hg.
Qed.

(** A leading digit is not a sign. *)
Lemma parse_big_digits s v : s ≠ ""%string → digits s 0 = Some v → parse_big s = Some v.
Proof.
  destruct s as [|c s]; [done|]. intros _ Hd. unfold parse_big. destruct s as [|c' s]; [done|]. cbn [digits] in Hd.
  unfold digit in Hd. destruct (Nat.eqb_spec (Ascii.nat_of_ascii c) 45) as [Hc|]; [by rewrite Hc in Hd|].
  destruct (Nat.eqb_spec (Ascii.nat_of_ascii c) 43) as [Hc|]; [by rewrite Hc in Hd|done].
Qed.

Lemma parse_big_string v : parse_big (big_string v) = Some v.
Proof.
  unfold big_string. destruct v as [|p|p]; [done|apply parse_big_digits; [apply (pretty_nonempty (N.pos p))|apply (digits_pretty (N.pos p))]|].
  change (pretty.pretty (Z.neg p)) with (String.append "-" (pretty.pretty (N.pos p))).
  destruct (pretty.pretty (N.pos p)) as [|c s] eqn:E; [by apply pretty_nonempty in E|].
  change (Z.opp <$> digits (String c s) 0 = Some (Z.neg p)). pose proof (digits_pretty (N.pos p)) as Hd. rewrite E in Hd. by rewrite Hd.
Qed.

(** [auditInteger] accepts exactly the canonical decimals. *)
Lemma auditInteger_ok s u v :
  auditInteger s u = Ok v ↔ s = big_string v ∧ (u = true → (0 ≤ v < 2 ^ 256)%Z).
Proof.
  unfold auditInteger. split.
  - destruct (parse_big s) as [v'|]; [|done]. case_bool_decide as Hs; cbn; [|done].
    destruct u; cbn; [|by intros [= ->]]. destruct (Z.ltb_spec v' 0); cbn; [done|].
    destruct (Z.leb_spec (2 ^ 256) v'); [done|]. intros [= ->]. done.
  - intros [-> Hb]. rewrite parse_big_string bool_decide_eq_true_2 //. cbn.
    destruct u; cbn; [|done]. specialize (Hb eq_refl). destruct (Z.ltb_spec v 0); [lia|]. destruct (Z.leb_spec (2 ^ 256) v); [lia|]. done.
Qed.

Lemma auditInteger_canonical v : auditInteger (big_string v) false = Ok v.
Proof. by apply auditInteger_ok. Qed.

Lemma big_string_inj a b : big_string a = big_string b → a = b.
Proof. intros He. apply (f_equal parse_big) in He. rewrite !parse_big_string in He. by injection He. Qed.

(** ** The validated summary *)

Definition u256 (v : Z) : Prop := (0 ≤ v < 2 ^ 256)%Z.

(** The amounts behind the strings of a summary: [g] the genesis balances and
    supply, which agree, [b] and [s] those of the target, and the causes. *)
Record audit_amounts := MkAmounts { am_genesis : Z; am_balances : Z; am_supply : Z; am_gas : Z; am_suicide : Z }.

Definition amounts_explained (m : audit_amounts) : Prop :=
  u256 (am_genesis m) ∧ u256 (am_balances m) ∧ u256 (am_supply m) ∧ (0 ≤ am_gas m)%Z ∧ (0 ≤ am_suicide m)%Z ∧
  (am_balances m - am_supply m = am_gas m + am_suicide m)%Z.

(** Every amount of the summary as a function of those five. *)
Definition scan_states (scan : ovmAuditScan) (b s : Z) : Prop :=
  as_Balances scan = big_string b ∧ as_Supply scan = big_string s ∧ as_Difference scan = big_string (b - s).

Definition totals_state (d : ovmAuditDelta) (m : audit_amounts) : Prop :=
  ad_Balance d = big_string (am_balances m - am_genesis m) ∧
  ad_Supply d = big_string (am_supply m - am_genesis m) ∧
  ad_Difference d = big_string (am_balances m - am_supply m) ∧
  ad_Gas d = big_string (am_gas m) ∧ ad_Suicide d = big_string (am_suicide m) ∧ ad_Unexplained d = "0"%string.

Record audit_explained (a : ovmAuditSummary) (m : audit_amounts) : Prop := {
  ex_versions : au_Version a = 1%Z ∧ ai_Version (au_Identity a) = 1%Z;
  ex_coverage : au_ClientVersion a ≠ ""%string ∧ au_From a = 1 ∧ ai_To (au_Identity a) ≠ 0 ∧ au_VerifiedBlocks a = ai_To (au_Identity a);
  ex_hashes : zero_hash ∉ [ai_Genesis (au_Identity a); ai_ToHash (au_Identity a); ai_ConfigHash (au_Identity a); ai_WitnessHash (au_Identity a);
                           as_Root (au_Genesis a); as_CodeHash (au_Genesis a); as_Root (au_Target a); as_CodeHash (au_Target a)];
  ex_flags : au_ExecutionVerified a = true ∧ au_AccountingReconciled a = true ∧ au_IntervalCausesFullyExplained a = true ∧
             au_GenesisDifferenceExplained a = true ∧ au_UnexplainedEvents a = 0;
  ex_genesis : scan_states (au_Genesis a) (am_genesis m) (am_genesis m);
  ex_target : scan_states (au_Target a) (am_balances m) (am_supply m);
  ex_totals : totals_state (au_Totals a) m;
  ex_previous s : au_PreviousDiagnosisDifference a = Some s → ∃ v, s = big_string v;
  ex_amounts : amounts_explained m
}.

Lemma check_scan_ok scan : check_scan scan = Ok () ↔ ∃ b s, scan_states scan b s ∧ u256 b ∧ u256 s.
Proof.
  unfold check_scan, scan_states, u256. split.
  - intros (b & [Hb Hb']%auditInteger_ok & Hr)%result_bind_ok. apply result_bind_ok in Hr as (s & [Hs Hs']%auditInteger_ok & Hr).
    apply result_bind_ok in Hr as (d & [Hd _]%auditInteger_ok & Hr). apply reject_if_cases, negb_false_iff, Z.eqb_eq in Hr as <-.
    exists b, s. auto 10.
  - intros (b & s & (-> & -> & ->) & Hb & Hs). apply result_bind_ok. exists b. split; [by apply auditInteger_ok|].
    apply result_bind_ok. exists s. split; [by apply auditInteger_ok|]. apply result_bind_ok. exists (b - s)%Z. split; [by apply auditInteger_ok|].
    apply reject_if_cases. by rewrite Z.eqb_refl.
Qed.

Lemma check_delta_ok b a delta : check_delta (big_string b) (big_string a) delta = Ok () ↔ delta = big_string (a - b).
Proof.
  unfold check_delta. rewrite !auditInteger_canonical. split.
  - intros (d & [-> _]%auditInteger_ok & Hr)%result_bind_ok. by apply reject_if_cases, negb_false_iff, Z.eqb_eq in Hr as <-.
  - intros ->. apply result_bind_ok. exists (a - b)%Z. split; [apply auditInteger_canonical|]. apply reject_if_cases. by rewrite Z.eqb_refl.
Qed.

(** A validated summary states explained amounts. *)
Lemma audit_validate_amounts a : audit_validate a = Ok () → ∃ m, audit_explained a m.
Proof.
  unfold audit_validate.
  rewrite !reject_then !then_ok !orb_false_iff !negb_false_iff !bool_decide_eq_true !bool_decide_eq_false !Z.eqb_eq !N.eqb_eq N.eqb_neq.
  intros (Hv & [[[? ?] ?] ?] & Hh & [[[[[[? ?] ?] ?] ?] Hu] Hg] & HG & HT & Hb & Hs & Hd & Hr).
  apply check_scan_ok in HG as (g & gs & (G1 & G2 & G3) & ? & ?), HT as (b & s & (T1 & T2 & T3) & ? & ?).
  rewrite G3 in Hg. apply (big_string_inj _ 0) in Hg. assert (gs = g) as -> by lia.
  rewrite G1 T1 in Hb. apply check_delta_ok in Hb. rewrite G2 T2 in Hs. apply check_delta_ok in Hs.
  rewrite G3 T3 in Hd. apply check_delta_ok in Hd. replace (b - s - (g - g))%Z with (b - s)%Z in Hd by lia.
  apply result_bind_ok in Hr as (gas & [Hgas _]%auditInteger_ok & Hr).
  apply result_bind_ok in Hr as (sui & [Hsui _]%auditInteger_ok & Hr).
  rewrite reject_then !orb_false_iff !Z.ltb_ge negb_false_iff bool_decide_eq_true Hd in Hr.
  destruct Hr as [[[? ?] Hsum%big_string_inj] Hp].
  exists (MkAmounts g b s gas sui). split; unfold scan_states, totals_state, amounts_explained; cbn; try done; try by (split_and!; first [done|congruence|lia]).
  intros str Hstr. rewrite Hstr in Hp. apply result_bind_ok in Hp as (v & [-> _]%auditInteger_ok & _). by exists v.
Qed.

(** C29: the validation of an audit summary accepts exactly the summaries whose
    strings are the canonical decimals of five amounts that explain the
    difference: genesis balances equal the genesis supply, the target's
    balances exceed its supply by the gas and self-destruct shortfalls, which
    are not negative, and every total is the difference of the two scans. *)
Theorem audit_validate_exact a : audit_validate a = Ok () ↔ ∃ m, audit_explained a m.
Proof.
  split; [apply audit_validate_amounts|].
  unfold audit_validate. intros ([g b s gas sui] & [[H1 H2] (H3 & H4 & H5 & H6) Hh (H7 & H8 & H9 & H10 & H11) HG HT (D1 & D2 & D3 & D4 & D5 & D6) Hp (? & ? & ? & ? & ? & Heq)]). cbn in *.
  pose proof HG as (G1 & G2 & G3). pose proof HT as (T1 & T2 & T3).
  rewrite !reject_then !then_ok !orb_false_iff !negb_false_iff !bool_decide_eq_true !bool_decide_eq_false !Z.eqb_eq !N.eqb_eq N.eqb_neq.
  rewrite !check_scan_ok G1 G2 G3 T1 T2 T3 !check_delta_ok D1 D2 D3 D4 D5 D6 !auditInteger_canonical. cbn -[u256].
  rewrite reject_then !orb_false_iff !Z.ltb_ge negb_false_iff bool_decide_eq_true. rewrite Heq Z.sub_diag Z.sub_0_r.
  split_and!; try done; [by exists g, g|by exists b, s|].
  destruct (au_PreviousDiagnosisDifference a) as [str|]; [|done]. destruct (Hp str eq_refl) as [v ->]. by rewrite auditInteger_canonical.
Qed.

(** C28: when a conversion's amounts are matched against a validated summary,
    native and remaining amounts add up without overflow, and their sum
    exceeds the original supply by exactly the audited gas and self-destruct
    shortfalls. The audited block is not after the source head; at the same
    height its hash and state root are the head's, below it the evidence
    records the audited block. *)
Theorem audit_conversion_explained a digest head bal e original migrated remaining :
  audit_validate a = Ok () →
  conversionEvidence a digest head bal = Ok e →
  ev_OriginalSupply bal = Some original → ev_MigratedNative bal = Some migrated → ev_RemainingSupply bal = Some remaining →
  ∃ m, audit_explained a m ∧ ae_FileSHA256 e = digest ∧
    ae_BalanceSum e = migrated + remaining ∧ migrated + remaining < two256 ∧
    (Z.of_N (migrated + remaining) = Z.of_N original + am_gas m + am_suicide m)%Z ∧
    ae_SupplyDifference e = big_string (am_gas m + am_suicide m) ∧
    ai_To (au_Identity a) ≤ BlockNumber head ∧
    ae_AuditHead e = (if decide (ai_To (au_Identity a) < BlockNumber head)
                      then Some (MkHead (ai_To (au_Identity a)) (ai_ToHash (au_Identity a)) (as_Root (au_Target a))) else None) ∧
    (ai_To (au_Identity a) = BlockNumber head → ai_ToHash (au_Identity a) = BlockHash head ∧ as_Root (au_Target a) = StateRoot head).
Proof.
  intros (m & Hm)%audit_validate_amounts Hc Ho Hg Hr. exists m. unfold conversionEvidence, matchHead, add_overflow256 in Hc. rewrite Ho Hg Hr in Hc.
  rewrite then_ok reject_then reject_if_cases N.ltb_ge andb_false_iff orb_false_iff !negb_false_iff !bool_decide_eq_true N.eqb_neq in Hc.
  destruct Hc as [[Hle Hsame] Hc]. rewrite reject_then N.leb_gt reject_then negb_false_iff bool_decide_eq_true in Hc.
  destruct Hc as (Hlt & Hd & [= <-]). unfold add256 in *. rewrite N.mod_small in Hd; [|done].
  destruct (ex_target _ _ Hm) as (_ & _ & Ht). rewrite Ht in Hd. rewrite N.mod_small; [|done].
  destruct (ex_amounts _ _ Hm) as (_ & _ & _ & _ & _ & He). rewrite He in Hd. apply big_string_inj in Hd.
  split_and!; try done; cbn; [lia|by f_equal| |by intros; destruct Hsame].
  case_decide as Hl; [by apply N.ltb_lt in Hl as ->|by apply N.ltb_nlt in Hl as ->].
Qed.

(** ** Field checking is exact *)

(** What the schema asks of a document: an object whose field names are
    different names of the schema, with all required fields, without nulls,
    and whose nested objects conform too. *)
Inductive conforms : json_schema → json → Prop :=
| Conforms schema object :
    NoDup object.*1 →
    Forall (λ f, f.2 ≠ JNull ∧ is_Some (field_named f.1 (schema_fields schema))) object →
    (∀ name raw omit inner, (name, raw) ∈ object → field_named name (schema_fields schema) = Some (omit, Some inner) → conforms inner raw) →
    Forall (λ f, f.2.1 = true ∨ f.1 ∈ object.*1) (schema_fields schema) →
    conforms schema (JObject object).

(** The loop over an object's fields, with the recursive calls as a function. *)
Fixpoint fields_loop (check : json_schema → json → result unit) (schema : json_schema) (l : list (string * json)) (seen : gset string) : result (gset string) :=
  match l with
  | [] => Ok seen
  | (name, raw) :: l' =>
      match field_named name (schema_fields schema) with
      | None => Err (EMsg "unknown or duplicate OVM audit field")
      | Some (_, inner) =>
          _ ← reject_if (bool_decide (name ∈ seen)) "unknown or duplicate OVM audit field";
          _ ← reject_if (is_null raw) "OVM audit field must not be null";
          _ ← match inner with Some inner => wrap_err name (check inner raw) | None => Ok () end;
          fields_loop check schema l' ({[name]} ∪ seen)
      end
  end.

Lemma auditJSONFields_object schema object :
  auditJSONFields schema (JObject object) =
  (seen ← fields_loop auditJSONFields schema object ∅;
   reject_if (existsb (λ f, negb (bool_decide (f.1 ∈ seen)) && negb f.2.1) (schema_fields schema)) "missing OVM audit field").
Proof.
  cbn [auditJSONFields]. f_equal. generalize (∅ : gset string). induction object as [|[name raw] object IH]; intros seen; [done|].
  cbn. destruct (field_named _ _) as [[? []]|]; [..|done];
    repeat match goal with |- (?m ≫= _) = (?m ≫= _) => destruct m; [cbn|done] end; apply IH.
Qed.

Definition field_good (check : json_schema → json → result unit) (schema : json_schema) (f : string * json) : Prop :=
  f.2 ≠ JNull ∧ ∃ fd, field_named f.1 (schema_fields schema) = Some fd ∧ match fd.2 with Some inner => check inner f.2 = Ok () | None => True end.

Lemma is_null_false v : is_null v = false ↔ v ≠ JNull.
Proof. by destruct v. Qed.

Lemma wrap_err_unit msg (r : result unit) : wrap_err msg r = Ok () ↔ r = Ok ().
Proof. apply wrap_err_ok. Qed.

Lemma fields_loop_ok check schema l : ∀ seen seen',
  fields_loop check schema l seen = Ok seen' ↔
  NoDup l.*1 ∧ Forall (λ f, (f.1 ∉ seen) ∧ field_good check schema f) l ∧ seen' = seen ∪ list_to_set l.*1.
Proof.
  induction l as [|[name raw] l IH]; intros seen seen'; cbn [fields_loop fmap list_fmap fst].
  { split; [intros [= <-]; split_and!; [constructor..|set_solver]|]. intros (_ & _ & ->). f_equal. set_solver. }
  rewrite NoDup_cons Forall_cons. unfold field_good at 1. cbn [fst snd].
  destruct (field_named name (schema_fields schema)) as [[omit inner]|]; [|split; [done|naive_solver]].
  rewrite !reject_then then_ok bool_decide_eq_false is_null_false IH.
  assert (Hi : (match inner with Some inner => wrap_err name (check inner raw) | None => Ok () end = Ok ()) ↔
               match inner with Some inner => check inner raw = Ok () | None => True end) by (destruct inner; [apply wrap_err_unit|done]).
  rewrite Hi list_to_set_cons. split.
  - intros (Hs & Hn & Hc & Hd & Hf & ->). rewrite Forall_forall in Hf. split_and!; [|done|done..|by exists (omit, inner)| |set_solver].
    + intros Hin. apply list_elem_of_fmap in Hin as (y & He & Hy). destruct (Hf y Hy) as [Hny _]. set_solver.
    + apply Forall_forall. intros f Hfl. destruct (Hf f Hfl) as [Hny Hg]. split; [set_solver|done].
  - intros ([Hn Hd] & ([Hs [Hnn (fd & [= <-] & Hc)]] & Hf) & ->). split_and!; [done..| |set_solver].
    rewrite Forall_forall in Hf. apply Forall_forall. intros f Hfl. destruct (Hf f Hfl) as [Hny Hg]. split; [|done].
    intros [Heq%elem_of_singleton|]%elem_of_union; [|done]. apply Hn. rewrite -Heq. by apply list_elem_of_fmap_2.
Qed.

(** Induction on documents. *)
Lemma json_fields_ind (P : json → Prop) :
  P JNull → (∀ s, P (JString s)) → (∀ t, P (JScalar t)) → (∀ l, P (JArray l)) →
  (∀ object, Forall (λ f, P f.2) object → P (JObject object)) → ∀ v, P v.
Proof.
  intros Hn Hst Hs Ha Ho. fix rec 1. intros [|s|t|l|object]; [done|apply Hst|apply Hs|apply Ha|].
  apply Ho. induction object as [|[name raw] object IH]; constructor; [apply rec|exact IH].
Qed.

Lemma existsb_missing {A} (p : A → bool) l : existsb p l = false ↔ Forall (λ x, p x = false) l.
Proof. induction l as [|x l IH]; cbn; [by split|]. rewrite orb_false_iff Forall_cons IH. done. Qed.

(** the field check of the audit's JSON accepts a document exactly when it
    conforms to the schema at every level: no unknown, duplicate or null
    field and no missing required one. *)
Theorem audit_fields_exact schema v : auditJSONFields schema v = Ok () ↔ conforms schema v.
Proof.
  revert schema. induction v as [| | | |object IH] using json_fields_ind; intros schema; try (split; [done|by inversion 1]).
  rewrite auditJSONFields_object result_bind_ok. rewrite Forall_forall in IH. split.
  - intros (seen & (Hd & Hf & ->)%fields_loop_ok & Hm%reject_if_cases). rewrite Forall_forall in Hf. constructor; [done| | |].
    + apply Forall_forall. intros f Hin. destruct (Hf f Hin) as (_ & ? & fd & ? & _). eauto.
    + intros name raw omit inner Hin Hl. destruct (Hf _ Hin) as (_ & _ & fd & Hl' & Hc). cbn in *. rewrite Hl in Hl'. injection Hl' as <-.
      by apply (IH _ Hin).
    + apply existsb_missing in Hm. eapply Forall_impl; [exact Hm|]. cbn. intros f [Hb|Hb]%andb_false_iff; [right|left].
      * apply negb_false_iff, bool_decide_eq_true in Hb. set_solver.
      * by apply negb_false_iff in Hb.
  - intros Hc. inversion Hc as [schema' object' Hd Hf Hi Hr]; subst. rewrite Forall_forall in Hf. eexists. split; [apply fields_loop_ok; split_and!; [done| |done]|].
    + apply Forall_forall. intros [name raw] Hin. split; [set_solver|]. destruct (Hf _ Hin) as [? [fd Hl]]. split; [done|]. exists fd. split; [done|].
      destruct fd as [omit [inner|]]; [|done]. cbn. apply (IH _ Hin). by eapply Hi.
    + apply reject_if_cases, existsb_missing. eapply Forall_impl; [exact Hr|]. cbn. intros f Hor. apply andb_false_iff.
      destruct Hor as [->|Hin]; [by right|left]. apply negb_false_iff, bool_decide_eq_true. set_solver.
Qed.

(** ** A sample summary *)

Module SampleAudit.

Definition h (n : byte) : Hash := vec_of_bytes 32 (replicate 32 n).

Definition identity : ovmAuditIdentity := MkAuditIdentity 1 (h x01) (h x02) (h x03) 7 (h x04) 0 0 (vec_of_bytes 20 (replicate 20 x0b)).

(** Balances of 1030 against a supply of 1000: 20 of gas, 10 self-destructed. *)
Definition summary : ovmAuditSummary :=
  MkAuditSummary 1 identity "mvm/v1" 1 7
    (MkAuditScan (h x05) (h x06) 3 "500" "500" "0")
    (MkAuditScan (h x07) (h x06) 5 "1030" "1000" "30")
    (MkAuditDelta "530" "500" "30" "20" "10" "0")
    true true true 0 true (Some "-4"%string) false.

Definition head : Head := MkHead 9 (h x08) (h x09).
Definition amounts : OVMBalanceEvidence := MkBalanceEvidence (Some 1100) (Some 1000) (Some 130) 4 1 1 (Some 5).

(** A JSON document of a schema, with placeholder scalars. *)
Fixpoint document (s : json_schema) : json :=
  match s with
  | Schema fields =>
      JObject ((fix go l := match l with
        | [] => []
        | (name, (_, inner)) :: l' => (name, match inner with Some i => document i | None => JScalar "0" end) :: go l'
        end) fields)
  end.

Example document_accepted : auditJSONFields summary_schema (document summary_schema) = Ok ().
Proof. vm_compute. reflexivity. Qed.

Lemma audit_conversion_explained_witness :
  ∃ e m, conversionEvidence summary (h x0a) head amounts = Ok e ∧ audit_explained summary m ∧
    (Z.of_N (1000 + 130) = Z.of_N 1100 + am_gas m + am_suicide m)%Z.
Proof.
  destruct (conversionEvidence summary (h x0a) head amounts) as [e|] eqn:E; [|vm_compute in E; discriminate].
  destruct (audit_conversion_explained summary (h x0a) head amounts e 1100 1000 130) as (m & H1 & _ & _ & _ & H2 & _);
    [vm_compute; reflexivity|exact E|reflexivity..|].
  exists e, m. auto.
Defined.

End SampleAudit.
