(* ===== verification/OvmTransform.v ===== *)
(** * The balance conversion ([ovm_transform.go], [ovm_balance_order.go], [ovm_balance_pipeline.go])

    The token contract OVM_ETH keeps every holder's balance in its storage.
    The conversion reads all its slots, decides with the evidence index what
    each one is, moves the balances of ordinary accounts and of contracts that
    are not retained into the accounts themselves, and rebuilds the token's
    storage trie and the account trie with those patches.

    Tries are read through [TrieReader] (iterators) and [TrieGet] (single
    keys), at the source root only. Balance jobs are inspected by concurrent
    workers and applied in order; [schedule] is the order in which the
    inspections of one window finish. An inspection reads only the source
    state and index entries that the conversion does not write, so it may be
    placed where its window is drained. *)

From S2P Require Import Prelude Geth Instances Manifest StrictIO Records Scanner Bundle Account StateTrie Consumer Stream Traverse AtomicDir Export DirectWriter OvmIndex OvmAudit.

(** [trie.New] and [Trie.Get] of the account trie and of a storage trie; a
    missing key yields no bytes. *)
Class TrieGet := {
  account_open : Hash → result unit;
  account_get : Hash → bytes → result bytes;
  storage_get : Hash → Hash → Hash → bytes → result bytes
}.

(** [rlp.EncodeToBytes] and [rlp.DecodeBytes] at byte strings. *)
Class RLPBytes := {
  rlp_encode_bytes : bytes → result bytes;
  rlp_decode_bytes : bytes → result bytes
}.

(** [OVMERC20RetentionEvidence] ([ovm_report.go]) and [ovmInputs]; [None] is
    the null pointer. *)
Record OVMERC20RetentionEvidence := MkRetentionEvidence { re_FileSHA256 : Hash }.

Record ovmInputs := MkOvmInputs {
  in_audit : option ovmAuditSummary;
  in_auditDigest : Hash;
  in_auditEvidence : option OVMAuditEvidence;
  in_code : bytes;
  in_codeFileDigest : Hash;
  in_witnessDigest : Hash;
  in_allocDigest : Hash;
  in_retention : option OVMERC20RetentionEvidence
}.

(** [inputs.retention != nil]. *)
Definition retention_on (inputs : ovmInputs) : bool := match in_retention inputs with Some _ => true | None => false end.

(** [uint256.Int.SetBytes] and [Bytes]: at most 32 bytes count, and leading
    zeros are dropped. *)
Definition set_bytes256 (l : bytes) : N := be_decode l mod two256.
Fixpoint strip_zeros (l : bytes) : bytes :=
  match l with
  | b :: l' => if bool_decide (b = x00) then strip_zeros l' else l
  | [] => []
  end.
Definition bytes256 (v : N) : bytes := strip_zeros (be_encode 32 v).

(** [common.BigToHash] of a small integer. *)
Definition slot_number (n : N) : Hash := vec_of_bytes 32 (be_encode 32 n).

Definition minMigrateWorkers : Z := 2.
Definition normalizeMigrateWorkers (workers : Z) : nat := Z.to_nat (Z.max workers minMigrateWorkers).

(** ** Reading accounts *)

Definition ovmAccountReadWindow : nat := 32.

(** A reader: whether it holds an open trie, and how often that was read. *)
Record ovmAccountReader := MkReader { rd_open : bool; rd_reads : nat }.
Definition newAccountReader : ovmAccountReader := MkReader false 0.

Section Read.
Context `{EmptyHashes, AccountRLP, TrieGet}.
Context (root : Hash).

Definition emptyAccount : StateAccount := MkStateAccount 0 (Some 0) EmptyRootHash (hash_bytes EmptyCodeHash).

(** What a blob of the account trie means. *)
Definition account_of_blob (blob : bytes) : result StateAccount :=
  if (length blob =? 0)%nat then Ok emptyAccount else decodeFullAccount blob.

Definition reader_read (hash : Hash) : M ovmAccountReader StateAccount :=
  r ← get;
  _ ← (if rd_open r then mret () else
         _ ← lift (account_open root);
         modify (λ r, MkReader true (rd_reads r)));
  let blob := account_get root (hash_bytes hash) in
  _ ← modify (λ r, MkReader (rd_open r) (S (rd_reads r)));
  r ← get;
  _ ← (if (rd_reads r =? ovmAccountReadWindow)%nat || negb (is_ok blob) then modify (λ _, newAccountReader) else mret ());
  blob ← lift blob;
  lift (account_of_blob blob).

Definition readOVMAccount {St} (hash : Hash) : M St StateAccount :=
  '(r, _) ← run_on (reader_read hash) newAccountReader;
  lift r.

End Read.

(** ** The transformer *)

(** [ovmTransformer]: the target database, the index, the token's account, the
    amounts of the evidence, the balance total and the number of slots. *)
Record ovmTransformer := MkTransformer {
  tr_db : store;
  tr_index : ovmIndex;
  tr_account : StateAccount;
  tr_OriginalSupply : N;
  tr_MigratedNative : N;
  tr_RemainingSupply : N;
  tr_EOAs : N;
  tr_ConvertedContracts : N;
  tr_RetainedContracts : N;
  tr_SelfBalance : N;
  tr_total : N;
  tr_balanceSlots : N
}.

Definition set_tr_db (db : store) (t : ovmTransformer) : ovmTransformer :=
  MkTransformer db (tr_index t) (tr_account t) (tr_OriginalSupply t) (tr_MigratedNative t) (tr_RemainingSupply t)
    (tr_EOAs t) (tr_ConvertedContracts t) (tr_RetainedContracts t) (tr_SelfBalance t) (tr_total t) (tr_balanceSlots t).
Definition set_tr_index (i : ovmIndex) (t : ovmTransformer) : ovmTransformer :=
  MkTransformer (tr_db t) i (tr_account t) (tr_OriginalSupply t) (tr_MigratedNative t) (tr_RemainingSupply t)
    (tr_EOAs t) (tr_ConvertedContracts t) (tr_RetainedContracts t) (tr_SelfBalance t) (tr_total t) (tr_balanceSlots t).
Definition set_tr_account (a : StateAccount) (t : ovmTransformer) : ovmTransformer :=
  MkTransformer (tr_db t) (tr_index t) a (tr_OriginalSupply t) (tr_MigratedNative t) (tr_RemainingSupply t)
    (tr_EOAs t) (tr_ConvertedContracts t) (tr_RetainedContracts t) (tr_SelfBalance t) (tr_total t) (tr_balanceSlots t).
Definition set_tr_supply (supply : N) (t : ovmTransformer) : ovmTransformer :=
  MkTransformer (tr_db t) (tr_index t) (tr_account t) supply 0 0 0 0 0 0 (tr_total t) (tr_balanceSlots t).
Definition set_tr_total (v : N) (t : ovmTransformer) : ovmTransformer :=
  MkTransformer (tr_db t) (tr_index t) (tr_account t) (tr_OriginalSupply t) (tr_MigratedNative t) (tr_RemainingSupply t)
    (tr_EOAs t) (tr_ConvertedContracts t) (tr_RetainedContracts t) (tr_SelfBalance t) v (tr_balanceSlots t).

(** The updates of [applyBalance]. *)
Definition count_slot (t : ovmTransformer) : ovmTransformer :=
  MkTransformer (tr_db t) (tr_index t) (tr_account t) (tr_OriginalSupply t) (tr_MigratedNative t) (tr_RemainingSupply t)
    (tr_EOAs t) (tr_ConvertedContracts t) (tr_RetainedContracts t) (tr_SelfBalance t) (tr_total t) (add64 (tr_balanceSlots t) 1).
Definition keep_self (v : N) (t : ovmTransformer) : ovmTransformer :=
  MkTransformer (tr_db t) (tr_index t) (tr_account t) (tr_OriginalSupply t) (tr_MigratedNative t) (add256 (tr_RemainingSupply t) v)
    (tr_EOAs t) (tr_ConvertedContracts t) (tr_RetainedContracts t) v (tr_total t) (tr_balanceSlots t).
Definition keep_contract (v : N) (t : ovmTransformer) : ovmTransformer :=
  MkTransformer (tr_db t) (tr_index t) (tr_account t) (tr_OriginalSupply t) (tr_MigratedNative t) (add256 (tr_RemainingSupply t) v)
    (tr_EOAs t) (tr_ConvertedContracts t) (add64 (tr_RetainedContracts t) 1) (tr_SelfBalance t) (tr_total t) (tr_balanceSlots t).
Definition convert_holder (contract : bool) (v : N) (t : ovmTransformer) : ovmTransformer :=
  MkTransformer (tr_db t) (tr_index t) (tr_account t) (tr_OriginalSupply t) (add256 (tr_MigratedNative t) v) (tr_RemainingSupply t)
    (if contract then tr_EOAs t else add64 (tr_EOAs t) 1)
    (if contract then add64 (tr_ConvertedContracts t) 1 else tr_ConvertedContracts t)
    (tr_RetainedContracts t) (tr_SelfBalance t) (tr_total t) (tr_balanceSlots t).

(** The evidence as it is reported. *)
Definition tr_evidence (t : ovmTransformer) : OVMBalanceEvidence :=
  MkBalanceEvidence (Some (tr_OriginalSupply t)) (Some (tr_MigratedNative t)) (Some (tr_RemainingSupply t))
    (tr_EOAs t) (tr_ConvertedContracts t) (tr_RetainedContracts t) (Some (tr_SelfBalance t)).

Definition on_index {A} (m : M ovmIndex A) : M ovmTransformer A := zoom tr_index set_tr_index m.

(** A balance job, and the batch of jobs in flight with its readers. *)
Record ovmBalanceJob := MkJob {
  job_address : Address;
  job_slot : Hash;
  job_hash : Hash;
  job_value : N;
  job_account : option StateAccount;
  job_contract : bool;
  job_retain : bool
}.

Record ovmBalanceBatch := MkBatch {
  bt_transformer : ovmTransformer;
  bt_queue : list ovmBalanceJob;
  bt_failure : option error;
  bt_readers : list ovmAccountReader
}.

Definition set_bt_transformer (t : ovmTransformer) (b : ovmBalanceBatch) : ovmBalanceBatch :=
  MkBatch t (bt_queue b) (bt_failure b) (bt_readers b).
Definition set_bt_queue (q : list ovmBalanceJob) (b : ovmBalanceBatch) : ovmBalanceBatch :=
  MkBatch (bt_transformer b) q (bt_failure b) (bt_readers b).
Definition set_bt_failure (e : option error) (b : ovmBalanceBatch) : ovmBalanceBatch :=
  MkBatch (bt_transformer b) (bt_queue b) e (bt_readers b).
Definition set_bt_readers (rs : list ovmAccountReader) (b : ovmBalanceBatch) : ovmBalanceBatch :=
  MkBatch (bt_transformer b) (bt_queue b) (bt_failure b) rs.

Definition on_transformer {A} (m : M ovmTransformer A) : M ovmBalanceBatch A := zoom bt_transformer set_bt_transformer m.

(** ** Token storage and metadata *)

Section Transform.
Context `{Keccak, EmptyHashes, AccountRLP, RLPSplit, StackTrie, TrieReader, TrieGet, RLPBytes}.
Context `{RawdbKeys, BatchSize, BatchValueSize, SlimRLP}.
Context (root : Hash) (inputs : ovmInputs) (workers : Z) (schedule : nat → list nat).

Definition ovmOwner : Hash := keccak256 (hash_bytes ovmETHAddress).

Definition decodeOVMValue (blob : bytes) : result N :=
  if (length blob =? 0)%nat then Ok 0 else
  _ ← validateStorageRLP blob;
  value ← rlp_decode_bytes blob;
  Ok (set_bytes256 value).

Definition storageValue (slot : Hash) : M ovmTransformer N :=
  account ← gets tr_account;
  blob ← lift (storage_get root ovmOwner (acc_Root account) (hash_bytes (ovmStorageHash slot)));
  lift (decodeOVMValue blob).

(** The loop of [recognizeString] over the chunks of a long string. *)
Definition recognize_chunks (slot : Hash) (chunks : N) : M ovmTransformer unit :=
  let base := set_bytes256 (hash_bytes (keccak256 (hash_bytes slot))) in
  for_each (seq 0 (N.to_nat chunks)) (λ n,
    _ ← poll;
    let key := be_encode 32 (add256 base (N.of_nat n)) in
    on_index (index_put prefix_k (hash_bytes (keccak256 key)) (drop 31 (hash_bytes slot)))).

Definition recognizeString (slot : Hash) : M ovmTransformer unit :=
  v ← storageValue slot;
  let word := be_encode 32 v in
  if v mod 2 =? 0 then
    let length := N.to_nat (v mod 256 / 2) in
    _ ← lift (reject_if (31 <? length)%nat "invalid short OVM string length");
    lift (reject_if (negb (forallb (λ b, bool_decide (b = x00)) (drop length (take 31 word)))) "noncanonical short OVM string padding")
  else
    let length := v / 2 in
    _ ← lift (reject_if ((two64 <=? length) || (length <? 32)) "invalid long OVM string length");
    recognize_chunks slot ((length - 1) / 32 + 1).

Definition recognize_slot (n : N) : M ovmTransformer unit :=
  let slot := slot_number n in
  if n <? 2 then
    v ← storageValue slot;
    lift (reject_if (negb (v =? 0)) "nonzero OVM mapping base slot")
  else
    _ ← on_index (index_put prefix_k (hash_bytes (ovmStorageHash slot)) [byte_of_N n]);
    if (n =? 3) || (n =? 4) then recognizeString slot else mret ().

Definition recognizeMetadata : M ovmTransformer unit :=
  _ ← for_each [0; 1; 2; 3; 4; 5; 6] recognize_slot;
  on_index index_flush.

(** ** Balance jobs *)

Definition queueBalance (address key : bytes) (value : N) : M ovmTransformer unit :=
  on_index (index_put prefix_q (hash_bytes (keccak256 address)) (address ++ key ++ be_encode 32 value)).

Definition patchAccount (hash : Hash) (account : StateAccount) : M ovmTransformer unit :=
  blob ← lift (rlp_encode_account account);
  on_index (index_put prefix_p (hash_bytes hash) blob).

Definition set_balance (v : N) (a : StateAccount) : StateAccount :=
  MkStateAccount (acc_Nonce a) (Some v) (acc_Root a) (acc_CodeHash a).

(** A job without an account reaches the last branch only as a nil
    dereference, here a failure. *)
Definition applyBalance (b : ovmBalanceJob) : M ovmTransformer unit :=
  let value := job_value b in
  t ← get;
  let '(sum, overflow) := add_overflow256 (tr_total t) value in
  _ ← modify (set_tr_total sum);
  _ ← lift (reject_if overflow "OVM balances sum overflows uint256");
  if value =? 0 then mret () else
  _ ← modify count_slot;
  if bool_decide (job_address b = ovmETHAddress) then modify (keep_self value)
  else if job_contract b && job_retain b then modify (keep_contract value)
  else
    _ ← modify (convert_holder (job_contract b) value);
    match job_account b with
    | None => fail (EMsg "nil account")
    | Some account =>
        _ ← patchAccount (job_hash b) (set_balance value account);
        on_index (index_put prefix_s (hash_bytes (job_slot b)) [])
    end.

Definition borrowReader : M ovmBalanceBatch ovmAccountReader :=
  b ← get;
  match bt_readers b with
  | r :: rs => _ ← modify (set_bt_readers rs); mret r
  | [] => mret newAccountReader
  end.

Definition returnReader (r : ovmAccountReader) : M ovmBalanceBatch unit :=
  modify (λ b, if (length (bt_readers b) <? normalizeMigrateWorkers workers)%nat then set_bt_readers (bt_readers b ++ [r]) b else b).

(** The lease is acquired first, which polls the context. The result is the
    job with what the inspection found. *)
Definition inspect (job : ovmBalanceJob) : M ovmBalanceBatch ovmBalanceJob :=
  _ ← poll;
  if bool_decide (job_address job = ovmETHAddress) || (job_value job =? 0) then mret job else
  reader ← borrowReader;
  '(r, reader) ← run_on (reader_read root (job_hash job)) reader;
  _ ← returnReader reader;
  account ← lift r;
  _ ← lift (reject_if (negb (default 0 (acc_Balance account) =? 0)) "OVM conversion encountered nonzero source native balance");
  let contract := negb (bytes_equal (acc_CodeHash account) (hash_bytes EmptyCodeHash)) in
  let inspected retain := MkJob (job_address job) (job_slot job) (job_hash job) (job_value job) (Some account) contract retain in
  if negb contract then mret (inspected false) else
  listed ← (if retention_on inputs
            then on_transformer (on_index (index_get ovmERC20RetainPrefix (hash_bytes (job_address job)))) else mret None);
  match listed with
  | Some _ => mret (inspected true)
  | None =>
      sent ← on_transformer (on_index (index_get prefix_f (hash_bytes (job_address job))));
      mret (inspected (match sent with Some _ => true | None => false end))
  end.

(** The inspections of the jobs of a window, in the order of [order]; the
    first failure is recorded and ends the others. *)
Fixpoint inspect_jobs (order : list nat) (jobs : list ovmBalanceJob) : M ovmBalanceBatch (list ovmBalanceJob) :=
  match order with
  | [] => mret jobs
  | n :: order' =>
      match jobs !! n with
      | None => inspect_jobs order' jobs
      | Some job =>
          r ← attempt (inspect job);
          match r with
          | Err e => _ ← modify (set_bt_failure (Some e)); fail e
          | Ok job' => inspect_jobs order' (<[n := job']> jobs)
          end
      end
  end.

Definition drain : M ovmBalanceBatch unit :=
  queue ← gets bt_queue;
  jobs ← inspect_jobs (schedule (length queue)) queue;
  _ ← for_each jobs (λ job, _ ← poll; on_transformer (applyBalance job));
  modify (set_bt_queue []).

Definition submit (address : Address) (slot : Hash) (value : N) : M ovmBalanceBatch unit :=
  _ ← poll;
  queue ← gets bt_queue;
  _ ← (if (length queue =? 2 * normalizeMigrateWorkers workers)%nat then drain else mret ());
  let job := MkJob address slot (keccak256 (hash_bytes address)) value None false false in
  modify (λ b, set_bt_queue (bt_queue b ++ [job]) b).

(** The checks of [inspectOrderedBalances] on one queued record. *)
Definition parse_job (key record : bytes) : result (Address * Hash * N) :=
  _ ← reject_if (negb (length key =? 1 + HashLength)%nat || negb (length record =? AddressLength + 2 * HashLength)%nat)
        "invalid indexed OVM balance job";
  let address := vec_of_bytes 20 (take AddressLength record) in
  _ ← reject_if (negb (bytes_equal (drop 1 key) (hash_bytes (keccak256 (hash_bytes address))))) "indexed OVM balance job account hash mismatch";
  Ok (address, vec_of_bytes 32 (take HashLength (drop AddressLength record)), set_bytes256 (drop (AddressLength + HashLength) record)).

Definition inspectOrderedBalances : M ovmBalanceBatch unit :=
  _ ← on_transformer (on_index index_flush);
  db ← gets (λ b, ix_db (tr_index (bt_transformer b)));
  _ ← for_each (db_iterate db [prefix_q] []) (λ kv,
        _ ← poll;
        _ ← poll;
        '(address, slot, value) ← lift (parse_job kv.1 kv.2);
        submit address slot value);
  _ ← poll;
  _ ← io;
  drain.

(** ** Classification *)

(** The three cursors, over the index of the transformer. *)
Record classifier := MkClassifier {
  cl_transformer : ovmTransformer;
  cl_b : ovmStorageCursor;
  cl_a : ovmStorageCursor;
  cl_k : ovmStorageCursor
}.

Definition set_cl_transformer (t : ovmTransformer) (c : classifier) : classifier := MkClassifier t (cl_b c) (cl_a c) (cl_k c).
Definition set_cl_b (x : ovmStorageCursor) (c : classifier) : classifier := MkClassifier (cl_transformer c) x (cl_a c) (cl_k c).
Definition set_cl_a (x : ovmStorageCursor) (c : classifier) : classifier := MkClassifier (cl_transformer c) (cl_b c) x (cl_k c).
Definition set_cl_k (x : ovmStorageCursor) (c : classifier) : classifier := MkClassifier (cl_transformer c) (cl_b c) (cl_a c) x.

Definition found {A} (o : option A) : nat := match o with Some _ => 1 | None => 0 end.

Definition classifySlot (key : bytes) (value : N) : M classifier unit :=
  db ← gets (λ c, ix_db (tr_index (cl_transformer c)));
  address ← zoom cl_b set_cl_b (cursor_get db key);
  allowance ← zoom cl_a set_cl_a (cursor_get db key);
  metadata ← zoom cl_k set_cl_k (cursor_get db key);
  _ ← lift (reject_if (negb (found address + found allowance + found metadata =? 1)%nat)
        "storage ownership is unknown or ambiguous; supplement --ovm-state-witness");
  match address with
  | None => mret ()
  | Some address =>
      _ ← lift (reject_if (negb (length address =? 20)%nat) "invalid indexed balance address");
      zoom cl_transformer set_cl_transformer (queueBalance address key value)
  end.

(** One leaf of the token's storage trie. *)
Definition classify_leaf (kv : bytes * bytes) : M classifier unit :=
  _ ← poll;
  value ← lift (decodeOVMValue kv.2);
  _ ← lift (reject_if (negb (length kv.1 =? 32)%nat) "invalid OVM storage key length");
  wrap "OVM storage" (classifySlot kv.1 value).

Definition classify_leaves (leaves : list (bytes * bytes)) : M ovmTransformer unit :=
  t ← get;
  '(r, c) ← run_on (for_each leaves classify_leaf) (MkClassifier t (MkCursor prefix_b None) (MkCursor prefix_a None) (MkCursor prefix_k None));
  _ ← modify (λ _, cl_transformer c);
  lift r.

(** [classifyStorage]; the deferred call joins the failure of an inspection. *)
Definition classifyStorage : M ovmTransformer unit :=
  account ← gets tr_account;
  '(leaves, iterErr) ← lift (storage_iterator root ovmOwner (acc_Root account));
  _ ← classify_leaves leaves;
  _ ← poll;
  _ ← match iterErr with Some e => fail e | None => mret () end;
  t ← get;
  '(r, b) ← run_on inspectOrderedBalances (MkBatch t [] None []);
  _ ← modify (λ _, bt_transformer b);
  match errors_join (match r with Err e => Some e | Ok _ => None end) (bt_failure b) with
  | Some e => fail e
  | None => mret ()
  end.

(** ** Rebuilding patched tries *)

Definition raise_node_err {V} : M (sink_state V) unit :=
  s ← get;
  match nodeWriteErr s with Some e => fail e | None => mret () end.

Definition patched_Update (owner : Hash) (st : stack) (key value : bytes) : M (sink_state target) stack :=
  if (length value =? 0)%nat then mret st else
  st' ← traversal_Update (Some directSink) owner st key value;
  _ ← raise_node_err;
  mret st'.

(** The merge of the original leaves and the patches; the keys of the patches
    are without their prefix. *)
Fixpoint rebuild_loop (owner : Hash) (patches original : list (bytes * bytes)) (st : stack) {struct patches} : M (sink_state target) stack :=
  (fix inner (original : list (bytes * bytes)) (st : stack) {struct original} : M (sink_state target) stack :=
     match patches, original with
     | [], [] => mret st
     | (pk, pv) :: patches', [] =>
         _ ← poll;
         st' ← patched_Update owner st pk pv;
         rebuild_loop owner patches' [] st'
     | [], (ok, ov) :: original' =>
         _ ← poll;
         st' ← patched_Update owner st ok ov;
         inner original' st'
     | (pk, pv) :: patches', (ok, ov) :: original' =>
         _ ← poll;
         if bool_decide (bytes_le pk ok) then
           st' ← patched_Update owner st pk pv;
           rebuild_loop owner patches' (if bytes_equal pk ok then original' else original) st'
         else
           st' ← patched_Update owner st ok ov;
           inner original' st'
     end) original st.

(** [rebuildPatchedTriePrefix] on an open iterator: its leaves and error. *)
Definition rebuild_on_target (owner : Hash) (leaves : list (bytes * bytes)) (iterErr : option error) (patches : list (bytes * bytes)) : M target Hash :=
  t ← get;
  '(r, s) ← run_on
    (st ← rebuild_loop owner patches leaves stack_new;
     p ← attempt io;
     _ ← match errors_join iterErr (match p with Err e => Some e | Ok _ => None end) with Some e => fail e | None => mret () end;
     newRoot ← traversal_Hash (Some directSink) owner st;
     _ ← raise_node_err;
     mret newRoot) (MkSinkState t None);
  _ ← modify (λ _, env s);
  newRoot ← lift r;
  _ ← CloseContext;
  mret newRoot.

Definition rebuildPatchedTriePrefix (owner : Hash) (original : list (bytes * bytes) * option error) (prefix : bytes) : M ovmTransformer Hash :=
  t ← get;
  let patches := map (λ kv, (drop (length prefix) kv.1, kv.2)) (db_iterate (ix_db (tr_index t)) prefix []) in
  '(r, tg) ← run_on (rebuild_on_target owner original.1 original.2 patches) (MkTarget (tr_db t) (newDirectStateWriter HashScheme));
  _ ← modify (set_tr_db (tg_db tg));
  lift r.

Definition rebuildPatchedTrie (owner : Hash) (original : list (bytes * bytes) * option error) (prefix : byte) : M ovmTransformer Hash :=
  rebuildPatchedTriePrefix owner original [prefix].

Definition rebuildStorage (owner : Hash) : M ovmTransformer Hash :=
  t ← get;
  supply ← (if tr_RemainingSupply t =? 0 then mret [] else lift (rlp_encode_bytes (bytes256 (tr_RemainingSupply t))));
  _ ← on_index (index_put prefix_s (hash_bytes (ovmStorageHash (slot_number 2))) supply);
  _ ← on_index index_flush;
  it ← lift (storage_iterator root owner (acc_Root (tr_account t)));
  rebuildPatchedTrie owner it prefix_s.

Definition rebuildAccounts : M ovmTransformer Hash :=
  it ← lift (account_iterator root);
  rebuildPatchedTrie zero_hash it prefix_p.

(** ** The conversion *)

(** [validateOVMERC20RetainList] at one index entry; one reader serves the
    whole list. *)
Definition validate_retained (kv : bytes * bytes) : M ovmAccountReader unit :=
  _ ← poll;
  _ ← lift (reject_if (negb (length kv.1 =? 1 + AddressLength)%nat || negb (bytes_equal kv.2 [x01])) "invalid ERC20 retention index record");
  let address : Address := vec_of_bytes 20 (drop 1 kv.1) in
  account ← wrap "read retained contract" (reader_read root (keccak256 (hash_bytes address)));
  lift (reject_if (bool_decide (address = ovmETHAddress) || bytes_equal (acc_CodeHash account) (hash_bytes EmptyCodeHash))
    "ERC20 retain address must be a non-OVM_ETH contract with code at the source head").

Definition validateOVMERC20RetainList {St} (index : ovmIndex) : M St unit :=
  '(r, _) ← run_on (for_each (db_iterate (ix_db index) [ovmERC20RetainPrefix] []) validate_retained) newAccountReader;
  _ ← lift r;
  _ ← wrap "iterate ERC20 retain list" io;
  poll.

(** The new code of the token, written with its own writer. *)
Definition write_code (codeHash : Hash) : M ovmTransformer unit :=
  t ← get;
  '(r, tg) ← run_on (_ ← dw_Code ovmOwner codeHash (in_code inputs); CloseContext)
                    (MkTarget (tr_db t) (newDirectStateWriter HashScheme));
  _ ← modify (set_tr_db (tg_db tg));
  lift r.

(** The token's account after the conversion. *)
Definition converted_account (storageRoot : Hash) (remaining : N) (codeHash : Hash) (a : StateAccount) : StateAccount :=
  MkStateAccount (acc_Nonce a) (Some remaining) storageRoot (hash_bytes codeHash).

(** The first part of [transformOVMState]: read and classify, check the sums. *)
Definition transform_classify (head : Head) : M ovmTransformer unit :=
  account ← readOVMAccount root ovmOwner;
  _ ← lift (reject_if (bool_decide (BytesToHash (acc_CodeHash account) = EmptyCodeHash)) "OVM_ETH contract is missing or has no code");
  _ ← modify (set_tr_account account);
  t ← get;
  _ ← (if retention_on inputs then validateOVMERC20RetainList (tr_index t) else mret ());
  supply ← storageValue (slot_number 2);
  _ ← modify (set_tr_supply supply);
  _ ← recognizeMetadata;
  _ ← classifyStorage;
  t ← get;
  _ ← lift (match in_audit inputs with
            | Some audit => matchAccounting audit (BlockNumber head) (BytesToHash (acc_CodeHash account)) (tr_balanceSlots t) (tr_total t) supply
            | None => reject_if (negb (tr_total t =? supply)) "OVM totalSupply mismatch"
            end);
  let '(rest, underflow) := sub_overflow256 (tr_total t) (tr_MigratedNative t) in
  _ ← lift (reject_if underflow "OVM supply subtraction underflow");
  lift (reject_if (negb (rest =? tr_RemainingSupply t)) "OVM balance conservation mismatch").

(** The second part: rebuild the token's storage, write its code, patch its
    account and rebuild the account trie. *)
Definition transform_rebuild : M ovmTransformer (Hash * OVMBalanceEvidence) :=
  _ ← on_index index_flush;
  storageRoot ← rebuildStorage ovmOwner;
  let codeHash := keccak256 (in_code inputs) in
  _ ← modify (λ t, set_tr_account (converted_account storageRoot (tr_RemainingSupply t) codeHash (tr_account t)) t);
  _ ← write_code codeHash;
  t ← get;
  _ ← patchAccount ovmOwner (tr_account t);
  _ ← on_index index_flush;
  newRoot ← rebuildAccounts;
  evidence ← gets tr_evidence;
  mret (newRoot, evidence).

Definition transform_body (head : Head) : M ovmTransformer (Hash * OVMBalanceEvidence) :=
  _ ← transform_classify head;
  transform_rebuild.

(** [transformOVMState]; closing the trie database is the deferred call. *)
Definition transformOVMState (head : Head) : M ovmTransformer (Hash * OVMBalanceEvidence) :=
  r ← attempt (transform_body head);
  c ← attempt io;
  match errors_join (match r with Err e => Some e | Ok _ => None end) (match c with Err e => Some e | Ok _ => None end) with
  | Some e => fail e
  | None => lift r
  end.

(** The transformer a conversion starts with. *)
Definition newTransformer (db : store) (index : ovmIndex) : ovmTransformer :=
  MkTransformer db index emptyAccount 0 0 0 0 0 0 0 0 0.

End Transform.

(** ** The index under writes to other namespaces *)

Section IndexFrame.
Context `{BatchSize, BatchValueSize}.

(** The index holds what the store [V] holds outside the namespaces [ns], and
    has it written. *)
Definition agrees (ns : list byte) (V : store) (i : ovmIndex) : Prop :=
  ∀ n key, n ∉ ns → ix_db i !! (n :: key) = V !! (n :: key) ∧ ix_view i !! (n :: key) = V !! (n :: key).

Lemma agrees_flushed ns V : agrees ns V (MkOvmIndex V []).
Proof. done. Qed.

Lemma index_flush_ok i w u i' w' : index_flush i w = (Ok u, i', w') → i' = MkOvmIndex (ix_view i) [].
Proof. unfold index_flush. intros Hr. by minv. Qed.

Lemma index_put_cases p k v i w u i' w' :
  index_put p k v i w = (Ok u, i', w') →
  ix_view i' = <[p :: k := v]> (ix_view i) ∧ (ix_db i' = ix_db i ∨ ix_db i' = ix_view i').
Proof.
  unfold index_put, index_add. intros (u0 & i1 & w1 & Ha & Hr)%bind_ok. apply bind_ok in Ha as (u1 & i2 & w2 & ->%io_ok & [-> ->]%modify_ok).
  apply bind_ok in Hr as (i3 & i4 & w3 & (-> & -> & ->)%get_ok & Hr). set (i3 := MkOvmIndex _ _) in Hr.
  assert (Hv : ix_view i3 = <[p :: k := v]> (ix_view i)) by (rewrite /i3 ix_view_add; done).
  destruct (index_full i3).
  - apply index_flush_ok in Hr as ->. split; [done|by right].
  - minv. split; [done|by left].
Qed.

Lemma index_put_view p k v i w u i' w' :
  index_put p k v i w = (Ok u, i', w') → ix_view i' = <[p :: k := v]> (ix_view i).
Proof. by intros [? _]%index_put_cases. Qed.

Lemma index_put_agrees ns V p k v i w u i' w' :
  p ∈ ns → agrees ns V i → index_put p k v i w = (Ok u, i', w') → agrees ns V i'.
Proof.
  intros Hp Ha [Hv Hd]%index_put_cases n key Hn. destruct (Ha n key Hn) as [H1 H2].
  assert (Hl : ix_view i' !! (n :: key) = V !! (n :: key)).
  { rewrite Hv lookup_insert_ne //. intros [= -> _]. done. }
  split; [|done]. by destruct Hd as [->| ->].
Qed.

Lemma index_flush_agrees ns V i w u i' w' : agrees ns V i → index_flush i w = (Ok u, i', w') → agrees ns V i'.
Proof. intros Ha ->%index_flush_ok n key Hn. destruct (Ha n key Hn). done. Qed.

(** A cursor may be used across such writes. *)
Lemma cursor_at_ext db db' p key c :
  (∀ k, db !! (p :: k) = db' !! (p :: k)) → cursor_at db p key c → cursor_at db' p key c.
Proof.
  intros He [Hp Hc]. split; [done|]. destruct (c_it c) as [l|]; [|done]. destruct Hc as [H1 H2 H3]. split; [done| |].
  - intros k v Hin. destruct (H2 k v Hin) as [Hk [rest ->]]. rewrite -He. eauto.
  - intros k v. rewrite -He. apply H3.
Qed.

Lemma index_get_ok p key i w r i' w' : index_get p key i w = (Ok r, i', w') → r = ix_db i !! (p :: key) ∧ i' = i.
Proof. unfold index_get. intros Hr. minv. done. Qed.

End IndexFrame.

(** ** Reading accounts *)

Section ReadLemmas.
Context `{EmptyHashes, AccountRLP, TrieGet}.
Context (root : Hash).

(** The account the source state has at a hash. *)
Definition source_account (hash : Hash) : result StateAccount :=
  _ ← account_open root;
  blob ← account_get root (hash_bytes hash);
  account_of_blob blob.

(** A reader with an open trie opened it successfully, and stays within its window. *)
Definition reader_wf (r : ovmAccountReader) : Prop :=
  (rd_open r = true → account_open root = Ok ()) ∧ (rd_reads r < ovmAccountReadWindow)%nat.

Lemma reader_read_ok hash r w x r' w' :
  reader_wf r → reader_read root hash r w = (x, r', w') → reader_wf r' ∧ w' = w ∧ (∀ a, x = Ok a → source_account hash = Ok a).
Proof.
  intros [Ho Hn] Hr. unfold reader_read, source_account, mbind, M_bind, get, lift, modify, mret, M_ret in *.
  destruct r as [o n], (account_open root) as [[]|e] eqn:Eo; cbn [rd_open rd_reads] in *; cycle 1.
  { destruct o; [by specialize (Ho eq_refl)|]. cbn in Hr. injection Hr as <- <- <-. split_and!; [by split|done..]. }
  assert (Hw : ∀ b, reader_wf (if (S n =? ovmAccountReadWindow)%nat || b then newAccountReader else MkReader true (S n))).
  { intros b. destruct (Nat.eqb_spec (S n) ovmAccountReadWindow), b; cbn [orb]; (split; [done|]); cbn [rd_reads newAccountReader]; unfold ovmAccountReadWindow in *; lia. }
  destruct o, (account_get root (hash_bytes hash)) as [blob|e]; specialize (Hw false) as Hwf; specialize (Hw true) as Hwt;
    destruct (_ =? _)%nat eqn:E in Hr; cbn in Hr; injection Hr as <- <- <-; rewrite ?E in Hwf; rewrite orb_true_r in Hwt; by split_and!.
Qed.

End ReadLemmas.

(** ** Classification *)

Section ClassifyLemmas.
Context `{Keccak, RLPSplit, RLPBytes, BatchSize, BatchValueSize}.
Implicit Types (V : store) (t : ovmTransformer).

(** What a storage leaf is, by single lookups in the evidence [V]: a balance
    of an address, or something else that the evidence explains. *)
Definition classify_spec V (kv : bytes * bytes) : result (option (Address * Hash * N)) :=
  value ← decodeOVMValue kv.2;
  _ ← reject_if (negb (length kv.1 =? 32)%nat) "invalid OVM storage key length";
  _ ← reject_if (negb (found (V !! (prefix_b :: kv.1)) + found (V !! (prefix_a :: kv.1)) + found (V !! (prefix_k :: kv.1)) =? 1)%nat)
        "storage ownership is unknown or ambiguous; supplement --ovm-state-witness";
  match V !! (prefix_b :: kv.1) with
  | None => Ok None
  | Some address =>
      _ ← reject_if (negb (length address =? 20)%nat) "invalid indexed balance address";
      Ok (Some (vec_of_bytes 20 address, vec_of_bytes 32 kv.1, value))
  end.

(** The queued record of a job. *)
Definition job_record (j : Address * Hash * N) : bytes := hash_bytes j.1.1 ++ hash_bytes j.1.2 ++ be_encode 32 j.2.
Definition job_key (j : Address * Hash * N) : bytes := prefix_q :: hash_bytes (keccak256 (hash_bytes j.1.1)).
Definition queue_job (V : store) (j : Address * Hash * N) : store := <[job_key j := job_record j]> V.

(** The namespaces a conversion writes. *)
Definition scratch : list byte := [prefix_q; prefix_p; prefix_s].

Lemma evidence_not_scratch :
  (prefix_b ∉ scratch) ∧ (prefix_a ∉ scratch) ∧ (prefix_k ∉ scratch) ∧ (prefix_f ∉ scratch) ∧ ovmERC20RetainPrefix ∉ scratch.
Proof. split_and!; refine (bool_decide_unpack _ _); vm_compute; exact I. Qed.

(** The cursors stand at [last]. *)
Definition classifier_at V (last : bytes) (c : classifier) : Prop :=
  agrees scratch V (tr_index (cl_transformer c)) ∧
  cursor_at V prefix_b last (cl_b c) ∧ cursor_at V prefix_a last (cl_a c) ∧ cursor_at V prefix_k last (cl_k c).

Lemma cursor_get_agrees V p last key i c w r c' w' :
  agrees scratch V i → p ∉ scratch → cursor_at V p last c → bytes_le last key →
  cursor_get (ix_db i) key c w = (Ok r, c', w') → r = V !! (p :: key) ∧ cursor_at V p key c'.
Proof.
  intros Ha Hp Hc Hl Hr. assert (He : ∀ k, ix_db i !! (p :: k) = V !! (p :: k)) by (intros k; by apply Ha).
  apply (cursor_get_ok _ p last) in Hr as [-> Hc']; [|by apply (cursor_at_ext V)|done]. split; [apply He|by apply (cursor_at_ext (ix_db i))].
Qed.

Lemma classify_leaf_ok V last kv c w u c' w' :
  classifier_at V last c → bytes_le last kv.1 → classify_leaf kv c w = (Ok u, c', w') →
  ∃ oj i', classify_spec V kv = Ok oj ∧ cl_transformer c' = set_tr_index i' (cl_transformer c) ∧ classifier_at V kv.1 c' ∧
    ix_view i' = from_option (queue_job (ix_view (tr_index (cl_transformer c)))) (ix_view (tr_index (cl_transformer c))) oj.
Proof.
  intros (Ha & Hb & Hal & Hk) Hl Hr. unfold classify_leaf in Hr.
  apply bind_ok in Hr as (u0 & c0 & w0 & ->%poll_ok & Hr). apply bind_ok in Hr as (v & c0 & w1 & (Hv & -> & ->)%lift_ok & Hr).
  apply bind_ok in Hr as (u1 & c0 & w1 & (Hlen%reject_if_ok & -> & ->)%lift_ok & Hr). apply wrap_ok in Hr. unfold classifySlot in Hr.
  apply bind_ok in Hr as (db & c0 & w1 & (-> & -> & ->)%gets_ok & Hr).
  apply bind_ok in Hr as (oa & c1 & w1 & (cb & Hgb & ->)%zoom_ok & Hr). apply bind_ok in Hr as (ol & c2 & w2 & (ca & Hga & ->)%zoom_ok & Hr).
  apply bind_ok in Hr as (om & c3 & w3 & (ck & Hgk & ->)%zoom_ok & Hr).
  apply (cursor_get_agrees V prefix_b last) in Hgb as [-> Hb']; [|done|apply evidence_not_scratch|done..].
  apply (cursor_get_agrees V prefix_a last) in Hga as [-> Hal']; [|done|apply evidence_not_scratch|done..].
  apply (cursor_get_agrees V prefix_k last) in Hgk as [-> Hk']; [|done|apply evidence_not_scratch|done..].
  apply bind_ok in Hr as (u2 & c4 & w4 & (Hf%reject_if_ok & -> & ->)%lift_ok & Hr).
  unfold classify_spec. rewrite Hv. cbn. rewrite Hlen Hf. cbn. destruct (V !! (prefix_b :: kv.1)) as [a|] eqn:Eb.
  - apply bind_ok in Hr as (u3 & c5 & w5 & (Hla%reject_if_ok & -> & ->)%lift_ok & Hr). rewrite Hla. cbn.
    apply zoom_ok in Hr as (t' & Hq & ->). unfold queueBalance, on_index in Hq. apply zoom_ok in Hq as (i' & Hq & ->). cbn in Hq.
    apply negb_false_iff, Nat.eqb_eq in Hla, Hlen.
    eexists _, i'. split; [done|]. split; [done|]. split.
    + split; [|done]. cbn. eapply index_put_agrees; [|exact Ha|exact Hq]. left.
    + apply index_put_view in Hq as ->. cbn. unfold queue_job, job_key, job_record. cbn. by rewrite !hash_bytes_of.
  - apply ret_ok in Hr as (_ & -> & ->). exists None, (tr_index (cl_transformer c)). split; [done|]. split; [by destruct c as [[]]|]. by split.
Qed.

Lemma classify_all_ok V last leaves c w u c' w' :
  classifier_at V last c → StronglySorted bytes_lt leaves.*1 → Forall (λ kv, bytes_le last kv.1) leaves →
  for_each leaves classify_leaf c w = (Ok u, c', w') →
  ∃ ojs i', mapM (classify_spec V) leaves = Ok ojs ∧ cl_transformer c' = set_tr_index i' (cl_transformer c) ∧ agrees scratch V i' ∧
    ix_view i' = foldl queue_job (ix_view (tr_index (cl_transformer c))) (omap id ojs).
Proof.
  revert last c w. induction leaves as [|kv leaves IH]; intros last c w Hc Hs Hl Hr; cbn [for_each] in Hr.
  - apply ret_ok in Hr as (_ & -> & ->). exists [], (tr_index (cl_transformer c)). split; [done|]. split; [by destruct c as [[]]|]. split; [apply Hc|done].
  - cbn in Hs. apply StronglySorted_inv in Hs as [Hs Hf]. apply Forall_cons in Hl as [Hl _].
    apply bind_ok in Hr as (u0 & c1 & w1 & Hr1 & Hr). apply (classify_leaf_ok V last) in Hr1 as (oj & i1 & Hsp & Ht & Hc1 & Hv); [|done..].
    apply (IH kv.1) in Hr as (ojs & i' & Hm & Ht' & Ha & Hv'); [|done|done|].
    2: { rewrite Forall_fmap in Hf. eapply Forall_impl; [exact Hf|]. intros kv'. apply bytes_lt_le. }
    exists (oj :: ojs), i'. split_and!; [|by rewrite Ht' Ht|done|].
    + cbn [mapM]. rewrite Hsp. cbn. by rewrite Hm.
    + rewrite Hv' Ht. cbn [tr_index set_tr_index]. rewrite Hv. by destruct oj.
Qed.

Lemma classify_leaves_ok V leaves t w u t' w' :
  agrees scratch V (tr_index t) → StronglySorted bytes_lt leaves.*1 → classify_leaves leaves t w = (Ok u, t', w') →
  ∃ ojs i', mapM (classify_spec V) leaves = Ok ojs ∧ t' = set_tr_index i' t ∧ agrees scratch V i' ∧
    ix_view i' = foldl queue_job (ix_view (tr_index t)) (omap id ojs).
Proof.
  intros Ha Hs Hr. unfold classify_leaves in Hr. apply bind_ok in Hr as (t0 & t1 & w1 & (-> & -> & ->)%get_ok & Hr).
  apply bind_ok in Hr as ([r c] & t1 & w1 & [Hf ->]%run_on_ok & Hr). cbn in Hf, Hr.
  apply bind_ok in Hr as (u0 & t1 & w2 & [-> ->]%modify_ok & Hr). apply lift_ok in Hr as (-> & -> & ->).
  destruct leaves as [|kv leaves].
  - cbn in Hf. apply ret_ok in Hf as (_ & -> & ->). exists [], (tr_index t). split; [done|]. split; [by destruct t|]. done.
  - apply (classify_all_ok V kv.1) in Hf; [done|done|done|]. constructor; [apply bytes_le_refl|].
    cbn in Hs. apply StronglySorted_inv in Hs as [_ Hf']. rewrite Forall_fmap in Hf'. eapply Forall_impl; [exact Hf'|]. intros kv'. apply bytes_lt_le.
Qed.

End ClassifyLemmas.

(** ** The balance pipeline *)

Section PipelineLemmas.
Context `{Keccak, EmptyHashes, AccountRLP, TrieGet, BatchSize, BatchValueSize}.
Context (root : Hash) (inputs : ovmInputs) (workers : Z).
Implicit Types (V : store) (t : ovmTransformer) (b : ovmBalanceBatch) (job : ovmBalanceJob).

(** What an inspection finds, with single lookups in the source state and in
    the evidence [V]. *)
Definition inspect_spec V job : result ovmBalanceJob :=
  if bool_decide (job_address job = ovmETHAddress) || (job_value job =? 0) then Ok job else
  account ← source_account root (job_hash job);
  _ ← reject_if (negb (default 0 (acc_Balance account) =? 0)) "OVM conversion encountered nonzero source native balance";
  let contract := negb (bytes_equal (acc_CodeHash account) (hash_bytes EmptyCodeHash)) in
  let listed p := match V !! (p :: hash_bytes (job_address job)) with Some _ => true | None => false end in
  Ok (MkJob (job_address job) (job_slot job) (job_hash job) (job_value job) (Some account) contract
        (contract && ((retention_on inputs && listed ovmERC20RetainPrefix) || listed prefix_f))).

Definition batch_ok V b : Prop :=
  agrees scratch V (tr_index (bt_transformer b)) ∧ Forall (reader_wf root) (bt_readers b).

(** Only the readers of a batch change. *)
Definition same_work b b' : Prop :=
  bt_transformer b' = bt_transformer b ∧ bt_queue b' = bt_queue b ∧ bt_failure b' = bt_failure b.

Lemma newAccountReader_wf : reader_wf root newAccountReader.
Proof. split; [done|]. cbn. unfold ovmAccountReadWindow. lia. Qed.

Lemma borrowReader_ok V b w r b' w' :
  batch_ok V b → borrowReader b w = (Ok r, b', w') → reader_wf root r ∧ batch_ok V b' ∧ same_work b b'.
Proof.
  intros [Ha Hf] Hr. unfold borrowReader in Hr. apply bind_ok in Hr as (b0 & b1 & w1 & (-> & -> & ->)%get_ok & Hr).
  destruct (bt_readers b) as [|r0 rs] eqn:E.
  - apply ret_ok in Hr as (-> & -> & ->). split; [apply newAccountReader_wf|]. split; [split; [done|by rewrite E]|done].
  - apply bind_ok in Hr as (u & b1 & w1 & [-> ->]%modify_ok & Hr). apply ret_ok in Hr as (-> & -> & ->).
    apply Forall_cons in Hf as [Hr0 Hf]. done.
Qed.

Lemma returnReader_ok V r b w u b' w' :
  reader_wf root r → batch_ok V b → returnReader workers r b w = (Ok u, b', w') → batch_ok V b' ∧ same_work b b'.
Proof.
  intros Hw [Ha Hf] [-> ->]%modify_ok. destruct (_ <? _)%nat; [|done]. split; [|done]. split; [done|]. by apply Forall_app_2; [|constructor].
Qed.

Lemma batch_get_ok p key b w r b' w' :
  on_transformer (on_index (index_get p key)) b w = (Ok r, b', w') →
  b' = b ∧ r = ix_db (tr_index (bt_transformer b)) !! (p :: key).
Proof.
  unfold on_transformer, on_index. intros (t & (i & [-> ->]%index_get_ok & ->)%zoom_ok & ->)%zoom_ok. by destruct b as [[]].
Qed.

Lemma evidence_written V b p key :
  batch_ok V b → p ∉ scratch → ix_db (tr_index (bt_transformer b)) !! (p :: key) = V !! (p :: key).
Proof. intros [Ha _] Hp. by apply Ha. Qed.

Lemma inspect_ok V job b w job' b' w' :
  batch_ok V b → inspect root inputs workers job b w = (Ok job', b', w') →
  inspect_spec V job = Ok job' ∧ batch_ok V b' ∧ same_work b b'.
Proof.
  intros Hb Hr. unfold inspect, inspect_spec in *. apply bind_ok in Hr as (u & b0 & w0 & ->%poll_ok & Hr).
  destruct (_ || _); [by apply ret_ok in Hr as (-> & -> & ->)|].
  apply bind_ok in Hr as (r & b1 & w1 & Hbor & Hr). apply (borrowReader_ok V) in Hbor as (Hrd & Hb1 & Hs1); [|done].
  apply bind_ok in Hr as ([x r'] & b2 & w2 & [Hread ->]%run_on_ok & Hr). cbn in Hread, Hr.
  apply reader_read_ok in Hread as (Hrd' & _ & Hx); [|done].
  apply bind_ok in Hr as (u1 & b2 & w3 & Hret & Hr). apply (returnReader_ok V) in Hret as [Hb2 Hs2]; [|done..].
  apply bind_ok in Hr as (a & b3 & w4 & (-> & -> & ->)%lift_ok & Hr). rewrite (Hx a eq_refl). cbn.
  apply bind_ok in Hr as (u2 & b3 & w4 & (Hz%reject_if_ok & -> & ->)%lift_ok & Hr). rewrite Hz. cbn.
  assert (Hs : same_work b b2) by (unfold same_work in *; naive_solver congruence).
  destruct (bytes_equal (acc_CodeHash a) (hash_bytes EmptyCodeHash)); cbn [negb] in Hr |- *; [by apply ret_ok in Hr as (-> & -> & ->)|].
  apply bind_ok in Hr as (listed & b3 & w4 & Hl & Hr).
  assert (Hl' : b3 = b2 ∧ (match listed with Some _ => true | None => false end) =
     retention_on inputs && (match V !! (ovmERC20RetainPrefix :: hash_bytes (job_address job)) with Some _ => true | None => false end)).
  { destruct (retention_on inputs).
    - apply batch_get_ok in Hl as [-> ->]. split; [done|]. rewrite (evidence_written V b2) //. apply evidence_not_scratch.
    - by apply ret_ok in Hl as (-> & -> & ->). }
  destruct Hl' as [-> Hl']. rewrite -Hl'. destruct listed as [v|]; [by apply ret_ok in Hr as (-> & -> & ->)|].
  apply bind_ok in Hr as (sent & b3 & w5 & [-> ->]%batch_get_ok & Hr). apply ret_ok in Hr as (-> & -> & ->). cbn [orb andb].
  rewrite (evidence_written V b2 prefix_f) //; apply evidence_not_scratch.
Qed.

Lemma decide_cons (n m : nat) (l : list nat) (P Q : Prop) :
  n ≠ m → (if decide (n ∈ l) then P else Q) → if decide (n ∈ m :: l) then P else Q.
Proof.
  intros Hne Hx. destruct (decide (n ∈ l)) as [Hl|Hl], (decide (n ∈ m :: l)) as [Hm|Hm]; try done.
  - by destruct Hm; right.
  - by apply elem_of_cons in Hm as [|].
Qed.

(** The order of the inspections does not matter. *)
Lemma inspect_jobs_ok V order : ∀ jobs b w jobs' b' w',
  NoDup order → batch_ok V b → inspect_jobs root inputs workers order jobs b w = (Ok jobs', b', w') →
  batch_ok V b' ∧ same_work b b' ∧ length jobs' = length jobs ∧
  ∀ n job, jobs !! n = Some job → ∃ job', jobs' !! n = Some job' ∧ if decide (n ∈ order) then inspect_spec V job = Ok job' else job' = job.
Proof.
  induction order as [|m order IH]; intros jobs b w jobs' b' w' Hn Hb Hr; cbn [inspect_jobs] in Hr.
  { apply ret_ok in Hr as (-> & -> & ->). do 3 (split; [done|]). intros n job Hj. exists job. split; [done|]. case_decide as Hd; [by apply elem_of_nil in Hd|done]. }
  apply NoDup_cons in Hn as [Hm Hn]. destruct (jobs !! m) as [jm|] eqn:Em.
  - apply bind_ok in Hr as (x & b1 & w1 & Hi & Hr). mstep Hi. destruct x as [jm'|e]; [|by apply bind_ok in Hr as (? & ? & ? & _ & ?%fail_ok)].
    apply (inspect_ok V) in Hi as (Hsp & Hb1 & Hs1); [|done].
    apply IH in Hr as (Hb' & Hs' & Hlen & Hj); [|done..]. split; [done|]. split; [unfold same_work in *; naive_solver congruence|].
    split; [by rewrite length_insert in Hlen|]. intros n job Hjob. destruct (decide (n = m)) as [->|Hne].
    + destruct (Hj m jm') as (job' & Hl & Hx); [apply list_lookup_insert_eq; by eapply lookup_lt_Some|]. exists job'. split; [done|].
      destruct (decide (m ∈ order)); [done|]. destruct (decide (m ∈ m :: order)) as [_|Hx']; [|by destruct Hx'; left]. simplify_eq. done.
    + destruct (Hj n job) as (job' & Hl & Hx); [by rewrite list_lookup_insert_ne|]. exists job'. split; [done|]. by apply (decide_cons n m).
  - apply IH in Hr as (Hb' & Hs' & Hlen & Hj); [|done..]. do 3 (split; [done|]). intros n job Hjob.
    destruct (Hj n job Hjob) as (job' & Hl & Hx). exists job'. split; [done|].
    destruct (decide (n = m)) as [->|Hne]; [congruence|]. by apply (decide_cons n m).
Qed.

End PipelineLemmas.

Section ApplyLemmas.
Context `{EmptyHashes, AccountRLP, BatchSize, BatchValueSize}.
Implicit Types (V : store) (t : ovmTransformer) (b : ovmBalanceBatch) (job : ovmBalanceJob).

(** The three cases of a nonzero balance. *)
Definition is_self job : bool := bool_decide (job_address job = ovmETHAddress).
Definition is_retained job : bool := negb (is_self job) && job_contract job && job_retain job.
Definition is_converted job : bool := negb (is_self job) && negb (job_contract job && job_retain job).

(** The amounts after one job. *)
Definition apply_amounts job t : ovmTransformer :=
  let t := set_tr_total (add256 (tr_total t) (job_value job)) t in
  if job_value job =? 0 then t
  else if is_self job then keep_self (job_value job) (count_slot t)
  else if job_contract job && job_retain job then keep_contract (job_value job) (count_slot t)
  else convert_holder (job_contract job) (job_value job) (count_slot t).

(** The patches of one job: its account gets the balance, its slot is cleared. *)
Definition job_patches job : list batch_op :=
  if (job_value job =? 0) || negb (is_converted job) then [] else
  match rlp_encode_account (set_balance (job_value job) (default emptyAccount (job_account job))) with
  | Ok blob => [BPut (prefix_p :: hash_bytes (job_hash job)) blob; BPut (prefix_s :: hash_bytes (job_slot job)) []]
  | Err _ => []
  end.

Lemma set_tr_index_same t : set_tr_index (tr_index t) t = t.
Proof. by destruct t. Qed.

Lemma apply_amounts_index job t : tr_index (apply_amounts job t) = tr_index t.
Proof. unfold apply_amounts. destruct (_ =? _); [done|]. destruct (is_self job); [done|]. by destruct (_ && _). Qed.

(** What converting a holder needs: its account, which encodes. *)
Definition job_good job : Prop :=
  job_value job ≠ 0 → is_converted job = true →
  ∃ a blob, job_account job = Some a ∧ rlp_encode_account (set_balance (job_value job) a) = Ok blob.

Lemma applyBalance_ok V job t w u t' w' :
  agrees scratch V (tr_index t) → applyBalance job t w = (Ok u, t', w') →
  tr_total t + job_value job < two256 ∧ job_good job ∧ ∃ i', agrees scratch V i' ∧ t' = set_tr_index i' (apply_amounts job t) ∧
    ix_view i' = apply_ops (ix_view (tr_index t)) (job_patches job).
Proof.
  intros Ha Hr. unfold applyBalance, add_overflow256 in Hr. apply bind_ok in Hr as (t0 & t1 & w1 & (-> & -> & ->)%get_ok & Hr).
  apply bind_ok in Hr as (u0 & t1 & w1 & [-> ->]%modify_ok & Hr). apply bind_ok in Hr as (u1 & t1 & w1 & (Ho%reject_if_ok & -> & ->)%lift_ok & Hr).
  apply N.leb_gt in Ho. split; [done|]. unfold job_good, job_patches, apply_amounts, is_converted, is_self.
  destruct (N.eqb_spec (job_value job) 0) as [Hz|Hz].
  { apply ret_ok in Hr as (_ & -> & ->). split; [done|]. by exists (tr_index t). }
  apply bind_ok in Hr as (u2 & t2 & w2 & [-> ->]%modify_ok & Hr). case_bool_decide as Hs; cbn [negb andb orb].
  { apply modify_ok in Hr as [-> ->]. split; [done|]. exists (tr_index t). done. }
  destruct (job_contract job && job_retain job); cbn [negb andb orb].
  { apply modify_ok in Hr as [-> ->]. split; [done|]. exists (tr_index t). done. }
  apply bind_ok in Hr as (u3 & t3 & w3 & [-> ->]%modify_ok & Hr). destruct (job_account job) as [a|] eqn:Ea; [|by apply fail_ok in Hr].
  apply bind_ok in Hr as (u4 & t4 & w4 & Hp & Hr). unfold patchAccount in Hp.
  apply bind_ok in Hp as (blob & t5 & w5 & (Hb & -> & ->)%lift_ok & Hp). unfold on_index in *.
  apply zoom_ok in Hp as (i1 & Hp & ->). apply zoom_ok in Hr as (i2 & Hr & ->). cbn in Hp, Hr |- *. rewrite Hb.
  split; [by eauto|]. exists i2. split.
  - eapply index_put_agrees; [| |exact Hr]; [by right; right; left|]. eapply index_put_agrees; [| |exact Hp]; [by right; left|done].
  - split; [done|]. apply index_put_view in Hp, Hr. by rewrite Hr Hp.
Qed.

(** The index does not influence the amounts. *)
Lemma apply_amounts_set_index i job t : apply_amounts job (set_tr_index i t) = set_tr_index i (apply_amounts job t).
Proof. unfold apply_amounts. cbn [tr_total set_tr_index]. destruct (_ =? _); [done|]. destruct (is_self job); [done|]. by destruct (_ && _). Qed.

Lemma fold_amounts_index i i0 jobs t :
  set_tr_index i (foldl (λ t j, apply_amounts j t) (set_tr_index i0 t) jobs) = set_tr_index i (foldl (λ t j, apply_amounts j t) t jobs).
Proof. revert t. induction jobs as [|j jobs IH]; intros t; [done|]. cbn [foldl]. by rewrite apply_amounts_set_index IH. Qed.

Lemma steps_apply_ok V jobs t t' :
  agrees scratch V (tr_index t) → steps (λ j t t', ∃ w w', applyBalance j t w = (Ok (), t', w')) jobs t t' →
  Forall job_good jobs ∧
  (∃ i', agrees scratch V i' ∧ t' = set_tr_index i' (foldl (λ t j, apply_amounts j t) t jobs) ∧
    ix_view i' = apply_ops (ix_view (tr_index t)) (jobs ≫= job_patches)) ∧
  (tr_total t < two256 → tr_total t' = tr_total t + foldr N.add 0 (job_value <$> jobs) ∧ tr_total t' < two256).
Proof.
  intros Ha Hs. induction Hs as [t|job jobs t t1 t2 (w & w' & Hr) Hs IH].
  - split; [constructor|]. split; [exists (tr_index t); by rewrite set_tr_index_same|]. cbn. lia.
  - apply (applyBalance_ok V) in Hr as (Hlt & Hg & i1 & Ha1 & -> & Hv); [|done]. cbn [tr_index set_tr_index] in IH.
    destruct (IH Ha1) as (Hgs & (i2 & Ha2 & -> & Hv2) & Ht). split; [by constructor|]. split.
    + exists i2. split; [done|]. split.
      * cbn [foldl]. apply fold_amounts_index.
      * by rewrite Hv2 bind_cons apply_ops_app Hv.
    + intros Hlt0. assert (Htot : tr_total (set_tr_index i1 (apply_amounts job t)) = tr_total t + job_value job).
      { unfold apply_amounts. assert (add256 (tr_total t) (job_value job) = tr_total t + job_value job) as <- by (unfold add256; by rewrite N.mod_small).
        destruct (_ =? _); [done|]. destruct (is_self job); [done|]. by destruct (_ && _). }
      rewrite Htot in Ht. cbn [fmap list_fmap foldr]. destruct (Ht Hlt) as [-> ?]. split; [|done]. lia.
Qed.

End ApplyLemmas.

Section DrainLemmas.
Context `{Keccak, EmptyHashes, AccountRLP, TrieGet, BatchSize, BatchValueSize}.
Context (root : Hash) (inputs : ovmInputs) (workers : Z) (schedule : nat → list nat).
Context (Hschedule : ∀ n, schedule n ≡ₚ seq 0 n).
Implicit Types (V : store) (t : ovmTransformer) (b : ovmBalanceBatch) (job : ovmBalanceJob).

Definition apply_run job t t' : Prop := ∃ w w', applyBalance job t w = (Ok (), t', w').

Lemma mapM_lookup {A B} (f : A → result B) l l' :
  length l' = length l → (∀ n x, l !! n = Some x → ∃ y, l' !! n = Some y ∧ f x = Ok y) → mapM f l = Ok l'.
Proof.
  revert l'. induction l as [|x l IH]; intros [|y l'] Hlen Hl; try done.
  destruct (Hl 0%nat x eq_refl) as (y' & [= <-] & Hf). cbn. rewrite Hf. cbn. rewrite (IH l'); [done|by injection Hlen|].
  intros n x' Hx. by apply (Hl (S n)).
Qed.

Lemma apply_jobs_ok V jobs b w u b' w' :
  batch_ok root V b → for_each jobs (λ job, _ ← poll; on_transformer (applyBalance job)) b w = (Ok u, b', w') →
  steps apply_run jobs (bt_transformer b) (bt_transformer b') ∧ batch_ok root V b' ∧ bt_queue b' = bt_queue b ∧ bt_failure b' = bt_failure b.
Proof.
  revert b w. induction jobs as [|job jobs IH]; intros b w Hb Hr; cbn [for_each] in Hr.
  { apply ret_ok in Hr as (_ & -> & ->). split; [constructor|done]. }
  apply bind_ok in Hr as (u0 & b1 & w1 & Hr1 & Hr). apply bind_ok in Hr1 as (u1 & b2 & w2 & ->%poll_ok & Hr1).
  unfold on_transformer in Hr1. apply zoom_ok in Hr1 as (t1 & Hap & ->). destruct Hb as [Ha Hf].
  pose proof Hap as Hap'. apply (applyBalance_ok V) in Hap' as (_ & _ & i' & Ha' & -> & _); [|done].
  apply IH in Hr as (Hs & Hb' & Hq & Hfl); [|done]. split; [|done]. econstructor; [|exact Hs]. destruct u0. by exists w2, w1.
Qed.

Lemma drain_ok V b w u b' w' :
  batch_ok root V b → drain root inputs workers schedule b w = (Ok u, b', w') →
  ∃ jobs, mapM (inspect_spec root inputs V) (bt_queue b) = Ok jobs ∧ steps apply_run jobs (bt_transformer b) (bt_transformer b') ∧
    batch_ok root V b' ∧ bt_queue b' = [] ∧ bt_failure b' = bt_failure b.
Proof.
  intros Hb Hr. unfold drain in Hr. apply bind_ok in Hr as (q & b0 & w0 & (-> & -> & ->)%gets_ok & Hr).
  apply bind_ok in Hr as (jobs & b1 & w1 & Hi & Hr). apply bind_ok in Hr as (u1 & b2 & w2 & Hap & Hr). apply modify_ok in Hr as [-> ->].
  apply (inspect_jobs_ok root inputs workers V) in Hi as (Hb1 & (Ht & Hq & Hf) & Hlen & Hj); [|rewrite Hschedule; apply NoDup_seq|done].
  apply (apply_jobs_ok V) in Hap as (Hs & Hb2 & Hq2 & Hf2); [|done]. exists jobs. rewrite -Ht. split; [|split_and!; [done|apply Hb2..|done|cbn; congruence]].
  apply mapM_lookup; [done|]. intros n job Hl. destruct (Hj n job Hl) as (job' & Hl' & Hsp). exists job'. split; [done|].
  destruct (decide (n ∈ schedule (length (bt_queue b)))) as [_|Hx]; [done|]. destruct Hx. rewrite Hschedule. apply elem_of_seq.
  apply lookup_lt_Some in Hl. lia.
Qed.

(** The job as it is submitted. *)
Definition new_job (j : Address * Hash * N) : ovmBalanceJob := MkJob j.1.1 j.1.2 (keccak256 (hash_bytes j.1.1)) j.2 None false false.

(** Progress of a batch from [b] to [b'] over the jobs [js]: a part of the
    queue and of [js] was applied, the rest is queued. *)
Definition batch_step V b b' (js : list ovmBalanceJob) : Prop :=
  ∃ done inspected, bt_queue b ++ js = done ++ bt_queue b' ∧ mapM (inspect_spec root inputs V) done = Ok inspected ∧
    steps apply_run inspected (bt_transformer b) (bt_transformer b') ∧ batch_ok root V b' ∧ bt_failure b' = bt_failure b.

Lemma mapM_app_ok {A B} (f : A → result B) l1 l2 r1 r2 :
  mapM f l1 = Ok r1 → mapM f l2 = Ok r2 → mapM f (l1 ++ l2) = Ok (r1 ++ r2).
Proof.
  revert r1. induction l1 as [|x l1 IH]; intros r1 H1' H2'; cbn in *; [by injection H1' as <-|].
  destruct (f x) as [y|]; [|done]. cbn in *. destruct (mapM f l1) as [r|]; [|done]. cbn in *. injection H1' as <-.
  by rewrite (IH r eq_refl H2').
Qed.

Lemma batch_step_trans V b1 b2 b3 js1 js2 :
  batch_step V b1 b2 js1 → batch_step V b2 b3 js2 → batch_step V b1 b3 (js1 ++ js2).
Proof.
  intros (d1 & i1 & Hq1 & Hm1 & Hs1 & _ & Hf1) (d2 & i2 & Hq2 & Hm2 & Hs2 & Hb3 & Hf2).
  exists (d1 ++ d2), (i1 ++ i2). split_and!; [|by apply mapM_app_ok|by eapply steps_app|apply Hb3..|congruence].
  by rewrite app_assoc Hq1 -!app_assoc Hq2.
Qed.

Lemma submit_ok V a slot v b w u b' w' :
  batch_ok root V b → submit root inputs workers schedule a slot v b w = (Ok u, b', w') →
  batch_step V b b' [new_job (a, slot, v)].
Proof.
  intros Hb Hr. unfold submit in Hr. apply bind_ok in Hr as (u0 & b0 & w0 & ->%poll_ok & Hr).
  apply bind_ok in Hr as (q & b0 & w1 & (-> & -> & ->)%gets_ok & Hr). apply bind_ok in Hr as (u1 & b1 & w1 & Hd & Hr).
  apply modify_ok in Hr as [-> ->]. destruct (_ =? _)%nat.
  - apply (drain_ok V) in Hd as (jobs & Hm & Hs & Hb1 & Hq & Hf); [|done]. exists (bt_queue b), jobs. cbn. rewrite Hq. done.
  - apply ret_ok in Hd as (_ & -> & ->). exists [], []. cbn. split_and!; [done|done|constructor|exact Hb|done].
Qed.

Lemma submit_all_ok V kvs b w u b' w' :
  batch_ok root V b →
  for_each kvs (λ kv, _ ← poll; _ ← poll; '(address, slot, value) ← lift (parse_job kv.1 kv.2); submit root inputs workers schedule address slot value)
    b w = (Ok u, b', w') →
  ∃ js, mapM (λ kv, parse_job kv.1 kv.2) kvs = Ok js ∧ batch_step V b b' (new_job <$> js).
Proof.
  revert b w. induction kvs as [|kv kvs IH]; intros b w Hb Hr; cbn [for_each] in Hr.
  { apply ret_ok in Hr as (_ & -> & ->). exists []. split; [done|]. exists [], []. cbn. rewrite app_nil_r. split_and!; [done|done|constructor|exact Hb|done]. }
  apply bind_ok in Hr as (u0 & b1 & w1 & Hr1 & Hr). apply bind_ok in Hr1 as (u1 & b2 & w2 & ->%poll_ok & Hr1).
  apply bind_ok in Hr1 as (u2 & b2 & w3 & ->%poll_ok & Hr1). apply bind_ok in Hr1 as ([[a slot] v] & b2 & w4 & (Hp & -> & ->)%lift_ok & Hr1).
  apply (submit_ok V) in Hr1 as Hst; [|done]. pose proof Hst as (_ & _ & _ & _ & _ & Hb1 & _).
  apply IH in Hr as (js & Hm & Hst2); [|done]. exists ((a, slot, v) :: js). split.
  - cbn. rewrite Hp. cbn. by rewrite Hm.
  - apply (batch_step_trans V b b1 b' [_]); done.
Qed.

Lemma inspectOrderedBalances_ok V t w u b' w' :
  agrees scratch V (tr_index t) →
  inspectOrderedBalances root inputs workers schedule (MkBatch t [] None []) w = (Ok u, b', w') →
  ∃ js jobs, mapM (λ kv, parse_job kv.1 kv.2) (db_iterate (ix_view (tr_index t)) [prefix_q] []) = Ok js ∧
    mapM (inspect_spec root inputs V) (new_job <$> js) = Ok jobs ∧
    steps apply_run jobs (set_tr_index (MkOvmIndex (ix_view (tr_index t)) []) t) (bt_transformer b') ∧ bt_failure b' = None.
Proof.
  intros Ha Hr. unfold inspectOrderedBalances in Hr. apply bind_ok in Hr as (u0 & b1 & w1 & Hfl & Hr). unfold on_transformer, on_index in Hfl.
  apply zoom_ok in Hfl as (t1 & Hfl & ->). apply zoom_ok in Hfl as (i1 & Hfl & ->). cbn [bt_transformer] in Hfl. pose proof Hfl as ->%index_flush_ok.
  apply (index_flush_agrees scratch V) in Hfl; [|done].
  set (b0 := set_bt_transformer _ _) in Hr. assert (Hb0 : batch_ok root V b0) by (split; [done|constructor]).
  apply bind_ok in Hr as (db & b1 & w2 & (-> & -> & ->)%gets_ok & Hr). apply bind_ok in Hr as (u1 & b1 & w2 & Hall & Hr).
  apply (submit_all_ok V) in Hall as (js & Hm & d1 & i1 & Hq & Hi & Hs & Hb1 & Hf); [|done]. cbn [bt_queue b0 set_bt_transformer app] in Hq.
  apply bind_ok in Hr as (u2 & b2 & w3 & ->%poll_ok & Hr). apply bind_ok in Hr as (u3 & b2 & w4 & ->%io_ok & Hr).
  apply (drain_ok V) in Hr as (jobs & Hi2 & Hs2 & _ & _ & Hf2); [|done].
  exists js, (i1 ++ jobs). split_and!; [exact Hm| |by eapply steps_app|by rewrite Hf2 Hf]. rewrite Hq. by apply mapM_app_ok.
Qed.

End DrainLemmas.

(** ** Patched tries *)

(** Leaves in key order with patches in key order taking precedence. *)
Fixpoint merge_patches (patches original : list (bytes * bytes)) {struct patches} : list (bytes * bytes) :=
  (fix inner (original : list (bytes * bytes)) {struct original} : list (bytes * bytes) :=
     match patches, original with
     | [], _ => original
     | p :: patches', [] => p :: merge_patches patches' []
     | p :: patches', o :: original' =>
         if bool_decide (bytes_le p.1 o.1)
         then p :: merge_patches patches' (if bytes_equal p.1 o.1 then original' else original)
         else o :: inner original'
     end) original.

(** An empty patch deletes its key. *)
Definition patched_leaves (patches original : list (bytes * bytes)) : list (bytes * bytes) :=
  filter (λ kv, kv.2 ≠ []) (merge_patches patches original).

Section MergeLemmas.
Implicit Types (patches original : list (bytes * bytes)).

Lemma merge_patches_nil original : merge_patches [] original = original.
Proof. by destruct original. Qed.

Lemma merge_patches_cons p patches o original :
  merge_patches (p :: patches) (o :: original) =
  if bool_decide (bytes_le p.1 o.1)
  then p :: merge_patches patches (if bytes_equal p.1 o.1 then original else o :: original)
  else o :: merge_patches (p :: patches) original.
Proof. done. Qed.

(** Induction that follows the merge. *)
Lemma merge_ind (P : list (bytes * bytes) → list (bytes * bytes) → Prop) :
  (∀ original, P [] original) → (∀ p patches, P patches [] → P (p :: patches) []) →
  (∀ p patches o original, p.1 = o.1 → P patches original → P (p :: patches) (o :: original)) →
  (∀ p patches o original, bytes_lt p.1 o.1 → P patches (o :: original) → P (p :: patches) (o :: original)) →
  (∀ p patches o original, bytes_lt o.1 p.1 → P (p :: patches) original → P (p :: patches) (o :: original)) →
  ∀ patches original, P patches original.
Proof.
  intros Hn Hp He Hl Hg patches. induction patches as [|p patches IHp]; intros original; [apply Hn|].
  induction original as [|o original IHo]; [by apply Hp|].
  destruct (bytes_lt_trichotomy p.1 o.1) as [|[|]]; [by apply Hl|by apply He|by apply Hg].
Qed.

Lemma merge_patches_eq p patches o original :
  p.1 = o.1 → merge_patches (p :: patches) (o :: original) = p :: merge_patches patches original.
Proof.
  intros He. rewrite merge_patches_cons bool_decide_eq_true_2; [|rewrite He; apply bytes_le_refl].
  by rewrite (proj2 (bytes_equal_spec _ _) He).
Qed.

Lemma merge_patches_lt p patches o original :
  bytes_lt p.1 o.1 → merge_patches (p :: patches) (o :: original) = p :: merge_patches patches (o :: original).
Proof.
  intros Hl. rewrite merge_patches_cons bool_decide_eq_true_2; [|by apply bytes_lt_le].
  destruct (bytes_equal p.1 o.1) eqn:E; [|done]. apply bytes_equal_spec in E. rewrite E in Hl. by apply bytes_lt_irrefl in Hl.
Qed.

Lemma merge_patches_gt p patches o original :
  bytes_lt o.1 p.1 → merge_patches (p :: patches) (o :: original) = o :: merge_patches (p :: patches) original.
Proof. intros Hl. rewrite merge_patches_cons bool_decide_eq_false_2 //. intros Hx. by apply Hx. Qed.

Lemma sorted_cons_inv x (l : list (bytes * bytes)) :
  StronglySorted bytes_lt ((x :: l).*1) → StronglySorted bytes_lt l.*1 ∧ ∀ k, k ∈ l.*1 → bytes_lt x.1 k.
Proof. intros [Hs Hf]%StronglySorted_inv. split; [done|]. by rewrite Forall_forall in Hf. Qed.

Lemma sorted_cons x (l : list (bytes * bytes)) :
  StronglySorted bytes_lt l.*1 → (∀ k, k ∈ l.*1 → bytes_lt x.1 k) → StronglySorted bytes_lt ((x :: l).*1).
Proof. intros Hs Hf. cbn. constructor; [done|]. by apply Forall_forall. Qed.

(** The five cases of a merge, the definition unfolded. *)
Ltac merge_cases patches original :=
  pattern patches, original; apply merge_ind; clear patches original;
  [ intros original; rewrite merge_patches_nil
  | intros p patches IH; cbn [merge_patches]
  | intros p patches o original Hk IH; rewrite (merge_patches_eq _ _ _ _ Hk)
  | intros p patches o original Hk IH; rewrite (merge_patches_lt _ _ _ _ Hk)
  | intros p patches o original Hk IH; rewrite (merge_patches_gt _ _ _ _ Hk) ].

Lemma merge_keys patches original k : k ∈ (merge_patches patches original).*1 → k ∈ patches.*1 ∨ k ∈ original.*1.
Proof.
  merge_cases patches original; [by right|..]; cbn [fmap list_fmap] in *; rewrite !elem_of_cons; try rewrite !elem_of_cons in IH; naive_solver.
Qed.

Lemma merge_sorted patches original :
  StronglySorted bytes_lt patches.*1 → StronglySorted bytes_lt original.*1 → StronglySorted bytes_lt (merge_patches patches original).*1.
Proof.
  merge_cases patches original; intros Hp Ho; [done| | | |].
  - apply sorted_cons_inv in Hp as [Hp Hpk]. apply sorted_cons; [by apply IH|]. intros k [Hk|Hk]%merge_keys; [by apply Hpk|by apply elem_of_nil in Hk].
  - apply sorted_cons_inv in Hp as [Hp Hpk], Ho as [Ho Hok]. apply sorted_cons; [by apply IH|]. intros k [Hx|Hx]%merge_keys; [by apply Hpk|].
    rewrite Hk. by apply Hok.
  - apply sorted_cons_inv in Hp as [Hp Hpk]. apply sorted_cons; [by apply IH|]. intros k [Hx|Hx]%merge_keys; [by apply Hpk|].
    apply sorted_cons_inv in Ho as [_ Hok]. cbn in Hx. apply elem_of_cons in Hx as [->|Hx]; [done|]. trans o.1; [done|by apply Hok].
  - apply sorted_cons_inv in Ho as [Ho Hok]. apply sorted_cons; [by apply IH|]. intros k [Hx|Hx]%merge_keys; [|by apply Hok].
    apply sorted_cons_inv in Hp as [_ Hpk]. cbn in Hx. apply elem_of_cons in Hx as [->|Hx]; [done|]. trans p.1; [done|by apply Hpk].
Qed.

Lemma merge_elem patches original k v :
  StronglySorted bytes_lt patches.*1 → StronglySorted bytes_lt original.*1 →
  (k, v) ∈ merge_patches patches original ↔ (k, v) ∈ patches ∨ ((k, v) ∈ original ∧ k ∉ patches.*1).
Proof.
  assert (Hin : ∀ l : list (bytes * bytes), (k, v) ∈ l → k ∈ l.*1) by (intros l Hx; by apply (list_elem_of_fmap_2 fst) in Hx).
  merge_cases patches original; intros Hp Ho.
  - split; [|by intros [?%elem_of_nil|[]]]. intros Hx. right. split; [done|by intros ?%elem_of_nil].
  - apply sorted_cons_inv in Hp as [Hp _]. rewrite !elem_of_cons IH // elem_of_nil. naive_solver.
  - apply sorted_cons_inv in Hp as [Hp Hpk], Ho as [Ho Hok]. cbn [fmap list_fmap]. rewrite !elem_of_cons IH //. split.
    + intros [->|[Hx|[Hx Hn]]]; [by left; left|by left; right|]. right. split; [by right|]. intros [->|]; [|done].
      apply (bytes_lt_irrefl p.1). rewrite {1}Hk. by apply Hok, Hin.
    + intros [[->|Hx]|[[<-|Hx] Hn]]; [by left|by right; left| |right; right; split; [done|naive_solver]].
      destruct Hn. left. by rewrite Hk.
  - apply sorted_cons_inv in Hp as [Hp Hpk]. rewrite fmap_cons (elem_of_cons (merge_patches _ _)) (elem_of_cons patches (k, v)) (elem_of_cons patches.*1 k) IH //. split.
    + intros [->|[Hx|[Hx Hn]]]; [by left; left|by left; right|]. right. split; [done|]. intros [->|]; [|done].
      apply sorted_cons_inv in Ho as [_ Hok]. apply Hin in Hx. cbn in Hx. apply elem_of_cons in Hx as [Hx|Hx].
      * rewrite Hx in Hk. by apply bytes_lt_irrefl in Hk.
      * apply (bytes_lt_irrefl p.1). trans o.1; [done|by apply Hok].
    + naive_solver.
  - apply sorted_cons_inv in Ho as [Ho Hok]. rewrite (elem_of_cons (merge_patches _ _)) (elem_of_cons original) IH //. split.
    + intros [Hx|[Hx|[Hx Hn]]]; [|by left|by right; split; [right|]]. right. split; [by left|]. subst o. cbn in Hk.
      apply sorted_cons_inv in Hp as [_ Hpk]. cbn. intros [Hx|Hx]%elem_of_cons.
      * rewrite Hx in Hk. by apply bytes_lt_irrefl in Hk.
      * apply (bytes_lt_irrefl k). trans p.1; [done|by apply Hpk].
    + naive_solver.
Qed.

End MergeLemmas.

Section RebuildLemmas.
Context `{StackTrie, RawdbKeys, BatchSize, BatchValueSize, SlimRLP}.
Implicit Types (s : sink_state target) (patches original : list (bytes * bytes)).

(** Feeding leaves from [st] to [st'] while the target goes from [v] to [v']. *)
Definition fed (owner : Hash) (leaves : list (bytes * bytes)) (st st' : stack) (v v' : target) : Prop :=
  ∃ ns, stack_feed st leaves = Ok (st', ns) ∧ steps (observed (Some directVisitor) (Some directSink)) (node_events owner ns) v v'.

Lemma fed_app owner l1 l2 st1 st2 st3 v1 v2 v3 :
  fed owner l1 st1 st2 v1 v2 → fed owner l2 st2 st3 v2 v3 → fed owner (l1 ++ l2) st1 st3 v1 v3.
Proof.
  intros (n1 & Hf1 & Hs1) (n2 & Hf2 & Hs2). exists (n1 ++ n2). rewrite stack_feed_app Hf1. cbn. rewrite Hf2. split; [done|].
  unfold node_events. rewrite map_app. by eapply steps_app.
Qed.

Lemma fed_nil owner st v : fed owner [] st st v v.
Proof. exists []. split; [done|constructor]. Qed.

Lemma raise_node_err_ok s w u s' w' : raise_node_err s w = (Ok u, s', w') → nodeWriteErr s = None ∧ s' = s.
Proof. unfold raise_node_err. intros (s0 & s1 & w1 & (-> & -> & ->)%get_ok & Hr)%bind_ok. destruct (nodeWriteErr s); by minv. Qed.

Lemma patched_Update_ok owner st k v s w st' s' w' :
  nodeWriteErr s = None → patched_Update owner st k v s w = (Ok st', s', w') →
  nodeWriteErr s' = None ∧ fed owner (filter (λ kv, kv.2 ≠ []) [(k, v)]) st st' (env s) (env s').
Proof.
  intros He Hr. unfold patched_Update in Hr. destruct (Nat.eqb_spec (length v) 0) as [Hl|Hl].
  - apply length_zero_iff_nil in Hl as ->. apply ret_ok in Hr as (-> & -> & ->). split; [done|apply fed_nil].
  - apply bind_ok in Hr as (st1 & s1 & w1 & Hu & Hr). apply bind_ok in Hr as (u & s2 & w2 & [He1 ->]%raise_node_err_ok & Hr).
    apply ret_ok in Hr as (-> & -> & ->). eapply (traversal_Update_ok (Some directVisitor)) in Hu as (ns & Hu & Hs); [|done..].
    split; [done|]. exists ns. rewrite filter_cons decide_True; [|by destruct v]. cbn. rewrite Hu. cbn. by rewrite app_nil_r.
Qed.

Lemma patched_leaves_step p patches original rest :
  merge_patches patches original = p :: rest → patched_leaves patches original = filter (λ kv, kv.2 ≠ []) [p] ++ filter (λ kv, kv.2 ≠ []) rest.
Proof. unfold patched_leaves. intros ->. by rewrite -filter_app. Qed.

(** The loop unfolded at its first leaf. *)
Lemma rebuild_loop_step owner patches original st s w st' s' w' :
  rebuild_loop owner patches original st s w = (Ok st', s', w') →
  match merge_patches patches original with
  | [] => st' = st ∧ s' = s
  | (k, v) :: _ =>
      ∃ st1 s1 w0 w1 patches' original', merge_patches patches original = (k, v) :: merge_patches patches' original' ∧
        patched_Update owner st k v s w0 = (Ok st1, s1, w1) ∧
        rebuild_loop owner patches' original' st1 s1 w1 = (Ok st', s', w') ∧
        (length patches' + length original' < length patches + length original)%nat
  end.
Proof.
  destruct patches as [|[pk pv] patches], original as [|[ok ov] original]; cbn [rebuild_loop].
  - intros Hr. cbn. by apply ret_ok in Hr as (-> & -> & _).
  - intros (u & s0 & w0 & ->%poll_ok & Hr)%bind_ok. apply bind_ok in Hr as (st1 & s1 & w1 & Hu & Hr). rewrite merge_patches_nil.
    exists st1, s1, w0, w1, [], original. rewrite merge_patches_nil. split_and!; try done. cbn. lia.
  - intros (u & s0 & w0 & ->%poll_ok & Hr)%bind_ok. apply bind_ok in Hr as (st1 & s1 & w1 & Hu & Hr). cbn [merge_patches].
    exists st1, s1, w0, w1, patches, []. split_and!; try done. cbn. lia.
  - intros (u & s0 & w0 & ->%poll_ok & Hr)%bind_ok. rewrite merge_patches_cons. cbn [fst]. destruct (bool_decide (bytes_le pk ok)).
    + apply bind_ok in Hr as (st1 & s1 & w1 & Hu & Hr). exists st1, s1, w0, w1, patches, (if bytes_equal pk ok then original else (ok, ov) :: original). split_and!; try done.
      destruct (bytes_equal pk ok); cbn; lia.
    + apply bind_ok in Hr as (st1 & s1 & w1 & Hu & Hr). exists st1, s1, w0, w1, ((pk, pv) :: patches), original. split_and!; try done. cbn. lia.
Qed.

Lemma rebuild_loop_ok owner patches original st s w st' s' w' :
  nodeWriteErr s = None → rebuild_loop owner patches original st s w = (Ok st', s', w') →
  nodeWriteErr s' = None ∧ fed owner (patched_leaves patches original) st st' (env s) (env s').
Proof.
  remember (length patches + length original)%nat as n eqn:Hn. revert patches original Hn st s w.
  induction (lt_wf n) as [n _ IH]. intros patches original -> st s w He Hr. apply rebuild_loop_step in Hr.
  destruct (merge_patches patches original) as [|[k v] rest] eqn:Em.
  - destruct Hr as [-> ->]. split; [done|]. unfold patched_leaves. rewrite Em. apply fed_nil.
  - destruct Hr as (st1 & s1 & w0 & w1 & patches' & original' & Hm & Hu & Hr & Hlt). injection Hm as ->.
    apply patched_Update_ok in Hu as [He1 Hf1]; [|done]. eapply IH in Hr as [He' Hf']; [|exact Hlt|done|done].
    split; [done|]. rewrite (patched_leaves_step _ _ _ _ Em). by eapply fed_app.
Qed.

(** The nodes a rebuilt trie writes, under the hash scheme. *)
Definition node_puts (ns : list trie_node) : list batch_op := map (λ n, BPut (hash_bytes (node_hash n)) (node_blob n)) ns.

Lemma node_events_puts owner ns : map event_call (node_events owner ns) ≫= call_ops HashScheme = node_puts ns.
Proof. induction ns as [|n ns IH]; [done|]. cbn [node_events map node_puts] in *. rewrite bind_cons IH. cbn. unfold node_op, trieNodeKey, keyBytes. cbn. by rewrite app_nil_r. Qed.

Lemma rebuild_on_target_ok owner leaves iterErr patches db w root t' w' :
  rebuild_on_target owner leaves iterErr patches (MkTarget db (newDirectStateWriter HashScheme)) w = (Ok root, t', w') →
  iterErr = None ∧ ∃ st ns, stack_feed stack_new (patched_leaves patches leaves) = Ok (st, ns) ∧ root = (stack_hash st).1 ∧
    tg_db t' = apply_ops db (node_puts (ns ++ (stack_hash st).2)).
Proof.
  intros Hr. unfold rebuild_on_target in Hr. apply bind_ok in Hr as (t0 & t1 & w1 & (-> & -> & ->)%get_ok & Hr).
  apply bind_ok in Hr as ([r s] & t1 & w1 & [Hrun ->]%run_on_ok & Hr). cbn [fst snd] in *.
  apply bind_ok in Hr as (u & t1 & w2 & [-> ->]%modify_ok & Hr). apply bind_ok in Hr as (r0 & t1 & w2 & (-> & -> & ->)%lift_ok & Hr).
  apply bind_ok in Hr as (u1 & t2 & w3 & Hc & Hr). apply ret_ok in Hr as (-> & -> & ->).
  apply bind_ok in Hrun as (st & s1 & w4 & Hl & Hrun). apply rebuild_loop_ok in Hl as [He1 (ns & Hf & Hs)]; [|done].
  apply bind_ok in Hrun as (p & s2 & w5 & Hp & Hrun). mstep Hp. pose proof (io_state _ _ _ _ _ Hp) as ->.
  apply bind_ok in Hrun as (u2 & s3 & w6 & Hj & Hrun).
  destruct iterErr as [e|]; [destruct p; by apply fail_ok in Hj|]. destruct p as [[]|]; [|by apply fail_ok in Hj]. apply ret_ok in Hj as (_ & -> & ->).
  apply bind_ok in Hrun as (h & s4 & w7 & Hh & Hrun). apply bind_ok in Hrun as (u3 & s5 & w8 & [He2 ->]%raise_node_err_ok & Hrun).
  apply ret_ok in Hrun as (-> & -> & ->). eapply (traversal_Hash_ok (Some directVisitor)) in Hh as [-> Hs2]; [|done..].
  split; [done|]. exists st, ns. split; [done|]. split; [done|].
  assert (Hst : steps (observed (Some directVisitor) (Some directSink)) (node_events owner (ns ++ (stack_hash st).2))
    (MkTarget db (newDirectStateWriter HashScheme)) (env s4)) by (unfold node_events in *; rewrite map_app; by eapply steps_app).
  apply observed_calls_all, run_calls_ok in Hst as [Hlog (_ & _ & Hcl)]. apply CloseContext_ok in Hc; [|by rewrite Hcl].
  rewrite Hc Hlog. cbn [tg_writer dw_scheme newDirectStateWriter newDirectStateWriterWithFlushLimit]. by rewrite node_events_puts.
Qed.

End RebuildLemmas.

(** ** Metadata *)

Section MetadataLemmas.
Context `{Keccak, RLPSplit, TrieGet, RLPBytes, BatchSize, BatchValueSize}.
Context (root : Hash).
Implicit Types (t : ovmTransformer) (account : StateAccount).

(** A word of the token's storage. *)
Definition storage_word account (slot : Hash) : result N :=
  blob ← storage_get root ovmOwner (acc_Root account) (hash_bytes (ovmStorageHash slot));
  decodeOVMValue blob.

(** The entries that mark the chunks of a string. *)
Definition string_ops account (slot : Hash) : list batch_op :=
  match storage_word account slot with
  | Ok v =>
      if v mod 2 =? 0 then [] else
      let base := set_bytes256 (hash_bytes (keccak256 (hash_bytes slot))) in
      map (λ n, BPut (prefix_k :: hash_bytes (keccak256 (be_encode 32 (add256 base (N.of_nat n))))) (drop 31 (hash_bytes slot)))
        (seq 0 (N.to_nat ((v / 2 - 1) / 32 + 1)))
  | Err _ => []
  end.

Definition slot_ops account (n : N) : list batch_op :=
  if n <? 2 then [] else
  BPut (prefix_k :: hash_bytes (ovmStorageHash (slot_number n))) [byte_of_N n] ::
  (if (n =? 3) || (n =? 4) then string_ops account (slot_number n) else []).

Definition metadata_ops account : list batch_op := [0; 1; 2; 3; 4; 5; 6] ≫= slot_ops account.

(** [t'] is [t] with the operations [ops] added to its index. *)
Definition indexed t (ops : list batch_op) t' : Prop :=
  ∃ i', t' = set_tr_index i' t ∧ ix_view i' = apply_ops (ix_view (tr_index t)) ops.

Lemma indexed_nil t : indexed t [] t.
Proof. exists (tr_index t). split; [|done]. by destruct t. Qed.

Lemma indexed_trans t1 t2 t3 l1 l2 : indexed t1 l1 t2 → indexed t2 l2 t3 → indexed t1 (l1 ++ l2) t3.
Proof. intros (i1 & -> & H1') (i2 & -> & H2'). exists i2. split; [done|]. by rewrite apply_ops_app H2' -H1'. Qed.

Lemma indexed_account t ops t' : indexed t ops t' → tr_account t' = tr_account t.
Proof. by intros (i' & -> & _). Qed.

Lemma on_index_put_ok p k v t w u t' w' :
  on_index (index_put p k v) t w = (Ok u, t', w') → indexed t [BPut (p :: k) v] t'.
Proof. unfold on_index. intros (i & Hp & ->)%zoom_ok. exists i. split; [done|]. by apply index_put_view in Hp. Qed.

Lemma for_each_indexed {A} (f : A → list batch_op) (body : A → M ovmTransformer unit) l t w u t' w' :
  (∀ x t1 w u t2 w', tr_account t1 = tr_account t → body x t1 w = (Ok u, t2, w') → indexed t1 (f x) t2) →
  for_each l body t w = (Ok u, t', w') → indexed t (l ≫= f) t'.
Proof.
  intros Hb. assert (Hg : ∀ t1 w, tr_account t1 = tr_account t → for_each l body t1 w = (Ok u, t', w') → indexed t1 (l ≫= f) t'); [|by apply Hg].
  induction l as [|x l IH]; intros t1 w1 Ha Hr; cbn [for_each] in Hr.
  - apply ret_ok in Hr as (_ & -> & _). apply indexed_nil.
  - apply bind_ok in Hr as (u0 & t2 & w2 & Hx & Hr). apply Hb in Hx; [|done]. rewrite bind_cons. eapply indexed_trans; [exact Hx|].
    eapply IH; [|exact Hr]. by rewrite (indexed_account _ _ _ Hx).
Qed.

Lemma storageValue_ok slot t w v t' w' :
  storageValue root slot t w = (Ok v, t', w') → storage_word (tr_account t) slot = Ok v ∧ t' = t ∧ w' = w.
Proof.
  unfold storageValue, storage_word. intros (a & t1 & w1 & (-> & -> & ->)%gets_ok & Hr)%bind_ok.
  apply bind_ok in Hr as (blob & t1 & w1 & (Hb & -> & ->)%lift_ok & Hr). apply lift_ok in Hr as (Hd & -> & ->). rewrite Hb. done.
Qed.

Lemma bind_single {A B} (f : A → B) l : l ≫= (λ x, [f x]) = map f l.
Proof. induction l as [|x l IH]; [done|]. by rewrite bind_cons IH. Qed.

Lemma recognizeString_ok slot t w u t' w' :
  recognizeString root slot t w = (Ok u, t', w') → indexed t (string_ops (tr_account t) slot) t'.
Proof.
  unfold recognizeString, string_ops. intros (v & t1 & w1 & (Hv & -> & ->)%storageValue_ok & Hr)%bind_ok. rewrite Hv.
  destruct (v mod 2 =? 0).
  - apply bind_ok in Hr as (u1 & t1 & w1 & (_ & -> & ->)%lift_ok & Hr). apply lift_ok in Hr as (_ & -> & ->). apply indexed_nil.
  - apply bind_ok in Hr as (u1 & t1 & w1 & (_ & -> & ->)%lift_ok & Hr). unfold recognize_chunks in Hr.
    set (f := λ n : nat, [BPut (prefix_k :: hash_bytes (keccak256 (be_encode 32 (add256 (set_bytes256 (hash_bytes (keccak256 (hash_bytes slot)))) (N.of_nat n))))) (drop 31 (hash_bytes slot))]).
    apply (for_each_indexed f) in Hr.
    + unfold f in Hr. by rewrite bind_single in Hr.
    + intros n t1 w1 u2 t2 w2 _ Hb. apply bind_ok in Hb as (u3 & t3 & w3 & ->%poll_ok & Hb). by apply on_index_put_ok in Hb.
Qed.

Lemma recognizeMetadata_ok t w u t' w' :
  recognizeMetadata root t w = (Ok u, t', w') →
  t' = set_tr_index (MkOvmIndex (apply_ops (ix_view (tr_index t)) (metadata_ops (tr_account t))) []) t.
Proof.
  unfold recognizeMetadata. intros (u0 & t1 & w1 & Hf & Hr)%bind_ok. unfold on_index in Hr. apply zoom_ok in Hr as (i & ->%index_flush_ok & ->).
  apply (for_each_indexed (slot_ops (tr_account t))) in Hf as (i & -> & Hv); [by rewrite Hv|].
  intros n t2 w2 u2 t3 w3 Ha Hb. unfold recognize_slot, slot_ops in *. rewrite -Ha. destruct (n <? 2).
  - apply bind_ok in Hb as (v & t4 & w4 & (_ & -> & ->)%storageValue_ok & Hb). apply lift_ok in Hb as (_ & -> & ->). apply indexed_nil.
  - apply bind_ok in Hb as (u3 & t4 & w4 & Hp%on_index_put_ok & Hb). rewrite -(indexed_account _ _ _ Hp). apply (indexed_trans _ t4 _ [_]); [done|].
    destruct ((n =? 3) || (n =? 4)); [by apply recognizeString_ok in Hb|]. apply ret_ok in Hb as (_ & -> & ->). apply indexed_nil.
Qed.

End MetadataLemmas.
