(* ===== verification/OvmConversion.v ===== *)
(** * What the balance conversion computes

    The theorems about [transformOVMState] of [OvmTransform.v]. A successful
    conversion, in any environment, with any number of workers and any order
    of the inspections, is described by equations between the source state,
    the evidence and the result ([conversion]); conservation of the balances,
    the new state and its independence of scheduling follow from them. *)

From S2P Require Import Prelude Geth Instances Manifest StrictIO Records Scanner Bundle Account StateTrie Consumer Stream Traverse AtomicDir Export DirectWriter OvmIndex OvmAudit OvmTransform.

(** Iterators yield the leaves of a trie in key order. *)
Class IteratorLaws `{TrieReader} : Prop := {
  account_leaves_ok root leaves e : account_iterator root = Ok (leaves, e) → leaves_ok leaves;
  storage_leaves_ok root owner sroot leaves e : storage_iterator root owner sroot = Ok (leaves, e) → leaves_ok leaves
}.

(** What a conversion reads and derives. *)
Record conversion := MkConversion {
  cd_account : StateAccount;
  cd_evidence : store;
  cd_leaves : list (bytes * bytes);
  cd_classes : list (option (Address * Hash * N));
  cd_queue : list (Address * Hash * N);
  cd_jobs : list ovmBalanceJob;
  cd_supply : N;
  cd_supplyRLP : bytes;
  cd_storageRoot : Hash;
  cd_accountRLP : bytes;
  cd_accounts : list (bytes * bytes)
}.

Section Conversion.
Context `{Keccak, EmptyHashes, AccountRLP, RLPSplit, StackTrie, TrieReader, TrieGet, RLPBytes}.
Context `{RawdbKeys, BatchSize, BatchValueSize, SlimRLP}.
Context (trie_root : list (bytes * bytes) → Hash).
Context `{!IteratorLaws, !StackTrieLaws trie_root}.
Context (root : Hash) (inputs : ovmInputs) (workers : Z) (schedule : nat → list nat).
Context (Hschedule : ∀ n, schedule n ≡ₚ seq 0 n).
Implicit Types (i : ovmIndex) (d : conversion) (t : ovmTransformer).

(** The patches of a namespace, by key. *)
Definition patch_list (n : byte) (V : store) : list (bytes * bytes) := map (λ kv, (drop 1 kv.1, kv.2)) (db_iterate V [n] []).

(** The jobs of a conversion. *)
Definition queued d : list (Address * Hash * N) := omap id (cd_classes d).
Definition queue_store d : store := foldl queue_job (cd_evidence d) (queued d).
(** The index with the patches of the holders, with that of the supply, and
    with that of the token. *)
Definition holders_store d : store := apply_ops (queue_store d) (cd_jobs d ≫= job_patches).
Definition storage_store d : store := <[prefix_s :: hash_bytes (ovmStorageHash (slot_number 2)) := cd_supplyRLP d]> (holders_store d).
Definition accounts_store d : store := <[prefix_p :: hash_bytes ovmOwner := cd_accountRLP d]> (storage_store d).

(** The amounts after all jobs, from a fresh count. *)
Definition base_amounts d : ovmTransformer := set_tr_supply (cd_supply d) (newTransformer ∅ (newOVMIndex ∅)).
Definition final_amounts d : ovmTransformer := foldl (λ t j, apply_amounts j t) (base_amounts d) (cd_jobs d).

Record conversion_ok (head : Head) (view : store) d (newRoot : Hash) (ev : OVMBalanceEvidence) : Prop := {
  cv_account : source_account root ovmOwner = Ok (cd_account d);
  cv_code : BytesToHash (acc_CodeHash (cd_account d)) ≠ EmptyCodeHash;
  cv_evidence : cd_evidence d = apply_ops view (metadata_ops root (cd_account d));
  cv_supply : storage_word root (cd_account d) (slot_number 2) = Ok (cd_supply d);
  cv_leaves : storage_iterator root ovmOwner (acc_Root (cd_account d)) = Ok (cd_leaves d, None);
  cv_classes : mapM (classify_spec (cd_evidence d)) (cd_leaves d) = Ok (cd_classes d);
  cv_queue : mapM (λ kv, parse_job kv.1 kv.2) (db_iterate (queue_store d) [prefix_q] []) = Ok (cd_queue d);
  cv_jobs : mapM (inspect_spec root inputs (cd_evidence d)) (new_job <$> cd_queue d) = Ok (cd_jobs d);
  cv_good : Forall job_good (cd_jobs d);
  cv_total : tr_total (final_amounts d) = foldr N.add 0 (job_value <$> cd_jobs d) ∧ tr_total (final_amounts d) < two256;
  cv_accounting : match in_audit inputs with
    | Some audit => matchAccounting audit (BlockNumber head) (BytesToHash (acc_CodeHash (cd_account d)))
                      (tr_balanceSlots (final_amounts d)) (tr_total (final_amounts d)) (cd_supply d) = Ok ()
    | None => tr_total (final_amounts d) = cd_supply d
    end;
  cv_supplyRLP : (if tr_RemainingSupply (final_amounts d) =? 0 then Ok [] else rlp_encode_bytes (bytes256 (tr_RemainingSupply (final_amounts d)))) = Ok (cd_supplyRLP d);
  cv_storageRoot : ∃ st ns, stack_feed stack_new (patched_leaves (patch_list prefix_s (storage_store d)) (cd_leaves d)) = Ok (st, ns) ∧
    cd_storageRoot d = (stack_hash st).1;
  cv_accountRLP : rlp_encode_account (converted_account (cd_storageRoot d) (tr_RemainingSupply (final_amounts d)) (keccak256 (in_code inputs)) (cd_account d))
    = Ok (cd_accountRLP d);
  cv_accounts : account_iterator root = Ok (cd_accounts d, None);
  cv_newRoot : ∃ st ns, stack_feed stack_new (patched_leaves (patch_list prefix_p (accounts_store d)) (cd_accounts d)) = Ok (st, ns) ∧
    newRoot = (stack_hash st).1;
  cv_amounts : ev = tr_evidence (final_amounts d)
}.

(** ** A successful run is such a conversion *)

(** Two transformers with the same amounts. *)
Definition same_amounts t t' : Prop :=
  tr_evidence t = tr_evidence t' ∧ tr_total t = tr_total t' ∧ tr_balanceSlots t = tr_balanceSlots t'.

Lemma apply_amounts_same j t t' : same_amounts t t' → same_amounts (apply_amounts j t) (apply_amounts j t').
Proof.
  destruct t, t'. intros ([= -> -> -> -> -> -> ->] & Ht & Hs). cbn in Ht, Hs. subst. unfold apply_amounts.
  destruct (_ =? _); [done|]. destruct (is_self j); [done|]. by destruct (job_contract j && job_retain j).
Qed.

Lemma fold_amounts_same jobs t t' :
  same_amounts t t' → same_amounts (foldl (λ t j, apply_amounts j t) t jobs) (foldl (λ t j, apply_amounts j t) t' jobs).
Proof. revert t t'. induction jobs as [|j jobs IH]; intros t t' Hs; [done|]. cbn. by apply IH, apply_amounts_same. Qed.

Lemma fold_amounts_account jobs t : tr_account (foldl (λ t j, apply_amounts j t) t jobs) = tr_account t.
Proof.
  revert t. induction jobs as [|j jobs IH]; intros t; [done|]. cbn. rewrite IH. unfold apply_amounts.
  destruct (_ =? _); [done|]. destruct (is_self j); [done|]. by destruct (_ && _).
Qed.

Lemma readOVMAccount_ok {St} hash (s : St) w a s' w' :
  readOVMAccount root hash s w = (Ok a, s', w') → source_account root hash = Ok a ∧ s' = s.
Proof.
  unfold readOVMAccount. intros ([r rd] & s1 & w1 & [Hr ->]%run_on_ok & Hl)%bind_ok. apply lift_ok in Hl as (-> & -> & ->). cbn in Hr.
  apply reader_read_ok in Hr as (_ & _ & Hx); [|apply newAccountReader_wf]. by split; [apply Hx|].
Qed.

Lemma validate_state {St} i (s : St) w u s' w' : validateOVMERC20RetainList root i s w = (Ok u, s', w') → s' = s.
Proof.
  unfold validateOVMERC20RetainList. intros ([r rd] & s1 & w1 & [_ ->]%run_on_ok & Hr)%bind_ok.
  apply bind_ok in Hr as (u1 & s2 & w2 & (_ & -> & ->)%lift_ok & Hr). apply bind_ok in Hr as (u2 & s3 & w3 & ->%wrap_ok%io_ok & Hr).
  by apply poll_ok in Hr.
Qed.

Lemma classifyStorage_ok V t w u t' w' :
  tr_index t = MkOvmIndex V [] → tr_total t < two256 → classifyStorage root inputs workers schedule t w = (Ok u, t', w') →
  ∃ leaves classes queue jobs,
    storage_iterator root ovmOwner (acc_Root (tr_account t)) = Ok (leaves, None) ∧
    mapM (classify_spec V) leaves = Ok classes ∧
    mapM (λ kv, parse_job kv.1 kv.2) (db_iterate (foldl queue_job V (omap id classes)) [prefix_q] []) = Ok queue ∧
    mapM (inspect_spec root inputs V) (new_job <$> queue) = Ok jobs ∧ Forall job_good jobs ∧
    (∃ i', agrees scratch V i' ∧ t' = set_tr_index i' (foldl (λ t j, apply_amounts j t) t jobs) ∧
      ix_view i' = apply_ops (foldl queue_job V (omap id classes)) (jobs ≫= job_patches)) ∧
    tr_total t' = tr_total t + foldr N.add 0 (job_value <$> jobs) ∧ tr_total t' < two256.
Proof.
  intros Hi Hlt Hr. assert (Ha : agrees scratch V (tr_index t)) by (rewrite Hi; apply agrees_flushed).
  assert (Hview : ix_view (tr_index t) = V) by by rewrite Hi.
  unfold classifyStorage in Hr. apply bind_ok in Hr as (a & t1 & w1 & (-> & -> & ->)%gets_ok & Hr).
  apply bind_ok in Hr as ([leaves e] & t1 & w1 & (Hit & -> & ->)%lift_ok & Hr). apply bind_ok in Hr as (u1 & t1 & w1 & Hc & Hr).
  apply (classify_leaves_ok V) in Hc as (classes & i1 & Hm & -> & Ha1 & Hv1); [|done|by apply (storage_leaves_ok _ _ _ _ _ Hit)].
  apply bind_ok in Hr as (u2 & t2 & w2 & ->%poll_ok & Hr). apply bind_ok in Hr as (u3 & t2 & w3 & He & Hr).
  destruct e as [e|]; [by apply fail_ok in He|]. apply ret_ok in He as (_ & -> & ->).
  apply bind_ok in Hr as (t2 & t3 & w3 & (-> & -> & ->)%get_ok & Hr). apply bind_ok in Hr as ([r b] & t3 & w3 & [Hb ->]%run_on_ok & Hr).
  apply bind_ok in Hr as (u4 & t3 & w4 & [-> ->]%modify_ok & Hr). cbn [fst snd] in *. destruct r as [[]|e0]; [|destruct (bt_failure b); by apply fail_ok in Hr].
  apply (inspectOrderedBalances_ok root inputs workers schedule Hschedule V) in Hb as (js & jobs & Hp & Hi2 & Hs & Hf); [|done]. rewrite Hf in Hr. apply ret_ok in Hr as (_ & -> & ->).
  cbn [tr_index set_tr_index] in *. rewrite Hview in Hv1. rewrite Hv1 in Hp, Hs.
  apply (steps_apply_ok V) in Hs as (Hg & (i' & Ha' & Ht' & Hv') & Ht); cycle 1.
  { intros n key Hn. unfold ix_view. cbn. rewrite -Hv1. by destruct (Ha1 n key Hn) as [_ ->]. }
  exists leaves, classes, js, jobs. split_and!; try done; [|by apply Ht..].
  exists i'. split; [done|]. split; [|done]. by rewrite Ht' !fold_amounts_index.
Qed.

Lemma rebuildPatchedTriePrefix_ok owner leaves iterErr n t w newRoot t' w' :
  rebuildPatchedTriePrefix owner (leaves, iterErr) [n] t w = (Ok newRoot, t', w') →
  iterErr = None ∧ ∃ st ns, stack_feed stack_new (patched_leaves (patch_list n (ix_db (tr_index t))) leaves) = Ok (st, ns) ∧
    newRoot = (stack_hash st).1 ∧ t' = set_tr_db (apply_ops (tr_db t) (node_puts (ns ++ (stack_hash st).2))) t.
Proof.
  unfold rebuildPatchedTriePrefix. intros (t0 & t1 & w1 & (-> & -> & ->)%get_ok & Hr)%bind_ok.
  apply bind_ok in Hr as ([r tg] & t1 & w1 & [Hb ->]%run_on_ok & Hr). apply bind_ok in Hr as (u & t1 & w2 & [-> ->]%modify_ok & Hr).
  apply lift_ok in Hr as (Hr & -> & ->). cbn [fst snd] in *. subst r. apply rebuild_on_target_ok in Hb as (He & st & ns & Hf & -> & Hdb).
  split; [done|]. exists st, ns. by rewrite Hdb.
Qed.

Lemma rebuildStorage_ok owner t w newRoot t' w' :
  rebuildStorage root owner t w = (Ok newRoot, t', w') →
  ∃ supply leaves st ns db',
    (if tr_RemainingSupply t =? 0 then Ok [] else rlp_encode_bytes (bytes256 (tr_RemainingSupply t))) = Ok supply ∧
    storage_iterator root owner (acc_Root (tr_account t)) = Ok (leaves, None) ∧
    let V := <[prefix_s :: hash_bytes (ovmStorageHash (slot_number 2)) := supply]> (ix_view (tr_index t)) in
    stack_feed stack_new (patched_leaves (patch_list prefix_s V) leaves) = Ok (st, ns) ∧ newRoot = (stack_hash st).1 ∧
    t' = set_tr_db db' (set_tr_index (MkOvmIndex V []) t).
Proof.
  unfold rebuildStorage, on_index. intros (t0 & t1 & w1 & (-> & -> & ->)%get_ok & Hr)%bind_ok.
  apply bind_ok in Hr as (supply & t1 & w1 & Hs & Hr).
  assert (Hs' : (if tr_RemainingSupply t =? 0 then Ok [] else rlp_encode_bytes (bytes256 (tr_RemainingSupply t))) = Ok supply ∧ t1 = t ∧ w1 = w).
  { destruct (tr_RemainingSupply t =? 0); [by apply ret_ok in Hs as (-> & -> & ->)|by apply lift_ok in Hs]. }
  destruct Hs' as (Hs' & -> & ->). apply bind_ok in Hr as (u1 & t1 & w2 & (i1 & Hp & ->)%zoom_ok & Hr). apply index_put_view in Hp.
  apply bind_ok in Hr as (u2 & t2 & w3 & (i2 & ->%index_flush_ok & ->)%zoom_ok & Hr). cbn [tr_index set_tr_index] in *. rewrite Hp in Hr.
  apply bind_ok in Hr as ([leaves e] & t2 & w4 & (Hit & -> & ->)%lift_ok & Hr).
  apply rebuildPatchedTriePrefix_ok in Hr as (-> & st & ns & Hf & -> & ->). by eexists supply, leaves, st, ns, _.
Qed.

(** The classified part of a conversion. *)
Lemma transform_classify_ok head db i w u t' w' :
  transform_classify root inputs workers schedule head (newTransformer db i) w = (Ok u, t', w') →
  ∃ account supply leaves classes queue jobs i',
    let V := apply_ops (ix_view i) (metadata_ops root account) in
    let tf := foldl (λ t j, apply_amounts j t) (set_tr_supply supply (set_tr_account account (newTransformer db i))) jobs in
    source_account root ovmOwner = Ok account ∧ BytesToHash (acc_CodeHash account) ≠ EmptyCodeHash ∧
    storage_word root account (slot_number 2) = Ok supply ∧ storage_iterator root ovmOwner (acc_Root account) = Ok (leaves, None) ∧
    mapM (classify_spec V) leaves = Ok classes ∧
    mapM (λ kv, parse_job kv.1 kv.2) (db_iterate (foldl queue_job V (omap id classes)) [prefix_q] []) = Ok queue ∧
    mapM (inspect_spec root inputs V) (new_job <$> queue) = Ok jobs ∧ Forall job_good jobs ∧
    (tr_total tf = foldr N.add 0 (job_value <$> jobs) ∧ tr_total tf < two256) ∧
    match in_audit inputs with
    | Some audit => matchAccounting audit (BlockNumber head) (BytesToHash (acc_CodeHash account)) (tr_balanceSlots tf) (tr_total tf) supply = Ok ()
    | None => tr_total tf = supply
    end ∧
    t' = set_tr_index i' tf ∧ ix_view i' = apply_ops (foldl queue_job V (omap id classes)) (jobs ≫= job_patches).
Proof.
  intros Hr. unfold transform_classify in Hr. apply bind_ok in Hr as (account & t1 & w1 & [Hacc ->]%readOVMAccount_ok & Hr).
  apply bind_ok in Hr as (u1 & t1 & w2 & (Hcode%reject_if_ok & -> & ->)%lift_ok & Hr). apply bool_decide_eq_false in Hcode.
  apply bind_ok in Hr as (u2 & t1 & w2 & [-> ->]%modify_ok & Hr). apply bind_ok in Hr as (t2 & t3 & w2 & (-> & -> & ->)%get_ok & Hr).
  apply bind_ok in Hr as (u3 & t3 & w2 & Hret & Hr).
  assert (t3 = set_tr_account account (newTransformer db i)) as ->
    by (destruct (retention_on inputs); [by apply validate_state in Hret|by apply ret_ok in Hret as (_ & -> & _)]).
  apply bind_ok in Hr as (supply & t3 & w3 & (Hsup & -> & ->)%storageValue_ok & Hr).
  apply bind_ok in Hr as (u4 & t3 & w3 & [-> ->]%modify_ok & Hr). apply bind_ok in Hr as (u5 & t3 & w3 & ->%recognizeMetadata_ok & Hr).
  apply bind_ok in Hr as (u6 & t3 & w4 & Hcl & Hr).
  eapply classifyStorage_ok in Hcl as (leaves & classes & queue & jobs & Hit & Hm & Hq & Hj & Hg & (i3 & Ha & -> & Hv) & Htot & Hlt); [|reflexivity|done].
  apply bind_ok in Hr as (t2 & t3 & w5 & (-> & -> & ->)%get_ok & Hr). rewrite fold_amounts_index in Hr, Htot, Hlt.
  apply bind_ok in Hr as (u7 & t3 & w5 & (Hau & -> & ->)%lift_ok & Hr). unfold sub_overflow256 in Hr.
  apply bind_ok in Hr as (u8 & t3 & w5 & (_ & -> & ->)%lift_ok & Hr). apply lift_ok in Hr as (_ & -> & ->).
  exists account, supply, leaves, classes, queue, jobs, i3. cbv zeta. rewrite Hsup. split_and!; try done.
  destruct (in_audit inputs); [by destruct u7|]. by apply reject_if_ok, negb_false_iff, N.eqb_eq in Hau.
Qed.

(** The rebuilt part, from a transformer with the patches in its index. *)
Lemma transform_rebuild_ok t w newRoot ev t' w' :
  transform_rebuild root inputs t w = (Ok (newRoot, ev), t', w') →
  ∃ sRLP leaves sroot blob accounts, let Vs := <[prefix_s :: hash_bytes (ovmStorageHash (slot_number 2)) := sRLP]> (ix_view (tr_index t)) in
    (if tr_RemainingSupply t =? 0 then Ok [] else rlp_encode_bytes (bytes256 (tr_RemainingSupply t))) = Ok sRLP ∧
    storage_iterator root ovmOwner (acc_Root (tr_account t)) = Ok (leaves, None) ∧
    (∃ st ns, stack_feed stack_new (patched_leaves (patch_list prefix_s Vs) leaves) = Ok (st, ns) ∧ sroot = (stack_hash st).1) ∧
    rlp_encode_account (converted_account sroot (tr_RemainingSupply t) (keccak256 (in_code inputs)) (tr_account t)) = Ok blob ∧
    account_iterator root = Ok (accounts, None) ∧
    (∃ st ns, stack_feed stack_new (patched_leaves (patch_list prefix_p (<[prefix_p :: hash_bytes ovmOwner := blob]> Vs)) accounts) = Ok (st, ns) ∧
      newRoot = (stack_hash st).1) ∧
    ev = tr_evidence t.
Proof.
  unfold transform_rebuild, on_index. intros (u10 & t3 & w6 & (i4 & ->%index_flush_ok & ->)%zoom_ok & Hr)%bind_ok.
  apply bind_ok in Hr as (sroot & t3 & w7 & Hst & Hr). apply rebuildStorage_ok in Hst as (sRLP & leaves & st & ns & db2 & HsR & Hit2 & Hf & Hsr & ->).
  apply bind_ok in Hr as (u11 & t3 & w8 & [-> ->]%modify_ok & Hr). apply bind_ok in Hr as (u12 & t3 & w8 & Hwc & Hr).
  unfold write_code in Hwc. apply bind_ok in Hwc as (t4 & t5 & w9 & (-> & -> & ->)%get_ok & Hwc).
  apply bind_ok in Hwc as ([r tg] & t5 & w9 & [_ ->]%run_on_ok & Hwc). apply bind_ok in Hwc as (u13 & t5 & w10 & [-> ->]%modify_ok & Hwc).
  apply lift_ok in Hwc as (_ & -> & ->). apply bind_ok in Hr as (t4 & t5 & w12 & (-> & -> & ->)%get_ok & Hr).
  apply bind_ok in Hr as (u14 & t5 & w10 & Hp & Hr). unfold patchAccount in Hp. apply bind_ok in Hp as (blob & t6 & w11 & (Hb & -> & ->)%lift_ok & Hp).
  apply on_index_put_ok in Hp as (i5 & -> & Hv5). apply bind_ok in Hr as (u15 & t6 & w14 & (i6 & ->%index_flush_ok & ->)%zoom_ok & Hr).
  apply bind_ok in Hr as (nr & t6 & w13 & Hra & Hr). unfold rebuildAccounts in Hra. apply bind_ok in Hra as ([accounts e] & t7 & w15 & (Hai & -> & ->)%lift_ok & Hra).
  apply rebuildPatchedTriePrefix_ok in Hra as (-> & st2 & ns2 & Hf2 & -> & ->). apply bind_ok in Hr as (ev0 & t7 & w16 & (-> & -> & ->)%gets_ok & Hr).
  apply ret_ok in Hr as ([= -> ->] & -> & ->). cbn [tr_index set_tr_index ix_db] in Hf2. rewrite Hv5 in Hf2.
  exists sRLP, leaves, sroot, blob, accounts. split_and!; try done; eauto.
Qed.

(** A successful run satisfies the equations of a conversion. *)
Lemma transform_ok head db i w newRoot ev t' w' :
  transformOVMState root inputs workers schedule head (newTransformer db i) w = (Ok (newRoot, ev), t', w') →
  ∃ d, conversion_ok head (ix_view i) d newRoot ev.
Proof.
  unfold transformOVMState. intros (r & t1 & w1 & Hb & Hr)%bind_ok. mstep Hb. apply bind_ok in Hr as (c & t2 & w2 & Hc & Hr).
  assert (r = Ok (newRoot, ev)) as ->.
  { destruct r as [[]|e], c; cbn in Hr; try by apply fail_ok in Hr. by apply lift_ok in Hr as ([= -> ->] & _). }
  clear Hr Hc. unfold transform_body in Hb. apply bind_ok in Hb as (u & t3 & w3 & Hcl & Hr).
  apply transform_classify_ok in Hcl as (account & supply & leaves & classes & queue & jobs & i' & Hacc & Hcode & Hsup & Hit & Hm & Hq & Hj & Hg & Htot & Hau & -> & Hv).
  apply transform_rebuild_ok in Hr as (sRLP & leaves2 & sroot & blob & accounts & HsR & Hit2 & Hsr & Hb & Hai & Hnr & Hev).
  cbn [tr_account tr_index set_tr_index] in *. rewrite Hv in Hsr, Hnr. rewrite fold_amounts_account in Hit2, Hb. cbn [tr_account set_tr_supply set_tr_account] in Hit2, Hb.
  rewrite Hit in Hit2. injection Hit2 as <-.
  exists (MkConversion account (apply_ops (ix_view i) (metadata_ops root account)) leaves classes queue jobs supply sRLP sroot blob accounts).
  set (d := MkConversion _ _ _ _ _ _ _ _ _ _ _).
  assert (Hsame : same_amounts (foldl (λ t j, apply_amounts j t) (set_tr_supply supply (set_tr_account account (newTransformer db i))) jobs) (final_amounts d))
    by (by apply fold_amounts_same).
  destruct Hsame as (He & Ht & Hs). pose proof He as Hrem. apply (f_equal ev_RemainingSupply) in Hrem. cbn in Hrem. injection Hrem as Hrem.
  rewrite Ht in Htot, Hau. rewrite Hs in Hau. rewrite Hrem in HsR, Hb. by split; try done; rewrite -He.
Qed.

End Conversion.

(** ** Patched leaves by lookup *)

Section PatchLemmas.
Implicit Types (V : store) (original : list (bytes * bytes)).

Lemma le_prefix p (k : bytes) : bytes_le ([p] ++ []) (p :: k).
Proof. intros Hx. by apply bytes_lt_cons in Hx as [Hx|[_ Hx]]; [lia|destruct k]. Qed.

Lemma patch_list_elem n V k v : (k, v) ∈ patch_list n V ↔ V !! (n :: k) = Some v.
Proof.
  unfold patch_list. rewrite list_elem_of_fmap. split.
  - intros ([k' v'] & [= -> ->] & (Hl & Hp & _)%db_iterate_elem). cbn. apply has_prefix_spec in Hp as [rest ->]. by rewrite /= drop_0.
  - intros Hl. exists (n :: k, v). cbn. rewrite drop_0. split; [done|]. apply db_iterate_elem. split; [done|].
    split; [by apply has_prefix_spec; exists k|apply le_prefix].
Qed.

Lemma patch_list_keys n V k : k ∈ (patch_list n V).*1 ↔ is_Some (V !! (n :: k)).
Proof.
  rewrite list_elem_of_fmap. split.
  - intros ([k' v] & -> & Hx%patch_list_elem). by exists v.
  - intros [v Hv]. exists (k, v). by rewrite patch_list_elem.
Qed.

Lemma patch_list_sorted n V : StronglySorted bytes_lt (patch_list n V).*1.
Proof.
  unfold patch_list. pose proof (db_iterate_sorted V [n] []) as Hs.
  assert (Hp : Forall (λ kv : bytes * bytes, ∃ rest, kv.1 = n :: rest) (db_iterate V [n] [])).
  { apply Forall_forall. intros [k v] (_ & Hp & _)%db_iterate_elem. apply has_prefix_spec in Hp as [rest ->]. by exists rest. }
  induction (db_iterate V [n] []) as [|kv l IH]; [constructor|]. cbn in *. apply StronglySorted_inv in Hs as [Hs Hf]. apply Forall_cons in Hp as [[r0 Hr0] Hp].
  constructor; [by apply IH|]. rewrite Hr0. cbn. rewrite drop_0. rewrite Forall_forall in Hf. apply Forall_forall. intros k Hk.
  apply list_elem_of_fmap in Hk as (kv' & -> & Hk). apply list_elem_of_fmap in Hk as (kv2 & -> & Hk). rewrite Forall_forall in Hp. destruct (Hp _ Hk) as [rest Hrest].
  specialize (Hf kv2.1). rewrite Hr0 Hrest in Hf. cbn. rewrite Hrest /= drop_0. assert (Hl : bytes_lt (n :: r0) (n :: rest)).
  { apply Hf. rewrite -Hrest. by apply list_elem_of_fmap_2. } apply bytes_lt_cons in Hl as [Hl|[_ Hl]]; [lia|done].
Qed.

Lemma patched_leaves_elem n V original k v :
  leaves_ok original →
  (k, v) ∈ patched_leaves (patch_list n V) original ↔
  v ≠ [] ∧ (V !! (n :: k) = Some v ∨ ((k, v) ∈ original ∧ V !! (n :: k) = None)).
Proof.
  intros [Hs _]. unfold patched_leaves. rewrite list_elem_of_filter merge_elem; [|apply patch_list_sorted|done].
  rewrite patch_list_elem patch_list_keys. cbn. rewrite eq_None_not_Some. done.
Qed.

Lemma patched_leaves_ok n V original :
  leaves_ok original → (∀ k v, V !! (n :: k) = Some v → length k = HashLength) → leaves_ok (patched_leaves (patch_list n V) original).
Proof.
  intros Ho Hk. split.
  - destruct Ho as [Hs _]. unfold patched_leaves.
    assert (Hf : ∀ l : list (bytes * bytes), StronglySorted bytes_lt l.*1 → StronglySorted bytes_lt (filter (λ kv, kv.2 ≠ []) l).*1).
    { intros l. induction l as [|x l IH]; intros Hl; [done|]. apply sorted_cons_inv in Hl as [Hl Hx]. rewrite filter_cons. case_decide; [|by apply IH].
      apply sorted_cons; [by apply IH|]. intros y Hy. apply Hx. apply list_elem_of_fmap in Hy as (z & -> & [_ Hz]%list_elem_of_filter). by apply list_elem_of_fmap_2. }
    apply Hf, merge_sorted; [apply patch_list_sorted|done].
  - apply Forall_forall. intros [k v] Hin. apply patched_leaves_elem in Hin as [Hv Hin]; [|done]. cbn. split; [|done].
    destruct Hin as [Hl|[Hl _]]; [by eapply Hk|]. destruct Ho as [_ Hf]. rewrite Forall_forall in Hf. by apply (Hf _ Hl).
Qed.

Lemma apply_ops_lookup_other V ops k : (∀ op, op ∈ ops → op_key op ≠ k) → apply_ops V ops !! k = V !! k.
Proof.
  induction ops as [|op ops IH] using rev_ind; intros Hk; [done|]. rewrite apply_ops_app. cbn.
  rewrite -IH; [|intros o Ho; apply Hk; by apply elem_of_app; left]. specialize (Hk op ltac:(apply elem_of_app; right; left)).
  destruct op; cbn in *; [by rewrite lookup_insert_ne|by rewrite lookup_delete_ne].
Qed.

End PatchLemmas.

(** ** Amounts *)

Definition total_of (jobs : list ovmBalanceJob) : N := foldr N.add 0 (job_value <$> jobs).
(** The value of the jobs with a property, and how many nonzero ones there are. *)
Definition sum_if (p : ovmBalanceJob → bool) (jobs : list ovmBalanceJob) : N := total_of (filter (λ j, p j = true) jobs).
Definition count_if (p : ovmBalanceJob → bool) (jobs : list ovmBalanceJob) : N :=
  N.of_nat (length (filter (λ j, job_value j ≠ 0 ∧ p j = true) jobs)).

Section AmountLemmas.
Implicit Types (jobs : list ovmBalanceJob) (t : ovmTransformer).

Lemma total_cons j jobs : total_of (j :: jobs) = job_value j + total_of jobs.
Proof. done. Qed.

Lemma sum_if_cons p j jobs : sum_if p (j :: jobs) = (if p j then job_value j else 0) + sum_if p jobs.
Proof.
  unfold sum_if. rewrite filter_cons. case_decide as E; [by rewrite E|]. apply not_true_is_false in E. by rewrite E.
Qed.

Lemma count_if_cons p j jobs : count_if p (j :: jobs) = (if negb (job_value j =? 0) && p j then 1 else 0) + count_if p jobs.
Proof.
  unfold count_if. rewrite filter_cons. case_decide as E.
  - destruct E as [Hz ->]. apply N.eqb_neq in Hz as ->. cbn. lia.
  - destruct (N.eqb_spec (job_value j) 0), (p j); cbn [negb andb]; [lia..| |lia]. by destruct E.
Qed.

Lemma sum_if_split p jobs : sum_if p jobs + sum_if (λ j, negb (p j)) jobs = total_of jobs.
Proof. induction jobs as [|j jobs IH]; [done|]. rewrite !sum_if_cons total_cons. destruct (p j); cbn [negb]; lia. Qed.

(** The amounts of a transformer, with every addition in range. *)
Lemma fold_amounts_sums jobs t :
  tr_MigratedNative t + tr_RemainingSupply t ≤ tr_total t → tr_total t + total_of jobs < two256 →
  let tf := foldl (λ t j, apply_amounts j t) t jobs in
  tr_MigratedNative tf = tr_MigratedNative t + sum_if is_converted jobs ∧
  tr_RemainingSupply tf = tr_RemainingSupply t + sum_if (λ j, negb (is_converted j)) jobs ∧
  tr_OriginalSupply tf = tr_OriginalSupply t.
Proof.
  revert t. induction jobs as [|j jobs IH]; intros t Hle Hlt; [cbn; unfold sum_if; cbn; split_and!; [lia..|done]|].
  rewrite total_cons in Hlt. cbn [foldl]. rewrite !sum_if_cons.
  assert (Ha : ∀ x, x ≤ tr_total t → add256 x (job_value j) = x + job_value j) by (intros x Hx; unfold add256; rewrite N.mod_small //; lia).
  assert (Hs : let t1 := apply_amounts j t in
    tr_MigratedNative t1 = tr_MigratedNative t + (if is_converted j then job_value j else 0) ∧
    tr_RemainingSupply t1 = tr_RemainingSupply t + (if negb (is_converted j) then job_value j else 0) ∧
    tr_total t1 = tr_total t + job_value j ∧ tr_OriginalSupply t1 = tr_OriginalSupply t).
  { unfold apply_amounts, is_converted. destruct (N.eqb_spec (job_value j) 0) as [Hz|Hz].
    - cbn. rewrite Ha; [|lia]. rewrite Hz. split_and!; try done; destruct (_ && _); cbn; lia.
    - destruct (is_self j); [|destruct (job_contract j && job_retain j)]; cbn; rewrite !Ha; lia. }
  destruct Hs as (H1' & H2' & H3' & H4'). destruct (IH (apply_amounts j t)) as (-> & -> & ->).
  - rewrite H1' H2' H3'. destruct (is_converted j); cbn [negb]; lia.
  - rewrite H3'. lia.
  - rewrite H1' H2' H4'. split_and!; [lia..|done].
Qed.

(** The counters, which wrap at 64 bits. *)
Lemma fold_amounts_counts jobs t :
  tr_EOAs t < two64 → tr_ConvertedContracts t < two64 → tr_RetainedContracts t < two64 → tr_balanceSlots t < two64 →
  let tf := foldl (λ t j, apply_amounts j t) t jobs in
  tr_EOAs tf = (tr_EOAs t + count_if (λ j, is_converted j && negb (job_contract j)) jobs) mod two64 ∧
  tr_ConvertedContracts tf = (tr_ConvertedContracts t + count_if (λ j, is_converted j && job_contract j) jobs) mod two64 ∧
  tr_RetainedContracts tf = (tr_RetainedContracts t + count_if is_retained jobs) mod two64 ∧
  tr_balanceSlots tf = (tr_balanceSlots t + count_if (λ _, true) jobs) mod two64.
Proof.
  revert t. induction jobs as [|j jobs IH]; intros t He Hc Hr Hb; [unfold count_if; cbn; rewrite !N.add_0_r !N.mod_small //|].
  assert (Hs : let t1 := apply_amounts j t in
    tr_EOAs t1 = (tr_EOAs t + (if negb (job_value j =? 0) && (is_converted j && negb (job_contract j)) then 1 else 0)) mod two64 ∧
    tr_ConvertedContracts t1 = (tr_ConvertedContracts t + (if negb (job_value j =? 0) && (is_converted j && job_contract j) then 1 else 0)) mod two64 ∧
    tr_RetainedContracts t1 = (tr_RetainedContracts t + (if negb (job_value j =? 0) && is_retained j then 1 else 0)) mod two64 ∧
    tr_balanceSlots t1 = (tr_balanceSlots t + (if negb (job_value j =? 0) && true then 1 else 0)) mod two64).
  { unfold apply_amounts, is_converted, is_retained, add64. destruct (job_value j =? 0); [|destruct (is_self j); [|destruct (job_contract j), (job_retain j)]];
    cbn; unfold add64; rewrite ?N.add_0_r ?(N.mod_small (tr_EOAs t)) ?(N.mod_small (tr_ConvertedContracts t)) ?(N.mod_small (tr_RetainedContracts t)) ?(N.mod_small (tr_balanceSlots t)) //. }
  destruct Hs as (H1' & H2' & H3' & H4'). cbn [foldl]. rewrite !count_if_cons.
  destruct (IH (apply_amounts j t)) as (-> & -> & -> & ->); [rewrite ?H1' ?H2' ?H3' ?H4'; by apply N.mod_lt..|].
  rewrite H1' H2' H3' H4' !N.Div0.add_mod_idemp_l !N.add_assoc. done.
Qed.

End AmountLemmas.

(** ** The queue holds the classified balances *)

Section QueueLemmas.
Context `{Keccak, EmptyHashes, AccountRLP, RLPSplit, TrieGet, RLPBytes}.
Implicit Types (V : store) (j : Address * Hash * N) (classes : list (option (Address * Hash * N))) (leaves : list (bytes * bytes)).

Lemma sorted_nodup (l : list bytes) : StronglySorted bytes_lt l → NoDup l.
Proof.
  induction 1 as [|x l Hs IH Hf]; constructor; [|done]. intros Hx. rewrite Forall_forall in Hf. apply (bytes_lt_irrefl x). by apply Hf.
Qed.

Lemma mapM_elem {A B} (f : A → result B) l r :
  mapM f l = Ok r → Forall2 (λ x y, f x = Ok y) l r.
Proof.
  revert r. induction l as [|x l IH]; intros r Hm; cbn in Hm; [injection Hm as <-; constructor|].
  destruct (f x) as [y|] eqn:E; [|done]. cbn in Hm. destruct (mapM f l) as [ys|]; [|done]. injection Hm as <-. constructor; [done|by apply IH].
Qed.

Lemma set_bytes256_encode v : v < two256 → set_bytes256 (be_encode 32 v) = v.
Proof. intros Hv. unfold set_bytes256. rewrite be_decode_encode_32 // N.mod_small //. Qed.

Lemma parse_job_record j : j.2 < two256 → parse_job (job_key j) (job_record j) = Ok j.
Proof.
  destruct j as [[a slot] v]. cbn [fst snd]. intros Hv. unfold parse_job, job_key, job_record. cbn [fst snd length].
  rewrite !length_app !length_hash_bytes length_be_encode. cbn -[set_bytes256 take drop vec_of_bytes keccak256].
  rewrite take_app_length'; [|by rewrite length_hash_bytes]. rewrite vec_of_hash_bytes. cbn [drop].
  rewrite (proj2 (bytes_equal_spec _ _) eq_refl). cbn -[set_bytes256 take drop vec_of_bytes].
  rewrite (drop_app_length' (hash_bytes a)); [|by rewrite length_hash_bytes].
  rewrite take_app_length'; [|by rewrite length_hash_bytes]. rewrite vec_of_hash_bytes.
  rewrite app_assoc drop_app_length'; [|by rewrite length_app !length_hash_bytes]. by rewrite set_bytes256_encode.
Qed.

Lemma decodeOVMValue_range blob v : decodeOVMValue blob = Ok v → v < two256.
Proof.
  unfold decodeOVMValue. destruct (_ =? _)%nat; [by intros [= <-]|]. intros (u & _ & Hr)%result_bind_ok.
  apply result_bind_ok in Hr as (value & _ & [= <-]). unfold set_bytes256. by apply N.mod_lt.
Qed.

(** A classified balance comes from a leaf that the evidence gives to its address. *)
Lemma classify_spec_balance V kv j :
  classify_spec V kv = Ok (Some j) →
  V !! (prefix_b :: kv.1) = Some (hash_bytes j.1.1) ∧ hash_bytes j.1.2 = kv.1 ∧ decodeOVMValue kv.2 = Ok j.2.
Proof.
  unfold classify_spec. intros (v & Hv & Hr)%result_bind_ok. rewrite !reject_then in Hr. destruct Hr as (Hl & _ & Hr).
  apply negb_false_iff, Nat.eqb_eq in Hl. destruct (V !! (prefix_b :: kv.1)) as [a|]; [|done]. rewrite reject_then in Hr.
  destruct Hr as [Ha [= <-]]. apply negb_false_iff, Nat.eqb_eq in Ha. cbn. by rewrite !hash_bytes_of.
Qed.

(** No two balance slots of the evidence belong to the same account hash. *)
Definition one_slot V : Prop :=
  ∀ k1 k2 a1 a2, V !! (prefix_b :: k1) = Some a1 → V !! (prefix_b :: k2) = Some a2 → keccak256 a1 = keccak256 a2 → k1 = k2.

Lemma queued_elem V leaves classes j :
  mapM (classify_spec V) leaves = Ok classes → j ∈ omap id classes → ∃ kv, kv ∈ leaves ∧ classify_spec V kv = Ok (Some j).
Proof.
  intros Hm%mapM_elem Hj. induction Hm as [|kv oj leaves classes Hkv Hm IH]; [by apply elem_of_nil in Hj|].
  assert (Hc : oj = Some j ∨ j ∈ omap id classes) by (destruct oj as [j'|]; cbn in Hj; [apply elem_of_cons in Hj as [->|]|]; auto).
  destruct Hc as [->|Hc]; [exists kv; split; [left|done]|]. destruct (IH Hc) as (kv' & ? & ?). exists kv'. split; [by right|done].
Qed.

Lemma queued_nodup V leaves classes :
  one_slot V → NoDup leaves.*1 → mapM (classify_spec V) leaves = Ok classes → NoDup (job_key <$> omap id classes).
Proof.
  intros Hone. revert classes. induction leaves as [|kv leaves IH]; intros classes Hn Hm; cbn in Hm; [injection Hm as <-; constructor|].
  destruct (classify_spec V kv) as [oj|] eqn:Hkv; [|done]. cbn in Hm. destruct (mapM (classify_spec V) leaves) as [classes'|] eqn:Hm'; [|done]. injection Hm as <-.
  cbn in Hn. apply NoDup_cons in Hn as [Hnk Hn]. destruct oj as [j|]; cbn; [|by apply IH]. constructor; [|by apply IH].
  intros Hin. apply list_elem_of_fmap in Hin as (j' & Hk & Hin). eapply queued_elem in Hin as (kv' & Hin & Hkv'); [|done].
  apply classify_spec_balance in Hkv as (Hb & _), Hkv' as (Hb' & _). injection Hk as Hk. apply hash_bytes_inj in Hk.
  destruct Hnk. rewrite (Hone _ _ _ _ Hb Hb' Hk). by apply list_elem_of_fmap_2.
Qed.

(** Looking up in the queue of distinct jobs. *)
Lemma queue_lookup V js k v :
  (∀ key, V !! (prefix_q :: key) = None) → NoDup (job_key <$> js) →
  foldl queue_job V js !! (prefix_q :: k) = Some v ↔ ∃ j, j ∈ js ∧ prefix_q :: k = job_key j ∧ v = job_record j.
Proof.
  intros Hf. induction js as [|j js IH] using rev_ind; intros Hn.
  - cbn. rewrite Hf. split; [done|]. by intros (j & ?%elem_of_nil & _).
  - rewrite fmap_app in Hn. apply NoDup_app in Hn as (Hn & Hd & _). rewrite foldl_app. cbn. unfold queue_job at 1.
    destruct (decide (prefix_q :: k = job_key j)) as [Hk|Hk].
    + rewrite Hk lookup_insert_eq. split.
      * intros [= <-]. exists j. split; [apply elem_of_app; right; left|done].
      * intros (j' & [Hj|Hj]%elem_of_app & Hk' & ->).
        -- destruct (Hd (job_key j')); [by apply list_elem_of_fmap_2|]. rewrite -Hk'. left.
        -- by apply list_elem_of_singleton in Hj as ->.
    + rewrite lookup_insert_ne // IH //. split; intros (j' & Hj & Hk' & ->); exists j'; (split; [|done]).
      * apply elem_of_app. by left.
      * apply elem_of_app in Hj as [|Hj]; [done|]. by apply list_elem_of_singleton in Hj as ->.
Qed.

Lemma omap_parse l js :
  mapM (λ kv : bytes * bytes, parse_job kv.1 kv.2) l = Ok js →
  js = omap (λ kv : bytes * bytes, match parse_job kv.1 kv.2 with Ok j => Some j | Err _ => None end) l.
Proof. intros Hm%mapM_elem. induction Hm as [|kv j l js Hj Hm IH]; [done|]. cbn. rewrite Hj. by f_equal. Qed.

(** The jobs taken from the queue are the classified balances, in another order. *)
Lemma queue_permutation V leaves classes js :
  (∀ key, V !! (prefix_q :: key) = None) → one_slot V → NoDup leaves.*1 → mapM (classify_spec V) leaves = Ok classes →
  mapM (λ kv, parse_job kv.1 kv.2) (db_iterate (foldl queue_job V (omap id classes)) [prefix_q] []) = Ok js →
  js ≡ₚ omap id classes.
Proof.
  intros Hf Hone Hn Hm Hp. pose proof (queued_nodup _ _ _ Hone Hn Hm) as Hnd. apply omap_parse in Hp as ->.
  assert (Hperm : db_iterate (foldl queue_job V (omap id classes)) [prefix_q] [] ≡ₚ map (λ j, (job_key j, job_record j)) (omap id classes)).
  { apply NoDup_Permutation.
    - apply (NoDup_fmap_1 fst), sorted_nodup, db_iterate_sorted.
    - apply (NoDup_fmap_1 fst). rewrite -list_fmap_compose. exact Hnd.
    - intros [k v]. rewrite db_iterate_elem list_elem_of_fmap. split.
      + intros (Hl & Hpre & _). apply has_prefix_spec in Hpre as [key ->]. apply queue_lookup in Hl as (j & Hj & Hk & ->); [|done..]. exists j. by rewrite -Hk.
      + intros (j & [= -> ->] & Hj). split; [|split; [done|apply le_prefix]].
        apply queue_lookup; [done..|]. by exists j. }
  rewrite Hperm. clear -Hm Hnd. assert (Hr : ∀ j, j ∈ omap id classes → j.2 < two256).
  { intros j Hj. eapply queued_elem in Hj as (kv & _ & Hkv); [|done]. apply classify_spec_balance in Hkv as (_ & _ & Hd). by eapply decodeOVMValue_range. }
  clear Hm Hnd. induction (omap id classes) as [|j js IH]; [done|]. cbn. rewrite parse_job_record; [|apply Hr; left]. apply Permutation_skip, IH.
  intros j' Hj'. apply Hr. by right.
Qed.

(** An inspection keeps what identifies a job. *)
Lemma inspect_spec_keeps root inputs V job job' :
  inspect_spec root inputs V job = Ok job' →
  job_address job' = job_address job ∧ job_slot job' = job_slot job ∧ job_hash job' = job_hash job ∧ job_value job' = job_value job.
Proof.
  unfold inspect_spec. destruct (_ || _); [by intros [= <-]|]. intros (a & _ & Hr)%result_bind_ok. rewrite reject_then in Hr. by destruct Hr as [_ [= <-]].
Qed.

Lemma inspected_values root inputs V js jobs :
  mapM (inspect_spec root inputs V) (new_job <$> js) = Ok jobs → job_value <$> jobs = js.*2.
Proof.
  intros Hm%mapM_elem. revert jobs Hm. induction js as [|j js IH]; intros jobs Hm; inversion Hm as [|? job ? jobs' Hj Hm']; subst; [done|].
  cbn. apply inspect_spec_keeps in Hj as (_ & _ & _ & ->). f_equal. by apply IH.
Qed.

End QueueLemmas.

(** ** Theorems *)

Section Theorems.
Context `{Keccak, EmptyHashes, AccountRLP, RLPSplit, StackTrie, TrieReader, TrieGet, RLPBytes}.
Context `{RawdbKeys, BatchSize, BatchValueSize, SlimRLP}.
Context (trie_root : list (bytes * bytes) → Hash).
Context `{!IteratorLaws, !StackTrieLaws trie_root}.
Implicit Types (i : ovmIndex) (d : conversion) (t : ovmTransformer).

(** Metadata is recorded under its own prefix. *)
Lemma metadata_outside root account V n key :
  n ≠ prefix_k → apply_ops V (metadata_ops root account) !! (n :: key) = V !! (n :: key).
Proof.
  intros Hn. apply apply_ops_lookup_other. intros op Hop. apply list_elem_of_bind in Hop as (m & Hop & _). unfold slot_ops in Hop.
  assert (Hs : ∀ slot, op ∈ string_ops root account slot → ∃ k, op_key op = prefix_k :: k).
  { intros slot. unfold string_ops. destruct (storage_word root account slot) as [v|]; [|by intros ?%elem_of_nil].
    destruct (v mod 2 =? 0); [by intros ?%elem_of_nil|]. intros (x & -> & _)%list_elem_of_fmap. by eexists. }
  assert (Hk : ∃ k, op_key op = prefix_k :: k).
  { destruct (m <? 2); [by apply elem_of_nil in Hop|]. apply elem_of_cons in Hop as [->|Hop]; [by eexists|].
    destruct (_ || _); [by eapply Hs|by apply elem_of_nil in Hop]. }
  destruct Hk as [k ->]. by intros [= ? _].
Qed.

Lemma leaves_nodup leaves : leaves_ok leaves → NoDup leaves.*1.
Proof. intros [Hs _]. by apply sorted_nodup. Qed.

(** The queue of a conversion over a fresh index. *)
Lemma conversion_queue root inputs head view d newRoot ev :
  (∀ key, view !! (prefix_q :: key) = None) → one_slot view → conversion_ok root inputs head view d newRoot ev → cd_queue d ≡ₚ queued d.
Proof.
  intros Hf Hone Hc. pose proof (cv_evidence _ _ _ _ _ _ _ Hc) as HV. eapply queue_permutation; [| | |apply (cv_classes _ _ _ _ _ _ _ Hc)|apply (cv_queue _ _ _ _ _ _ _ Hc)].
  - intros key. rewrite HV metadata_outside //.
  - intros k1 k2 a1 a2. rewrite HV !metadata_outside //. apply Hone.
  - eapply leaves_nodup, storage_leaves_ok, (cv_leaves _ _ _ _ _ _ _ Hc).
Qed.

Lemma sum_permutation (l l' : list N) : l ≡ₚ l' → foldr N.add 0 l = foldr N.add 0 l'.
Proof. induction 1; cbn; lia. Qed.

(** C6: The conversion conserves the token's balances. If it succeeds, in any
    environment, with any number of workers and any order of the inspections,
    then every storage slot of the token was explained by the evidence, every
    balance slot became one job, the amount moved into native balances and
    the amount that stays add up to the sum of all balance slots without
    overflow, the native amount is the sum over the converted holders, and
    without an audit that sum is the recorded total supply. The holder counts
    of the evidence are the numbers of jobs of each kind. *)
Theorem conversion_conserves root inputs workers schedule head db i w newRoot ev t' w' :
  (∀ n, schedule n ≡ₚ seq 0 n) → (∀ key, ix_view i !! (prefix_q :: key) = None) → one_slot (ix_view i) →
  transformOVMState root inputs workers schedule head (newTransformer db i) w = (Ok (newRoot, ev), t', w') →
  ∃ account leaves classes queue jobs,
    let V := apply_ops (ix_view i) (metadata_ops root account) in
    let total := foldr N.add 0 (omap id classes).*2 in
    source_account root ovmOwner = Ok account ∧
    storage_iterator root ovmOwner (acc_Root account) = Ok (leaves, None) ∧
    mapM (classify_spec V) leaves = Ok classes ∧
    queue ≡ₚ omap id classes ∧ mapM (inspect_spec root inputs V) (new_job <$> queue) = Ok jobs ∧
    total < two256 ∧ sum_if is_converted jobs + sum_if (λ j, negb (is_converted j)) jobs = total ∧
    ev_MigratedNative ev = Some (sum_if is_converted jobs) ∧
    ev_RemainingSupply ev = Some (sum_if (λ j, negb (is_converted j)) jobs) ∧
    (in_audit inputs = None → ev_OriginalSupply ev = Some total) ∧
    ev_EOAs ev = count_if (λ j, is_converted j && negb (job_contract j)) jobs mod two64 ∧
    ev_ConvertedContracts ev = count_if (λ j, is_converted j && job_contract j) jobs mod two64 ∧
    ev_RetainedContracts ev = count_if is_retained jobs mod two64.
Proof.
  intros Hsch Hf Hone Hr. apply transform_ok in Hr as [d Hc]; [|done..]. pose proof (conversion_queue _ _ _ _ _ _ _ Hf Hone Hc) as Hq.
  destruct Hc as [Hacc _ HV _ Hit Hm _ Hj _ [Htot Hlt] Hau _ _ _ _ _ Hev]. rewrite HV in Hm, Hj.
  assert (Hsum : total_of (cd_jobs d) = foldr N.add 0 (queued d).*2).
  { unfold total_of. rewrite (inspected_values _ _ _ _ _ Hj). apply sum_permutation. by rewrite Hq. }
  fold (total_of (cd_jobs d)) in Htot. assert (Hlt' : total_of (cd_jobs d) < two256) by (by rewrite -Htot).
  destruct (fold_amounts_sums (cd_jobs d) (base_amounts d)) as (Hmig & Hrem & Horig); [done|cbn; lia|].
  destruct (fold_amounts_counts (cd_jobs d) (base_amounts d)) as (He & Hcc & Hrc & _); [done..|].
  fold (final_amounts d) in Hmig, Hrem, Horig, He, Hcc, Hrc. cbn [base_amounts tr_MigratedNative tr_RemainingSupply tr_OriginalSupply tr_EOAs tr_ConvertedContracts tr_RetainedContracts set_tr_supply] in *.
  exists (cd_account d), (cd_leaves d), (cd_classes d), (cd_queue d), (cd_jobs d). cbv zeta. fold (queued d). rewrite -Hsum Hev. cbn.
  rewrite Hmig Hrem Horig He Hcc Hrc. split_and!; try done; [apply sum_if_split|]. intros Hn. rewrite Hn in Hau. by rewrite -Hau Htot.
Qed.

(** ** The patches of a conversion *)

(** A holder's balance moves into its account: the patch is the account with
    the balance, and its slot is cleared. *)
Definition moves (jobs : list ovmBalanceJob) j : Prop := j ∈ jobs ∧ job_value j ≠ 0 ∧ is_converted j = true.
Definition converts (jobs : list ovmBalanceJob) (k v : bytes) : Prop :=
  ∃ j a, moves jobs j ∧ k = hash_bytes (job_hash j) ∧ job_account j = Some a ∧ rlp_encode_account (set_balance (job_value j) a) = Ok v.
Definition clears (jobs : list ovmBalanceJob) (k : bytes) : Prop := ∃ j, moves jobs j ∧ k = hash_bytes (job_slot j).

Lemma job_patches_cases j :
  job_good j →
  (job_patches j = [] ∧ ¬ (job_value j ≠ 0 ∧ is_converted j = true)) ∨
  (job_value j ≠ 0 ∧ is_converted j = true ∧ ∃ a blob, job_account j = Some a ∧ rlp_encode_account (set_balance (job_value j) a) = Ok blob ∧
    job_patches j = [BPut (prefix_p :: hash_bytes (job_hash j)) blob; BPut (prefix_s :: hash_bytes (job_slot j)) []]).
Proof.
  intros Hg. unfold job_patches. destruct (N.eqb_spec (job_value j) 0) as [Hz|Hz]; cbn; [left; naive_solver|].
  destruct (is_converted j) eqn:Ec; cbn; [|left; naive_solver]. right. destruct (Hg Hz Ec) as (a & blob & Ha & Hb).
  split; [done|]. split; [done|]. exists a, blob. rewrite Ha. cbn. by rewrite Hb.
Qed.

Lemma moves_snoc jobs j j' : moves (jobs ++ [j]) j' ↔ moves jobs j' ∨ (j' = j ∧ job_value j ≠ 0 ∧ is_converted j = true).
Proof. unfold moves. rewrite elem_of_app list_elem_of_singleton. naive_solver. Qed.

Lemma account_patches jobs W k v :
  (∀ key, W !! (prefix_p :: key) = None) → Forall job_good jobs → NoDup (job_hash <$> jobs) →
  apply_ops W (jobs ≫= job_patches) !! (prefix_p :: k) = Some v ↔ converts jobs k v.
Proof.
  intros Hf Hg. induction jobs as [|j jobs IH] using rev_ind; intros Hn.
  { cbn. rewrite Hf. split; [done|]. intros (j & a & (Hj & _) & _). by apply elem_of_nil in Hj. }
  apply Forall_app in Hg as [Hg Hgj]. apply Forall_cons in Hgj as [Hgj _]. rewrite fmap_app in Hn. apply NoDup_app in Hn as (Hn & Hd & _).
  rewrite bind_app apply_ops_app. cbn [mbind list_bind]. rewrite app_nil_r.
  destruct (job_patches_cases j Hgj) as [[-> Hnot]|(Hz & Hc & a & blob & Ha & Hb & ->)].
  - cbn [apply_ops foldl]. rewrite IH //. unfold converts. setoid_rewrite moves_snoc. naive_solver.
  - cbn. rewrite lookup_insert_ne //. destruct (decide (k = hash_bytes (job_hash j))) as [->|Hk].
    + rewrite lookup_insert_eq. split.
      * intros [= <-]. exists j, a. split; [apply moves_snoc; by right|done].
      * intros (j' & a' & [Hj|(-> & _)]%moves_snoc & Hk & Ha' & Hb'); [|congruence].
        apply hash_bytes_inj in Hk. destruct (Hd (job_hash j)); [|left]. rewrite Hk. apply list_elem_of_fmap_2. by destruct Hj.
    + rewrite lookup_insert_ne; [|by intros [= Hx]; apply Hk]. rewrite IH //. unfold converts. split.
      * intros (j' & a' & Hj & Hrest). exists j', a'. split; [apply moves_snoc; by left|done].
      * intros (j' & a' & [Hj|(-> & _)]%moves_snoc & Hrest); [by exists j', a'|naive_solver].
Qed.

Lemma storage_patches jobs W k v :
  (∀ key, W !! (prefix_s :: key) = None) → Forall job_good jobs →
  apply_ops W (jobs ≫= job_patches) !! (prefix_s :: k) = Some v ↔ clears jobs k ∧ v = [].
Proof.
  intros Hf Hg. induction jobs as [|j jobs IH] using rev_ind.
  { cbn. rewrite Hf. split; [done|]. intros [(j & (Hj & _) & _) _]. by apply elem_of_nil in Hj. }
  apply Forall_app in Hg as [Hg Hgj]. apply Forall_cons in Hgj as [Hgj _]. rewrite bind_app apply_ops_app. cbn [mbind list_bind]. rewrite app_nil_r.
  destruct (job_patches_cases j Hgj) as [[-> Hnot]|(Hz & Hc & a & blob & Ha & Hb & ->)].
  - cbn [apply_ops foldl]. rewrite IH //. unfold clears. setoid_rewrite moves_snoc. naive_solver.
  - cbn. destruct (decide (k = hash_bytes (job_slot j))) as [->|Hk].
    + rewrite lookup_insert_eq. split; [|naive_solver]. intros [= <-]. split; [|done]. exists j. split; [apply moves_snoc; by right|done].
    + rewrite lookup_insert_ne; [|by intros [= Hx]; apply Hk]. rewrite lookup_insert_ne // IH //. unfold clears. setoid_rewrite moves_snoc. naive_solver.
Qed.

(** Jobs taken from the queue have different account hashes. *)
Lemma queue_hashes W js :
  mapM (λ kv, parse_job kv.1 kv.2) (db_iterate W [prefix_q] []) = Ok js → NoDup ((λ j : Address * Hash * N, keccak256 (hash_bytes j.1.1)) <$> js).
Proof.
  intros Hm%mapM_elem. pose proof (sorted_nodup _ (db_iterate_sorted W [prefix_q] [])) as Hn.
  assert (Hp : Forall (λ kv : bytes * bytes, ∃ key, kv.1 = prefix_q :: key) (db_iterate W [prefix_q] [])).
  { apply Forall_forall. intros [k v] (_ & Hp & _)%db_iterate_elem. apply has_prefix_spec in Hp as [rest ->]. by exists rest. }
  assert (Hk : ∀ (kv : bytes * bytes) j, (∃ key, kv.1 = prefix_q :: key) → parse_job kv.1 kv.2 = Ok j → kv.1 = prefix_q :: hash_bytes (keccak256 (hash_bytes j.1.1))).
  { intros kv j [key Hkey] Hj. unfold parse_job in Hj. rewrite !reject_then in Hj. destruct Hj as (_ & Hh & [= <-]).
    apply negb_false_iff, bytes_equal_spec in Hh. cbn [fst snd]. by rewrite -Hh Hkey /= drop_0. }
  induction Hm as [|kv j l js Hj Hm IH]; [constructor|]. cbn in *. apply NoDup_cons in Hn as [Hnk Hn]. apply Forall_cons in Hp as [Hp1 Hp].
  constructor; [|by apply IH]. intros Hin. apply list_elem_of_fmap in Hin as (j' & Heq & Hj'). destruct Hnk.
  apply list_elem_of_lookup in Hj' as [n Hl]. destruct (Forall2_lookup_r _ _ _ _ _ Hm Hl) as (kv' & Hl' & Hkv'). apply list_elem_of_lookup_2 in Hl'.
  rewrite Forall_forall in Hp. rewrite (Hk kv j Hp1 Hj) Heq -(Hk kv' j' (Hp _ Hl') Hkv'). by apply list_elem_of_fmap_2.
Qed.

Lemma inspected_hashes root inputs V js jobs :
  mapM (inspect_spec root inputs V) (new_job <$> js) = Ok jobs → job_hash <$> jobs = (λ j, keccak256 (hash_bytes j.1.1)) <$> js.
Proof.
  intros Hm%mapM_elem. revert jobs Hm. induction js as [|j js IH]; intros jobs Hm; inversion Hm as [|? job ? jobs' Hj Hm']; subst; [done|].
  cbn. apply inspect_spec_keeps in Hj as (_ & _ & -> & _). f_equal. by apply IH.
Qed.

(** The queue does not touch other namespaces. *)
Lemma queue_outside V js n key : n ≠ prefix_q → foldl queue_job V js !! (n :: key) = V !! (n :: key).
Proof.
  intros Hn. revert V. induction js as [|j js IH]; intros V; [done|]. cbn. rewrite IH. unfold queue_job, job_key. rewrite lookup_insert_ne //. by intros [= Hx _].
Qed.

(** No patches yet. *)
Definition no_patches (view : store) : Prop := ∀ n key, n = prefix_p ∨ n = prefix_s → view !! (n :: key) = None.

(** The patches of a conversion, by lookup. *)
Lemma conversion_patches root inputs head view d newRoot ev :
  no_patches view → conversion_ok root inputs head view d newRoot ev →
  (∀ k v, holders_store d !! (prefix_p :: k) = Some v ↔ converts (cd_jobs d) k v) ∧
  (∀ k v, holders_store d !! (prefix_s :: k) = Some v ↔ clears (cd_jobs d) k ∧ v = []).
Proof.
  intros Hf Hc. destruct Hc as [_ _ HV _ _ _ Hq Hj Hg _ _ _ _ _ _ _ _].
  assert (Hq' : ∀ n key, n = prefix_p ∨ n = prefix_s → queue_store d !! (n :: key) = None).
  { intros n key Hn. unfold queue_store. rewrite queue_outside; [|by destruct Hn as [-> | ->]]. rewrite HV metadata_outside; [by apply Hf|by destruct Hn as [-> | ->]]. }
  unfold holders_store. split; intros k v.
  - apply account_patches; [intros key; apply Hq'; by left|done|]. rewrite (inspected_hashes _ _ _ _ _ Hj). by eapply queue_hashes.
  - apply storage_patches; [intros key; apply Hq'; by right|done].
Qed.

(** The leaves of the two rebuilt tries. *)
Definition new_accounts d : list (bytes * bytes) := patched_leaves (patch_list prefix_p (accounts_store d)) (cd_accounts d).
Definition new_slots d : list (bytes * bytes) := patched_leaves (patch_list prefix_s (storage_store d)) (cd_leaves d).

Lemma new_accounts_spec `{!AccountRLPLaws} root inputs head view d newRoot ev :
  no_patches view → conversion_ok root inputs head view d newRoot ev →
  leaves_ok (new_accounts d) ∧
  ∀ k v, (k, v) ∈ new_accounts d ↔
    if decide (k = hash_bytes ovmOwner) then v = cd_accountRLP d
    else converts (cd_jobs d) k v ∨ ((k, v) ∈ cd_accounts d ∧ ¬ ∃ v', converts (cd_jobs d) k v').
Proof.
  intros Hf Hc. destruct (conversion_patches _ _ _ _ _ _ _ Hf Hc) as [Hp _].
  pose proof (account_leaves_ok _ _ _ (cv_accounts _ _ _ _ _ _ _ Hc)) as Ho.
  assert (Hl : ∀ k, accounts_store d !! (prefix_p :: k) = if decide (k = hash_bytes ovmOwner) then Some (cd_accountRLP d) else holders_store d !! (prefix_p :: k)).
  { intros k. unfold accounts_store, storage_store. case_decide as Hk; [by rewrite Hk lookup_insert_eq|].
    rewrite lookup_insert_ne; [|by intros [= Hx]; apply Hk]. by rewrite lookup_insert_ne. }
  split.
  - apply patched_leaves_ok; [done|]. intros k v. rewrite Hl. case_decide as Hk; [intros _; rewrite Hk; apply length_hash_bytes|].
    rewrite Hp. intros (j & a & _ & -> & _). apply length_hash_bytes.
  - intros k v. unfold new_accounts. rewrite patched_leaves_elem // Hl. case_decide as Hk.
    + split; [intros [_ [[= <-]|[_ ?]]]; done|]. intros ->. split; [|by left]. eapply account_nonempty, (cv_accountRLP _ _ _ _ _ _ _ Hc).
    + rewrite eq_None_not_Some Hp. split.
      * intros [_ [Hx|[Hx Hn]]]; [by left|right]. split; [done|]. intros [v' Hv']. apply Hn. exists v'. by apply Hp.
      * intros [Hx|[Hx Hn]].
        -- split; [|by left]. destruct Hx as (j & a & _ & _ & _ & Hb). by eapply account_nonempty.
        -- split; [destruct Ho as [_ Hfo]; rewrite Forall_forall in Hfo; by apply (Hfo _ Hx)|]. right. split; [done|]. intros [v' Hv']. apply Hn. exists v'. by apply Hp.
Qed.

Lemma new_slots_spec root inputs head view d newRoot ev :
  no_patches view → conversion_ok root inputs head view d newRoot ev →
  leaves_ok (new_slots d) ∧
  ∀ k v, (k, v) ∈ new_slots d ↔
    v ≠ [] ∧ if decide (k = hash_bytes (ovmStorageHash (slot_number 2))) then v = cd_supplyRLP d
             else (k, v) ∈ cd_leaves d ∧ ¬ clears (cd_jobs d) k.
Proof.
  intros Hf Hc. destruct (conversion_patches _ _ _ _ _ _ _ Hf Hc) as [_ Hp].
  pose proof (storage_leaves_ok _ _ _ _ _ (cv_leaves _ _ _ _ _ _ _ Hc)) as Ho.
  assert (Hl : ∀ k, storage_store d !! (prefix_s :: k) =
    if decide (k = hash_bytes (ovmStorageHash (slot_number 2))) then Some (cd_supplyRLP d) else holders_store d !! (prefix_s :: k)).
  { intros k. unfold storage_store. case_decide as Hk; [by rewrite Hk lookup_insert_eq|]. rewrite lookup_insert_ne //. by intros [= Hx]; apply Hk. }
  split.
  - apply patched_leaves_ok; [done|]. intros k v. rewrite Hl. case_decide as Hk; [intros _; rewrite Hk; apply length_hash_bytes|].
    rewrite Hp. intros [(j & _ & ->) _]. apply length_hash_bytes.
  - intros k v. unfold new_slots. rewrite patched_leaves_elem // Hl. case_decide as Hk; [naive_solver|]. rewrite eq_None_not_Some Hp. split.
    + intros [Hv [[_ Hx]|[Hx Hn]]]; [done|]. split; [done|]. split; [done|]. intros Hcl. apply Hn. exists []. by apply Hp.
    + intros [Hv [Hx Hn]]. split; [done|]. right. split; [done|]. intros [v' [Hcl _]%Hp]. done.
Qed.

(** C9: The new state is the old one with exactly the balances moved. After a
    successful conversion the new state root is the Merkle root of the old
    account leaves in which the token's account has the new storage root,
    code and remaining balance, every converted holder's account has its
    token balance as native balance and is otherwise as before, and every
    other account is untouched. The token's new storage root is the root of
    its old slots without those of the converted holders and with the
    remaining supply as the total supply. *)
Theorem conversion_new_state `{!AccountRLPLaws} root inputs workers schedule head db i w newRoot ev t' w' :
  (∀ n, schedule n ≡ₚ seq 0 n) → no_patches (ix_view i) →
  transformOVMState root inputs workers schedule head (newTransformer db i) w = (Ok (newRoot, ev), t', w') →
  ∃ d, conversion_ok root inputs head (ix_view i) d newRoot ev ∧
    newRoot = trie_root (new_accounts d) ∧ cd_storageRoot d = trie_root (new_slots d) ∧
    (∀ k v, (k, v) ∈ new_accounts d ↔
      if decide (k = hash_bytes ovmOwner) then v = cd_accountRLP d
      else converts (cd_jobs d) k v ∨ ((k, v) ∈ cd_accounts d ∧ ¬ ∃ v', converts (cd_jobs d) k v')) ∧
    (∀ k v, (k, v) ∈ new_slots d ↔
      v ≠ [] ∧ if decide (k = hash_bytes (ovmStorageHash (slot_number 2))) then v = cd_supplyRLP d
               else (k, v) ∈ cd_leaves d ∧ ¬ clears (cd_jobs d) k).
Proof.
  intros Hsch Hf Hr. apply transform_ok in Hr as [d Hc]; [|done..]. exists d.
  destruct (new_accounts_spec _ _ _ _ _ _ _ Hf Hc) as [Ha Has], (new_slots_spec _ _ _ _ _ _ _ Hf Hc) as [Hs Hss].
  split; [done|]. split; [|split; [|done]].
  - destruct (cv_newRoot _ _ _ _ _ _ _ Hc) as (st & ns & Hfeed & ->). by eapply stack_root.
  - destruct (cv_storageRoot _ _ _ _ _ _ _ Hc) as (st & ns & Hfeed & ->). by eapply stack_root.
Qed.

(** The equations determine the result. *)
Lemma conversion_unique root inputs head view d1 d2 r1 r2 e1 e2 :
  conversion_ok root inputs head view d1 r1 e1 → conversion_ok root inputs head view d2 r2 e2 → r1 = r2 ∧ e1 = e2.
Proof.
  intros [A1 _ B1 C1 D1 E1 F1 G1 _ _ _ H1' I1 J1 K1 L1 M1] [A2 _ B2 C2 D2 E2 F2 G2 _ _ _ H2' I2 J2 K2 L2 M2].
  destruct d1, d2. unfold queue_store, holders_store, storage_store, accounts_store, queued, final_amounts, base_amounts in *. cbn in *.
  rewrite A1 in A2. injection A2 as <-. rewrite -B1 in B2. subst cd_evidence1. rewrite C1 in C2. injection C2 as <-. rewrite D1 in D2. injection D2 as <-.
  rewrite E1 in E2. injection E2 as <-. rewrite F1 in F2. injection F2 as <-. rewrite G1 in G2. injection G2 as <-.
  rewrite H1' in H2'. injection H2' as <-. destruct I1 as (st1 & ns1 & I1 & ->), I2 as (st2 & ns2 & I2 & ->). rewrite I1 in I2. injection I2 as <- <-.
  rewrite J1 in J2. injection J2 as <-. rewrite K1 in K2. injection K2 as <-. destruct L1 as (s1 & n1 & L1 & ->), L2 as (s2 & n2 & L2 & ->).
  rewrite L1 in L2. injection L2 as <- <-. by subst.
Qed.

(** C19: The result of the conversion does not depend on scheduling: any two
    successful runs on the same source and evidence, with different numbers
    of workers, different orders of the concurrent inspections, different
    initial databases, batches and environments, yield the same state root
    and the same evidence. *)
Theorem conversion_independent root inputs head workers1 workers2 schedule1 schedule2 db1 db2 i1 i2 w1 w2 r1 r2 t1 t2 w1' w2' :
  (∀ n, schedule1 n ≡ₚ seq 0 n) → (∀ n, schedule2 n ≡ₚ seq 0 n) → ix_view i1 = ix_view i2 →
  transformOVMState root inputs workers1 schedule1 head (newTransformer db1 i1) w1 = (Ok r1, t1, w1') →
  transformOVMState root inputs workers2 schedule2 head (newTransformer db2 i2) w2 = (Ok r2, t2, w2') → r1 = r2.
Proof.
  destruct r1 as [r1 e1], r2 as [r2 e2]. intros Hs1 Hs2 Hi H1' H2'. apply transform_ok in H1' as [d1 Hc1], H2' as [d2 Hc2]; [|done..].
  rewrite Hi in Hc1. destruct (conversion_unique _ _ _ _ _ _ _ _ _ _ Hc1 Hc2) as [-> ->]. done.
Qed.

(** C20: Rebuilding a trie with patches is exact: if it succeeds, in any
    environment, the iteration was complete, the root is the Merkle root of
    the leaves in which every patch of the namespace replaces or inserts its
    key and an empty patch deletes it, and the target database gains exactly
    the nodes of that trie, each under its hash. *)
Theorem patched_trie_exact owner leaves iterErr n t w newRoot t' w' :
  leaves_ok leaves → (∀ k v, ix_db (tr_index t) !! (n :: k) = Some v → length k = HashLength) →
  rebuildPatchedTriePrefix owner (leaves, iterErr) [n] t w = (Ok newRoot, t', w') →
  iterErr = None ∧ ∃ leaves' st ns, newRoot = trie_root leaves' ∧ leaves_ok leaves' ∧
    (∀ k v, (k, v) ∈ leaves' ↔ v ≠ [] ∧ (ix_db (tr_index t) !! (n :: k) = Some v ∨ ((k, v) ∈ leaves ∧ ix_db (tr_index t) !! (n :: k) = None))) ∧
    stack_feed stack_new leaves' = Ok (st, ns) ∧
    t' = set_tr_db (apply_ops (tr_db t) (node_puts (ns ++ (stack_hash st).2))) t.
Proof.
  intros Hl Hk Hr. apply rebuildPatchedTriePrefix_ok in Hr as (He & st & ns & Hf & -> & Ht). split; [done|].
  pose proof (patched_leaves_ok n (ix_db (tr_index t)) leaves Hl Hk) as Ho.
  exists (patched_leaves (patch_list n (ix_db (tr_index t))) leaves), st, ns. split; [by eapply stack_root|]. split; [done|].
  split; [|done]. intros k v. by apply patched_leaves_elem.
Qed.

End Theorems.

(** ** A sample token *)

Module SampleToken.
Import Sample SampleTarget.
#[export] Existing Instance toy_split.

Definition address (n : byte) : Address := vec_of_bytes 20 (replicate 20 n).
Definition alice : Address := address x01.
Definition converted : Address := address x02.
Definition retained_contract : Address := address x03.

(** Short byte strings in RLP. *)
Definition rlp_short (l : bytes) : bytes :=
  match l with
  | [b] => if byte_val b <? 128 then l else [x81; b]
  | _ => byte_of_N (128 + blen l) :: l
  end.
Definition toy_rlp : RLPBytes :=
  {| rlp_encode_bytes l := Ok (rlp_short l);
     rlp_decode_bytes d := '(_, content, _) ← rlp_split d; Ok content |}.
#[export] Existing Instance toy_rlp.

Definition balance_leaf (a : Address) (v : N) : bytes * bytes :=
  (hash_bytes (ovmStorageHash (ovmBalanceSlot a)), rlp_short (bytes256 v)).
Definition slot_leaf (n v : N) : bytes * bytes := (hash_bytes (ovmStorageHash (slot_number n)), rlp_short (bytes256 v)).

(** Balances of 100, 20, 7 and 3, their sum as supply, and the decimals. *)
Definition slots : list (bytes * bytes) :=
  merge_sort key_le [balance_leaf alice 100; balance_leaf converted 20; balance_leaf retained_contract 7; balance_leaf ovmETHAddress 3;
                     slot_leaf 2 130; slot_leaf 5 18].

Definition code_hash (name : string) : bytes := hash_bytes (hash_of name).
Definition token : StateAccount := MkStateAccount 1 (Some 0) (toy_root slots) (code_hash "token").
Definition plain (n : N) : StateAccount := MkStateAccount n (Some 0) EmptyRootHash (hash_bytes EmptyCodeHash).
Definition contract (name : string) : StateAccount := MkStateAccount 1 (Some 0) EmptyRootHash (code_hash name).

Definition account_leaf (a : Address) (s : StateAccount) : bytes * bytes :=
  (hash_bytes (keccak256 (hash_bytes a)), ok_or [] (toy_encode_account s)).
Definition accounts : list (bytes * bytes) :=
  merge_sort key_le [account_leaf alice (plain 5); account_leaf converted (contract "c1"); account_leaf retained_contract (contract "c2");
                     account_leaf ovmETHAddress token; account_leaf (address x09) (plain 8)].
Definition state_root : Hash := toy_root accounts.

Fixpoint leaf_value (k : bytes) (l : list (bytes * bytes)) : option bytes :=
  match l with
  | [] => None
  | (k', v) :: l' => if bytes_equal k' k then Some v else leaf_value k l'
  end.

Definition tries : TrieReader :=
  {| account_iterator root := if bool_decide (root = state_root) then Ok (accounts, None) else Err (EMsg "missing trie node");
     storage_iterator _ _ root := if bool_decide (root = toy_root slots) then Ok (slots, None) else Err (EMsg "missing trie node") |}.
Definition trie_get : TrieGet :=
  {| account_open root := if bool_decide (root = state_root) then Ok () else Err (EMsg "missing trie node");
     account_get _ k := Ok (default [] (leaf_value k accounts));
     storage_get _ _ _ k := Ok (default [] (leaf_value k slots)) |}.

#[export] Existing Instances tries trie_get.

Lemma leaves_checked leaves :
  forallb (λ kv, (length kv.1 =? HashLength)%nat) leaves = true → is_ok (stack_feed stack_new leaves) = true → leaves_ok leaves.
Proof.
  intros Hl Hf. destruct (stack_feed stack_new leaves) as [[st ns]|] eqn:E; [|done]. eapply (stack_feed_sorted (trie_root:=toy_root)); [|exact E].
  apply Forall_forall. intros kv Hin. apply list_elem_of_In in Hin. rewrite forallb_forall in Hl. by apply Nat.eqb_eq, Hl.
Qed.

Lemma ok_pair_inv {A B} (a c : A) (b d : B) : Ok (a, b) = Ok (c, d) → c = a.
Proof. by intros [= -> _]. Qed.

#[export] Instance sample_iterators : IteratorLaws.
Proof.
  split.
  - intros root leaves e. cbn [account_iterator tries]. case_bool_decide; [|done]. intros ->%ok_pair_inv. apply leaves_checked; by vm_compute.
  - intros root owner sroot leaves e. cbn [storage_iterator tries]. case_bool_decide; [|done]. intros ->%ok_pair_inv. apply leaves_checked; by vm_compute.
Qed.

(** The evidence: the four holders, and a transfer from the retained contract. *)
Definition index : ovmIndex :=
  ((_ ← for_each [alice; converted; retained_contract; ovmETHAddress] index_address;
    _ ← index_put prefix_f (hash_bytes retained_contract) [x01];
    index_flush) (newOVMIndex ∅) calm).1.2.

Definition inputs : ovmInputs := MkOvmInputs None zero_hash None (bytes_of_string "new code") zero_hash zero_hash zero_hash None.
Definition head : Head := MkHead 7 (hash_of "block") state_root.

(** Two workers finishing backwards, and one worker. *)
Definition backwards (n : nat) : list nat := reverse (seq 0 n).
Definition run (workers : Z) (schedule : nat → list nat) :=
  transformOVMState state_root inputs workers schedule head (newTransformer ∅ index) calm.
Definition converted_run := run 2 backwards.

Lemma backwards_all n : backwards n ≡ₚ seq 0 n.
Proof. apply reverse_Permutation. Qed.

Definition result_of : Hash * OVMBalanceEvidence := ok_or (zero_hash, MkBalanceEvidence None None None 0 0 0 None) converted_run.1.1.

Lemma run_ok : converted_run = (Ok (result_of.1, result_of.2), converted_run.1.2, converted_run.2).
Proof.
  assert (Hr : is_ok converted_run.1.1 = true) by (by vm_compute). unfold result_of. destruct converted_run as [[[[r e]|] t] w]; [done|done].
Qed.

Lemma run_evidence : result_of.2 = MkBalanceEvidence (Some 130) (Some 120) (Some 10) 1 1 1 (Some 3).
Proof. by vm_compute. Qed.

End SampleToken.

Module ConversionWitnesses.
Import Sample SampleTarget SampleToken.

(** Names of runs are unfolded before the runs. *)
#[local] Strategy 100 [transformOVMState rebuildPatchedTriePrefix].

(** Facts about all entries of a store, by evaluation. *)
Definition store_check (V : store) (P : bytes → bytes → bool) : bool := bool_decide (map_Forall (λ k v, P k v = true) V).
Lemma store_checked V P k v : store_check V P = true → V !! k = Some v → P k v = true.
Proof. unfold store_check. intros Hc Hl. apply bool_decide_eq_true in Hc. exact (Hc k v Hl). Qed.

Lemma no_prefix V n : store_check V (λ k _, negb (has_prefix k [n])) = true → ∀ key, V !! (n :: key) = None.
Proof.
  intros Hc key. destruct (V !! (n :: key)) as [v|] eqn:E; [|done]. apply (store_checked _ _ _ _ Hc) in E.
  apply negb_true_iff in E. assert (has_prefix (n :: key) [n] = true) by (apply has_prefix_spec; by exists key). congruence.
Qed.

Definition holders : list Address := [alice; converted; retained_contract; ovmETHAddress].
Definition balance_entry (k a : bytes) : bool :=
  negb (has_prefix k [prefix_b]) ||
  (bytes_equal k (prefix_b :: hash_bytes (ovmStorageHash (ovmBalanceSlot (vec_of_bytes 20 a)))) &&
   forallb (λ x, bool_decide (a = hash_bytes x) || negb (bool_decide (keccak256 a = keccak256 (hash_bytes x)))) holders &&
   existsb (λ x, bool_decide (a = hash_bytes x)) holders).

Lemma checked_one_slot V : store_check V balance_entry = true → one_slot V.
Proof.
  intros Hc k1 k2 a1 a2 H1 H2 He. apply (store_checked _ _ _ _ Hc) in H1, H2. unfold balance_entry in H1, H2.
  rewrite !(proj2 (has_prefix_spec _ [prefix_b]) (ex_intro _ _ eq_refl)) in H1, H2. cbn [negb orb] in H1, H2.
  apply andb_true_iff in H1 as [H1 E1], H2 as [H2 E2]. apply andb_true_iff in H1 as [K1 F1], H2 as [K2 _].
  apply bytes_equal_spec in K1, K2. apply existsb_exists in E2 as (x & Hx & Hax). apply bool_decide_eq_true in Hax. subst a2. rewrite forallb_forall in F1.
  specialize (F1 x Hx). rewrite He (bool_decide_eq_true_2 (keccak256 (hash_bytes x) = _)) // orb_false_r in F1. apply bool_decide_eq_true in F1. subst a1. congruence.
Qed.

Lemma conversion_conserves_witness :
  ∃ classes, 100 + 20 + (7 + 3) = foldr N.add 0 (omap id (classes : list (option (Address * Hash * N)))).*2 ∧ ev_MigratedNative result_of.2 = Some (100 + 20).
Proof.
  destruct (conversion_conserves state_root inputs 2 backwards head ∅ index calm result_of.1 result_of.2 converted_run.1.2 converted_run.2)
    as (account & leaves & classes & queue & jobs & _ & _ & _ & _ & _ & _ & _ & _ & _ & Ho & _).
  - exact backwards_all.
  - apply no_prefix. by vm_compute.
  - apply checked_one_slot. by vm_compute.
  - exact run_ok.
  - exists classes. rewrite run_evidence in Ho |- *. specialize (Ho eq_refl). cbn in Ho. injection Ho as Ho. rewrite -Ho. by split.
Defined.

Lemma conversion_new_state_witness : ∃ d, result_of.1 = toy_root (new_accounts d).
Proof.
  destruct (conversion_new_state toy_root state_root inputs 2 backwards head ∅ index calm result_of.1 result_of.2 converted_run.1.2 converted_run.2)
    as (d & _ & Hr & _).
  - exact backwards_all.
  - intros n key [-> | ->]; apply no_prefix; by vm_compute.
  - exact run_ok.
  - by exists d.
Defined.

Definition single_run := run 1 (seq 0).
Lemma single_ok : ∃ r, single_run.1.1 = Ok r.
Proof. assert (Hr : is_ok single_run.1.1 = true) by (by vm_compute). destruct single_run.1.1 as [r|]; [by exists r|done]. Qed.

Lemma conversion_independent_witness : single_run.1.1 = converted_run.1.1.
Proof.
  destruct single_ok as [r Hr].
  assert (Hs : single_run = (Ok r, single_run.1.2, single_run.2)) by (rewrite -Hr; by destruct single_run as [[? ?] ?]).
  transitivity (Ok (A:=Hash * OVMBalanceEvidence) r); [exact Hr|]. rewrite (conversion_independent state_root inputs head 1 2 (seq 0) backwards ∅ ∅ index index calm calm r (result_of.1, result_of.2)
    single_run.1.2 converted_run.1.2 single_run.2 converted_run.2); [by rewrite run_ok|done|exact backwards_all|done|exact Hs|exact run_ok].
Defined.

(** Deleting one leaf, replacing one and inserting one. *)
Definition key (n : byte) : bytes := replicate 32 n.
Definition patch_index : ovmIndex :=
  MkOvmIndex (<[prefix_s :: key x02 := []]> (<[prefix_s :: key x03 := [x07]]> (<[prefix_s :: key x04 := [x08]]> ∅))) [].
Definition patch_run :=
  rebuildPatchedTriePrefix zero_hash ([(key x01, [x01]); (key x02, [x01]); (key x03, [x01])], None) [prefix_s] (newTransformer ∅ patch_index) calm.

Lemma patch_ok : ∃ r, patch_run.1.1 = Ok r.
Proof. assert (Hr : is_ok patch_run.1.1 = true) by (by vm_compute). destruct patch_run.1.1 as [r|]; [by exists r|done]. Qed.

Lemma patch_entries : ix_db patch_index !! (prefix_s :: key x02) = Some [] ∧ ix_db patch_index !! (prefix_s :: key x03) = Some [x07].
Proof. by vm_compute. Qed.

Lemma patched_trie_exact_witness :
  ∃ r leaves', patch_run.1.1 = Ok r ∧ r = toy_root leaves' ∧ (key x03, [x07]) ∈ leaves' ∧ ∀ v, (key x02, v) ∉ leaves'.
Proof.
  destruct patch_ok as [r Hr].
  assert (Hs : patch_run = (Ok r, patch_run.1.2, patch_run.2)) by (rewrite -Hr; by destruct patch_run as [[? ?] ?]).
  destruct (patched_trie_exact toy_root zero_hash [(key x01, [x01]); (key x02, [x01]); (key x03, [x01])] None prefix_s (newTransformer ∅ patch_index) calm r
    patch_run.1.2 patch_run.2) as (_ & leaves' & st & ns & Hroot & _ & Hl & _).
  - apply leaves_checked; by vm_compute.
  - intros k v. cbn [tr_index newTransformer ix_db patch_index]. intros Hk.
    apply lookup_insert_Some in Hk as [[[= <-] _]|[_ Hk]]; [done|]. apply lookup_insert_Some in Hk as [[[= <-] _]|[_ Hk]]; [done|].
    apply lookup_insert_Some in Hk as [[[= <-] _]|[_ Hk]]; [done|]. by rewrite lookup_empty in Hk.
  - exact Hs.
  - exists r, leaves'. split_and!; [done|done|apply Hl; split; [done|left; exact (proj2 patch_entries)]|].
    intros v Hin. apply Hl in Hin as [Hv Hx]. cbn [tr_index newTransformer] in Hx. rewrite (proj1 patch_entries) in Hx. clear -Hv Hx. by destruct Hx as [[= <-]|[_ [=]]].
Defined.

End ConversionWitnesses.
