(* ===== verification/OvmInput.v ===== *)
(** * Operator inputs of the conversion ([ovm_input.go], [ovm_input_confirm.go], [ovm_retention.go])

    Opening an input file without following links, decoding witness records,
    loading a witness file into the evidence index, and confirming at the end
    of the operation that the inputs are still the files that were read. A
    file is what its system calls return; a JSON text is parsed by the JSON
    library, a parameter. *)

From S2P Require Import Prelude Sha256 Geth Instances Manifest StrictIO Records Scanner Bundle Account StateTrie Consumer Stream Traverse AtomicDir Export DirectWriter OvmIndex OvmAudit OvmTransform.

(** ** Options *)

(** The empty string stands for an absent path. *)
Record OVMOptions := MkOVMOptions {
  op_Enabled : bool;
  op_WrappedEtherCode : string;
  op_SourceAncient : string;
  op_StateWitness : string;
  op_GenesisAlloc : string;
  op_ERC20RetainList : string;
  op_AuditSummary : string
}.

Definition given (path : string) : bool := negb (bool_decide (path = ""%string)).

Definition validateOVMOptions (o : OVMOptions) : result unit :=
  if negb (op_Enabled o) then
    reject_if (given (op_WrappedEtherCode o) || given (op_SourceAncient o) || given (op_StateWitness o) || given (op_GenesisAlloc o) ||
               given (op_ERC20RetainList o) || given (op_AuditSummary o)) "OVM input flags require --migrate-ovm-eth"
  else reject_if (negb (given (op_WrappedEtherCode o))) "--migrate-ovm-eth requires --wrapped-ether-code".

(** ** Files *)

(** What the system calls on a path return: [Lstat], [Open], [Stat] of the
    open file, and the reads, the last of which reports an error or the end. *)
Record input_file := MkInputFile {
  inp_lstat : result file_info;
  inp_open : result unit;
  inp_stat : result file_info;
  inp_reads : list bytes;
  inp_last : bytes * error
}.

Definition inp_content (f : input_file) : bytes := mjoin (inp_reads f) ++ (inp_last f).1.

Section Files.
Context {St : Type}.

Definition openOVMInput (f : input_file) : M St unit :=
  info ← lift (wrap_err "inspect OVM input" (inp_lstat f));
  _ ← lift (reject_if (negb (isRegular info)) "OVM input must be a regular file, not a symlink");
  _ ← lift (wrap_err "open OVM input" (inp_open f));
  let changed e :=
    c ← attempt io;
    match errors_join (errors_join (Some (EMsg "OVM input changed while opening")) e) (outcome c) with
    | Some err => fail err
    | None => mret ()
    end in
  match inp_stat f with
  | Err e => changed (Some e)
  | Ok opened => if negb (sameFile info opened) then changed None else mret ()
  end.

(** [f.Close()] deferred after [body]; errors are joined. *)
Definition with_input {A} (f : input_file) (body : M St A) : M St A :=
  _ ← openOVMInput f;
  r ← attempt body;
  c ← attempt io;
  match errors_join (outcome r) (outcome c) with Some e => fail e | None => lift r end.

(** The read loop: the hash is that of the bytes read so far. *)
Fixpoint hash_reads (reads : list bytes) (last : bytes * error) (acc : bytes) : M St Hash :=
  _ ← poll;
  match reads with
  | data :: reads' => hash_reads reads' last (acc ++ data)
  | [] =>
      if error_is EEOF last.2 then (_ ← poll; mret (sha256 (acc ++ last.1)))
      else fail (EWrap "hash OVM input" last.2)
  end.

Definition hashOVMInputReader (f : input_file) : M St Hash := hash_reads (inp_reads f) (inp_last f) [].

Definition hashOVMInput (f : input_file) : M St Hash := with_input f (hashOVMInputReader f).

End Files.

(** ** Confirmation *)

Section Confirm.
Context {St : Type} (files : string → input_file).

Definition confirmOVMRetentionEvidence (path : string) (evidence : option OVMERC20RetentionEvidence) : M St unit :=
  match evidence with
  | Some e =>
      if negb (given path) then fail (EMsg "OVM verification requires the original --ovm-erc20-retain-list input exactly when recorded") else
      digest ← wrap "confirm ERC20 retain list" (hashOVMInput (files path));
      lift (reject_if (negb (bool_decide (digest = re_FileSHA256 e))) "ERC20 retain list changed or differs from recorded digest")
  | None =>
      if given path then fail (EMsg "OVM verification requires the original --ovm-erc20-retain-list input exactly when recorded") else poll
  end.

(** One of the three plain inputs. *)
Definition confirm_input (path label : string) (expected : Hash) : M St unit :=
  if negb (given path) then mret () else
  digest ← wrap ("confirm input " +:+ label) (hashOVMInput (files path));
  lift (reject_if (negb (bool_decide (digest = expected))) "input changed during operation").

Definition confirmOVMInputs (opts : OVMOptions) (inputs : ovmInputs) : M St unit :=
  _ ← confirmOVMAuditEvidence (λ p, hashOVMInput (files p)) (if given (op_AuditSummary opts) then Some (op_AuditSummary opts) else None) (in_auditEvidence inputs);
  _ ← confirmOVMRetentionEvidence (op_ERC20RetainList opts) (in_retention inputs);
  _ ← confirm_input (op_GenesisAlloc opts) "GenesisAlloc" (in_allocDigest inputs);
  _ ← confirm_input (op_WrappedEtherCode opts) "wrapped code" (in_codeFileDigest inputs);
  _ ← confirm_input (op_StateWitness opts) "OVM witness" (in_witnessDigest inputs);
  poll.

End Confirm.

(** ** Witness records *)

Section Witness.
Context `{Keccak, BatchSize, BatchValueSize}.
(** Typed decoding of an address, and parsing of a line. *)
Context (decode_address : json → result Address) (parse_json : bytes → result json).

(** The bit of a field. *)
Definition field_bit (key : string) : option N :=
  if bool_decide (key = "type"%string) then Some 1
  else if bool_decide (key = "address"%string) then Some 2
  else if bool_decide (key = "owner"%string) then Some 4
  else if bool_decide (key = "spender"%string) then Some 8
  else None.

(** Decoding the value of a field into the record. *)
Definition set_field (bit : N) (raw : json) (r : ovmWitnessRecord) : result ovmWitnessRecord :=
  match raw with
  | JNull => Err (EMsg "null OVM witness field")
  | _ =>
      if bit =? 1 then
        match raw with
        | JString s => Ok (MkWitness s (w_Address r) (w_Owner r) (w_Spender r))
        | _ => Err (EMsg "cannot unmarshal into string")
        end
      else
        a ← decode_address raw;
        Ok (if bit =? 2 then MkWitness (w_Type r) (Some a) (w_Owner r) (w_Spender r)
            else if bit =? 4 then MkWitness (w_Type r) (w_Address r) (Some a) (w_Spender r)
            else MkWitness (w_Type r) (w_Address r) (w_Owner r) (Some a))
  end.

Fixpoint witness_fields (l : list (string * json)) (seen : N) (r : ovmWitnessRecord) : result ovmWitnessRecord :=
  match l with
  | [] => Ok r
  | (key, raw) :: l' =>
      match field_bit key with
      | None => Err (EMsg "unknown OVM witness field")
      | Some bit =>
          _ ← reject_if (negb (N.land seen bit =? 0)) "duplicate OVM witness field";
          r ← set_field bit raw r;
          witness_fields l' (N.lor seen bit) r
      end
  end.

Definition empty_witness : ovmWitnessRecord := MkWitness "" None None None.

Definition decodeOVMWitness (v : json) : result ovmWitnessRecord :=
  match v with
  | JObject fields => witness_fields fields 0 empty_witness
  | _ => Err (EMsg "OVM witness must be a JSON object")
  end.

(** [bufio.Scanner] with a buffer of 4096 bytes: the lines without their ends;
    a line that fills the buffer is an error. *)
Definition drop_cr (line_rev : bytes) : bytes :=
  match line_rev with x0d :: rest => reverse rest | _ => reverse line_rev end.
Fixpoint scan_lines (data line_rev : bytes) : list bytes * option error :=
  if (4096 <=? length line_rev)%nat then ([], Some (EMsg "bufio.Scanner: token too long")) else
  match data with
  | [] => (match line_rev with [] => [] | _ => [drop_cr line_rev] end, None)
  | b :: data' =>
      if bool_decide (b = x0a) then let '(ls, e) := scan_lines data' [] in (drop_cr line_rev :: ls, e)
      else scan_lines data' (b :: line_rev)
  end.

(** The error of the underlying reader, if it is not the end of the file,
    takes the place of the scanner's. *)
Definition scan_file (f : input_file) : list bytes * option error :=
  let '(ls, e) := scan_lines (inp_content f) [] in
  (ls, match e with Some e => Some e | None => if error_is EEOF (inp_last f).2 then None else Some (inp_last f).2 end).

Definition witness_line (line : bytes) : M ovmIndex unit :=
  _ ← poll;
  wrap "OVM witness line" (
    v ← lift (parse_json line);
    record ← lift (decodeOVMWitness v);
    addWitness record).

Definition loadOVMWitness (file : option input_file) : M ovmIndex Hash :=
  match file with
  | None => mret (sha256 [])
  | Some f =>
      with_input f (
        let '(ls, e) := scan_file f in
        _ ← for_each ls witness_line;
        _ ← match e with Some e => fail (EWrap "read OVM witness" e) | None => mret () end;
        _ ← index_flush;
        mret (sha256 (inp_content f)))
  end.

End Witness.

(** ** Confirmation is exact *)

(** The path names a regular file, opened as that file, with the digest. *)
Definition confirmed (f : input_file) (digest : Hash) : Prop :=
  ∃ info opened, inp_lstat f = Ok info ∧ isRegular info = true ∧ inp_stat f = Ok opened ∧ sameFile info opened = true ∧
    sha256 (inp_content f) = digest.

Section ConfirmLemmas.
Context {St : Type}.
Implicit Types (s : St).

Lemma openOVMInput_ok f s w u s' w' :
  openOVMInput f s w = (Ok u, s', w') →
  s' = s ∧ ∃ info opened, inp_lstat f = Ok info ∧ isRegular info = true ∧ inp_stat f = Ok opened ∧ sameFile info opened = true.
Proof.
  unfold openOVMInput. intros (info & s1 & w1 & (Hl%wrap_err_ok & -> & ->)%lift_ok & Hr)%bind_ok.
  apply bind_ok in Hr as (u1 & s1 & w1 & (Hreg%reject_if_ok & -> & ->)%lift_ok & Hr). apply negb_false_iff in Hreg.
  apply bind_ok in Hr as (u2 & s1 & w1 & (_ & -> & ->)%lift_ok & Hr).
  assert (Hch : ∀ e w1 u s' w', (c ← attempt io; match errors_join (errors_join (Some (EMsg "OVM input changed while opening")) e) (outcome c) with
      | Some err => fail err | None => mret () end) s w1 = (Ok u, s', w') → False).
  { intros e w1 u3 s3 w3 (c & s4 & w4 & _ & Hf)%bind_ok. destruct e, c; by apply fail_ok in Hf. }
  destruct (inp_stat f) as [opened|e]; [|by apply Hch in Hr]. destruct (sameFile info opened) eqn:Es; cbn [negb] in Hr; [|by apply Hch in Hr].
  apply ret_ok in Hr as (_ & -> & _). split; [done|]. by exists info, opened.
Qed.

Lemma hash_reads_ok reads last acc s w h s' w' :
  hash_reads reads last acc s w = (Ok h, s', w') → s' = s ∧ h = sha256 (acc ++ mjoin reads ++ last.1).
Proof.
  revert acc w. induction reads as [|data reads IH]; intros acc w; cbn [hash_reads]; intros (u & s1 & w1 & ->%poll_ok & Hr)%bind_ok.
  - destruct (error_is EEOF last.2); [|by apply fail_ok in Hr]. apply bind_ok in Hr as (u2 & s2 & w2 & ->%poll_ok & Hr).
    by apply ret_ok in Hr as (-> & -> & _).
  - apply IH in Hr as [-> ->]. split; [done|]. cbn. by rewrite -!app_assoc.
Qed.

Lemma with_input_ok {A} f (body : M St A) s w a s' w' :
  with_input f body s w = (Ok a, s', w') →
  (∃ info opened, inp_lstat f = Ok info ∧ isRegular info = true ∧ inp_stat f = Ok opened ∧ sameFile info opened = true) ∧
  ∃ w1 w2, body s w1 = (Ok a, s', w2).
Proof.
  unfold with_input. intros (u & s1 & w1 & [-> Ho]%openOVMInput_ok & Hr)%bind_ok. split; [done|].
  apply bind_ok in Hr as (r & s2 & w2 & Hb & Hr). mstep Hb. apply bind_ok in Hr as (c & s3 & w3 & Hc & Hr). mstep Hc. apply io_state in Hc as ->.
  destruct r as [a'|e], c as [[]|e']; cbn in Hr; try by apply fail_ok in Hr. apply lift_ok in Hr as ([= ->] & -> & ->). eauto.
Qed.

Lemma hashOVMInput_ok f s w h s' w' : hashOVMInput f s w = (Ok h, s', w') → s' = s ∧ confirmed f h.
Proof.
  intros [(info & opened & H1 & H2 & H3 & H4) (w1 & w2 & Hh)]%with_input_ok. apply hash_reads_ok in Hh as [-> ->]. split; [done|]. by exists info, opened.
Qed.

Lemma confirm_digest_ok msg msg' f expected s w u s' w' :
  (digest ← wrap msg (hashOVMInput f); lift (reject_if (negb (bool_decide (digest = expected))) msg')) s w = (Ok u, s', w') →
  s' = s ∧ confirmed f expected.
Proof.
  intros (h & s1 & w1 & [-> Hc]%wrap_ok%hashOVMInput_ok & Hr)%bind_ok. apply lift_ok in Hr as (He%reject_if_ok & -> & _).
  apply negb_false_iff, bool_decide_eq_true in He as ->. done.
Qed.

(** C31: Confirmation binds the result to the inputs. If the final confirmation
    succeeds, in any environment, then an audit summary and a retain list were
    named exactly when evidence of them is recorded, every named input is a
    regular file that was not swapped while opening, its current content has
    the recorded SHA-256 digest, and the index was not touched. *)
Theorem inputs_confirmed files opts inputs s w u s' w' :
  confirmOVMInputs files opts inputs s w = (Ok u, s', w') →
  s' = s ∧
  (given (op_AuditSummary opts) = bool_decide (is_Some (in_auditEvidence inputs)) ∧
   ∀ e, in_auditEvidence inputs = Some e → confirmed (files (op_AuditSummary opts)) (ae_FileSHA256 e)) ∧
  (given (op_ERC20RetainList opts) = bool_decide (is_Some (in_retention inputs)) ∧
   ∀ e, in_retention inputs = Some e → confirmed (files (op_ERC20RetainList opts)) (re_FileSHA256 e)) ∧
  (given (op_GenesisAlloc opts) = true → confirmed (files (op_GenesisAlloc opts)) (in_allocDigest inputs)) ∧
  (given (op_WrappedEtherCode opts) = true → confirmed (files (op_WrappedEtherCode opts)) (in_codeFileDigest inputs)) ∧
  (given (op_StateWitness opts) = true → confirmed (files (op_StateWitness opts)) (in_witnessDigest inputs)).
Proof.
  assert (Hin : ∀ path label expected s w u s' w', confirm_input files path label expected s w = (Ok u, s', w') →
    s' = s ∧ (given path = true → confirmed (files path) expected)).
  { clear. intros path label expected s w u s' w'. unfold confirm_input. destruct (given path); cbn [negb].
    - intros [-> ?]%confirm_digest_ok. done.
    - by intros (_ & -> & _)%ret_ok. }
  unfold confirmOVMInputs. intros (u1 & s1 & w1 & Ha & Hr)%bind_ok. apply bind_ok in Hr as (u2 & s2 & w2 & Hret & Hr).
  apply bind_ok in Hr as (u3 & s3 & w3 & Hg & Hr). apply bind_ok in Hr as (u4 & s4 & w4 & Hc & Hr). apply bind_ok in Hr as (u5 & s5 & w5 & Hw & Hr).
  apply poll_ok in Hr as ->. apply Hin in Hg as [-> Hg], Hc as [-> Hc], Hw as [-> Hw].
  assert (Ha' : s1 = s ∧ given (op_AuditSummary opts) = bool_decide (is_Some (in_auditEvidence inputs)) ∧
    ∀ e, in_auditEvidence inputs = Some e → confirmed (files (op_AuditSummary opts)) (ae_FileSHA256 e)).
  { unfold confirmOVMAuditEvidence in Ha. destruct (given (op_AuditSummary opts)), (in_auditEvidence inputs) as [e|]; try by apply fail_ok in Ha.
    - apply confirm_digest_ok in Ha as [-> Hcf]. rewrite bool_decide_eq_true_2; [|by eexists]. split_and!; [done..|]. by intros e' [= <-].
    - apply poll_ok in Ha as ->. rewrite bool_decide_eq_false_2; [|by intros [? [=]]]. by split_and!. }
  assert (Hr' : s2 = s1 ∧ given (op_ERC20RetainList opts) = bool_decide (is_Some (in_retention inputs)) ∧
    ∀ e, in_retention inputs = Some e → confirmed (files (op_ERC20RetainList opts)) (re_FileSHA256 e)).
  { unfold confirmOVMRetentionEvidence in Hret. destruct (in_retention inputs) as [e|], (given (op_ERC20RetainList opts)); cbn [negb] in Hret; try by apply fail_ok in Hret.
    - apply confirm_digest_ok in Hret as [-> Hcf]. rewrite bool_decide_eq_true_2; [|by eexists]. split_and!; [done..|]. by intros e' [= <-].
    - apply poll_ok in Hret as ->. rewrite bool_decide_eq_false_2; [|by intros [? [=]]]. by split_and!. }
  destruct Ha' as (-> & ? & ?), Hr' as (-> & ? & ?). done.
Qed.

End ConfirmLemmas.

(** ** Witness records are decoded exactly *)

Section WitnessLemmas.
Context `{Keccak, BatchSize, BatchValueSize}.
Context (decode_address : json → result Address) (parse_json : bytes → result json).

(** A field of a witness record with a value of its type. *)
Definition witness_field (f : string * json) : Prop :=
  (f.1 = "type"%string ∧ ∃ s, f.2 = JString s) ∨
  (f.1 ∈ ["address"; "owner"; "spender"]%string ∧ f.2 ≠ JNull ∧ ∃ a, decode_address f.2 = Ok a).

(** The record that the fields state; [r] has the values of absent ones. *)
Definition stated_type (fields : list (string * json)) (d : string) : string :=
  match field_named "type" fields with Some (JString s) => s | _ => d end.
Definition stated_address (name : string) (fields : list (string * json)) (d : option Address) : option Address :=
  match field_named name fields with
  | Some raw => match decode_address raw with Ok a => Some a | Err _ => None end
  | None => d
  end.
Definition stated (fields : list (string * json)) (r : ovmWitnessRecord) : ovmWitnessRecord :=
  MkWitness (stated_type fields (w_Type r)) (stated_address "address" fields (w_Address r))
    (stated_address "owner" fields (w_Owner r)) (stated_address "spender" fields (w_Spender r)).

(** [seen] has exactly the bits of the names in [names]. *)
Definition seen_names (seen : N) (names : gset string) : Prop :=
  ∀ key bit, field_bit key = Some bit → (N.land seen bit = 0 ↔ key ∉ names).

Lemma field_bit_cases key bit :
  field_bit key = Some bit →
  (key = "type"%string ∧ bit = 1) ∨ (key = "address"%string ∧ bit = 2) ∨ (key = "owner"%string ∧ bit = 4) ∨ (key = "spender"%string ∧ bit = 8).
Proof. unfold field_bit. repeat case_bool_decide; naive_solver. Qed.

Lemma seen_names_add seen names key bit :
  seen_names seen names → field_bit key = Some bit → seen_names (N.lor seen bit) ({[key]} ∪ names).
Proof.
  intros Hs Hb key' bit' Hb'. rewrite N.land_lor_distr_l N.lor_eq_0_iff (Hs _ _ Hb') not_elem_of_union not_elem_of_singleton.
  apply field_bit_cases in Hb, Hb'. assert (Hd : N.land bit bit' = 0 ↔ key' ≠ key); [|rewrite Hd; naive_solver].
  destruct Hb as [[-> ->]|[[-> ->]|[[-> ->]|[-> ->]]]], Hb' as [[-> ->]|[[-> ->]|[[-> ->]|[-> ->]]]]; by vm_compute.
Qed.

Lemma field_named_none {A} name (fields : list (string * A)) : name ∉ fields.*1 → field_named name fields = None.
Proof.
  induction fields as [|[n f] fields IH]; intros Hn; [done|]. cbn in *. apply not_elem_of_cons in Hn as [Hne Hn].
  rewrite bool_decide_eq_false_2; [|done]. by apply IH.
Qed.

Lemma field_named_eq {A} name (f : A) fields : field_named name ((name, f) :: fields) = Some f.
Proof. cbn. by rewrite bool_decide_eq_true_2. Qed.

(** Decoding one field and stating it. *)
Lemma set_field_ok key raw bit r r' fields :
  field_bit key = Some bit → key ∉ fields.*1 → set_field decode_address bit raw r = Ok r' →
  witness_field (key, raw) ∧ r' = stated [(key, raw)] r ∧ stated fields r' = stated ((key, raw) :: fields) r.
Proof.
  intros Hb Hn Hs. unfold set_field in Hs. apply field_bit_cases in Hb.
  destruct Hb as [[-> ->]|Hb].
  - destruct raw as [|s|t|l|o]; try done. injection Hs as <-. split; [left; cbn; eauto|]. split; [done|].
    unfold stated, stated_type. cbn. by rewrite (field_named_none "type" fields Hn).
  - assert (Hd : ∃ a, raw ≠ JNull ∧ decode_address raw = Ok a ∧
      r' = (if bit =? 2 then MkWitness (w_Type r) (Some a) (w_Owner r) (w_Spender r)
            else if bit =? 4 then MkWitness (w_Type r) (w_Address r) (Some a) (w_Spender r)
            else MkWitness (w_Type r) (w_Address r) (w_Owner r) (Some a))).
    { destruct raw; [done|..]; (destruct Hb as [[-> ->]|[[-> ->]|[-> ->]]]; cbn [N.eqb Pos.eqb] in Hs;
        apply result_bind_ok in Hs as (a & Ha & [= <-]); exists a; done). }
    destruct Hd as (a & Hnn & Ha & ->).
    destruct Hb as [[-> ->]|[[-> ->]|[-> ->]]]; (split; [right; cbn; split; [set_solver|]; eauto|]);
      unfold stated, stated_type, stated_address; rewrite ?field_named_eq ?Ha ?(field_named_none _ fields Hn); done.
Qed.

Lemma set_field_total key raw bit r :
  field_bit key = Some bit → witness_field (key, raw) → ∃ r', set_field decode_address bit raw r = Ok r'.
Proof.
  intros Hb [[Hk [s Hs]]|(Hk & Hn & a & Ha)]; cbn in *.
  - subst. injection Hb as <-. by eexists.
  - apply field_bit_cases in Hb. destruct Hb as [[-> ->]|Hb]; [set_solver|].
    unfold set_field. destruct raw; [done|..]; (destruct Hb as [[-> ->]|[[-> ->]|[-> ->]]]; cbn [N.eqb Pos.eqb]; rewrite Ha; by eexists).
Qed.

Lemma witness_field_bit f : witness_field f → is_Some (field_bit f.1).
Proof. intros [[-> _]|(Hk & _)]; [by eexists|]. apply elem_of_cons in Hk as [->|Hk]; [by eexists|]. apply elem_of_cons in Hk as [->|Hk]; [by eexists|].
  apply list_elem_of_singleton in Hk as ->. by eexists. Qed.

Lemma stated_nil r : stated [] r = r.
Proof. by destruct r. Qed.

Lemma witness_fields_ok l : ∀ seen names r r', seen_names seen names →
  witness_fields decode_address l seen r = Ok r' ↔
  NoDup l.*1 ∧ Forall witness_field l ∧ Forall (λ f, f.1 ∉ names) l ∧ r' = stated l r.
Proof.
  induction l as [|[key raw] l IH]; intros seen names r r' Hs; cbn [witness_fields fmap list_fmap fst].
  { rewrite stated_nil. split; [intros [= <-]; split_and!; constructor|]. by intros (_ & _ & _ & ->). }
  rewrite NoDup_cons !Forall_cons. cbn [fst]. destruct (field_bit key) as [bit|] eqn:Eb; cycle 1.
  { split; [done|]. intros (_ & [Hf _] & _). apply witness_field_bit in Hf as [? Hf]. cbn in Hf. congruence. }
  rewrite reject_then negb_false_iff N.eqb_eq (Hs _ _ Eb) result_bind_ok.
  pose proof (seen_names_add _ _ _ _ Hs Eb) as Hs'. split.
  - intros (Hk & r1 & Hf & Hr). apply (IH _ _ _ _ Hs') in Hr as (Hn & Hw & Hns & ->). rewrite Forall_forall in Hns.
    assert (Hkl : key ∉ l.*1). { intros Hin. apply list_elem_of_fmap in Hin as (f & -> & Hin). apply (Hns f Hin). set_solver. }
    eapply set_field_ok in Hf as (Hwf & _ & Hst); [|done|done]. split_and!; try done. apply Forall_forall. intros f Hin. specialize (Hns f Hin). set_solver.
  - intros ((Hkl & Hn) & (Hwf & Hw) & (Hk & Hns) & ->). split; [done|]. destruct (set_field_total key raw bit r Eb Hwf) as [r1 Hf].
    exists r1. split; [done|]. apply (IH _ _ _ _ Hs'). split_and!; try done.
    + rewrite Forall_forall in Hns. apply Forall_forall. intros f Hin. apply not_elem_of_union. split; [|by apply Hns].
      apply not_elem_of_singleton. intros He. apply Hkl. rewrite -He. by apply list_elem_of_fmap_2.
    + symmetry. by eapply set_field_ok.
Qed.

(** A witness record is decoded exactly: the decoder accepts a JSON value
    exactly when it is an object whose field names are known and different,
    with a string as type and addresses elsewhere and no nulls, and it yields
    the record those fields state. *)
Theorem witness_decode_exact v r :
  decodeOVMWitness decode_address v = Ok r ↔
  ∃ fields, v = JObject fields ∧ NoDup fields.*1 ∧ Forall witness_field fields ∧ r = stated fields empty_witness.
Proof.
  assert (H0' : seen_names 0 ∅) by (intros key bit _; split; [set_solver|done]).
  unfold decodeOVMWitness. destruct v as [| | | |fields]; try (split; [done|by intros (? & [=] & _)]).
  rewrite (witness_fields_ok fields 0 ∅) //. split.
  - intros (Hn & Hw & _ & ->). by exists fields.
  - intros (f & [= <-] & Hn & Hw & ->). split_and!; try done. apply Forall_forall. set_solver.
Qed.

(** ** Loading a witness file *)

(** What a record adds to the index. *)
Definition address_op (a : Address) : batch_op := BPut (prefix_b :: hash_bytes (ovmStorageHash (ovmBalanceSlot a))) (hash_bytes a).
Definition record_ops (r : ovmWitnessRecord) : list batch_op :=
  if bool_decide (w_Type r = "address"%string) then match w_Address r with Some a => [address_op a] | None => [] end
  else match w_Owner r, w_Spender r with
       | Some o, Some s => [address_op o; address_op s; BPut (prefix_a :: hash_bytes (ovmStorageHash (allowanceSlot o s))) (hash_bytes o ++ hash_bytes s)]
       | _, _ => []
       end.

Lemma addWitness_ok r i w u i' w' : addWitness r i w = (Ok u, i', w') → ix_view i' = apply_ops (ix_view i) (record_ops r).
Proof.
  unfold addWitness, record_ops. intros Hr. case_bool_decide.
  - destruct (w_Address r), (w_Owner r), (w_Spender r); try by apply fail_ok in Hr. by apply index_put_view in Hr.
  - case_bool_decide; [|by apply fail_ok in Hr]. destruct (w_Address r), (w_Owner r), (w_Spender r); try by apply fail_ok in Hr.
    unfold index_allowance, index_address in Hr. apply bind_ok in Hr as (u1 & i1 & w1 & Hv1%index_put_view & Hr).
    apply bind_ok in Hr as (u2 & i2 & w2 & Hv2%index_put_view & Hr). apply index_put_view in Hr. by rewrite Hr Hv2 Hv1.
Qed.

(** The record of a line. *)
Definition line_record (line : bytes) : result ovmWitnessRecord :=
  v ← parse_json line;
  decodeOVMWitness decode_address v.

Lemma witness_lines_ok ls i w u i' w' :
  for_each ls (witness_line decode_address parse_json) i w = (Ok u, i', w') →
  ∃ records, Forall2 (λ line r, line_record line = Ok r) ls records ∧ ix_view i' = apply_ops (ix_view i) (records ≫= record_ops).
Proof.
  revert i w. induction ls as [|line ls IH]; intros i w Hr; cbn [for_each] in Hr.
  { apply ret_ok in Hr as (_ & -> & _). by exists []. }
  apply bind_ok in Hr as (u0 & i1 & w1 & Hl & Hr). unfold witness_line in Hl. apply bind_ok in Hl as (u1 & i2 & w2 & ->%poll_ok & Hl).
  apply wrap_ok in Hl. apply bind_ok in Hl as (v & i2 & w3 & (Hp & -> & ->)%lift_ok & Hl). apply bind_ok in Hl as (r & i2 & w3 & (Hd & -> & ->)%lift_ok & Hl).
  apply addWitness_ok in Hl. apply IH in Hr as (records & Hf & Hv). exists (r :: records). split.
  - constructor; [|done]. unfold line_record. by rewrite Hp.
  - by rewrite Hv Hl bind_cons apply_ops_app.
Qed.

(** Loading a witness file is complete: if it succeeds, in any environment,
    the file is a regular file read to its end, every line is a valid record,
    the index holds exactly what the records add, written out, and the digest
    is the SHA-256 of the file. *)
Theorem witness_load_complete f i w h i' w' :
  loadOVMWitness decode_address parse_json (Some f) i w = (Ok h, i', w') →
  confirmed f h ∧ error_is EEOF (inp_last f).2 = true ∧ (scan_lines (inp_content f) []).2 = None ∧
  ∃ records, Forall2 (λ line r, line_record line = Ok r) (scan_lines (inp_content f) []).1 records ∧
    i' = MkOvmIndex (apply_ops (ix_view i) (records ≫= record_ops)) [].
Proof.
  intros [(info & opened & Hl & Hreg & Hst & Hsame) (w1 & w2 & Hr)]%with_input_ok. unfold scan_file in Hr.
  destruct (scan_lines (inp_content f) []) as [ls e] eqn:Es. apply bind_ok in Hr as (u & i1 & w3 & Hf & Hr).
  apply witness_lines_ok in Hf as (records & Hf & Hv). apply bind_ok in Hr as (u1 & i2 & w4 & He & Hr).
  destruct e as [e|]; [by apply fail_ok in He|]. destruct (error_is EEOF (inp_last f).2); [|by apply fail_ok in He]. apply ret_ok in He as (_ & -> & ->).
  apply bind_ok in Hr as (u2 & i2 & w5 & ->%index_flush_ok & Hr). apply ret_ok in Hr as (-> & -> & _). rewrite Hv.
  split; [by exists info, opened|]. split_and!; [done..|]. by exists records.
Qed.

End WitnessLemmas.

Module OvmInputWitnesses.
Import Sample SampleTarget.

Definition regular : file_info := MkFileInfo ModeRegular 6 9.
Definition sample (reads : list bytes) : input_file := MkInputFile (Ok regular) (Ok ()) (Ok regular) reads ([], EEOF).

Definition code_file : input_file := sample [bytes_of_string "0x60"; bytes_of_string "01"].
Definition options : OVMOptions := MkOVMOptions true "code.hex" "" "" "" "" "".
Definition inputs : ovmInputs := MkOvmInputs None zero_hash None [x60; x01] (sha256 (bytes_of_string "0x6001")) zero_hash zero_hash None.

Lemma inputs_confirmed_witness : confirmed code_file (sha256 (bytes_of_string "0x6001")).
Proof.
  destruct (inputs_confirmed (λ _, code_file) options inputs () calm () () calm) as (_ & _ & _ & _ & Hc & _); [by vm_compute|].
  exact (Hc eq_refl).
Defined.

(** A file of one record, parsed by a function that knows its line. *)
Definition line : bytes := bytes_of_string "{type:address}".
Definition parse (l : bytes) : result json :=
  if bytes_equal l line then Ok (JObject [("type", JString "address"); ("address", JString "0x01")]%string) else Err (EMsg "syntax").
Definition decode (v : json) : result Address :=
  match v with JString _ => Ok (vec_of_bytes 20 (replicate 20 x01)) | _ => Err (EMsg "address") end.
Definition witness_file : input_file := sample [line; [x0a]].

Definition load := loadOVMWitness decode parse (Some witness_file) (newOVMIndex ∅) calm.
Lemma load_run : load = (Ok (sha256 (line ++ [x0a])), load.1.2, load.2).
Proof. assert (Hr : load.1.1 = Ok (sha256 (line ++ [x0a]))) by (by vm_compute). rewrite -Hr. by destruct load as [[? ?] ?]. Qed.

Lemma witness_load_complete_witness :
  ∃ records, length records = 1%nat ∧ load.1.2 = MkOvmIndex (apply_ops ∅ (records ≫= record_ops)) [].
Proof.
  destruct (witness_load_complete decode parse witness_file (newOVMIndex ∅) calm _ load.1.2 load.2 load_run) as (_ & _ & _ & records & Hf & Hi).
  exists records. split; [|exact Hi]. apply Forall2_length in Hf. rewrite -Hf. by vm_compute.
Defined.

End OvmInputWitnesses.
