(* ===== verification/PruneKeys.v ===== *)
(** * Records of a legacy database ([prune_scan.go])

    Pruning reads a whole legacy database and decides for every record whether
    it is state of the head, other data to protect, unreferenced state to
    delete, or unknown. This file holds the roles, the counters, the digest of
    protected records, and the recognition of foreign records (light-client
    metadata, prefixed code, path-scheme nodes), for which pruning refuses to
    run. [netip.ParseAddr] and [hex.DecodeString] of Go's library are
    modelled as far as they are used: whether they accept a text. *)

From S2P Require Import Prelude Geth.

(** ** Roles and counters *)

Definition pruneUnclassified : Z := -1.
Definition pruneProtect : Z := 0.
Definition pruneRetainState : Z := 1.
Definition pruneDelete : Z := 2.
Definition pruneUnknown : Z := 3.

Record PruneKVCount := MkKVCount { kv_Keys : N; kv_Bytes : N }.
#[export] Instance PruneKVCount_eq_dec : EqDecision PruneKVCount.
Proof. solve_decision. Defined.

Definition kv_zero : PruneKVCount := MkKVCount 0 0.
Definition kv_add (key value : bytes) (c : PruneKVCount) : PruneKVCount :=
  MkKVCount (add64 (kv_Keys c) 1) (add64 (kv_Bytes c) (blen key + blen value)).

Record pruneInventory := MkInventory {
  inv_Keep : PruneKVCount;
  inv_Protected : PruneKVCount;
  inv_Candidates : PruneKVCount;
  inv_Unknown : PruneKVCount;
  inv_Digest : Hash
}.
#[export] Instance pruneInventory_eq_dec : EqDecision pruneInventory.
Proof. solve_decision. Defined.

Definition comparePruneInventory (before after : pruneInventory) : result unit :=
  _ ← reject_if (negb (kv_Keys (inv_Candidates after) =? 0)) "prune verification found remaining candidates";
  reject_if (negb (bool_decide (inv_Keep before = inv_Keep after)) ||
             negb (bool_decide (inv_Protected before = inv_Protected after)) ||
             negb (bool_decide (inv_Unknown before = inv_Unknown after)) ||
             negb (bool_decide (inv_Digest before = inv_Digest after))) "prune protected inventory changed".

(** What [hashPruneKV] writes to the digest: each part after its length. *)
Definition hash_part (part : bytes) : bytes := put_uint64 (blen part) ++ part.
Definition hashPruneKV (h : bytes) (key value : bytes) : bytes := h ++ hash_part key ++ hash_part value.

(** ** Internet addresses *)

Definition between (lo hi c : byte) : bool := (byte_val lo <=? byte_val c) && (byte_val c <=? byte_val hi).
Definition is_digit : byte → bool := between x30 x39.
Definition hex_value (c : byte) : option N :=
  if is_digit c then Some (byte_val c - 48)
  else if between x61 x66 c then Some (byte_val c - 87)
  else if between x41 x46 c then Some (byte_val c - 55)
  else None.

Definition dot : byte := x2e.
Definition colon : byte := x3a.
Definition percent : byte := x25.

(** [parseIPv4Fields]: [first] says that no character was read yet,
    [afterDot] that the previous one was a dot. *)
Fixpoint ipv4_fields (s : bytes) (first afterDot : bool) (val digits pos : N) : bool :=
  match s with
  | [] => 3 <=? pos
  | c :: s' =>
      if is_digit c then
        let val' := val * 10 + (byte_val c - 48) in
        if (digits =? 1) && (val =? 0) then false
        else if 255 <? val' then false
        else ipv4_fields s' false false val' (digits + 1) pos
      else if bool_decide (c = dot) then
        if first || bool_decide (s' = []) || afterDot then false
        else if pos =? 3 then false
        else ipv4_fields s' false true 0 0 (pos + 1)
      else false
  end.
Definition parse_ipv4 (s : bytes) : bool := ipv4_fields s true false 0 0 0.

(** One group of hexadecimal digits: the digits read and the rest, or a
    failure if there are more than four. *)
Fixpoint ipv6_group (s : bytes) (off : nat) : option (nat * bytes) :=
  match s with
  | [] => Some (off, [])
  | c :: s' =>
      match hex_value c with
      | None => Some (off, s)
      | Some _ => if (3 <? off)%nat then None else ipv6_group s' (S off)
      end
  end.

(** The loop of [parseIPv6]: [i] bytes of the address are filled; the result is
    the unread text, [i] and whether there was an ellipsis. Eight rounds fill
    the address. *)
Fixpoint ipv6_loop (fuel : nat) (s : bytes) (i : N) (ellipsis : bool) : option (bytes * N * bool) :=
  match fuel with
  | O => Some (s, i, ellipsis)
  | S fuel' =>
      if 16 <=? i then Some (s, i, ellipsis) else
      match ipv6_group s 0 with
      | None => None
      | Some (O, _) => None
      | Some (_, rest) =>
          if bool_decide (head rest = Some dot) then
            if (negb ellipsis && negb (i =? 12)) || (16 <? i + 4) then None
            else if parse_ipv4 s then Some ([], i + 4, ellipsis) else None
          else
            match rest with
            | [] => Some ([], i + 2, ellipsis)
            | c :: rest' =>
                if negb (bool_decide (c = colon)) then None else
                match rest' with
                | [] => None
                | d :: rest'' =>
                    if bool_decide (d = colon) then
                      if ellipsis then None
                      else if bool_decide (rest'' = []) then Some ([], i + 2, true)
                      else ipv6_loop fuel' rest'' (i + 2) true
                    else ipv6_loop fuel' rest' (i + 2) ellipsis
                end
            end
      end
  end.

(** The text before the first [%] and the zone after it, if there is one. *)
Fixpoint split_zone (s : bytes) : bytes * option bytes :=
  match s with
  | [] => ([], None)
  | c :: s' =>
      if bool_decide (c = percent) then ([], Some s')
      else let '(a, z) := split_zone s' in (c :: a, z)
  end.

Definition parse_ipv6 (input : bytes) : bool :=
  let '(s, zone) := split_zone input in
  if bool_decide (zone = Some []) then false else
  let '(s, ellipsis) := match s with
                        | c :: d :: s' => if bool_decide (c = colon) && bool_decide (d = colon) then (s', true) else (s, false)
                        | _ => (s, false)
                        end in
  if ellipsis && bool_decide (s = []) then true else
  match ipv6_loop 8 s 0 ellipsis with
  | None => false
  | Some (rest, i, ellipsis) =>
      if negb (bool_decide (rest = [])) then false
      else if i <? 16 then ellipsis else negb ellipsis
  end.

(** Whether [netip.ParseAddr] accepts a text: the first dot or colon decides. *)
Fixpoint parse_addr_from (s rest : bytes) : bool :=
  match rest with
  | [] => false
  | c :: rest' =>
      if bool_decide (c = dot) then parse_ipv4 s
      else if bool_decide (c = colon) then parse_ipv6 s
      else if bool_decide (c = percent) then false
      else parse_addr_from s rest'
  end.
Definition ParseAddr (s : bytes) : bool := parse_addr_from s s.

(** Whether [hex.DecodeString] accepts a text. *)
Definition hex_decodes (s : bytes) : bool :=
  Nat.even (length s) && forallb (λ c, bool_decide (is_Some (hex_value c))) s.

(** ** Foreign records *)

(** [rawdb.ResolveAccountTrieNodeKey] and [rawdb.ResolveStorageTrieNode]: the
    path of a path-scheme node key, and the owner of a storage node. *)
Class NodeKeys := {
  ResolveAccountTrieNodeKey : bytes → option bytes;
  ResolveStorageTrieNode : bytes → option (Hash * bytes)
}.

Definition isPruneLESBalanceKey (key : bytes) : bool :=
  match key with
  | k0 :: k1 :: p0 :: p1 :: p2 :: id =>
      if negb (bool_decide (k0 = x00)) || (1 <? byte_val k1) then false else
      let prefix := [p0; p1; p2] in
      if bool_decide (prefix = bytes_of_string "pb:") then (length key =? 5 + HashLength)%nat
      else if bool_decide (prefix = bytes_of_string "nb:") then
        ParseAddr id || ((length id =? 2 * HashLength)%nat && hex_decodes id)
      else false
  | _ => false
  end.

Definition les_prefixes : list string :=
  ["cumulativeTime:"; "_globalCostFactor"; "chtIndexV2-"; "bltIndex-"; "cht-"; "blt-"; "chtRootV2-"; "bltRoot-"]%string.

Section Foreign.
Context `{Keccak, RawdbKeys, NodeKeys}.

Definition isPrunePathKey (key : bytes) : bool :=
  let path := match ResolveAccountTrieNodeKey key with
              | Some path => Some path
              | None => match ResolveStorageTrieNode key with Some (_, path) => Some path | None => None end
              end in
  match path with
  | None => false
  | Some path => forallb (λ nibble, byte_val nibble <=? 15) path
  end.

Definition rejectPruneForeignKey (key value : bytes) : result unit :=
  _ ← reject_if (isPruneLESBalanceKey key) "prune does not support LES service metadata";
  _ ← reject_if (existsb (λ prefix, has_prefix key (bytes_of_string prefix)) les_prefixes) "prune does not support LES service metadata";
  _ ← reject_if ((length key =? 33)%nat && bool_decide (head key = Some x63) && bytes_equal (hash_bytes (keccak256 value)) (tail key))
        "prune does not support geth prefixed code";
  reject_if (isPrunePathKey key || bytes_equal key SnapshotRootKey) "prune does not support geth path/snapshot data".

End Foreign.

(** ** The digest determines the records *)

Lemma hash_part_inj a b x y : blen a < two64 → blen b < two64 → hash_part a ++ x = hash_part b ++ y → a = b ∧ x = y.
Proof.
  intros Ha Hb. unfold hash_part. rewrite -!app_assoc. intros He.
  apply app_inj_1 in He as [Hl He]; [|by rewrite !length_put_uint64].
  apply (f_equal get_uint64) in Hl. rewrite !get_put_uint64 // in Hl.
  apply app_inj_1 in He; [done|]. unfold blen in Hl. lia.
Qed.

Definition digest_bytes (h : bytes) (records : list (bytes * bytes)) : bytes := foldl (λ h kv, hashPruneKV h kv.1 kv.2) h records.

Lemma digest_bytes_cons h k v l : digest_bytes h ((k, v) :: l) = digest_bytes (hashPruneKV h k v) l.
Proof. done. Qed.

Lemma digest_bytes_app h records : digest_bytes h records = h ++ digest_bytes [] records.
Proof.
  revert h. induction records as [|[k v] l IH]; intros h; [by rewrite /= app_nil_r|].
  rewrite !digest_bytes_cons IH (IH (hashPruneKV [] k v)) /hashPruneKV /= -app_assoc //.
Qed.

Lemma digest_bytes_nonempty k v l : digest_bytes [] ((k, v) :: l) ≠ [].
Proof.
  rewrite digest_bytes_cons digest_bytes_app. intros He. apply (f_equal length) in He.
  rewrite /hashPruneKV /hash_part !length_app !length_put_uint64 /= in He. lia.
Qed.

Lemma hashPruneKV_app k v rest : hashPruneKV [] k v ++ rest = hash_part k ++ hash_part v ++ rest.
Proof. by rewrite /hashPruneKV /= app_assoc. Qed.

Lemma digest_bytes_inj l1 l2 :
  Forall (λ kv, blen kv.1 < two64 ∧ blen kv.2 < two64) l1 → Forall (λ kv, blen kv.1 < two64 ∧ blen kv.2 < two64) l2 →
  digest_bytes [] l1 = digest_bytes [] l2 → l1 = l2.
Proof.
  revert l2. induction l1 as [|[k v] l1 IH]; intros [|[k' v'] l2] F1 F2; [done| | |].
  - intros He. by destruct (digest_bytes_nonempty k' v' l2).
  - intros He. by destruct (digest_bytes_nonempty k v l1).
  - apply Forall_cons in F1 as [[? ?] F1], F2 as [[? ?] F2].
    rewrite !digest_bytes_cons digest_bytes_app (digest_bytes_app (hashPruneKV [] k' v')) !hashPruneKV_app.
    intros [-> He]%hash_part_inj; [|done..]. apply hash_part_inj in He as [-> He]; [|done..]. f_equal. by apply IH.
Qed.
