(* ===== verification/PruneScan.v ===== *)
(** * Scanning and deleting ([prune_pipeline.go], [prune_scan.go], [prune.go])

    The walk over a legacy database beside the keep set: a merge cursor gives
    every record of the source a provisional role, a pipeline of workers hashes
    large records, and a coordinator consumes the records in key order. The
    pipeline is modelled with its ring of slots; what the workers did between
    two actions of the coordinator is the schedule, a list of the slots they
    finished, so that a theorem for all schedules covers every interleaving
    the coordinator can observe.

    The theorems say that the consumer sees exactly the source's records, in
    order and with the role the keep set gives them, or a prefix of them
    before an error; that the deletion removes nothing but unreferenced
    content-addressed entries, even if it fails; and that the comparison of
    inventories binds the protected content. *)

From S2P Require Import Prelude Sha256 Geth Instances Manifest StrictIO Records Scanner Bundle Account StateTrie Consumer Stream Traverse AtomicDir Export DirectWriter OvmIndex OvmTransform PruneKeys.

(** ** Sizes ([prune_execution.go]) *)

Definition pruneDeleteBatchBytes : Z := 1048576.
Definition pruneDeleteBatchKeys : nat := N.to_nat 16384.
Definition pruneParallelHashBytes : N := 4096.

(** The budget of an operation, in the order of the fields; the counters of
    the progress display and the test hook are left out. *)
Record pruneExecution := MkPruneExecution {
  pe_workers : Z;
  pe_sourceCache : Z;
  pe_keepCache : Z;
  pe_sourceHandles : Z;
  pe_keepHandles : Z;
  pe_scanBytes : Z
}.

(** ** The pipeline *)

Record pruneScanRecord := MkScanRecord {
  sr_key : bytes;
  sr_value : bytes;
  sr_role : Z;
  sr_err : option error;
  sr_done : bool
}.

Definition empty_slot : pruneScanRecord := MkScanRecord [] [] 0 None false.

#[export] Instance scan_record_inhabited : Inhabited pruneScanRecord := populate empty_slot.

(** [sp_jobs] are the slots handed to the workers that are not done yet;
    [sp_canceled] says that the pipeline's own context was cancelled. *)
Record pruneScanPipeline := MkPipeline {
  sp_slots : list pruneScanRecord;
  sp_first : nat;
  sp_pending : nat;
  sp_bytes : Z;
  sp_limit : Z;
  sp_jobs : list nat;
  sp_canceled : bool;
  sp_failure : option error;
  sp_schedule : list (list nat)
}.

Definition newPruneScanPipeline (e : pruneExecution) (schedule : list (list nat)) : pruneScanPipeline :=
  MkPipeline (replicate (Z.to_nat (2 * pe_workers e)) empty_slot) 0 0 0 (pe_scanBytes e) [] false None schedule.

Definition sp_slot (i : nat) (p : pruneScanPipeline) : pruneScanRecord := sp_slots p !!! i.
Definition set_slot_at (i : nat) (r : pruneScanRecord) (p : pruneScanPipeline) : pruneScanPipeline :=
  MkPipeline (<[i := r]> (sp_slots p)) (sp_first p) (sp_pending p) (sp_bytes p) (sp_limit p) (sp_jobs p) (sp_canceled p) (sp_failure p) (sp_schedule p).
Definition set_jobs (jobs : list nat) (p : pruneScanPipeline) : pruneScanPipeline :=
  MkPipeline (sp_slots p) (sp_first p) (sp_pending p) (sp_bytes p) (sp_limit p) jobs (sp_canceled p) (sp_failure p) (sp_schedule p).
Definition set_schedule (schedule : list (list nat)) (p : pruneScanPipeline) : pruneScanPipeline :=
  MkPipeline (sp_slots p) (sp_first p) (sp_pending p) (sp_bytes p) (sp_limit p) (sp_jobs p) (sp_canceled p) (sp_failure p) schedule.

(** [p.ctx.Err()]: the pipeline's context or the caller's is cancelled. *)
Definition poll_pipeline : M pruneScanPipeline unit :=
  p ← get;
  if sp_canceled p then fail ECanceled else poll.

(** [pruneScanPipeline.fail]. *)
Definition pipeline_fail (err : option error) : M pruneScanPipeline unit :=
  match err with
  | None => mret ()
  | Some e =>
      if error_is ECanceled e then mret () else
      modify (λ p, match sp_failure p with
                   | Some _ => p
                   | None => MkPipeline (sp_slots p) (sp_first p) (sp_pending p) (sp_bytes p) (sp_limit p) (sp_jobs p) true (Some e) (sp_schedule p)
                   end)
  end.

Section Pipeline.
Context `{Keccak, RawdbKeys, NodeKeys}.

(** The role of a record that is not in the keep set. *)
Definition classified_role (role : Z) (key value : bytes) : Z :=
  if (role =? pruneUnclassified)%Z then
    if bool_decide (keccak256 value = BytesToHash key) then pruneDelete else pruneUnknown
  else role.

Definition set_role (role : Z) (r : pruneScanRecord) : pruneScanRecord :=
  MkScanRecord (sr_key r) (sr_value r) role (sr_err r) (sr_done r).

(** Only records that are neither state of the head nor candidates are looked
    at for foreign keys. *)
Definition foreign_error (role : Z) (key value : bytes) : option error :=
  if negb (role =? pruneDelete)%Z && negb (role =? pruneRetainState)%Z
  then outcome (rejectPruneForeignKey key value) else None.

(** The record with its role, and the error. *)
Definition classifyPruneRecord (r : pruneScanRecord) : M pruneScanPipeline (pruneScanRecord * option error) :=
  c ← attempt poll_pipeline;
  match c with
  | Err e => mret (r, Some e)
  | Ok _ =>
      let role := classified_role (sr_role r) (sr_key r) (sr_value r) in
      mret (set_role role r, foreign_error role (sr_key r) (sr_value r))
  end.

(** One turn of a worker's loop, on the record in slot [i]. *)
Definition work (i : nat) : M pruneScanPipeline unit :=
  p ← get;
  if negb (bool_decide (i ∈ sp_jobs p)) then mret () else
  _ ← modify (set_jobs (filter (λ j, j ≠ i) (sp_jobs p)));
  '(r, err) ← classifyPruneRecord (sp_slot i p);
  _ ← modify (set_slot_at i (MkScanRecord (sr_key r) (sr_value r) (sr_role r) err true));
  pipeline_fail err.

(** What the workers did since the last action of the coordinator. *)
Definition workers_run : M pruneScanPipeline unit :=
  p ← get;
  match sp_schedule p with
  | [] => mret ()
  | slots :: schedule => _ ← modify (set_schedule schedule); for_each slots work
  end.

(** Receiving from [r.done]: if the worker is not done yet, the coordinator
    waits for it. *)
Definition take_done (r : pruneScanRecord) : pruneScanRecord :=
  MkScanRecord (sr_key r) (sr_value r) (sr_role r) (sr_err r) false.
Definition await_slot (i : nat) : M pruneScanPipeline unit :=
  _ ← workers_run;
  _ ← work i;
  modify (λ p, set_slot_at i (take_done (sp_slot i p)) p).

Section Consumer.
Context {C : Type} (consume : pruneScanRecord → M C unit).

Record scan := MkScan { sc_pipe : pruneScanPipeline; sc_user : C }.

Definition on_pipe {A} (m : M pruneScanPipeline A) : M scan A := zoom sc_pipe (λ p s, MkScan p (sc_user s)) m.
Definition on_user {A} (m : M C A) : M scan A := zoom sc_user (λ u s, MkScan (sc_pipe s) u) m.

(** The consumer of the pipeline: the caller's, after a look at the caller's
    context. *)
Definition consume_checked (r : pruneScanRecord) : M C unit := _ ← poll; consume r.

(** The slot is emptied and the ring moves on. *)
Definition release_first (p : pruneScanPipeline) : pruneScanPipeline :=
  let r := sp_slot (sp_first p) p in
  MkPipeline (<[sp_first p := MkScanRecord [] [] (sr_role r) None false]> (sp_slots p))
    ((sp_first p + 1) mod length (sp_slots p)) (sp_pending p - 1)
    (sp_bytes p - Z.of_N (blen (sr_key r) + blen (sr_value r)))
    (sp_limit p) (sp_jobs p) (sp_canceled p) (sp_failure p) (sp_schedule p).

Definition drainOne : M scan unit :=
  first ← on_pipe (gets sp_first);
  _ ← on_pipe (await_slot first);
  r ← on_pipe (gets (sp_slot first));
  c ← attempt (match sr_err r with
               | Some e => fail e
               | None => _ ← on_pipe poll_pipeline; on_user (consume_checked r)
               end);
  _ ← on_pipe (pipeline_fail (outcome c));
  _ ← on_pipe (modify release_first);
  lift c.

Fixpoint drain_loop (fuel : nat) : M scan unit :=
  match fuel with
  | O => mret ()
  | S fuel' =>
      pending ← on_pipe (gets sp_pending);
      if (pending =? 0)%nat then mret () else
      _ ← drainOne; drain_loop fuel'
  end.

(** As many rounds as records are pending. *)
Definition drain : M scan unit :=
  pending ← on_pipe (gets sp_pending);
  _ ← drain_loop pending;
  _ ← on_pipe workers_run;
  on_pipe poll_pipeline.

Definition consumeDirect (key value : bytes) (role : Z) : M scan unit :=
  '(r, err) ← on_pipe (classifyPruneRecord (MkScanRecord key value role None false));
  match err with
  | Some e => fail e
  | None => _ ← on_pipe poll_pipeline; on_user (consume_checked r)
  end.

Definition record_size (key value : bytes) : Z := Z.of_N (blen key + blen value).

Definition must_wait (size : Z) (p : pruneScanPipeline) : bool :=
  (sp_pending p =? length (sp_slots p))%nat || (sp_limit p <? sp_bytes p + size)%Z.

(** Waiting for room: one more round than records are pending. *)
Fixpoint make_room (size : Z) (fuel : nat) : M scan unit :=
  match fuel with
  | O => fail (EMsg "pipeline has no room")
  | S fuel' =>
      p ← on_pipe get;
      if must_wait size p then (_ ← drainOne; make_room size fuel') else mret ()
  end.

(** The record is copied into the next free slot and handed to the workers. *)
Definition enqueue (key value : bytes) (role : Z) (p : pruneScanPipeline) : pruneScanPipeline :=
  let i := ((sp_first p + sp_pending p) mod length (sp_slots p))%nat in
  let r := sp_slot i p in
  MkPipeline (<[i := MkScanRecord key value role (sr_err r) (sr_done r)]> (sp_slots p)) (sp_first p) (sp_pending p + 1)
    (sp_bytes p + record_size key value) (sp_limit p) (sp_jobs p ++ [i]) (sp_canceled p) (sp_failure p) (sp_schedule p).

Definition push (key value : bytes) (role : Z) : M scan unit :=
  _ ← on_pipe workers_run;
  _ ← on_pipe poll_pipeline;
  p ← on_pipe get;
  let size := record_size key value in
  let parallel := (role =? pruneUnclassified)%Z && (pruneParallelHashBytes <=? blen value) in
  if (sp_limit p <? size)%Z || (negb parallel && (sp_pending p =? 0)%nat) then
    _ ← drain;
    consumeDirect key value role
  else
    _ ← make_room size (S (sp_pending p));
    on_pipe (modify (enqueue key value role)).

(** ** The merge with the keep set *)

(** The entry the keep iterator is at, and those after it. *)
Record pruneMergeCursor := MkMerge { mc_current : option (bytes * bytes); mc_rest : list (bytes * bytes) }.

Definition mc_advance (m : pruneMergeCursor) : M scan pruneMergeCursor :=
  _ ← io;
  match mc_rest m with
  | [] => mret (MkMerge None [])
  | kv :: rest => mret (MkMerge (Some kv) rest)
  end.

Definition comparePruneValue (key a b : bytes) : result unit :=
  reject_if (negb (bytes_equal a b)) "prune keep value differs".

(** The role, and the cursor after it. *)
Definition mc_role (m : pruneMergeCursor) (key value : bytes) : M scan (Z * pruneMergeCursor) :=
  let other := if (length key =? HashLength)%nat then pruneUnclassified else pruneProtect in
  match mc_current m with
  | None => mret (other, m)
  | Some (keepKey, keepValue) =>
      match bytes_compare key keepKey with
      | Gt => fail (EMsg "prune keep key is missing from source")
      | Eq =>
          _ ← lift (comparePruneValue key keepValue value);
          m' ← mc_advance m;
          mret (pruneRetainState, m')
      | Lt => mret (other, m)
      end
  end.

(** The loop over the source. Its iterator fails at any step, or at the end. *)
Fixpoint walk_source (source : list (bytes * bytes)) (m : pruneMergeCursor) : M scan unit :=
  match source with
  | [] =>
      _ ← wrap "scan prune source" io;
      match mc_current m with
      | Some _ => fail (EMsg "prune keep key is missing from source")
      | None => drain
      end
  | (key, value) :: source' =>
      _ ← wrap "scan prune source" io;
      '(role, m') ← mc_role m key value;
      _ ← push key value role;
      walk_source source' m'
  end.

End Consumer.

Arguments scan : clear implicits.

(** The walk over a source and a keep database. When it closes, workers may
    still finish; a failure recorded by the pipeline replaces the error. *)
Definition walkPruneDifference {C : Type} (db keep : store) (e : pruneExecution) (schedule : list (list nat))
    (consume : pruneScanRecord → M C unit) : M C unit := λ u w,
  let body := (m ← wrap "open prune keep cursor" (mc_advance (MkMerge None (db_iterate keep [] [])));
               walk_source consume (db_iterate db [] []) m) in
  match (r ← attempt body; _ ← on_pipe workers_run; f ← on_pipe (gets sp_failure); lift (match f with Some e => Err e | None => r end))
          (MkScan (newPruneScanPipeline e schedule) u) w with
  | (r, s, w') => (r, sc_user s, w')
  end.

(** ** The inventory *)

(** The counters so far and what was written to the digest. *)
Record inventory_scan := MkInventoryScan {
  is_Keep : PruneKVCount;
  is_Protected : PruneKVCount;
  is_Candidates : PruneKVCount;
  is_Unknown : PruneKVCount;
  is_digest : bytes
}.

Definition digest_tag : bytes := bytes_of_string "metis-l2state-prune-protected/v1".
Definition inventory_start : inventory_scan := MkInventoryScan kv_zero kv_zero kv_zero kv_zero digest_tag.

Definition count_record (record : pruneScanRecord) (i : inventory_scan) : inventory_scan :=
  let key := sr_key record in
  let value := sr_value record in
  let role := sr_role record in
  if (role =? pruneDelete)%Z then
    MkInventoryScan (is_Keep i) (is_Protected i) (kv_add key value (is_Candidates i)) (is_Unknown i) (is_digest i)
  else
    MkInventoryScan (if (role =? pruneRetainState)%Z then kv_add key value (is_Keep i) else is_Keep i)
      (kv_add key value (is_Protected i)) (is_Candidates i)
      (if (role =? pruneUnknown)%Z then kv_add key value (is_Unknown i) else is_Unknown i)
      (hashPruneKV (is_digest i) key value).

Definition inventory_of (i : inventory_scan) : pruneInventory :=
  MkInventory (is_Keep i) (is_Protected i) (is_Candidates i) (is_Unknown i) (keccak256 (is_digest i)).

Definition scanPruneDB {St : Type} (db keep : store) (e : pruneExecution) (schedule : list (list nat)) : M St pruneInventory :=
  '(r, i) ← run_on (walkPruneDifference db keep e schedule (λ record, modify (count_record record))) inventory_start;
  _ ← lift r;
  mret (inventory_of i).

(** ** The deletion *)

(** [len(batch.Dump())] of a batch of deletions, in goleveldb. *)
Context (dump_size : list bytes → Z).

(** The database, the batch with its counter, and the counter of what was
    deleted. *)
Record deletion := MkDeletion {
  de_db : store;
  de_batch : list bytes;
  de_pending : PruneKVCount;
  de_deleted : PruneKVCount;
  de_started : bool
}.

(** [db.Write(batch, Sync)]: atomic, but an error after the write took effect
    is possible. *)
Definition writeBatch : M deletion unit :=
  _ ← io;
  _ ← modify (λ d, MkDeletion (apply_ops (de_db d) (BDelete <$> de_batch d)) (de_batch d) (de_pending d) (de_deleted d) (de_started d));
  io.

Definition kv_plus (a b : PruneKVCount) : PruneKVCount := MkKVCount (add64 (kv_Keys a) (kv_Keys b)) (add64 (kv_Bytes a) (kv_Bytes b)).

Definition flush_deletion : M deletion unit :=
  d ← get;
  if (length (de_batch d) =? 0)%nat then mret () else
  _ ← poll;
  _ ← modify (λ d, MkDeletion (de_db d) (de_batch d) (de_pending d) (de_deleted d) true);
  _ ← wrap "delete prune batch" writeBatch;
  modify (λ d, MkDeletion (de_db d) [] kv_zero (kv_plus (de_deleted d) (de_pending d)) (de_started d)).

Definition delete_record (record : pruneScanRecord) : M deletion unit :=
  if negb (sr_role record =? pruneDelete)%Z then mret () else
  _ ← modify (λ d, MkDeletion (de_db d) (de_batch d ++ [sr_key record]) (kv_add (sr_key record) (sr_value record) (de_pending d))
                     (de_deleted d) (de_started d));
  d ← get;
  if (pruneDeleteBatchKeys <=? length (de_batch d))%nat || (pruneDeleteBatchBytes <=? dump_size (de_batch d))%Z
  then flush_deletion else mret ().

(** The iterator of the walk reads a snapshot of the database. *)
Definition deletePruneDifference (keep : store) (e : pruneExecution) (schedule : list (list nat)) : M deletion unit :=
  db ← gets de_db;
  _ ← walkPruneDifference db keep e schedule delete_record;
  flush_deletion.

Definition deletion_start (db : store) : deletion := MkDeletion db [] kv_zero kv_zero false.

End Pipeline.

Arguments scan : clear implicits.

(** ** Entries of the pipeline *)

(** A record handed to the pipeline: key, value and provisional role. *)
Abbreviation entry := (bytes * bytes * Z)%type.

Section PipelineLemmas.
Context `{Keccak, RawdbKeys, NodeKeys}.

Definition entry_role (e : entry) : Z := classified_role e.2 e.1.1 e.1.2.
Definition entry_size (e : entry) : Z := record_size e.1.1 e.1.2.

(** What the consumer sees of an entry, and whether it is not foreign. *)
Definition seen (e : entry) : pruneScanRecord := MkScanRecord e.1.1 e.1.2 (entry_role e) None false.
Definition entry_ok (e : entry) : Prop := foreign_error (entry_role e) e.1.1 e.1.2 = None.

Definition ring (n first j : nat) : nat := (first + j) mod n.

Lemma ring_inj n first j k : (j < n → k < n → ring n first j = ring n first k → j = k)%nat.
Proof.
  intros Hj Hk He. unfold ring in He.
  pose proof (Nat.div_mod_eq (first + j) n) as Dj. pose proof (Nat.div_mod_eq (first + k) n) as Dk.
  rewrite He in Dj. assert ((first + j) / n = (first + k) / n)%nat; [|nia].
  pose proof (Nat.mod_upper_bound (first + k) n ltac:(lia)).
  destruct (Nat.lt_trichotomy ((first + j) / n) ((first + k) / n)) as [?|[?|?]]; [exfalso; nia|done|exfalso; nia].
Qed.

Lemma ring_lt n first j : (first < n → ring n first j < n)%nat.
Proof. intros. apply Nat.mod_upper_bound. lia. Qed.

Lemma ring_succ n first j : ring n ((first + 1) mod n) j = ring n first (S j).
Proof. unfold ring. rewrite Nat.Div0.add_mod_idemp_l. f_equal. lia. Qed.

Lemma ring_0 n first : (first < n → ring n first 0 = first)%nat.
Proof. intros. unfold ring. rewrite Nat.add_0_r. by apply Nat.mod_small. Qed.

(** [X] is the excuse for a failure; [n] slots, and the byte limit. *)
Context (X : Prop) (n : nat) (limit : Z).

(** The slot [i] holds entry [e], classified unless a worker still has it. *)
Definition slot_holds (p : pruneScanPipeline) (i : nat) (e : entry) : Prop :=
  ∃ r, sp_slots p !! i = Some r ∧ sr_key r = e.1.1 ∧ sr_value r = e.1.2 ∧
    if decide (i ∈ sp_jobs p) then sr_role r = e.2
    else match sr_err r with None => sr_role r = entry_role e ∧ entry_ok e | Some _ => X end.

Definition queue_bytes (q : list entry) : Z := foldr Z.add 0%Z (entry_size <$> q).

(** The ring holds the queue [q] from slot [first] on. *)
Record ring_ok (first : nat) (q : list entry) (p : pruneScanPipeline) : Prop := {
  rg_len : length (sp_slots p) = n;
  rg_limit : sp_limit p = limit;
  rg_first : sp_first p = first;
  rg_first_lt : (first < n)%nat;
  rg_pending : sp_pending p = length q;
  rg_room : (length q ≤ n)%nat;
  rg_bytes : sp_bytes p = queue_bytes q;
  rg_slots j e : q !! j = Some e → slot_holds p (ring n first j) e;
  rg_jobs i : i ∈ sp_jobs p → ∃ j, (j < length q)%nat ∧ i = ring n first j;
  rg_entries : Forall (λ e, entry_ok e ∨ X) q;
  rg_canceled : sp_canceled p = true → X;
  rg_failure : is_Some (sp_failure p) → X
}.

Lemma poll_pipeline_ok f q : triple X (ring_ok f q) poll_pipeline (λ _, ring_ok f q) (λ p, X ∧ ring_ok f q p).
Proof.
  unfold poll_pipeline. eapply triple_bind; [apply (triple_get X _ (λ p p', p' = p ∧ ring_ok f q p)); auto|].
  intros p. destruct (sp_canceled p) eqn:Ec.
  - apply triple_fail. intros s [-> Hr]. split; [by eapply rg_canceled|done].
  - apply triple_poll; [by intros s [-> Hr]|by intros s Hx [-> Hr]].
Qed.

Lemma record_failure_ok f q p e : X → ring_ok f q p →
  ring_ok f q (match sp_failure p with
               | Some _ => p
               | None => MkPipeline (sp_slots p) (sp_first p) (sp_pending p) (sp_bytes p) (sp_limit p) (sp_jobs p) true (Some e) (sp_schedule p)
               end).
Proof. intros Hx Hp. destruct (sp_failure p); [done|]. destruct Hp. by split; auto. Qed.

Lemma pipeline_fail_ok f q err : (is_Some err → X) → triple X (ring_ok f q) (pipeline_fail err) (λ _, ring_ok f q) (λ _, False).
Proof.
  intros Hx. destruct err as [e|]; cbn; [|by apply triple_ret].
  destruct (error_is ECanceled e); [by apply triple_ret|].
  apply triple_modify. intros p Hp. apply record_failure_ok; [by apply Hx|done].
Qed.

Lemma classify_ok p r :
  (sp_canceled p = true → X) → foreign_error (classified_role (sr_role r) (sr_key r) (sr_value r)) (sr_key r) (sr_value r) = None ∨ X →
  triple X (λ s, s = p) (classifyPruneRecord r)
    (λ c s, s = p ∧ sr_key c.1 = sr_key r ∧ sr_value c.1 = sr_value r ∧ sr_err c.1 = sr_err r ∧ sr_done c.1 = sr_done r ∧
       match c.2 with
       | None => sr_role c.1 = classified_role (sr_role r) (sr_key r) (sr_value r) ∧ foreign_error (sr_role c.1) (sr_key r) (sr_value r) = None
       | Some _ => X
       end) (λ _, False).
Proof.
  intros Hc Hf. unfold classifyPruneRecord, poll_pipeline. eapply triple_bind.
  { apply (triple_attempt X _ _ (λ _ s, s = p) (λ s, X ∧ s = p)).
    eapply triple_bind; [by apply (triple_get X _ (λ s' s, s' = p ∧ s = p)); intros ? ->|].
    intros p'. apply triple_pure. intros ->. destruct (sp_canceled p); [by apply triple_fail; auto|by apply triple_poll]. }
  intros [u|e]; apply triple_ret; cbn.
  - intros s ->. do 5 (split; [done|]). destruct (foreign_error _ _ _) eqn:E; [by destruct Hf|done].
  - naive_solver.
Qed.

Lemma ring_ok_done f q p i r err j e :
  ring_ok f q p → q !! j = Some e → i = ring n f j →
  sr_key r = e.1.1 → sr_value r = e.1.2 →
  match err with None => sr_role r = entry_role e ∧ entry_ok e | Some _ => X end →
  ring_ok f q (set_slot_at i (MkScanRecord (sr_key r) (sr_value r) (sr_role r) err true) (set_jobs (filter (λ k, k ≠ i) (sp_jobs p)) p)).
Proof.
  intros Hp Hj Hi Hk Hv Hr. pose proof (lookup_lt_Some _ _ _ Hj) as Hjl. pose proof (rg_room _ _ _ Hp) as Hroom.
  destruct Hp as [Hl Hlim Hf Hfl Hpe Hro Hb Hs Hjo He Hc Hfa]. pose proof (ring_lt n f j Hfl) as Hil.
  split; cbn; rewrite ?length_insert; try done.
  - intros k e' Hke. pose proof (lookup_lt_Some _ _ _ Hke) as Hkl.
    destruct (decide (k = j)) as [->|Hne].
    + rewrite -Hi. rewrite Hj in Hke. injection Hke as <-. eexists. split; [apply list_lookup_insert_eq; by rewrite Hl Hi|]. cbn.
      do 2 (split; [done|]). rewrite decide_False; [|rewrite list_elem_of_filter; tauto]. done.
    + assert (ring n f k ≠ i) as Hn. { rewrite Hi. intros Hr'. apply Hne. eapply ring_inj; [..|exact Hr']; lia. }
      destruct (Hs _ _ Hke) as (r1 & Hr1 & ? & ? & Hd). eexists. split; [by rewrite list_lookup_insert_ne|]. do 2 (split; [done|]).
      cbn. destruct (decide (_ ∈ sp_jobs p)) as [Hin|Hin].
      * rewrite decide_True //. by rewrite list_elem_of_filter.
      * rewrite decide_False //. rewrite list_elem_of_filter. tauto.
  - intros k Hk'. apply list_elem_of_filter in Hk' as [_ Hk']. by apply Hjo.
Qed.

Lemma work_ok f q i : triple X (ring_ok f q) (work i) (λ _ p, ring_ok f q p ∧ i ∉ sp_jobs p) (λ _, False).
Proof.
  unfold work. eapply triple_bind; [apply (triple_get X _ (λ p s, ring_ok f q p ∧ s = p)); auto|]. intros p. apply triple_pure. intros Hp.
  case_bool_decide as Hi; cbn; [|by apply triple_ret; intros s ->].
  destruct (rg_jobs _ _ _ Hp i Hi) as (j & Hj & Hij). destruct (lookup_lt_is_Some_2 q j Hj) as [e He].
  destruct (rg_slots _ _ _ Hp j e He) as (r & Hr & Hk & Hv & Hd). rewrite -Hij in Hr Hd. rewrite decide_True // in Hd.
  assert (sp_slot i p = r) as Hsl by by apply list_lookup_total_correct.
  set (p1 := set_jobs (filter (λ j, j ≠ i) (sp_jobs p)) p).
  eapply triple_bind; [apply (triple_modify X _ _ (λ _ s, s = p1)); by intros s ->|]. intros ?.
  eapply triple_bind.
  { rewrite Hsl. apply (classify_ok p1 r); [by apply Hp|]. rewrite Hk Hv Hd.
    by apply (proj1 (Forall_lookup _ _) (rg_entries _ _ _ Hp) j). }
  intros [r' err]. cbn. rewrite Hk Hv Hd.
  eapply triple_bind; [apply (triple_modify X _ _ (λ _ s, (is_Some err → X) ∧ ring_ok f q s ∧ i ∉ sp_jobs s))|].
  { intros s (-> & Hk' & Hv' & _ & _ & Hm). split; [destruct err; [done|by intros [? ?]]|]. split; [|rewrite list_elem_of_filter; tauto].
    eapply ring_ok_done; [done..|]. destruct err; [done|]. destruct Hm as [-> Hm]. done. }
  intros ?. apply triple_pure. intros Hx. unfold pipeline_fail. destruct err as [er|]; [|by apply triple_ret].
  destruct (error_is ECanceled er); [by apply triple_ret|]. apply triple_modify. intros s [Hs Hns].
  split; [apply record_failure_ok; [by apply Hx|done]|by destruct (sp_failure s)].
Qed.

Lemma workers_run_ok f q : triple X (ring_ok f q) workers_run (λ _, ring_ok f q) (λ _, False).
Proof.
  unfold workers_run. eapply triple_bind; [apply (triple_get X _ (λ p s, ring_ok f q p ∧ s = p)); auto|]. intros p.
  apply triple_pure. intros Hp. destruct (sp_schedule p) as [|slots schedule]; [by apply triple_ret; intros s ->|].
  eapply triple_bind; [apply (triple_modify X _ _ (λ _, ring_ok f q)); intros s ->; by destruct Hp; split|]. intros ?.
  apply triple_for_each. intros i _. eapply triple_post; [apply work_ok|]. by intros ? s [? _].
Qed.

(** After waiting, the first slot is classified and its token taken. *)
Definition first_seen (e : entry) (r : pruneScanRecord) : Prop :=
  sr_key r = e.1.1 ∧ sr_value r = e.1.2 ∧ match sr_err r with None => r = seen e ∧ entry_ok e | Some _ => X end.

Lemma await_slot_ok f e q :
  triple X (ring_ok f (e :: q)) (await_slot f) (λ _ p, first_seen e (sp_slot f p) ∧ (f ∉ sp_jobs p) ∧ ring_ok f (e :: q) p) (λ _, False).
Proof.
  unfold await_slot. eapply triple_bind; [apply workers_run_ok|]. intros ?.
  eapply triple_bind; [apply work_ok|]. intros ?. apply triple_modify. intros p [Hp Hj]. cbn.
  destruct (rg_slots _ _ _ Hp 0%nat e eq_refl) as (r & Hr & Hk & Hv & Hd).
  rewrite ring_0 in Hr, Hd; [|by eapply rg_first_lt]. rewrite decide_False // in Hd.
  assert (sp_slot f p = r) as Hsl by by apply list_lookup_total_correct.
  assert (sp_slot f (set_slot_at f (take_done (sp_slot f p)) p) = take_done r) as Hsl'.
  { unfold sp_slot at 1. cbn. rewrite list_lookup_total_insert_eq; [by rewrite Hsl|]. by apply lookup_lt_Some in Hr. }
  rewrite Hsl'. split; [|split; [done|]].
  - unfold first_seen. cbn. do 2 (split; [done|]). destruct (sr_err r) eqn:Er; [done|]. destruct Hd as [Hd ?].
    split; [|done]. unfold take_done, seen. by rewrite Hk Hv Hd Er.
  - rewrite Hsl. destruct Hp as [Hl Hlim Hf Hfl Hpe Hro Hb Hs Hjo He Hc Hfa]. split; cbn; rewrite ?length_insert; try done.
    intros j e' Hj'. destruct (Hs j e' Hj') as (r1 & Hr1 & Hk1 & Hv1 & Hd1). destruct (decide (ring n f j = f)) as [He'|He'].
    + rewrite He' in Hr1 Hd1. rewrite Hr in Hr1. injection Hr1 as <-. eexists. rewrite He'. split; [apply list_lookup_insert_eq; lia|].
      cbn. rewrite decide_False // in Hd1. by rewrite decide_False.
    + eexists. split; [by rewrite list_lookup_insert_ne|]. done.
Qed.

Lemma release_first_ok f e q p :
  f ∉ sp_jobs p → sr_key (sp_slot f p) = e.1.1 → sr_value (sp_slot f p) = e.1.2 →
  ring_ok f (e :: q) p → ring_ok ((f + 1) mod n) q (release_first p).
Proof.
  intros Hj Hk Hv [Hl Hlim Hf Hfl Hpe Hro Hb Hs Hjo He Hc Hfa]. apply Forall_cons in He as [_ He].
  cbn in Hpe, Hro. subst f. split; cbn; rewrite ?length_insert ?Hl; try done.
  - apply Nat.mod_upper_bound. lia.
  - lia.
  - lia.
  - rewrite Hb Hk Hv. unfold queue_bytes. cbn. rewrite /entry_size /record_size. lia.
  - intros j e' Hj'. rewrite ring_succ. destruct (Hs (S j) e' Hj') as (r & Hr & Hrest). exists r. split; [|done].
    rewrite list_lookup_insert_ne; [done|]. intros Heq. apply (f_equal S) in Heq. assert (0 = S j)%nat; [|done].
    apply (ring_inj n (sp_first p)); [lia|apply lookup_lt_Some in Hj'; lia|rewrite ring_0; [lia|done]].
  - intros i Hi. destruct (Hjo i Hi) as (j & Hjl & Hij). cbn in Hjl. destruct j as [|j].
    + rewrite ring_0 // in Hij. by subst i.
    + exists j. split; [lia|]. by rewrite ring_succ.
Qed.

End PipelineLemmas.

(** ** The consumer sees the entries in order *)

Section ConsumerLemmas.
Context `{Keccak, RawdbKeys, NodeKeys}.
Context (X : Prop) (n : nat) (limit : Z).
Context {C : Type} (consume : pruneScanRecord → M C unit) (u0 : C) (all : list entry).

(** In a calm environment the consumer fails only with an excuse. *)
Hypothesis consume_excused : ∀ r u w res u' w',
  excused X w → consume r u w = (res, u', w') → excused X w' ∧ (is_Some (outcome res) → X).

Definition consumed (e : entry) (u u' : C) : Prop := ∃ w w', consume (seen e) u w = (Ok (), u', w').

(** The consumer accepted the entries [done]. *)
Definition progress (done : list entry) (u : C) : Prop := steps consumed done u0 u ∧ Forall entry_ok done.

(** A walk that failed: the consumer accepted a prefix of the entries, and it
    may have failed on the next one. *)
Definition stopped (u : C) : Prop :=
  ∃ done rest, all = done ++ rest ∧
    (progress done u ∨ ∃ e rest' u1 w err w', rest = e :: rest' ∧ progress done u1 ∧ entry_ok e ∧ consume (seen e) u1 w = (Err err, u, w')).

Definition halted (s : scan C) : Prop := X ∧ stopped (sc_user s).

Lemma progress_snoc done e u u' : progress done u → entry_ok e → consumed e u u' → progress (done ++ [e]) u'.
Proof.
  intros [Hs Hf] He Hc. split; [|apply Forall_app; auto]. clear Hf. revert Hs. generalize u0. intros v Hs.
  induction Hs; cbn; [eapply steps_cons; [exact Hc|constructor]|eapply steps_cons; eauto].
Qed.

Lemma on_pipe_frame {A} (P : pruneScanPipeline → Prop) (m : M pruneScanPipeline A) Q E (U : C → Prop) :
  triple X P m Q E → (∀ p, E p → X) → (∀ u, U u → stopped u) →
  triple X (λ s, P (sc_pipe s) ∧ U (sc_user s)) (on_pipe m) (λ a s, Q a (sc_pipe s) ∧ U (sc_user s)) halted.
Proof.
  intros Hm HE HU s w r s' w' Hw [HP Hu]. unfold on_pipe, zoom. destruct (m (sc_pipe s) w) as [[r1 p1] w1] eqn:Em. intros [= <- <- <-].
  destruct (Hm _ _ _ _ _ Hw HP Em) as [Hw1 Hp]. split; [done|]. destruct r1; cbn; [done|]. split; [by eapply HE|auto].
Qed.

(** After a failure the pipeline no longer matters. *)
Lemma on_pipe_halted {A} (m : M pruneScanPipeline A) : triple X halted (on_pipe m) (λ _, halted) halted.
Proof.
  intros s w r s' w' Hw [Hx Hs]. unfold on_pipe, zoom. destruct (m (sc_pipe s) w) as [[r1 p1] w1] eqn:Em. intros [= <- <- <-].
  split; [by left|]. by destruct r1.
Qed.

Lemma progress_stopped done rest u : all = done ++ rest → progress done u → stopped u.
Proof. intros Ha Hu. exists done, rest. auto. Qed.

(** Handing an entry to the consumer. *)
Lemma pipe_consume_ok (P : pruneScanPipeline → Prop) done rest e :
  entry_ok e → all = done ++ e :: rest →
  triple X (λ s, P (sc_pipe s) ∧ progress done (sc_user s)) (on_user (consume_checked consume (seen e)))
    (λ _ s, P (sc_pipe s) ∧ progress (done ++ [e]) (sc_user s)) halted.
Proof.
  intros He Ha s w r s' w' Hw [Hr Hu]. unfold on_user, zoom, consume_checked, mbind, M_bind.
  destruct (poll (sc_user s) w) as [[[[]|e1] u1] w1] eqn:Ep; pose proof (poll_state _ _ _ _ _ Ep) as ->;
    destruct (triple_poll X (λ _ : C, True) (λ _ _, True) (λ _, X) (λ _ _, I) (λ _ Hx _, Hx) _ _ _ _ _ Hw I Ep) as [Hw1 Hx].
  - destruct (consume (seen e) (sc_user s) w1) as [[[[]|e2] u2] w2] eqn:Ec; intros [= <- <- <-];
      destruct (consume_excused _ _ _ _ _ _ Hw1 Ec) as [Hw2 Hx2]; (split; [done|]); cbn.
    + split; [done|]. eapply progress_snoc; [done..|]. by exists w1, w2.
    + split; [by apply Hx2|]. exists done, (e :: rest). split; [done|]. right. by exists e, rest, (sc_user s), w1, e2, w2.
  - intros [= <- <- <-]. split; [done|]. split; [done|]. by eapply progress_stopped.
Qed.

(** ** The coordinator *)

(** [q] is in the ring from [f] on and [done] was consumed. *)
Definition holding (f : nat) (q done : list entry) (s : scan C) : Prop := ring_ok X n limit f q (sc_pipe s) ∧ progress done (sc_user s).
Definition walking (q done : list entry) (s : scan C) : Prop := ∃ f, holding f q done s.

Lemma poll_pipe_ok f q done rest : all = done ++ rest → triple X (holding f q done) (on_pipe poll_pipeline) (λ _, holding f q done) halted.
Proof.
  intros Ha. apply (on_pipe_frame (ring_ok X n limit f q) _ (λ _, ring_ok X n limit f q) (λ p, X ∧ ring_ok X n limit f q p) (progress done)); [apply poll_pipeline_ok|by intros p [? _]|].
  intros u. by eapply progress_stopped.
Qed.

Lemma workers_ok f q done rest : all = done ++ rest → triple X (holding f q done) (on_pipe workers_run) (λ _, holding f q done) halted.
Proof.
  intros Ha. apply (on_pipe_frame (ring_ok X n limit f q) _ (λ _, ring_ok X n limit f q) (λ _, False) (progress done)); [apply workers_run_ok|done|]. intros u. by eapply progress_stopped.
Qed.

Lemma drainOne_ok done e q todo :
  all = done ++ (e :: q) ++ todo → triple X (walking (e :: q) done) (drainOne consume) (λ _, walking q (done ++ [e])) halted.
Proof.
  intros Ha. apply triple_ex. intros f. unfold drainOne.
  assert (∀ u, progress done u → stopped u) as Hst by (intros u; by eapply progress_stopped).
  set (held p := ring_ok X n limit f (e :: q) p).
  eapply triple_bind.
  { apply (on_pipe_frame held _ (λ a p, a = f ∧ held p) (λ _, False) (progress done)); [|done..].
    apply triple_gets. intros p Hp. by rewrite (rg_first _ _ _ _ _ _ Hp). }
  intros f'. apply (triple_pre X (λ s, f' = f ∧ held (sc_pipe s) ∧ progress done (sc_user s))); [|by intros s [[? ?] ?]].
  apply triple_pure. intros ->.
  set (ready p := first_seen X e (sp_slot f p) ∧ (f ∉ sp_jobs p) ∧ held p).
  eapply triple_bind; [apply (on_pipe_frame held _ (λ _, ready) (λ _, False) (progress done)); [apply await_slot_ok|done..]|]. intros ?.
  eapply triple_bind.
  { apply (on_pipe_frame ready _ (λ r p, (r = sp_slot f p ∧ first_seen X e r) ∧ ready p) (λ _, False) (progress done)); [|done..].
    apply triple_gets. by intros p [? ?]. }
  intros r. apply (triple_pre X (λ s, first_seen X e r ∧ (r = sp_slot f (sc_pipe s) ∧ ready (sc_pipe s)) ∧ progress done (sc_user s)));
    [|naive_solver]. apply triple_pure. intros (Hk & Hv & Hr).
  set (kept p := sr_key (sp_slot f p) = e.1.1 ∧ sr_value (sp_slot f p) = e.1.2 ∧ (f ∉ sp_jobs p) ∧ held p).
  eapply triple_bind.
  { apply (triple_attempt X _ _ (λ _ s, kept (sc_pipe s) ∧ progress (done ++ [e]) (sc_user s)) halted).
    destruct (sr_err r) eqn:Er; [apply triple_fail; intros s [_ Hu]; split; [done|auto]|]. destruct Hr as [-> He].
    eapply triple_bind; [|intros ?; apply (pipe_consume_ok kept done (q ++ todo) e He Ha)].
    apply (on_pipe_frame (λ p, seen e = sp_slot f p ∧ ready p) _ (λ _, kept) (λ _, X) (progress done)); [|done..]. unfold poll_pipeline.
    eapply triple_bind; [apply (triple_get X _ (λ p s, kept p ∧ s = p))|].
    { intros s [Hs (_ & ? & ?)]. split; [|done]. split; [by rewrite -Hs|]. split; [by rewrite -Hs|done]. }
    intros p. apply triple_pure. intros Hkp. destruct (sp_canceled p) eqn:Ec.
    - apply triple_fail. intros s ->. destruct Hkp as (_ & _ & _ & Hp). by eapply rg_canceled.
    - apply triple_poll; [by intros s ->|done]. }
  assert (∀ u, progress (done ++ [e]) u → stopped u) as Hst' by (intros u; eapply progress_stopped; by rewrite Ha -app_assoc).
  intros [[]|err]; cbn [outcome].
  - eapply triple_bind; [apply (on_pipe_frame kept _ (λ _, kept) (λ _, False) (progress (done ++ [e]))); [by apply triple_ret|done..]|].
    intros ?. eapply triple_bind.
    { apply (on_pipe_frame kept _ (λ _, ring_ok X n limit ((f + 1) mod n) q) (λ _, False) (progress (done ++ [e]))); [|done..].
      apply triple_modify. intros p (? & ? & ? & ?). by eapply release_first_ok. }
    intros ?. apply triple_lift. intros s Hs. by exists ((f + 1) mod n)%nat.
  - eapply triple_bind; [apply on_pipe_halted|]. intros ?. eapply triple_bind; [apply on_pipe_halted|]. intros ?. by apply triple_lift.
Qed.

Lemma drain_loop_ok fuel done q todo :
  all = done ++ q ++ todo → (length q ≤ fuel)%nat →
  triple X (walking q done) (drain_loop consume fuel) (λ _, walking [] (done ++ q)) halted.
Proof.
  revert done q. induction fuel as [|fuel IH]; intros done q Ha Hl; cbn [drain_loop].
  - destruct q; [|cbn in Hl; lia]. rewrite app_nil_r. by apply triple_ret.
  - apply triple_ex. intros f. eapply triple_bind.
    { apply (on_pipe_frame (ring_ok X n limit f q) _ (λ a p, a = length q ∧ ring_ok X n limit f q p) (λ _, False) (progress done)); [|done|].
      - apply triple_gets. intros p Hp. split; [by apply Hp|done].
      - intros u. by eapply progress_stopped. }
    intros pending. apply (triple_pre X (λ s, pending = length q ∧ walking q done s)); [|intros s [[-> ?] ?]; split; [done|by exists f]].
    apply triple_pure. intros ->. destruct q as [|e q]; cbn [length Nat.eqb].
    + apply triple_ret. intros s Hs. by rewrite app_nil_r.
    + eapply triple_bind; [by apply (drainOne_ok done e q todo)|]. intros ?.
      apply triple_post with (Q:=λ _, walking [] ((done ++ [e]) ++ q)); [|by rewrite -app_assoc].
      apply IH; [by rewrite Ha -!app_assoc|cbn in Hl; lia].
Qed.

Lemma pipe_drain_ok done q todo :
  all = done ++ q ++ todo → triple X (walking q done) (drain consume) (λ _, walking [] (done ++ q)) halted.
Proof.
  intros Ha. unfold drain. apply triple_ex. intros f. eapply triple_bind.
  { apply (on_pipe_frame (ring_ok X n limit f q) _ (λ a p, a = length q ∧ ring_ok X n limit f q p) (λ _, False) (progress done)); [|done|].
    - apply triple_gets. intros p Hp. split; [by apply Hp|done].
    - intros u. by eapply progress_stopped. }
  intros pending. apply (triple_pre X (λ s, pending = length q ∧ walking q done s)); [|intros s [[-> ?] ?]; split; [done|by exists f]].
  apply triple_pure. intros ->. eapply triple_bind; [by eapply drain_loop_ok|]. intros ?.
  apply triple_ex. intros f'. rewrite app_assoc in Ha.
  eapply triple_bind; [by eapply workers_ok|]. intros ?.
  eapply triple_post; [by eapply poll_pipe_ok|]. intros ? s Hs. by exists f'.
Qed.

Lemma consumeDirect_ok done e todo :
  all = done ++ e :: todo → entry_ok e ∨ X →
  triple X (walking [] done) (consumeDirect consume e.1.1 e.1.2 e.2) (λ _, walking [] (done ++ [e])) halted.
Proof.
  intros Ha He. apply triple_ex. intros f. unfold consumeDirect.
  assert (∀ u, progress done u → stopped u) as Hst by (intros u; by eapply progress_stopped).
  eapply triple_bind.
  { apply (on_pipe_frame (ring_ok X n limit f []) _
      (λ c p, ring_ok X n limit f [] p ∧ match c.2 with None => c.1 = seen e ∧ entry_ok e | Some _ => X end) (λ _, False) (progress done)); [|done..].
    intros p w r p' w' Hw Hp Hrun.
    destruct (classify_ok X p (MkScanRecord e.1.1 e.1.2 e.2 None false) (rg_canceled _ _ _ _ _ _ Hp) He p w r p' w' Hw eq_refl Hrun) as [Hw' Hr].
    split; [done|]. destruct r as [[r' [er|]]|]; [by destruct Hr as (-> & _ & _ & _ & _ & ?)| |done].
    destruct Hr as (-> & Hk & Hv & Her & Hdn & Hro & Hfo). split; [done|]. cbn in *. split; [|by rewrite /entry_ok /entry_role -Hro].
    unfold seen, entry_role. destruct r'; cbn in *. by subst. }
  intros [r' [er|]]; cbn.
  - apply triple_fail. intros s [[_ Hx] Hu]. split; [done|auto].
  - apply (triple_pre X (λ s, (r' = seen e ∧ entry_ok e) ∧ holding f [] done s)); [|unfold holding; naive_solver]. apply triple_pure. intros [-> Hok].
    eapply triple_bind; [by eapply poll_pipe_ok|]. intros ?.
    eapply triple_post; [by apply (pipe_consume_ok (ring_ok X n limit f []) done todo e)|]. intros ? s Hs. by exists f.
Qed.

Lemma must_wait_room f q p size :
  ring_ok X n limit f q p → (size ≤ limit)%Z → must_wait size p = true → q ≠ [].
Proof.
  intros Hp Hs. unfold must_wait. rewrite (rg_pending _ _ _ _ _ _ Hp) (rg_len _ _ _ _ _ _ Hp) (rg_limit _ _ _ _ _ _ Hp) (rg_bytes _ _ _ _ _ _ Hp).
  pose proof (rg_first_lt _ _ _ _ _ _ Hp). intros Hm ->. apply orb_true_iff in Hm as [Hm%Nat.eqb_eq|Hm%Z.ltb_lt]; cbn in Hm; lia.
Qed.

(** Room is found: the wait ends with a free slot and enough bytes. *)
Lemma make_room_ok size fuel done q todo :
  all = done ++ q ++ todo → (size ≤ limit)%Z → (length q < fuel)%nat →
  triple X (walking q done) (make_room consume size fuel)
    (λ _ s, ∃ q1 q2, q = q1 ++ q2 ∧ walking q2 (done ++ q1) s ∧ must_wait size (sc_pipe s) = false) halted.
Proof.
  revert done q. induction fuel as [|fuel IH]; intros done q Ha Hs Hl; [lia|]. cbn [make_room]. apply triple_ex. intros f. eapply triple_bind.
  { apply (on_pipe_frame (ring_ok X n limit f q) _ (λ a p, a = p ∧ ring_ok X n limit f q p) (λ _, False) (progress done)); [by apply triple_get|done|].
    intros u. by eapply progress_stopped. }
  intros p. destruct (must_wait size p) eqn:Em.
  - apply (triple_pre X (λ s, q ≠ [] ∧ walking q done s)).
    2:{ intros s [[-> Hp] Hu]. split; [by eapply must_wait_room|by exists f]. }
    apply triple_pure. intros Hq. destruct q as [|e q]; [done|].
    eapply triple_bind; [by apply (drainOne_ok done e q todo)|]. intros ?.
    eapply triple_post; [apply (IH (done ++ [e]) q); [by rewrite Ha -!app_assoc|done|cbn in Hl; lia]|].
    intros ? s (q1 & q2 & -> & Hw & Hm). exists (e :: q1), q2. by rewrite -app_assoc in Hw.
  - apply triple_ret. intros s [[-> Hp] Hu]. exists [], q. split; [done|]. rewrite app_nil_r. split; [by exists f|done].
Qed.

Lemma queue_bytes_snoc q e : queue_bytes (q ++ [e]) = (queue_bytes q + entry_size e)%Z.
Proof. unfold queue_bytes. induction q as [|x q IH]; cbn; [lia|]. cbn in IH. rewrite IH. lia. Qed.

Lemma enqueue_ok f q p e :
  ring_ok X n limit f q p → (length q < n)%nat → entry_ok e ∨ X →
  ring_ok X n limit f (q ++ [e]) (enqueue e.1.1 e.1.2 e.2 p).
Proof.
  intros Hp Hq He. destruct Hp as [Hl Hlim Hf Hfl Hpe Hro Hb Hs Hjo Hen Hc Hfa].
  assert ((sp_first p + sp_pending p) mod length (sp_slots p) = ring n f (length q))%nat as Hi by by rewrite Hl Hf Hpe.
  pose proof (ring_lt n f (length q) Hfl). unfold enqueue. rewrite Hi.
  split; cbn; rewrite ?length_insert ?length_app /=; try done; try lia.
  - rewrite Hb queue_bytes_snoc. done.
  - intros j e' Hj. destruct (decide (j = length q)) as [->|Hne].
    + rewrite lookup_app_r // Nat.sub_diag in Hj. injection Hj as <-. eexists. split; [apply list_lookup_insert_eq; lia|]. cbn.
      do 2 (split; [done|]). rewrite decide_True //. apply elem_of_app. right. by left.
    + pose proof (lookup_lt_Some _ _ _ Hj) as Hjl. rewrite length_app /= in Hjl. rewrite lookup_app_l in Hj; [|lia].
      destruct (Hs j e' Hj) as (r & Hr & ? & ? & Hd).
      assert (ring n f j ≠ ring n f (length q)) as Hn. { intros Heq. apply Hne. eapply ring_inj; [..|exact Heq]; lia. }
      eexists. split; [by rewrite list_lookup_insert_ne|]. do 2 (split; [done|]). cbn. destruct (decide (_ ∈ sp_jobs p)) as [Hin|Hin].
      * rewrite decide_True //. apply elem_of_app. by left.
      * rewrite decide_False // elem_of_app list_elem_of_singleton. tauto.
  - intros i Hi'. apply elem_of_app in Hi' as [Hi'|Hi'].
    + destruct (Hjo i Hi') as (j & ? & ->). exists j. split; [lia|done].
    + apply list_elem_of_singleton in Hi' as ->. exists (length q). split; [lia|done].
  - apply Forall_app. auto.
Qed.

Lemma push_ok done q e todo :
  all = done ++ q ++ e :: todo → entry_ok e ∨ X →
  triple X (walking q done) (push consume e.1.1 e.1.2 e.2)
    (λ _ s, ∃ done' q', done' ++ q' = done ++ q ++ [e] ∧ walking q' done' s) halted.
Proof.
  intros Ha He. apply triple_ex. intros f. unfold push.
  eapply triple_bind; [by eapply workers_ok|]. intros ?. eapply triple_bind; [by eapply poll_pipe_ok|]. intros ?.
  eapply triple_bind.
  { apply (on_pipe_frame (ring_ok X n limit f q) _ (λ a p, (sp_limit a = limit ∧ sp_pending a = length q) ∧ ring_ok X n limit f q p) (λ _, False) (progress done)); [|done|].
    - apply triple_get. intros p Hp. split; [split; apply Hp|done].
    - intros u. by eapply progress_stopped. }
  intros p. apply (triple_pre X (λ s, (sp_limit p = limit ∧ sp_pending p = length q) ∧ walking q done s)); [|unfold walking, holding; naive_solver].
  apply triple_pure. intros [-> ->]. destruct (_ || _) eqn:Ed.
  - eapply triple_bind; [by eapply pipe_drain_ok|]. intros ?.
    eapply triple_post; [apply (consumeDirect_ok (done ++ q) e todo); [by rewrite -app_assoc|done]|].
    intros ? s Hs. exists ((done ++ q) ++ [e]), []. split; [by rewrite app_nil_r -app_assoc|done].
  - apply orb_false_iff in Ed as [Ed%Z.ltb_ge _].
    eapply triple_bind; [apply (make_room_ok _ _ done q (e :: todo)); [done..|lia]|]. intros ?.
    apply triple_ex. intros q1. apply triple_ex. intros q2. apply triple_pure. intros ->.
    intros s w r s' w' Hw [[f' [Hp Hu]] Hm]. cbn. intros [= <- <- <-]. split; [done|]. exists (done ++ q1), (q2 ++ [e]).
    split; [by rewrite -!app_assoc|]. exists f'. split; [|done]. apply enqueue_ok; [done| |done].
    unfold must_wait in Hm. apply orb_false_iff in Hm as [Hm%Nat.eqb_neq _].
    pose proof (rg_room _ _ _ _ _ _ Hp). rewrite (rg_pending _ _ _ _ _ _ Hp) (rg_len _ _ _ _ _ _ Hp) in Hm. lia.
Qed.

(** ** The merge *)

Definition other_role (key : bytes) : Z := if (length key =? HashLength)%nat then pruneUnclassified else pruneProtect.

(** The entries of a source beside a keep list, up to the first conflict, and
    whether every record of the keep list is met in the source. *)
Fixpoint merge_roles (keep source : list (bytes * bytes)) : list entry :=
  match source with
  | [] => []
  | (k, v) :: source' =>
      match keep with
      | (kk, kv) :: keep' =>
          match bytes_compare k kk with
          | Gt => []
          | Eq => if decide (kv = v) then (k, v, pruneRetainState) :: merge_roles keep' source' else []
          | Lt => (k, v, other_role k) :: merge_roles keep source'
          end
      | [] => (k, v, other_role k) :: merge_roles [] source'
      end
  end.

Fixpoint merges (keep source : list (bytes * bytes)) : Prop :=
  match source with
  | [] => keep = []
  | (k, v) :: source' =>
      match keep with
      | [] => True
      | (kk, kv) :: keep' =>
          match bytes_compare k kk with
          | Gt => False
          | Eq => kv = v ∧ merges keep' source'
          | Lt => merges keep source'
          end
      end
  end.

(** The cursor stands before the records [keep]. *)
Definition cursor_at (keep : list (bytes * bytes)) (m : pruneMergeCursor) : Prop :=
  keep = option_list (mc_current m) ++ mc_rest m ∧ (mc_current m = None → mc_rest m = []).

Lemma mc_advance_ok (P : scan C → Prop) m :
  (∀ s, P s → stopped (sc_user s)) → triple X P (mc_advance m) (λ m' s, cursor_at (mc_rest m) m' ∧ P s) halted.
Proof.
  intros HP. unfold mc_advance. eapply triple_bind; [apply (triple_io X P (λ _, P)); [done|]|].
  - intros s Hx Hs. split; [done|auto].
  - intros ?. destruct (mc_rest m) as [|kv rest]; by apply triple_ret.
Qed.

Lemma mc_role_ok (P : scan C → Prop) m keep k v source :
  cursor_at keep m → merges keep ((k, v) :: source) ∨ X → (∀ s, P s → stopped (sc_user s)) →
  triple X P (mc_role m k v)
    (λ c s, (∃ keep', merge_roles keep ((k, v) :: source) = (k, v, c.1) :: merge_roles keep' source ∧ cursor_at keep' c.2 ∧
              (merges keep' source ∨ X) ∧ (merges keep' source → merges keep ((k, v) :: source))) ∧ P s) halted.
Proof.
  intros [Hk Hn] Hm HP. unfold mc_role. destruct (mc_current m) as [[kk kv]|] eqn:Ec.
  - cbn in Hk. subst keep. cbn [merge_roles merges] in *. destruct (bytes_compare k kk) eqn:Eb.
    + apply bytes_compare_eq in Eb as ->. unfold comparePruneValue.
      eapply triple_bind; [apply (triple_lift X _ P (λ _ s, kv = v ∧ P s))|].
      { intros s Hs. unfold reject_if, bytes_equal. case_bool_decide as Hv; cbn; [done|]. destruct Hm as [[? _]|Hx]; [done|]. split; [done|auto]. }
      intros ?. apply triple_pure. intros ->. eapply triple_bind; [by apply mc_advance_ok|]. intros m'. apply triple_pure. intros Hc.
      apply triple_ret. intros s Hs. split; [|done]. exists (mc_rest m). rewrite decide_True //. cbn. split; [done|]. split; [done|]. tauto.
    + apply triple_ret. intros s Hs. split; [|done]. exists ((kk, kv) :: mc_rest m). cbn.
      split; [done|]. split; [|done]. split; [by rewrite Ec|by rewrite Ec].
    + apply triple_fail. intros s Hs. destruct Hm as [[]|Hx]. split; [done|auto].
  - apply triple_ret. intros s Hs. split; [|done]. rewrite Hn // in Hk. cbn in Hk. subst keep. cbn. exists []. split; [done|].
    split; [by split; rewrite ?Ec ?Hn|]. split; [|done]. left. by destruct source as [|[??] ?].
Qed.

Lemma walk_source_ok source keep m done q :
  cursor_at keep m → all = done ++ q ++ merge_roles keep source → merges keep source ∨ X →
  Forall (λ e, entry_ok e ∨ X) (merge_roles keep source) →
  triple X (walking q done) (walk_source consume source m) (λ _ s, merges keep source ∧ walking [] all s) halted.
Proof.
  revert keep m done q. induction source as [|[k v] source IH]; intros keep m done q Hc Ha Hm Hf.
  - cbn [walk_source merge_roles merges] in *. assert (∀ s, walking q done s → stopped (sc_user s)) as Hst.
    { intros s (f & _ & Hu). by eapply progress_stopped. }
    eapply triple_bind; [apply triple_wrap, (triple_io X (walking q done) (λ _, walking q done)); [done|intros s Hx Hs; split; [done|auto]]|].
    intros ?. destruct Hc as [Hk Hn]. destruct (mc_current m) as [kv|] eqn:Ec.
    + apply triple_fail. intros s Hs. cbn in Hk. destruct Hm as [->|Hx]; [done|]. split; [done|auto].
    + rewrite Hn // in Hk. cbn in Hk. subst keep. rewrite app_nil_r in Ha. eapply triple_post; [apply (pipe_drain_ok done q []); by rewrite app_nil_r|].
      intros ? s Hs. split; [done|]. by rewrite Ha.
  - cbn [walk_source]. assert (∀ s, walking q done s → stopped (sc_user s)) as Hst.
    { intros s (f & _ & Hu). by eapply progress_stopped. }
    eapply triple_bind; [apply triple_wrap, (triple_io X (walking q done) (λ _, walking q done)); [done|intros s Hx Hs; split; [done|auto]]|].
    intros ?. eapply triple_bind; [by apply (mc_role_ok (walking q done) m keep k v source)|]. intros [role m']. cbn [fst snd].
    apply triple_pure. intros (keep' & He & Hc' & Hm' & Hmm). rewrite He in Ha Hf. apply Forall_cons in Hf as [Hok Hf].
    eapply triple_bind; [by apply (push_ok done q (k, v, role) (merge_roles keep' source))|]. intros ?.
    apply triple_ex. intros done'. apply triple_ex. intros q'. apply triple_pure. intros Hq.
    eapply triple_post; [apply (IH keep' m' done' q'); [done| |done|done]|].
    + rewrite app_assoc Hq Ha -!app_assoc. done.
    + intros ? s [? ?]. split; [auto|done].
Qed.

End ConsumerLemmas.

(** ** The merge on databases *)

Section MergeLemmas.
Context `{Keccak, RawdbKeys, NodeKeys}.

(** The provisional role the keep set gives a key. *)
Definition entry_in (keep : list (bytes * bytes)) (kv : bytes * bytes) : entry :=
  (kv.1, kv.2, if decide (kv.1 ∈ keep.*1) then pruneRetainState else other_role kv.1).
Definition entry_of (keep : store) (kv : bytes * bytes) : entry :=
  (kv.1, kv.2, match keep !! kv.1 with Some _ => pruneRetainState | None => other_role kv.1 end).

Lemma entry_in_skip kk vv keep kv : kv.1 ≠ kk → entry_in ((kk, vv) :: keep) kv = entry_in keep kv.
Proof.
  intros Hne. unfold entry_in. cbn. destruct (decide (kv.1 ∈ keep.*1)) as [Hin|Hin].
  - rewrite decide_True //. by right.
  - rewrite decide_False //. rewrite elem_of_cons. tauto.
Qed.

Lemma sorted_above (R : bytes → bytes → Prop) k v (l : list (bytes * bytes)) kv :
  StronglySorted R (((k, v) :: l).*1) → kv ∈ l → R k kv.1.
Proof. intros [_ Hf]%StronglySorted_inv Hin. rewrite Forall_forall in Hf. by apply Hf, list_elem_of_fmap_2. Qed.

Lemma below_not_in k (l : list (bytes * bytes)) : StronglySorted bytes_lt l.*1 → (∀ kk vv l', l = (kk, vv) :: l' → bytes_lt k kk) → k ∉ l.*1.
Proof.
  intros Hs Hb Hin. destruct l as [|[kk vv] l]; [by apply elem_of_nil in Hin|].
  specialize (Hb _ _ _ eq_refl). cbn in Hin. apply elem_of_cons in Hin as [->|Hin]; [by apply bytes_lt_irrefl in Hb|].
  apply StronglySorted_inv in Hs as [_ Hf]. rewrite Forall_forall in Hf. specialize (Hf _ Hin).
  eapply bytes_lt_irrefl, (transitivity Hb Hf).
Qed.

Lemma entry_in_tail kk vv keep k v source :
  StronglySorted bytes_lt ((k, v) :: source).*1 → k = kk → entry_in ((kk, vv) :: keep) <$> source = entry_in keep <$> source.
Proof.
  intros Hs ->. apply list_fmap_ext. intros i kv Hkv. apply entry_in_skip. intros Heq.
  apply list_elem_of_lookup_2 in Hkv. pose proof (sorted_above bytes_lt _ v source kv Hs Hkv) as Hlt. rewrite Heq in Hlt.
  by apply bytes_lt_irrefl in Hlt.
Qed.

Lemma merge_roles_prefix keep source :
  StronglySorted bytes_lt keep.*1 → StronglySorted bytes_lt source.*1 → merge_roles keep source `prefix_of` (entry_in keep <$> source).
Proof.
  revert keep. induction source as [|[k v] source IH]; intros keep Hk Hs; [done|].
  pose proof (StronglySorted_inv Hs) as [Hs' _]. cbn [merge_roles fmap list_fmap]. destruct keep as [|[kk kv] keep].
  - apply prefix_cons. by apply IH.
  - destruct (bytes_compare k kk) eqn:Eb.
    + apply bytes_compare_eq in Eb as ->. destruct (decide (kv = v)) as [->|]; [|apply prefix_nil].
      unfold entry_in at 1. cbn. rewrite decide_True; [|left]. apply prefix_cons.
      change (list_fmap _ _ (entry_in ((kk, v) :: keep)) source) with (entry_in ((kk, v) :: keep) <$> source).
      rewrite (entry_in_tail kk v keep kk v source); [|done..]. apply IH; [by apply StronglySorted_inv in Hk as []|done].
    + unfold entry_in at 1. cbn. rewrite decide_False; [by apply prefix_cons, IH|]. apply (below_not_in k ((kk, kv) :: keep)); [done|]. naive_solver.
    + apply prefix_nil.
Qed.

Lemma merges_exact keep source :
  StronglySorted bytes_lt keep.*1 → StronglySorted bytes_lt source.*1 → merges keep source →
  merge_roles keep source = entry_in keep <$> source ∧ ∀ kv, kv ∈ keep → kv ∈ source.
Proof.
  revert keep. induction source as [|[k v] source IH]; intros keep Hk Hs Hm; [cbn in Hm; by subst|].
  pose proof (StronglySorted_inv Hs) as [Hs' _]. cbn [merge_roles merges fmap list_fmap] in *. destruct keep as [|[kk kv] keep].
  - assert (merges [] source) as Hm' by by destruct source as [|[??] ?].
    destruct (IH [] Hk Hs' Hm') as [He _]. rewrite He. split; [done|]. by intros ? ?%elem_of_nil.
  - destruct (bytes_compare k kk) eqn:Eb; [| |done].
    + apply bytes_compare_eq in Eb as ->. destruct Hm as [-> Hm]. rewrite decide_True //.
      destruct (IH keep ltac:(by apply StronglySorted_inv in Hk as []) Hs' Hm) as [He Hin]. rewrite He. split.
      * unfold entry_in at 2. cbn. rewrite decide_True; [|left]. f_equal. symmetry.
        by apply (entry_in_tail kk v keep kk v source).
      * intros x Hx. apply elem_of_cons in Hx as [->|Hx]; [by left|right; auto].
    + destruct (IH _ Hk Hs' Hm) as [He Hin]. rewrite He. split.
      * unfold entry_in at 2. cbn. rewrite decide_False //. apply (below_not_in k ((kk, kv) :: keep)); [done|]. naive_solver.
      * intros x Hx. right. by apply Hin.
Qed.

Lemma merges_subset keep source :
  StronglySorted bytes_lt keep.*1 → StronglySorted bytes_lt source.*1 → (∀ kv, kv ∈ keep → kv ∈ source) → merges keep source.
Proof.
  revert keep. induction source as [|[k v] source IH]; intros keep Hk Hs Hsub.
  - destruct keep as [|kv keep]; [done|]. by destruct (not_elem_of_nil kv); apply Hsub; left.
  - pose proof (StronglySorted_inv Hs) as [Hs' Hf]. cbn [merges]. destruct keep as [|[kk kv] keep]; [done|].
    pose proof (Hsub (kk, kv) ltac:(left)) as Hh. destruct (bytes_compare k kk) eqn:Eb.
    + apply bytes_compare_eq in Eb as ->. apply elem_of_cons in Hh as [[= ->]|Hh].
      2:{ destruct (bytes_lt_irrefl kk). exact (sorted_above bytes_lt kk v source (kk, kv) Hs Hh). }
      split; [done|]. apply IH; [by apply StronglySorted_inv in Hk as []|done|]. intros x Hx.
      destruct (proj1 (elem_of_cons _ _ _) (Hsub x ltac:(by right))) as [->|?]; [|done].
      destruct (bytes_lt_irrefl kk). exact (sorted_above bytes_lt kk v keep (kk, v) Hk Hx).
    + apply IH; [done..|]. intros x Hx. destruct (proj1 (elem_of_cons _ _ _) (Hsub x Hx)) as [->|?]; [|done]. exfalso.
      eapply (below_not_in k ((kk, kv) :: keep)); [done|naive_solver|]. exact (list_elem_of_fmap_2 fst _ _ Hx).
    + apply bytes_compare_gt in Eb. apply elem_of_cons in Hh as [[= -> ->]|Hh]; [by apply bytes_lt_irrefl in Eb|].
      pose proof (sorted_above bytes_lt k v source (kk, kv) Hs Hh) as Hlt. eapply bytes_lt_irrefl, (transitivity Hlt Eb).
Qed.

Lemma db_all db k v : (k, v) ∈ db_iterate db [] [] ↔ db !! k = Some v.
Proof.
  rewrite db_iterate_elem. split; [tauto|]. intros Hk. split; [done|]. split; [by destruct k|].
  unfold bytes_le. cbn. by destruct k.
Qed.

Lemma entry_in_of keep kv : entry_in (db_iterate keep [] []) kv = entry_of keep kv.
Proof.
  unfold entry_in, entry_of. destruct (decide _) as [Hin|Hin].
  - apply list_elem_of_fmap in Hin as ([k v] & Hk & Hin%db_all). cbn in Hk. rewrite Hk. by rewrite Hin.
  - destruct (keep !! kv.1) eqn:E; [|done]. destruct Hin. apply list_elem_of_fmap. eexists. split; [|by apply db_all]. done.
Qed.

(** What the walk over two databases hands to its consumer. *)
Definition walk_entries (db keep : store) : list entry := entry_of keep <$> db_iterate db [] [].

Lemma merge_databases db keep :
  merge_roles (db_iterate keep [] []) (db_iterate db [] []) `prefix_of` walk_entries db keep ∧
  (merges (db_iterate keep [] []) (db_iterate db [] []) ↔ keep ⊆ db) ∧
  (keep ⊆ db → merge_roles (db_iterate keep [] []) (db_iterate db [] []) = walk_entries db keep).
Proof.
  pose proof (db_iterate_sorted keep [] []) as Hk. pose proof (db_iterate_sorted db [] []) as Hd.
  assert (entry_in (db_iterate keep [] []) <$> db_iterate db [] [] = walk_entries db keep) as He.
  { apply list_fmap_ext. intros i kv _. apply entry_in_of. }
  assert (merges (db_iterate keep [] []) (db_iterate db [] []) ↔ keep ⊆ db) as Hiff.
  { rewrite map_subseteq_spec. split.
    - intros [_ Hin]%merges_exact k v Hkv; [|done..]. by apply db_all, Hin, db_all.
    - intros Hsub. apply merges_subset; [done..|]. intros [k v] Hkv%db_all. by apply db_all, Hsub. }
  split; [|split; [done|]].
  - rewrite -He. by apply merge_roles_prefix.
  - intros Hsub%Hiff. apply merges_exact in Hsub as [-> _]; done.
Qed.

End MergeLemmas.

(** ** The walk *)

Section WalkLemmas.
Context `{Keccak, RawdbKeys, NodeKeys}.
Context {C : Type} (consume : pruneScanRecord → M C unit).

Lemma stopped_prefix u0 l1 l2 u : l1 `prefix_of` l2 → stopped consume u0 l1 u → stopped consume u0 l2 u.
Proof.
  intros [l ->] (done & rest & -> & Hs). exists done, (rest ++ l). split; [by rewrite app_assoc|].
  destruct Hs as [Hs|(e & rest' & u1 & w & err & w' & -> & Hs)]; [by left|]. right. by exists e, (rest' ++ l), u1, w, err, w'.
Qed.

(** The walk, with an excuse for every failure. *)
Lemma walk_spec X db keep e schedule u w r u' w' :
  (∀ r u w res u' w', excused X w → consume r u w = (res, u', w') → excused X w' ∧ (is_Some (outcome res) → X)) →
  (0 < pe_workers e)%Z → keep ⊆ db ∨ X → Forall (λ e, entry_ok e ∨ X) (walk_entries db keep) → excused X w →
  walkPruneDifference db keep e schedule consume u w = (r, u', w') →
  excused X w' ∧ match r with
                 | Ok _ => keep ⊆ db ∧ progress consume u (walk_entries db keep) u'
                 | Err _ => X ∧ stopped consume u (walk_entries db keep) u'
                 end.
Proof.
  intros Hc Hw0 Hsub Hok Hw. destruct (merge_databases db keep) as (Hpre & Hm & Hfull).
  set (all := merge_roles (db_iterate keep [] []) (db_iterate db [] [])).
  set (n := Z.to_nat (2 * pe_workers e)). set (limit := pe_scanBytes e).
  pose (P := walking X n limit consume u).
  assert (triple X (P [] []) (m ← wrap "open prune keep cursor" (mc_advance (MkMerge None (db_iterate keep [] []))); walk_source consume (db_iterate db [] []) m)
    (λ _ s, merges (db_iterate keep [] []) (db_iterate db [] []) ∧ P [] all s) (halted X consume u all)) as Hbody.
  { eapply triple_bind; [apply triple_wrap, (mc_advance_ok X consume u all (P [] []))|].
    - intros s (f & _ & Hp). by apply (progress_stopped consume u all [] all).
    - intros m. apply triple_pure. cbn. intros Hcur. eapply (walk_source_ok X n limit consume u all Hc _ _ m [] []); [done|done| |].
      + rewrite Hm. tauto.
      + destruct Hpre as [rest Hpre]. rewrite Hpre in Hok. by apply Forall_app in Hok as [? _]. }
  assert (triple X (P [] []) (r ← attempt (m ← wrap "open prune keep cursor" (mc_advance (MkMerge None (db_iterate keep [] []))); walk_source consume (db_iterate db [] []) m);
     _ ← on_pipe workers_run; f ← on_pipe (gets sp_failure); lift (match f with Some e => Err e | None => r end))
    (λ _ s, keep ⊆ db ∧ progress consume u all (sc_user s)) (halted X consume u all)) as Hrun.
  { eapply triple_bind; [by apply triple_attempt|]. intros [[]|err].
    - apply triple_pure. intros Hsub'%Hm. apply triple_ex. intros f.
      assert (all = all ++ []) as Hall by by rewrite app_nil_r.
      eapply triple_bind; [by apply (workers_ok X n limit consume u all f [] all [])|]. intros ?.
      eapply triple_bind.
      { apply (on_pipe_frame X consume u all (ring_ok X n limit f []) _ (λ a p, is_Some a → X) (λ _, False) (progress consume u all)); [|done|].
        - apply triple_gets. intros p Hp. by eapply rg_failure.
        - intros v. by eapply progress_stopped. }
      intros [err|]; apply triple_lift; intros s [Hx Hp]; [|done]. split; [by apply Hx|]. by eapply progress_stopped.
    - eapply triple_bind; [apply on_pipe_halted|]. intros ?. eapply triple_bind; [apply on_pipe_halted|]. intros [f|]; by apply triple_lift. }
  unfold walkPruneDifference. cbv zeta. match goal with |- match ?m with _ => _ end = _ → _ => destruct m as [[r1 s1] w1] eqn:Er end. intros [= <- <- <-].
  eapply Hrun in Er; [|done|].
  - destruct Er as [Hw1 Hr]. split; [done|]. destruct r1.
    + destruct Hr as [Hs Hp]. split; [done|]. by rewrite -Hfull.
    + destruct Hr as [Hx Hs]. split; [done|]. by eapply stopped_prefix.
  - exists 0%nat. split; [|split; [constructor|constructor]]. unfold newPruneScanPipeline. split; cbn; rewrite ?length_replicate; try done; try lia.
    by intros i Hi%not_elem_of_nil.
Qed.

(** In any environment: the consumer saw every entry in order, or a prefix. *)
Lemma walk_any db keep e schedule u w r u' w' :
  (0 < pe_workers e)%Z → walkPruneDifference db keep e schedule consume u w = (r, u', w') →
  match r with
  | Ok _ => keep ⊆ db ∧ progress consume u (walk_entries db keep) u'
  | Err _ => stopped consume u (walk_entries db keep) u'
  end.
Proof.
  intros He Hr. eapply (walk_spec True) in Hr as [_ Hr]; [|by split; [left|]|done|by right| |by left].
  - by destruct r; [|destruct Hr].
  - apply Forall_true. by right.
Qed.

End WalkLemmas.
