(* ===== verification/Prune.v ===== *)
(** * Pruning: what is deleted and what is protected

    The consequences of the walk for the two operations built on it: the
    inventory of a database beside a keep set ([scanPruneDB],
    [comparePruneInventory]) and the deletion ([deletePruneDifference]). *)

From S2P Require Import Prelude Sha256 Geth Instances Manifest StrictIO Records Scanner Bundle Account StateTrie Consumer Stream Traverse AtomicDir Export DirectWriter OvmIndex OvmTransform PruneKeys PruneScan.

(** ** Candidates *)

Section Candidates.
Context `{Keccak, RawdbKeys, NodeKeys}.

(** A record that may be deleted: content-addressed and not kept. *)
Definition candidate (keep : store) (kv : bytes * bytes) : Prop :=
  keep !! kv.1 = None ∧ length kv.1 = HashLength ∧ hash_bytes (keccak256 kv.2) = kv.1.

#[export] Instance candidate_dec keep kv : Decision (candidate keep kv).
Proof. unfold candidate. apply _. Defined.

Definition is_candidate (e : entry) : Prop := entry_role e = pruneDelete.
#[export] Instance is_candidate_dec e : Decision (is_candidate e).
Proof. unfold is_candidate. apply _. Defined.

Lemma candidate_entry keep kv : is_candidate (entry_of keep kv) ↔ candidate keep kv.
Proof.
  destruct kv as [k v]. unfold is_candidate, candidate, entry_role, entry_of, classified_role, other_role. cbn [fst snd].
  destruct (keep !! k); cbn; [split; [done|by intros [? _]]|].
  destruct (length k =? HashLength)%nat eqn:El; cbn.
  - apply Nat.eqb_eq in El. case_bool_decide as Hk; split; try done.
    + intros _. split; [done|]. split; [done|]. rewrite Hk. by apply BytesToHash_exact.
    + intros (_ & _ & He). destruct Hk. by rewrite -He BytesToHash_hash.
  - apply Nat.eqb_neq in El. split; [done|]. by intros (_ & ? & _).
Qed.

(** The entries in the order of the walk. *)
Lemma walk_entries_elem db keep e :
  e ∈ walk_entries db keep ↔ ∃ k v, db !! k = Some v ∧ e = entry_of keep (k, v).
Proof.
  unfold walk_entries. rewrite list_elem_of_fmap. split.
  - intros ([k v] & -> & Hin%db_all). eauto.
  - intros (k & v & Hk & ->). exists (k, v). split; [done|]. by apply db_all.
Qed.

(** ** The deletion *)

Definition entry_key (e : entry) : bytes := e.1.1.
Definition deletes (l : list entry) : list batch_op := BDelete ∘ entry_key <$> l.
Definition count_entries (l : list entry) : PruneKVCount := foldl (λ c e, kv_add e.1.1 e.1.2 c) kv_zero l.

Definition candidates (l : list entry) : list entry := filter is_candidate l.

Lemma candidates_snoc l e : candidates (l ++ [e]) = candidates l ++ (if decide (is_candidate e) then [e] else []).
Proof. unfold candidates. rewrite filter_app. done. Qed.

Lemma kv_plus_count c1 c2 : kv_plus (count_entries c1) (count_entries c2) = count_entries (c1 ++ c2).
Proof.
  assert (∀ a b, kv_plus a (foldl (λ c e, kv_add e.1.1 e.1.2 c) b c2) = foldl (λ c e, kv_add e.1.1 e.1.2 c) (kv_plus a b) c2) as Hp.
  { induction c2 as [|e c2 IH]; intros a b; [done|]. cbn. rewrite IH. f_equal. unfold kv_plus, kv_add. cbn.
    f_equal; unfold add64; rewrite N.Div0.add_mod_idemp_r N.Div0.add_mod_idemp_l; f_equal; lia. }
  unfold count_entries. rewrite foldl_app. rewrite Hp. f_equal. unfold kv_plus, kv_zero. cbn.
  assert (∀ c, kv_Keys c < two64 ∧ kv_Bytes c < two64 → MkKVCount (add64 (kv_Keys c) 0) (add64 (kv_Bytes c) 0) = c) as Hz.
  { intros [a b] [? ?]. unfold add64. cbn in *. by rewrite !N.add_0_r !N.mod_small. }
  apply Hz. assert (∀ b, kv_Keys b < two64 ∧ kv_Bytes b < two64 →
    kv_Keys (foldl (λ c e, kv_add e.1.1 e.1.2 c) b c1) < two64 ∧ kv_Bytes (foldl (λ c e, kv_add e.1.1 e.1.2 c) b c1) < two64) as Hb.
  { clear. induction c1 as [|e c1 IH]; intros b Hb; [done|]. cbn. apply IH. cbn. split; apply add64_lt. }
  apply Hb. done.
Qed.

Context (dump_size : list bytes → Z) (db0 : store).

(** The batches written so far are a part of the candidates met so far. *)

Definition deleting (done : list entry) (d : deletion) : Prop :=
  ∃ c1 c2, candidates done = c1 ++ c2 ∧ de_db d = apply_ops db0 (deletes c1) ∧ de_batch d = entry_key <$> c2 ∧
    de_pending d = count_entries c2 ∧ de_deleted d = count_entries c1 ∧ (de_started d = false → c1 = []).

(** However it ended, the database lost a part of the candidates, and nothing
    before the deletion was marked as started. *)
Definition deleted_part (done : list entry) (d : deletion) : Prop :=
  ∃ c1 c2, candidates done = c1 ++ c2 ∧ de_db d = apply_ops db0 (deletes c1) ∧ (de_started d = false → c1 = []).

Lemma deleting_part done d : deleting done d → deleted_part done d.
Proof. intros (c1 & c2 & ? & ? & _ & _ & _ & ?). by exists c1, c2. Qed.

Lemma deletes_batch db c : apply_ops db (BDelete <$> (entry_key <$> c)) = apply_ops db (deletes c).
Proof. unfold deletes. by rewrite -list_fmap_compose. Qed.

Lemma deletes_app db c1 c2 : apply_ops (apply_ops db (deletes c1)) (deletes c2) = apply_ops db (deletes (c1 ++ c2)).
Proof. unfold apply_ops, deletes. by rewrite fmap_app foldl_app. Qed.

Lemma flush_deletion_run done d w r d' w' :
  deleting done d → flush_deletion d w = (r, d', w') →
  match r with Ok _ => deleting done d' ∧ de_batch d' = [] ∧ de_db d' = apply_ops db0 (deletes (candidates done)) ∧ de_deleted d' = count_entries (candidates done)
             | Err _ => deleted_part done d' end.
Proof.
  intros (c1 & c2 & Hc & Hdb & Hb & Hp & Hd & Hst). unfold flush_deletion, writeBatch, mbind, M_bind, mret, M_ret, get, poll, wrap, io, modify. cbn -[length Nat.eqb].
  destruct (length (de_batch d) =? 0)%nat eqn:El.
  - apply Nat.eqb_eq, nil_length_inv in El. intros [= <- <- <-]. rewrite El in Hb. symmetry in Hb. apply fmap_nil_inv in Hb as ->.
    rewrite app_nil_r in Hc. split; [exists c1, []; rewrite app_nil_r; repeat split; try done; by rewrite El|]. by rewrite Hc.
  - destruct d as [db batch pending deleted started]. cbn in Hdb, Hb, Hp, Hd, Hst. subst.
    assert (deleted_part done (MkDeletion (apply_ops db0 (deletes c1)) (entry_key <$> c2) (count_entries c2) (count_entries c1) started)) as Hpart
      by by exists c1, c2.
    assert (deleted_part done (MkDeletion (apply_ops db0 (deletes c1)) (entry_key <$> c2) (count_entries c2) (count_entries c1) true)) as Hmark
      by by exists c1, c2.
    assert (deleted_part done (MkDeletion (apply_ops (apply_ops db0 (deletes c1)) (BDelete <$> (entry_key <$> c2))) (entry_key <$> c2)
      (count_entries c2) (count_entries c1) true)) as Hafter.
    { exists (c1 ++ c2), []. rewrite app_nil_r. split; [done|]. cbn. by rewrite deletes_batch deletes_app. }
    assert (deleting done (MkDeletion (apply_ops (apply_ops db0 (deletes c1)) (BDelete <$> (entry_key <$> c2))) [] kv_zero
      (kv_plus (count_entries c1) (count_entries c2)) true)) as Hok.
    { exists (c1 ++ c2), []. rewrite app_nil_r. split; [done|]. cbn. by rewrite deletes_batch deletes_app kv_plus_count. }
    assert (apply_ops (apply_ops db0 (deletes c1)) (BDelete <$> (entry_key <$> c2)) = apply_ops db0 (deletes (candidates done))) as Heq
      by by rewrite deletes_batch deletes_app Hc.
    assert (kv_plus (count_entries c1) (count_entries c2) = count_entries (candidates done)) as Hct by by rewrite kv_plus_count Hc.
    destruct w as [[[|m]|] [|[] [|[] fs]]]; cbn; intros [= <- <- <-];
      first [exact Hpart | exact Hmark | exact Hafter | (split; [exact Hok|]; split; [done|]; split; [exact Heq|exact Hct])].
Qed.

Lemma delete_record_run done e d w r d' w' :
  deleting done d → delete_record dump_size (seen e) d w = (r, d', w') →
  match r with Ok _ => deleting (done ++ [e]) d' | Err _ => deleted_part (done ++ [e]) d' end.
Proof.
  intros Hd. unfold delete_record. cbn [seen sr_role sr_key sr_value].
  destruct (entry_role e =? pruneDelete)%Z eqn:Er; cbn [negb].
  - apply Z.eqb_eq in Er.
    set (d1 := MkDeletion (de_db d) (de_batch d ++ [e.1.1]) (kv_add e.1.1 e.1.2 (de_pending d)) (de_deleted d) (de_started d)).
    assert (deleting (done ++ [e]) d1) as Hd1.
    { destruct Hd as (c1 & c2 & Hc & Hdb & Hb & Hp & Hdd & Hst). exists c1, (c2 ++ [e]). rewrite candidates_snoc decide_True //.
      rewrite Hc app_assoc. cbn. rewrite Hb fmap_app Hp. repeat split; try done. unfold count_entries. by rewrite foldl_app. }
    change ((λ d, (if (pruneDeleteBatchKeys <=? length (de_batch d))%nat || (pruneDeleteBatchBytes <=? dump_size (de_batch d))%Z
              then flush_deletion else mret ())) d1 d1 w = (r, d', w') → match r with Ok _ => deleting (done ++ [e]) d' | Err _ => deleted_part (done ++ [e]) d' end).
    cbv beta. destruct (_ || _).
    + intros Hf. eapply flush_deletion_run in Hf; [|done]. destruct r; [by destruct Hf|done].
    + by intros [= <- <- <-].
  - apply Z.eqb_neq in Er. intros [= <- <- <-]. destruct Hd as (c1 & c2 & Hc & Hrest). exists c1, c2.
    rewrite candidates_snoc decide_False // app_nil_r. done.
Qed.

Lemma deleting_steps done l d d' :
  steps (consumed (delete_record dump_size)) l d d' → deleting done d → deleting (done ++ l) d'.
Proof.
  intros Hs. revert done. induction Hs as [d|e l d d1 d2 (w & w' & He) Hs IH]; intros done Hd; [by rewrite app_nil_r|].
  eapply delete_record_run in He; [|done]. apply IH in He. by rewrite -app_assoc in He.
Qed.

Lemma deleting_stopped l d : stopped (delete_record dump_size) (deletion_start db0) l d → ∃ done rest, l = done ++ rest ∧ deleted_part done d.
Proof.
  assert (deleting [] (deletion_start db0)) as Hstart by by exists [], [].
  intros (done & rest & -> & [[Hs _]|(e & rest' & u1 & w & err & w' & -> & [Hs _] & _ & Hc)]).
  - exists done, rest. split; [done|]. apply (deleting_steps [] done) in Hs; [|done]. by apply deleting_part.
  - exists (done ++ [e]), rest'. split; [by rewrite -app_assoc|]. apply (deleting_steps [] done) in Hs; [|done].
    by eapply delete_record_run in Hc.
Qed.

Lemma deletes_lookup db c k : apply_ops db (deletes c) !! k = if decide (k ∈ entry_key <$> c) then None else db !! k.
Proof.
  unfold apply_ops, deletes. revert db. induction c as [|e c IH]; intros db; [done|]. cbn. rewrite IH.
  destruct (decide (k ∈ _)) as [Hin|Hin].
  - rewrite decide_True //. by right.
  - destruct (decide (k = entry_key e)) as [->|Hne].
    + rewrite lookup_delete_eq decide_True //. left.
    + rewrite lookup_delete_ne // decide_False //. rewrite elem_of_cons. tauto.
Qed.

Lemma candidates_keys keep k done rest :
  walk_entries db0 keep = done ++ rest →
  k ∈ entry_key <$> candidates done → ∃ v, db0 !! k = Some v ∧ candidate keep (k, v).
Proof.
  intros Hall Hin. apply list_elem_of_fmap in Hin as (e & -> & Hin). apply list_elem_of_filter in Hin as [Hc Hin].
  assert (e ∈ walk_entries db0 keep) as He by (rewrite Hall elem_of_app; by left).
  apply walk_entries_elem in He as (k & v & Hk & ->). exists v. split; [done|]. by apply candidate_entry.
Qed.

Lemma deleted_part_lookup keep done rest d k v :
  walk_entries db0 keep = done ++ rest → deleted_part done d →
  (de_db d !! k = Some v → db0 !! k = Some v) ∧ (db0 !! k = Some v → de_db d !! k = None → candidate keep (k, v)).
Proof.
  intros Hall (c1 & c2 & Hc & -> & _). rewrite deletes_lookup. case_decide as Hin; [|naive_solver].
  split; [done|]. intros Hk _. destruct (candidates_keys keep k done rest Hall) as (v' & Hk' & Hcand).
  - rewrite Hc fmap_app elem_of_app. by left.
  - by rewrite Hk in Hk'; injection Hk' as ->.
Qed.

Lemma all_deleted keep d k v :
  de_db d = apply_ops db0 (deletes (candidates (walk_entries db0 keep))) →
  de_db d !! k = Some v ↔ db0 !! k = Some v ∧ ¬ candidate keep (k, v).
Proof.
  intros ->. rewrite deletes_lookup. case_decide as Hin.
  - split; [done|]. intros [Hk Hn]. destruct (candidates_keys keep k (walk_entries db0 keep) []) as (v' & Hk' & Hc); [by rewrite app_nil_r|done|].
    rewrite Hk in Hk'. injection Hk' as ->. done.
  - split; [|tauto]. intros Hk. split; [done|]. intros Hc. destruct Hin. apply list_elem_of_fmap. exists (entry_of keep (k, v)).
    split; [done|]. apply list_elem_of_filter. split; [by apply candidate_entry|]. apply walk_entries_elem. eauto.
Qed.

(** The deletion, on every outcome. *)
Lemma delete_cases keep e schedule w r d w' :
  (0 < pe_workers e)%Z → deletePruneDifference dump_size keep e schedule (deletion_start db0) w = (r, d, w') →
  (∃ done rest, walk_entries db0 keep = done ++ rest ∧ deleted_part done d) ∧
  (r = Ok () → keep ⊆ db0 ∧ Forall entry_ok (walk_entries db0 keep) ∧ de_db d = apply_ops db0 (deletes (candidates (walk_entries db0 keep))) ∧
     de_deleted d = count_entries (candidates (walk_entries db0 keep))).
Proof.
  intros He. unfold deletePruneDifference. rewrite (bind_run _ _ _ _ db0 (deletion_start db0) w); [|done].
  unfold mbind, M_bind. destruct (walkPruneDifference _ _ _ _ _ _ _) as [[[[]|err] d1] w1] eqn:Ew; apply walk_any in Ew; [|done| |done].
  - destruct Ew as (Hsub & Hs & Hok). assert (deleting [] (deletion_start db0)) as Hstart by by exists [], [].
    apply (deleting_steps [] (walk_entries db0 keep)) in Hs; [|done]. cbn [app] in Hs. intros Hf.
    eapply flush_deletion_run in Hf; [|done]. destruct r as [[]|].
    + destruct Hf as (Hf & _ & Hdb & Hde). split; [|done]. exists (walk_entries db0 keep), []. rewrite app_nil_r. split; [done|]. by apply deleting_part.
    + split; [|done]. exists (walk_entries db0 keep), []. by rewrite app_nil_r.
  - intros [= <- <- <-]. split; [|done]. by apply deleting_stopped.
Qed.

(** Unless it was marked as started, the deletion has removed nothing. *)
Lemma delete_unstarted keep e schedule w r d w' :
  (0 < pe_workers e)%Z → deletePruneDifference dump_size keep e schedule (deletion_start db0) w = (r, d, w') →
  de_started d = false → de_db d = db0.
Proof.
  intros He Hr Hs. destruct (delete_cases _ _ _ _ _ _ _ He Hr) as [(? & ? & _ & c1 & c2 & _ & -> & Hc) _]. by rewrite (Hc Hs).
Qed.

End Candidates.

(** ** Inventories *)

Section Inventories.
Context `{Keccak, RawdbKeys, NodeKeys}.

Definition has_role (role : Z) (e : entry) : Prop := entry_role e = role.
#[export] Instance has_role_dec role e : Decision (has_role role e).
Proof. unfold has_role. apply _. Defined.

Definition protected (l : list entry) : list entry := filter (λ e, ¬ is_candidate e) l.

(** The inventory of a list of entries: counts per role and the digest of
    everything that is not a candidate. *)
Definition inventory_spec (l : list entry) : pruneInventory :=
  MkInventory (count_entries (filter (has_role pruneRetainState) l)) (count_entries (protected l)) (count_entries (candidates l))
    (count_entries (filter (has_role pruneUnknown) l)) (keccak256 (digest_bytes digest_tag (protected l).*1)).

Definition count_all (l : list entry) : inventory_scan := foldl (λ i e, count_record (seen e) i) inventory_start l.

Lemma filter_snoc_True {A} (P : A → Prop) `{∀ x, Decision (P x)} l x : P x → filter P (l ++ [x]) = filter P l ++ [x].
Proof. intros Hx. rewrite filter_app filter_cons_True //. Qed.
Lemma filter_snoc_False {A} (P : A → Prop) `{∀ x, Decision (P x)} l x : ¬ P x → filter P (l ++ [x]) = filter P l.
Proof. intros Hx. rewrite filter_app filter_cons_False // filter_nil app_nil_r //. Qed.

Lemma count_entries_snoc l e : count_entries (l ++ [e]) = kv_add e.1.1 e.1.2 (count_entries l).
Proof. unfold count_entries. by rewrite foldl_app. Qed.

Lemma digest_snoc h l (kv : bytes * bytes) : digest_bytes h (l ++ [kv]) = hashPruneKV (digest_bytes h l) kv.1 kv.2.
Proof. unfold digest_bytes. by rewrite foldl_app. Qed.

Lemma count_all_spec l :
  count_all l = MkInventoryScan (count_entries (filter (has_role pruneRetainState) l)) (count_entries (protected l)) (count_entries (candidates l))
    (count_entries (filter (has_role pruneUnknown) l)) (digest_bytes digest_tag (protected l).*1).
Proof.
  induction l as [|e l IH] using rev_ind; [done|]. unfold count_all. rewrite foldl_app. cbn [foldl].
  change (foldl (λ i e, count_record (seen e) i) inventory_start l) with (count_all l). rewrite IH.
  unfold count_record, protected, candidates. cbn [seen sr_key sr_value sr_role is_Keep is_Protected is_Candidates is_Unknown is_digest].
  destruct (Z.eqb_spec (entry_role e) pruneDelete) as [Ed|Ed].
  - rewrite (filter_snoc_True is_candidate) // (filter_snoc_False (λ e, ¬ is_candidate e)); [|by intros []].
    rewrite !(filter_snoc_False (has_role _)); [|by unfold has_role; rewrite Ed..]. by rewrite count_entries_snoc.
  - rewrite (filter_snoc_False is_candidate) // (filter_snoc_True (λ e, ¬ is_candidate e)) // fmap_app digest_snoc count_entries_snoc.
    f_equal.
    + destruct (Z.eqb_spec (entry_role e) pruneRetainState); [by rewrite filter_snoc_True // count_entries_snoc|by rewrite filter_snoc_False].
    + destruct (Z.eqb_spec (entry_role e) pruneUnknown); [by rewrite filter_snoc_True // count_entries_snoc|by rewrite filter_snoc_False].
Qed.

Lemma count_steps l i i' : steps (consumed (λ record, modify (count_record record))) l i i' → i' = foldl (λ i e, count_record (seen e) i) i l.
Proof. induction 1 as [|e l c c1 c2 (w & w' & [= <- <-]) _ IH]; [done|]. exact IH. Qed.

(** The scan yields the inventory of the walk's entries; in a calm environment
    it succeeds if the keep set is part of the source and nothing is foreign. *)
Lemma scan_any {St : Type} db keep e schedule (s : St) w inv s' w' :
  (0 < pe_workers e)%Z → scanPruneDB db keep e schedule s w = (Ok inv, s', w') →
  s' = s ∧ keep ⊆ db ∧ Forall entry_ok (walk_entries db keep) ∧ inv = inventory_spec (walk_entries db keep).
Proof.
  intros He. unfold scanPruneDB. intros ([r i] & s1 & w1 & [Hr ->]%run_on_ok & Hk)%bind_ok. cbn in Hr.
  apply bind_ok in Hk as ([] & s2 & w2 & (-> & -> & ->)%lift_ok & (-> & -> & ->)%ret_ok).
  apply walk_any in Hr as (Hsub & Hs & Hok); [|done]. split; [done|]. split; [done|]. split; [done|].
  apply count_steps in Hs as ->. unfold inventory_of. change (foldl _ _ _) with (count_all (walk_entries db keep)). by rewrite count_all_spec.
Qed.

Lemma scan_calm {St : Type} db keep e schedule (s : St) :
  (0 < pe_workers e)%Z → keep ⊆ db → Forall entry_ok (walk_entries db keep) →
  scanPruneDB db keep e schedule s calm = (Ok (inventory_spec (walk_entries db keep)), s, calm).
Proof.
  intros He Hsub Hok. unfold scanPruneDB.
  destruct (walkPruneDifference db keep e schedule (λ record, modify (count_record record)) inventory_start calm) as [[r i] w1] eqn:Ew.
  pose proof Ew as Ew'. eapply (walk_spec _ False) in Ew' as [[?| ->] Hr]; [done| |..|by right].
  - destruct r as [[]|]; [|by destruct Hr]. rewrite (bind_run _ _ _ _ (Ok (), i) s calm); [|by apply run_on_run]. cbn.
    destruct Hr as (_ & Hs & _). apply count_steps in Hs as ->. unfold inventory_of.
    change (foldl _ _ _) with (count_all (walk_entries db keep)). by rewrite count_all_spec.
  - intros r' u w res u' w' [?| ->]; [done|]. intros [= <- <- <-]. split; [by right|]. by intros [? ?].
  - done.
  - by left.
  - eapply Forall_impl; [done|]. auto.
Qed.

End Inventories.

(** ** Comparing inventories *)

Section Compare.
Context `{Keccak, RawdbKeys, NodeKeys}.

(** [after] is what is left of [before] when exactly the candidates are gone. *)
Definition surviving (keep before after : store) : Prop :=
  ∀ k v, after !! k = Some v ↔ before !! k = Some v ∧ ¬ candidate keep (k, v).

Lemma sorted_same (l1 l2 : list (bytes * bytes)) :
  StronglySorted bytes_lt l1.*1 → StronglySorted bytes_lt l2.*1 → (∀ kv, kv ∈ l1 ↔ kv ∈ l2) → l1 = l2.
Proof.
  revert l2. induction l1 as [|[k v] l1 IH]; intros [|[k' v'] l2] S1 S2 Heq; [done| | |].
  - destruct (not_elem_of_nil (k', v')). apply Heq. left.
  - destruct (not_elem_of_nil (k, v)). apply Heq. left.
  - pose proof (proj1 (Heq (k, v)) ltac:(left)) as Ha. pose proof (proj2 (Heq (k', v')) ltac:(left)) as Hb.
    assert ((k, v) = (k', v')) as [= -> ->].
    { apply elem_of_cons in Ha as [?|Ha]; [done|]. apply elem_of_cons in Hb as [?|Hb]; [done|].
      pose proof (sorted_above bytes_lt _ _ _ _ S2 Ha) as L1. pose proof (sorted_above bytes_lt _ _ _ _ S1 Hb) as L2. cbn in *.
      destruct (bytes_lt_irrefl k). by transitivity k'. }
    f_equal. apply IH; [by apply StronglySorted_inv in S1 as []|by apply StronglySorted_inv in S2 as []|].
    intros kv. specialize (Heq kv). rewrite !elem_of_cons in Heq. split; intros Hin.
    + destruct (proj1 Heq (or_intror Hin)) as [->|?]; [|done]. destruct (bytes_lt_irrefl k'). exact (sorted_above bytes_lt _ _ _ _ S1 Hin).
    + destruct (proj2 Heq (or_intror Hin)) as [->|?]; [|done]. destruct (bytes_lt_irrefl k'). exact (sorted_above bytes_lt _ _ _ _ S2 Hin).
Qed.

Lemma fmap_fst_entry keep l : (entry_of keep <$> l).*1 = l.
Proof. rewrite -list_fmap_compose. rewrite -{2}(list_fmap_id l). apply list_fmap_ext. by intros i [k v] _. Qed.

Lemma protected_entries keep l : protected (entry_of keep <$> l) = entry_of keep <$> filter (λ kv, ¬ candidate keep kv) l.
Proof.
  unfold protected. induction l as [|kv l IH]; [done|]. cbn [fmap list_fmap].
  destruct (decide (candidate keep kv)) as [Hc|Hc].
  - rewrite filter_cons_False; [|rewrite candidate_entry; tauto]. rewrite filter_cons_False; [|tauto]. exact IH.
  - rewrite filter_cons_True; [|by rewrite candidate_entry]. rewrite filter_cons_True; [|done]. cbn. f_equal. exact IH.
Qed.

Lemma sorted_filter (P : bytes * bytes → Prop) `{∀ kv, Decision (P kv)} l :
  StronglySorted bytes_lt l.*1 → StronglySorted bytes_lt (filter P l).*1.
Proof.
  induction l as [|kv l IH]; cbn [fmap list_fmap]; [done|]. intros [Hs Hf]%StronglySorted_inv.
  destruct (decide (P kv)) as [Hp|Hp]; [rewrite filter_cons_True // | rewrite filter_cons_False //; by apply IH].
  cbn [fmap list_fmap]. constructor; [by apply IH|]. rewrite Forall_forall in Hf. apply Forall_forall. intros k (x & -> & Hx)%list_elem_of_fmap.
  apply list_elem_of_filter in Hx as [_ Hx]. by apply Hf, list_elem_of_fmap_2.
Qed.

Lemma surviving_entries keep before after :
  surviving keep before after → walk_entries after keep = protected (walk_entries before keep).
Proof.
  intros Hs. unfold walk_entries. rewrite protected_entries. f_equal. apply sorted_same; [apply db_iterate_sorted| |].
  - apply sorted_filter, db_iterate_sorted.
  - intros [k v]. rewrite list_elem_of_filter !db_all. rewrite (Hs k v). tauto.
Qed.

Lemma protected_role role l : role ≠ pruneDelete → filter (has_role role) (protected l) = filter (has_role role) l.
Proof.
  intros Hr. unfold protected. rewrite list_filter_filter_l; [done|]. unfold has_role, is_candidate. intros e -> . done.
Qed.

Lemma candidates_protected l : candidates (protected l) = [].
Proof.
  unfold candidates, protected. apply elem_of_nil_inv. intros e He. apply list_elem_of_filter in He as [Hc He].
  by apply list_elem_of_filter in He as [? _].
Qed.

Lemma protected_protected l : protected (protected l) = protected l.
Proof. unfold protected. rewrite list_filter_filter_l //. Qed.

Lemma count_keys l : kv_Keys (count_entries l) = N.of_nat (length l) mod two64.
Proof.
  induction l as [|e l IH] using rev_ind; [done|]. rewrite count_entries_snoc length_app. cbn. rewrite IH add64_mod_l. f_equal. lia.
Qed.

Lemma candidates_none l : N.of_nat (length l) < two64 → kv_Keys (count_entries (candidates l)) = 0 → candidates l = [].
Proof.
  intros Hl. rewrite count_keys. assert (length (candidates l) ≤ length l)%nat as Hf by apply length_filter.
  rewrite N.mod_small; [|lia]. intros He. apply nil_length_inv. lia.
Qed.

(** The comparison of two inventories, read as one condition. *)
Lemma compare_ok a b :
  comparePruneInventory a b = Ok () ↔
  kv_Keys (inv_Candidates b) = 0 ∧ inv_Keep a = inv_Keep b ∧ inv_Protected a = inv_Protected b ∧ inv_Unknown a = inv_Unknown b ∧ inv_Digest a = inv_Digest b.
Proof.
  unfold comparePruneInventory. rewrite result_bind_ok. setoid_rewrite reject_if_ok. split.
  - intros (_ & Hc & Hr). apply negb_false_iff, N.eqb_eq in Hc. rewrite !orb_false_iff !negb_false_iff !bool_decide_eq_true in Hr. tauto.
  - intros (Hc & Hr). exists (). split; [by rewrite Hc|]. rewrite !orb_false_iff !negb_false_iff !bool_decide_eq_true. tauto.
Qed.

Definition sizes_ok (db : store) : Prop := ∀ k v, db !! k = Some v → blen k < two64 ∧ blen v < two64.

Lemma sizes_protected keep db : sizes_ok db → Forall (λ kv, blen kv.1 < two64 ∧ blen kv.2 < two64) (protected (walk_entries db keep)).*1.
Proof.
  intros Hs. unfold walk_entries. rewrite protected_entries fmap_fst_entry. apply Forall_forall. intros [k v] [_ Hin%db_all]%list_elem_of_filter. by apply Hs.
Qed.

Lemma protected_elem keep db k v : (k, v) ∈ (protected (walk_entries db keep)).*1 ↔ db !! k = Some v ∧ ¬ candidate keep (k, v).
Proof. unfold walk_entries. rewrite protected_entries fmap_fst_entry list_elem_of_filter db_all. tauto. Qed.

Lemma compare_surviving keep before after :
  surviving keep before after →
  comparePruneInventory (inventory_spec (walk_entries before keep)) (inventory_spec (walk_entries after keep)) = Ok ().
Proof.
  intros Hs. apply compare_ok. rewrite (surviving_entries _ _ _ Hs). cbn.
  rewrite candidates_protected protected_protected !protected_role //.
Qed.

Lemma compare_binds keep before after :
  sizes_ok before → sizes_ok after → N.of_nat (size after) < two64 →
  comparePruneInventory (inventory_spec (walk_entries before keep)) (inventory_spec (walk_entries after keep)) = Ok () →
  surviving keep before after ∨ keccak_collision.
Proof.
  intros Hb Ha Hn. rewrite compare_ok. cbn. intros (Hc & _ & _ & _ & Hd). apply keccak_inj in Hd as [Hd|]; [|by right]. left.
  rewrite digest_bytes_app (digest_bytes_app digest_tag (protected (walk_entries after keep)).*1) in Hd. apply app_inv_head in Hd.
  apply digest_bytes_inj in Hd; [|by apply sizes_protected..]. apply candidates_none in Hc.
  2:{ unfold walk_entries. rewrite length_fmap. unfold db_iterate. eapply N.le_lt_trans; [|exact Hn].
      rewrite -length_map_to_list. rewrite -(Permutation_length (merge_sort_Permutation key_le (map_to_list after))).
      pose proof (length_filter (λ kv : bytes * bytes, has_prefix kv.1 [] = true ∧ bytes_le ([] ++ []) kv.1) (merge_sort key_le (map_to_list after))). lia. }
  intros k v. rewrite -protected_elem Hd protected_elem. split; [|tauto]. intros Hk. split; [done|]. intros Hcand.
  apply (not_elem_of_nil (entry_of keep (k, v))). rewrite -Hc. apply list_elem_of_filter. split; [by apply candidate_entry|].
  apply walk_entries_elem. eauto.
Qed.

End Compare.

(** ** The theorems *)

Section Theorems.
Context `{Keccak, RawdbKeys, NodeKeys}.

(** C12: Pruning deletes nothing but unreferenced state. However the deletion
    ends (success, cancellation, a failing iterator, a foreign record, a
    batch whose write fails before or after it took effect), with any number
    of workers and any interleaving of them, no record was changed or added,
    and every record that is gone was content-addressed (a 32-byte key that is
    the hash of its value) and not in the keep set. If it succeeds, the whole
    keep set is still there, exactly the candidates are gone, and the counter
    counts them. *)
Theorem prune_delete_safe dump_size db keep e schedule w r d w' :
  (0 < pe_workers e)%Z → deletePruneDifference dump_size keep e schedule (deletion_start db) w = (r, d, w') →
  de_db d ⊆ db ∧
  (∀ k v, db !! k = Some v → de_db d !! k = None → candidate keep (k, v)) ∧
  (r = Ok () → keep ⊆ de_db d ∧ (∀ k v, de_db d !! k = Some v ↔ db !! k = Some v ∧ ¬ candidate keep (k, v)) ∧
     de_deleted d = count_entries (candidates (walk_entries db keep))).
Proof.
  intros He Hr. destruct (delete_cases _ _ _ _ _ _ _ _ _ He Hr) as [(done & rest & Hall & Hpart) Hok].
  split; [|split].
  - apply map_subseteq_spec. intros k v. by eapply deleted_part_lookup.
  - intros k v. by eapply deleted_part_lookup.
  - intros Hr'. destruct (Hok Hr') as (Hsub & _ & Hdb & Hct). pose proof (all_deleted db keep d) as Ha. split; [|split; [|done]].
    + apply map_subseteq_spec. intros k v Hk. apply Ha; [done|]. split; [by eapply lookup_weaken|]. intros (Hn & _). by rewrite Hk in Hn.
    + intros k v. by apply Ha.
Qed.



End Theorems.

(** ** Witnesses *)

Module PruneWitnesses.

#[local] Existing Instance toy_keccak.
#[local] Existing Instance toy_keys.

(** No key is a path-scheme key here. *)
#[local] Instance toy_node_keys : NodeKeys := {| ResolveAccountTrieNodeKey _ := None; ResolveStorageTrieNode _ := None |}.

Definition addressed (s : string) : bytes * bytes := let v := bytes_of_string s in (hash_bytes (sha256 v), v).

(** A kept node, an unreferenced one, a header and an unknown record. *)
Definition kept : store := list_to_map [addressed "live node"].
Definition source : store :=
  list_to_map [addressed "live node"; addressed "dead node"; (bytes_of_string "LastHeader", bytes_of_string "h");
               (replicate 32 x07, bytes_of_string "unknown")].
Definition pruned : store := delete (addressed "dead node").1 source.

Definition budget : pruneExecution := MkPruneExecution 2 32 16 32 16 1048576.

(** The run is the interesting part: a concrete deletion. *)
Definition run : result unit * deletion * world :=
  deletePruneDifference (λ l, Z.of_nat (length l)) kept budget [] (deletion_start source) calm.

#[local] Strategy 100 [deletePruneDifference scanPruneDB walkPruneDifference source pruned kept].

Lemma deletion_ok : is_ok run.1.1 = true ∧ de_db run.1.2 = pruned.
Proof. split; [by vm_compute|]. apply (bool_decide_eq_true_1 (de_db run.1.2 = pruned)). by vm_compute. Qed.

Lemma surjective {A B C} (x : A * B * C) : x = (x.1.1, x.1.2, x.2).
Proof. by destruct x as [[? ?] ?]. Qed.

Lemma deletion_eq : deletePruneDifference (λ l, Z.of_nat (length l)) kept budget [] (deletion_start source) calm = (run.1.1, run.1.2, run.2).
Proof. exact (surjective run). Qed.

Lemma prune_delete_safe_witness : de_db run.1.2 ⊆ source ∧ de_db run.1.2 = pruned.
Proof.
  split; [|exact (proj2 deletion_ok)].
  exact (proj1 (prune_delete_safe _ source kept budget [] calm _ _ _ eq_refl deletion_eq)).
Defined.

Definition scan_of (db : store) : result pruneInventory * unit * world := scanPruneDB db kept budget [[0%nat]] () calm.

Lemma scan_ok : is_ok (scan_of source).1.1 = true ∧ is_ok (scan_of pruned).1.1 = true.
Proof. by vm_compute. Qed.

Lemma scan_result db : is_ok (scan_of db).1.1 = true → ∃ inv s w, scanPruneDB db kept budget [[0%nat]] () calm = (Ok inv, s, w).
Proof. unfold scan_of. destruct (scanPruneDB _ _ _ _ _ _) as [[[inv|] s] w]; [eauto|done]. Qed.


Definition sizes_check (db : store) : bool := forallb (λ kv, (blen kv.1 <? two64) && (blen kv.2 <? two64)) (map_to_list db).
Lemma sizes_checked db : sizes_check db = true → sizes_ok db.
Proof.
  unfold sizes_check. rewrite List.forallb_forall. intros Hf k v Hk%elem_of_map_to_list%list_elem_of_In. specialize (Hf _ Hk). cbn in Hf.
  by apply andb_true_iff in Hf as [?%N.ltb_lt ?%N.ltb_lt].
Qed.


End PruneWitnesses.
