(* ===== verification/PruneKeep.v ===== *)
(** * The keep set and the budget of pruning ([prune_keep.go], [prune_execution.go], [prune.go])

    [pruneKeepWriter] records every state record read during the collection
    into the keep database: one batch per shard, chosen by the first byte of
    the key, with the values written since the last flush kept for comparison.
    Puts of concurrent readers are atomic per shard, so a run is a sequence of
    puts in the order they took their locks; their results may be discarded
    by the readers, the first failure is latched. [readPruneGenesis] reads the
    genesis root; [newPruneExecution] splits the budget. *)

From S2P Require Import Prelude Sha256 Geth Instances Manifest StrictIO Records Scanner Bundle Account StateTrie Consumer Stream Traverse AtomicDir Export DirectWriter OvmIndex OvmTransform PruneKeys PruneScan.

(** ** The writer *)

Record pruneKeepShard := MkKeepShard { ks_batch : list batch_op; ks_pending : gmap Hash bytes }.
#[export] Instance keep_shard_inhabited : Inhabited pruneKeepShard := populate (MkKeepShard [] ∅).

(** The writer over the keep database; [kw_canceled] is the context of the
    readers. *)
Record pruneKeepWriter := MkKeepWriter {
  kw_db : store;
  kw_shards : list pruneKeepShard;
  kw_failure : option error;
  kw_canceled : bool
}.

Definition newPruneKeepWriter (db : store) (workers : nat) : pruneKeepWriter :=
  MkKeepWriter db (replicate workers (MkKeepShard [] ∅)) None false.

Definition set_shard (i : nat) (s : pruneKeepShard) (k : pruneKeepWriter) : pruneKeepWriter :=
  MkKeepWriter (kw_db k) (<[i := s]> (kw_shards k)) (kw_failure k) (kw_canceled k).

(** [pruneKeepFailure.record] and [load]. *)
Definition keep_record (e : error) (k : pruneKeepWriter) : pruneKeepWriter :=
  match kw_failure k with
  | Some _ => k
  | None => MkKeepWriter (kw_db k) (kw_shards k) (Some e) true
  end.

(** [pruneKeepWriter.fail] around a call. *)
Definition keep_fail (m : M pruneKeepWriter unit) : M pruneKeepWriter unit :=
  c ← attempt m;
  match c with
  | Ok _ => mret ()
  | Err e => _ ← modify (keep_record e); fail e
  end.

Definition keep_load : M pruneKeepWriter unit :=
  f ← gets kw_failure;
  match f with Some e => fail e | None => mret () end.

Section KeepWriter.
Context `{Keccak, BatchSize, BatchValueSize}.

(** The batch is written as a whole; an error is possible before and after. *)
Definition shard_flush (i : nat) : M pruneKeepWriter unit :=
  _ ← wrap "write prune keep batch" io;
  _ ← modify (λ k, MkKeepWriter (apply_ops (kw_db k) (ks_batch (kw_shards k !!! i))) (kw_shards k) (kw_failure k) (kw_canceled k));
  _ ← wrap "write prune keep batch" io;
  modify (set_shard i (MkKeepShard [] ∅)).

Definition shard_put (i : nat) (hash : Hash) (value : bytes) : M pruneKeepWriter unit :=
  k ← get;
  let s := kw_shards k !!! i in
  match ks_pending s !! hash with
  | Some previous => lift (comparePruneValue (hash_bytes hash) previous value)
  | None =>
      _ ← io;
      let s' := MkKeepShard (ks_batch s ++ [BPut (hash_bytes hash) value]) (<[hash := value]> (ks_pending s)) in
      _ ← modify (set_shard i s');
      if (Z.of_N IdealBatchSize <=? ValueSize (ks_batch s'))%Z then shard_flush i else mret ()
  end.

(** [int(hash[0]) % len(w.shards)]. *)
Definition shard_of (n : nat) (hash : Hash) : nat := N.to_nat (byte_val (Vector.hd hash)) mod n.

Definition keep_put (key value : bytes) : M pruneKeepWriter unit :=
  _ ← keep_load;
  if negb (length key =? HashLength)%nat || negb (bool_decide (keccak256 value = BytesToHash key))
  then keep_fail (fail (EMsg "prune state hash does not match key"))
  else
    k ← get;
    let hash := BytesToHash key in
    keep_fail (shard_put (shard_of (length (kw_shards k)) hash) hash value).

Definition keep_close : M pruneKeepWriter unit :=
  _ ← keep_load;
  k ← get;
  for_each (seq 0 (length (kw_shards k))) (λ i, _ ← poll; keep_fail (shard_flush i)).

(** [pruneRecordingDB.Get] over a source database. *)
Definition recording_Get (db : store) (key : bytes) : M pruneKeepWriter bytes :=
  _ ← io;
  match db !! key with
  | None => fail ENotExist
  | Some value =>
      _ ← (if (length key =? HashLength)%nat then keep_put key value else mret ());
      mret value
  end.

End KeepWriter.

(** ** The genesis root *)

Section Genesis.
Context `{Keccak, EmptyHashes, HeaderRLP}.

(** Opening the genesis trie and moving to its first node; the trie library
    is a parameter: whether a first node is there, or an error. *)
Context (open_genesis : store → Hash → result bool).

Definition validatePruneGenesisRoot {St : Type} (db : store) (root : Hash) : M St unit :=
  r ← attempt (first ← lift (open_genesis db root);
               if (first : bool) then mret () else fail (EMsg "genesis root node is missing"));
  c ← attempt io;
  match errors_join (outcome r) (outcome c) with
  | None => mret ()
  | Some e => fail e
  end.

Definition readPruneGenesis {St : Type} (chain : chain_view) (db : store) : M St (Hash * option bytes) :=
  let hash := ReadCanonicalHash chain 0 in
  _ ← lift (reject_if (bool_decide (hash = zero_hash)) "prune requires the genesis canonical mapping in LevelDB");
  let blob := ReadHeaderRLP chain hash 0 in
  _ ← lift (reject_if (negb (bool_decide (keccak256 blob = hash))) "invalid or missing genesis header");
  h ← lift (wrap_err "decode prune genesis" (rlp_decode_header blob));
  _ ← lift (reject_if (negb (bool_decide (header_Number h = Some 0)) || bool_decide (header_Root h = zero_hash)) "invalid genesis number or state root");
  if bool_decide (header_Root h = EmptyRootHash) then mret (header_Root h, None) else
  _ ← wrap "read genesis root node" io;
  match db !! hash_bytes (header_Root h) with
  | None => fail (EWrap "read genesis root node" ENotExist)
  | Some node =>
      _ ← lift (reject_if (negb (bool_decide (keccak256 node = header_Root h))) "genesis root node hash mismatch");
      _ ← validatePruneGenesisRoot db (header_Root h);
      mret (header_Root h, Some node)
  end.

End Genesis.

(** ** The budget *)

Record PruneOptions := MkPruneOptions {
  po_Chaindata : string;
  po_TempDir : string;
  po_CacheMB : Z;
  po_Handles : Z;
  po_Workers : Z;
  po_DryRun : bool;
  po_Compact : bool
}.

(** A machine integer of Go's [int] type, on 64 bits. *)
Definition int64 (z : Z) : Z := ((z + 2 ^ 63) mod 2 ^ 64 - 2 ^ 63)%Z.

Definition maxMigrateWorkers : Z := 16.

(** The checks of [validatePruneOptions] on the numbers and flags. *)
Definition validatePruneNumbers (o : PruneOptions) : result unit :=
  _ ← reject_if (maxMigrateWorkers <? po_Workers o)%Z "workers must not exceed 16";
  _ ← reject_if ((po_CacheMB o <? 32) || (po_Handles o <? 32))%Z "prune cache-mb and handles must each be at least 32";
  reject_if (po_DryRun o && po_Compact o) "prune dry-run and compact are mutually exclusive".

Definition newPruneExecution (o : PruneOptions) : pruneExecution :=
  let keepCache := Z.max 16 (Z.quot (po_CacheMB o) 3) in
  let keepHandles := Z.max 16 (Z.quot (po_Handles o) 3) in
  MkPruneExecution (Z.of_nat (normalizeMigrateWorkers (po_Workers o)))
    (int64 (po_CacheMB o - keepCache)) keepCache (int64 (po_Handles o - keepHandles)) keepHandles
    (Z.max (2 ^ 20) (Z.min (2 ^ 24) (Z.quot (int64 (po_CacheMB o * 2 ^ 20)) 8))).

(** ** Lemmas on batches *)

(** A lookup depends on the database only at its key. *)
Lemma apply_ops_at db1 db2 ops k : db1 !! k = db2 !! k → apply_ops db1 ops !! k = apply_ops db2 ops !! k.
Proof.
  unfold apply_ops. revert db1 db2. induction ops as [|op ops IH]; intros db1 db2 He; [done|]. cbn. apply IH.
  destruct op as [k' v|k']; cbn; (destruct (decide (k = k')) as [->|]; [by rewrite ?lookup_insert_eq ?lookup_delete_eq|by rewrite ?lookup_insert_ne ?lookup_delete_ne]).
Qed.

Lemma apply_ops_other db ops k : (∀ op, op ∈ ops → ∃ k' v, op = BPut k' v ∧ k' ≠ k) → apply_ops db ops !! k = db !! k.
Proof.
  unfold apply_ops. revert db. induction ops as [|op ops IH]; intros db Hop; [done|]. cbn. rewrite IH.
  - destruct (Hop op ltac:(left)) as (k' & v & -> & Hne). cbn. by rewrite lookup_insert_ne.
  - intros o Ho. apply Hop. by right.
Qed.

(** ** The writer holds everything that was put *)

Section KeepLemmas.
Context `{Keccak, BatchSize, BatchValueSize}.

(** What the database holds at a key once the batches are written. *)
Definition keep_at (k : pruneKeepWriter) (key : bytes) : option bytes :=
  if decide (length key = HashLength)
  then apply_ops (kw_db k) (ks_batch (kw_shards k !!! shard_of (length (kw_shards k)) (BytesToHash key))) !! key
  else kw_db k !! key.

(** With [n] shards the writer stands for the database [view]. *)
Record keep_ok (n : nat) (view : store) (k : pruneKeepWriter) : Prop := {
  kp_shards : length (kw_shards k) = n;
  kp_batch i op : op ∈ ks_batch (kw_shards k !!! i) → ∃ h v, op = BPut (hash_bytes h) v ∧ shard_of n h = i;
  kp_pending i h v : ks_pending (kw_shards k !!! i) !! h = Some v → shard_of n h = i ∧ keep_at k (hash_bytes h) = Some v;
  kp_view key : keep_at k key = view !! key
}.

Lemma keep_at_hash k h : keep_at k (hash_bytes h) = apply_ops (kw_db k) (ks_batch (kw_shards k !!! shard_of (length (kw_shards k)) h)) !! hash_bytes h.
Proof. unfold keep_at. rewrite decide_True; [|apply length_hash_bytes]. by rewrite BytesToHash_hash. Qed.

Lemma shard_of_lt n h : (0 < n)%nat → (shard_of n h < n)%nat.
Proof. intros. apply Nat.mod_upper_bound. lia. Qed.

Lemma keep_ok_new n view : (0 < n)%nat → keep_ok n view (newPruneKeepWriter view n).
Proof.
  intros Hn. assert (∀ i, replicate n (MkKeepShard [] ∅) !!! i = MkKeepShard [] ∅) as Hr.
  { intros i. rewrite list_lookup_total_alt. destruct (replicate n (MkKeepShard [] ∅) !! i) as [s|] eqn:E; [|done]. by apply lookup_replicate in E as [-> _]. }
  split; cbn; rewrite ?length_replicate //.
  - intros i op. rewrite Hr. by intros ?%not_elem_of_nil.
  - intros i h v. by rewrite Hr lookup_empty.
  - intros key. unfold keep_at. cbn. rewrite Hr. by case_decide.
Qed.

(** Writing the batch of one shard changes nothing in the view. *)
Lemma keep_at_flush n view k i key :
  keep_ok n view k → (i < n)%nat →
  keep_at (MkKeepWriter (apply_ops (kw_db k) (ks_batch (kw_shards k !!! i))) (<[i := MkKeepShard [] ∅]> (kw_shards k)) (kw_failure k) (kw_canceled k)) key = keep_at k key.
Proof.
  intros [Hl Hb _ _] Hi. unfold keep_at. cbn. rewrite length_insert.
  assert (∀ k', (length k' = HashLength → shard_of n (BytesToHash k') ≠ i) → apply_ops (kw_db k) (ks_batch (kw_shards k !!! i)) !! k' = kw_db k !! k') as Ho.
  { intros k' Hk'. apply apply_ops_other. intros op Hop. destruct (Hb i op Hop) as (h & v & -> & Hs). exists (hash_bytes h), v. split; [done|].
    intros <-. apply Hk'; [apply length_hash_bytes|]. by rewrite BytesToHash_hash. }
  case_decide as Hlen; [|apply Ho; tauto]. rewrite Hl. destruct (decide (shard_of n (BytesToHash key) = i)) as [He|Hne].
  - rewrite He list_lookup_total_insert_eq; [done|lia].
  - rewrite list_lookup_total_insert_ne //. apply apply_ops_at, Ho. done.
Qed.

Lemma keep_ok_flush n view k i :
  keep_ok n view k → (i < n)%nat →
  keep_ok n view (MkKeepWriter (apply_ops (kw_db k) (ks_batch (kw_shards k !!! i))) (<[i := MkKeepShard [] ∅]> (kw_shards k)) (kw_failure k) (kw_canceled k)).
Proof.
  intros Hk Hi. pose proof (keep_at_flush n view k i) as Ha. pose proof (kp_shards _ _ _ Hk) as Hl.
  assert (∀ j, <[i := MkKeepShard [] ∅]> (kw_shards k) !!! j = if decide (j = i) then MkKeepShard [] ∅ else kw_shards k !!! j) as Hj.
  { intros j. destruct (decide (j = i)) as [->|]; [apply list_lookup_total_insert_eq; lia|by apply list_lookup_total_insert_ne]. }
  split.
  - cbn. by rewrite length_insert.
  - intros j op. cbn. rewrite Hj. case_decide; [by intros ?%not_elem_of_nil|]. by apply Hk.
  - intros j h v. cbn [kw_shards]. rewrite Hj. case_decide; [by rewrite lookup_empty|]. intros Hp. rewrite Ha //. by apply Hk.
  - intros key. rewrite Ha //. by apply Hk.
Qed.

Lemma keep_ok_failed n view k e : keep_ok n view k → keep_ok n view (keep_record e k).
Proof. intros Hk. unfold keep_record. destruct (kw_failure k); [done|]. destruct Hk. by split. Qed.

Lemma shard_flush_ok n view i k w k' w' :
  keep_ok n view k → (i < n)%nat → shard_flush i k w = (Ok (), k', w') → keep_ok n view k' ∧ kw_failure k' = kw_failure k ∧ ks_batch (kw_shards k' !!! i) = [] ∧
    (∀ j, j ≠ i → kw_shards k' !!! j = kw_shards k !!! j) ∧ length (kw_shards k') = n.
Proof.
  intros Hk Hi Hr. unfold shard_flush in Hr. minv. pose proof (kp_shards _ _ _ Hk) as Hl. cbn in *.
  split; [exact (keep_ok_flush n view k i Hk Hi)|]. split; [done|]. split; [by rewrite list_lookup_total_insert_eq; [|lia]|].
  split; [|by rewrite length_insert]. intros j Hj. by rewrite list_lookup_total_insert_ne.
Qed.

Lemma keep_at_put n view k i h v key :
  keep_ok n view k → i = shard_of n h → (i < n)%nat →
  keep_at (set_shard i (MkKeepShard (ks_batch (kw_shards k !!! i) ++ [BPut (hash_bytes h) v]) (<[h := v]> (ks_pending (kw_shards k !!! i)))) k) key =
  <[hash_bytes h := v]> view !! key.
Proof.
  intros Hk -> Hi. pose proof (kp_shards _ _ _ Hk) as Hl. pose proof (kp_view _ _ _ Hk key) as Hv. unfold keep_at in *. cbn [set_shard kw_db kw_shards]. rewrite length_insert Hl.
  rewrite Hl in Hv. case_decide as Hlen.
  - destruct (decide (shard_of n (BytesToHash key) = shard_of n h)) as [He|Hne].
    + rewrite He list_lookup_total_insert_eq; [|lia]. cbn [ks_batch]. rewrite apply_ops_app. cbn [apply_ops foldl apply_op]. rewrite He in Hv.
      destruct (decide (hash_bytes h = key)) as [<-|Hk']; [by rewrite !lookup_insert_eq|by rewrite !lookup_insert_ne].
    + rewrite list_lookup_total_insert_ne //. rewrite lookup_insert_ne //. intros <-. by rewrite BytesToHash_hash in Hne.
  - rewrite lookup_insert_ne //. intros <-. by rewrite length_hash_bytes in Hlen.
Qed.

Lemma keep_ok_put n view k i h v :
  keep_ok n view k → i = shard_of n h → (i < n)%nat → ks_pending (kw_shards k !!! i) !! h = None →
  keep_ok n (<[hash_bytes h := v]> view)
    (set_shard i (MkKeepShard (ks_batch (kw_shards k !!! i) ++ [BPut (hash_bytes h) v]) (<[h := v]> (ks_pending (kw_shards k !!! i)))) k).
Proof.
  intros Hk Hi Hlt Hn. pose proof (kp_shards _ _ _ Hk) as Hl. pose proof (keep_at_put n view k i h v) as Ha.
  set (s' := MkKeepShard _ _) in *.
  assert (∀ j, <[i := s']> (kw_shards k) !!! j = if decide (j = i) then s' else kw_shards k !!! j) as Hj.
  { intros j. destruct (decide (j = i)) as [->|]; [apply list_lookup_total_insert_eq; lia|by apply list_lookup_total_insert_ne]. }
  split.
  - cbn. by rewrite length_insert.
  - intros j op. cbn. rewrite Hj. case_decide as Hji; [|by apply Hk]. subst j. cbn. intros [Ho|Ho]%elem_of_app; [by apply Hk|].
    apply list_elem_of_singleton in Ho as ->. by exists h, v.
  - intros j h' v'. cbn [kw_shards set_shard]. rewrite Hj. rewrite Ha //. case_decide as Hji.
    + subst j. cbn. destruct (decide (h = h')) as [<-|Hne]; [rewrite !lookup_insert_eq; naive_solver|].
      rewrite lookup_insert_ne // lookup_insert_ne; [|by intros ?%hash_bytes_inj]. rewrite -(kp_view _ _ _ Hk). apply Hk.
    + intros Hp. destruct (kp_pending _ _ _ Hk _ _ _ Hp) as [Hs Hat]. split; [done|]. rewrite lookup_insert_ne; [by rewrite -(kp_view _ _ _ Hk)|].
      intros ->%hash_bytes_inj. by rewrite Hs in Hi.
  - intros key. by apply Ha.
Qed.

Lemma shard_put_ok n view i h v k w k' w' :
  keep_ok n view k → i = shard_of n h → (i < n)%nat → shard_put i h v k w = (Ok (), k', w') →
  keep_ok n (<[hash_bytes h := v]> view) k' ∧ kw_failure k' = kw_failure k.
Proof.
  intros Hk Hi Hlt Hr. unfold shard_put in Hr. apply bind_ok in Hr as (k1 & k2 & w1 & (-> & -> & ->)%get_ok & Hr).
  destruct (ks_pending (kw_shards k !!! i) !! h) as [previous|] eqn:Ep.
  - apply lift_ok in Hr as (Hc & -> & ->). unfold comparePruneValue in Hc. apply reject_if_ok, negb_false_iff, bytes_equal_spec in Hc as <-.
    split; [|done]. rewrite insert_id; [done|]. rewrite -(kp_view _ _ _ Hk). by eapply kp_pending.
  - apply bind_ok in Hr as ([] & k1 & w2 & ->%io_ok & Hr). apply bind_ok in Hr as ([] & k2 & w3 & (-> & ->)%modify_ok & Hr).
    pose proof (keep_ok_put n view k i h v Hk Hi Hlt Ep) as Hk'. destruct (_ <=? _)%Z.
    + eapply shard_flush_ok in Hr; [|done|done]. cbn in Hr. tauto.
    + apply ret_ok in Hr as (_ & -> & ->). done.
Qed.

Lemma keep_fail_cases (m : M pruneKeepWriter unit) k w r k' w' :
  keep_fail m k w = (r, k', w') →
  match r with Ok _ => m k w = (Ok (), k', w') | Err e => is_Some (kw_failure k') end.
Proof.
  unfold keep_fail, mbind, M_bind, attempt. destruct (m k w) as [[[[]|e] k1] w1]; cbn; intros [= <- <- <-]; [done|].
  unfold keep_record. destruct (kw_failure k1) eqn:E; cbn; [by rewrite E|eauto].
Qed.

Lemma keep_fail_latched (m : M pruneKeepWriter unit) k w r k' w' :
  (∀ w r k' w', m k w = (r, k', w') → kw_failure k' = kw_failure k) → keep_fail m k w = (r, k', w') → is_Some (kw_failure k) → is_Some (kw_failure k').
Proof.
  intros Hm. unfold keep_fail, mbind, M_bind, attempt. destruct (m k w) as [[[[]|e] k1] w1] eqn:Em; cbn; intros [= <- <- <-];
    apply Hm in Em; unfold keep_record; rewrite -Em; [done|]. intros [f Hf]. rewrite Hf. by rewrite Hf.
Qed.

(** One put: recorded, or a failure that stays. *)
Lemma keep_put_cases n view key v k w r k' w' :
  (0 < n)%nat → keep_ok n view k → kw_failure k = None → keep_put key v k w = (r, k', w') →
  is_Some (kw_failure k') ∨
  (r = Ok () ∧ keep_ok n (<[key := v]> view) k' ∧ kw_failure k' = None ∧ length key = HashLength ∧ hash_bytes (keccak256 v) = key).
Proof.
  intros Hn Hk Hf. unfold keep_put. unfold keep_load. rewrite (bind_run _ _ _ _ () k w); [|by rewrite /mbind /M_bind /gets Hf].
  destruct (negb _ || negb _) eqn:Ec.
  - intros Hr. apply keep_fail_cases in Hr as Hr'. destruct r; [done|by left].
  - apply orb_false_iff in Ec as [El Eh]. apply negb_false_iff, Nat.eqb_eq in El. apply negb_false_iff, bool_decide_eq_true in Eh.
    rewrite (bind_run _ _ _ _ k k w); [|done]. rewrite (kp_shards _ _ _ Hk). intros Hr. apply keep_fail_cases in Hr. destruct r as [[]|]; [|by left]. right.
    eapply shard_put_ok in Hr as [Hk' Hf']; [|done|done|by apply shard_of_lt]. rewrite BytesToHash_exact // in Hk'. rewrite Hf in Hf'.
    split; [done|]. do 3 (split; [done|]). by rewrite Eh BytesToHash_exact.
Qed.

Lemma keep_put_latched key v k w r k' w' : is_Some (kw_failure k) → keep_put key v k w = (r, k', w') → k' = k.
Proof.
  intros [e Hf]. unfold keep_put, keep_load, mbind, M_bind, gets. rewrite Hf. by intros [= <- <- <-].
Qed.

(** A sequence of puts whose results nobody looked at. *)
Definition puts_run (l : list (bytes * bytes)) (k k' : pruneKeepWriter) : Prop :=
  steps (λ kv k k', ∃ w r w', keep_put kv.1 kv.2 k w = (r, k', w')) l k k'.

Lemma puts_latched l k k' : puts_run l k k' → is_Some (kw_failure k) → is_Some (kw_failure k').
Proof.
  induction 1 as [|kv l k k1 k2 (w & r & w' & Hr) _ IH]; [done|]. intros Hx. apply IH.
  by rewrite (keep_put_latched _ _ _ _ _ _ _ Hx Hr).
Qed.

Definition put_all (view : store) (l : list (bytes * bytes)) : store := apply_ops view ((λ kv, BPut kv.1 kv.2) <$> l).

Lemma puts_cases n view l k k' :
  (0 < n)%nat → puts_run l k k' → keep_ok n view k → kw_failure k = None →
  is_Some (kw_failure k') ∨
  (keep_ok n (put_all view l) k' ∧ kw_failure k' = None ∧ Forall (λ kv, length kv.1 = HashLength ∧ hash_bytes (keccak256 kv.2) = kv.1) l).
Proof.
  intros Hn Hs. revert view. induction Hs as [k|[key v] l k k1 k2 (w & r & w' & Hr) Hs IH]; intros view Hk Hf; [by right|].
  cbn in Hr. eapply keep_put_cases in Hr as [Hx|(_ & Hk1 & Hf1 & Hl & Hh)]; [| |done..].
  - left. by eapply puts_latched.
  - destruct (IH _ Hk1 Hf1) as [?|(? & ? & ?)]; [by left|]. right. split; [done|]. split; [done|]. by constructor.
Qed.

Lemma keep_load_ok k w k' w' : keep_load k w = (Ok (), k', w') → k' = k ∧ kw_failure k = None.
Proof.
  unfold keep_load. intros (f & k1 & w1 & (-> & -> & ->)%gets_ok & Hm)%bind_ok.
  destruct (kw_failure k); [by apply fail_ok in Hm|by apply ret_ok in Hm as (_ & -> & _)].
Qed.

(** Closing writes all batches. *)
Lemma close_loop n view m k w k' w' :
  keep_ok n view k → (m ≤ n)%nat → (∀ j, (j < n - m)%nat → ks_batch (kw_shards k !!! j) = []) →
  for_each (seq (n - m) m) (λ i, _ ← poll; keep_fail (shard_flush i)) k w = (Ok (), k', w') →
  keep_ok n view k' ∧ ∀ j, (j < n)%nat → ks_batch (kw_shards k' !!! j) = [].
Proof.
  revert k w. induction m as [|m IH]; intros k w Hk Hm Hj; cbn [seq for_each].
  - intros (_ & -> & ->)%ret_ok. split; [done|]. intros j Hjn. apply Hj. lia.
  - intros ([] & k1 & w1 & Hr & Hrest)%bind_ok. apply bind_ok in Hr as ([] & k2 & w2 & ->%poll_ok & Hr). apply keep_fail_cases in Hr.
    eapply shard_flush_ok in Hr as (Hk1 & _ & Hb & Ho & _); [|done|lia].
    replace (S (n - S m)) with (n - m)%nat in Hrest by lia. eapply IH in Hrest; [done|done|lia|].
    intros j Hjm. destruct (decide (j = n - S m)%nat) as [->|Hne]; [done|]. rewrite Ho //. apply Hj. lia.
Qed.

Lemma keep_close_ok n view k w k' w' :
  (0 < n)%nat → keep_ok n view k → keep_close k w = (Ok (), k', w') → kw_db k' = view.
Proof.
  intros Hn Hk. unfold keep_close. intros ([] & k1 & w1 & Hl & Hr)%bind_ok.
  apply keep_load_ok in Hl as [-> _].
  apply bind_ok in Hr as (? & ? & ? & (-> & -> & ->)%get_ok & Hr). rewrite (kp_shards _ _ _ Hk) in Hr.
  pose proof (close_loop n view n k w1 k' w') as Hc. rewrite Nat.sub_diag in Hc. apply Hc in Hr as [Hk' Hb]; [|done|done|lia].
  apply map_eq. intros key. rewrite -(kp_view _ _ _ Hk'). unfold keep_at. rewrite (kp_shards _ _ _ Hk'). case_decide; [|done].
  rewrite Hb; [done|]. by apply shard_of_lt.
Qed.

End KeepLemmas.

(** ** The theorems *)

Section KeepTheorems.
Context `{Keccak, BatchSize, BatchValueSize}.

(** C38: The keep set is complete and content-addressed. For any number of
    shards and any sequence of puts, in any environment and even if every
    result was discarded: if the writer closes without an error, then every
    put had a 32-byte key that is the hash of its value, and the keep database
    is the original one with all puts applied, in order. *)
Theorem keep_set_complete db workers puts k w k' w' :
  (0 < workers)%nat → puts_run puts (newPruneKeepWriter db workers) k → keep_close k w = (Ok (), k', w') →
  Forall (λ kv, length kv.1 = HashLength ∧ hash_bytes (keccak256 kv.2) = kv.1) puts ∧ kw_db k' = put_all db puts.
Proof.
  intros Hn Hs Hc. destruct (puts_cases workers db puts _ _ Hn Hs (keep_ok_new _ _ Hn) eq_refl) as [[e He]|(Hk & Hf & Hp)].
  - unfold keep_close in Hc. apply bind_ok in Hc as ([] & k1 & w1 & [_ Hn']%keep_load_ok & _). by rewrite He in Hn'.
  - split; [done|]. by eapply keep_close_ok.
Qed.

End KeepTheorems.

(** C39: The budget is split safely: accepted options give each database at
    least 16 MiB of cache and 16 handles, the parts add up to what the
    operator allowed, the number of workers is between 2 and 16, and the
    byte limit of the scan is between 1 and 16 MiB for every cache size, also
    where the product overflows the machine integer. *)
Theorem prune_budget_bounds o :
  validatePruneNumbers o = Ok () → (po_CacheMB o < 2 ^ 63)%Z → (po_Handles o < 2 ^ 63)%Z →
  let e := newPruneExecution o in
  (16 ≤ pe_sourceCache e ∧ 16 ≤ pe_keepCache e ∧ pe_sourceCache e + pe_keepCache e = po_CacheMB o ∧
   16 ≤ pe_sourceHandles e ∧ 16 ≤ pe_keepHandles e ∧ pe_sourceHandles e + pe_keepHandles e = po_Handles o ∧
   2 ≤ pe_workers e ≤ 16 ∧ 2 ^ 20 ≤ pe_scanBytes e ≤ 2 ^ 24)%Z.
Proof.
  unfold validatePruneNumbers. intros Hv Hc Hh. apply result_bind_ok in Hv as ([] & Hw%reject_if_ok & Hv).
  apply result_bind_ok in Hv as ([] & Hm%reject_if_ok & _). apply orb_false_iff in Hm as [H1%Z.ltb_ge H2%Z.ltb_ge]. apply Z.ltb_ge in Hw.
  unfold maxMigrateWorkers in Hw.
  assert (∀ c, (32 ≤ c < 2 ^ 63)%Z → (16 ≤ int64 (c - Z.max 16 (Z.quot c 3)))%Z ∧ (int64 (c - Z.max 16 (Z.quot c 3)) + Z.max 16 (Z.quot c 3) = c)%Z) as Hs.
  { intros c [Hlo Hhi]. rewrite Z.quot_div_nonneg; [|lia..]. pose proof (Z.div_mod c 3 ltac:(lia)). pose proof (Z.mod_pos_bound c 3 ltac:(lia)).
    assert (int64 (c - Z.max 16 (c / 3)) = c - Z.max 16 (c / 3))%Z as ->; [unfold int64; rewrite Z.mod_small; lia|lia]. }
  destruct (Hs _ (conj H1 Hc)) as [? ?], (Hs _ (conj H2 Hh)) as [? ?]. cbn [newPruneExecution pe_sourceCache pe_keepCache pe_sourceHandles pe_keepHandles pe_workers pe_scanBytes].
  unfold normalizeMigrateWorkers, minMigrateWorkers. repeat split; try done; lia.
Qed.

(** ** Witnesses *)

Module KeepWitnesses.

#[local] Existing Instance toy_keccak.
#[local] Existing Instance toy_batch.
#[local] Existing Instance SampleTarget.toy_value_size.

Definition node (s : string) : bytes * bytes := let v := bytes_of_string s in (hash_bytes (sha256 v), v).
Definition reads : list (bytes * bytes) := [node "a"; node "b"; node "a"].

Definition after_put (k : pruneKeepWriter) (kv : bytes * bytes) : pruneKeepWriter := (keep_put kv.1 kv.2 k calm).1.2.
Definition filled : pruneKeepWriter := foldl after_put (newPruneKeepWriter ∅ 3) reads.
Definition closed : result unit * pruneKeepWriter * world := keep_close filled calm.

#[local] Strategy 100 [keep_put keep_close].

Lemma foldl_puts l k : puts_run l k (foldl after_put k l).
Proof.
  revert k. induction l as [|kv l IH]; intros k; [constructor|]. cbn. apply steps_cons with (c1 := after_put k kv); [|apply IH].
  unfold after_put. destruct (keep_put kv.1 kv.2 k calm) as [[r k'] w'] eqn:E. by exists calm, r, w'.
Qed.

Lemma closed_ok : ∃ k' w', keep_close filled calm = (Ok (), k', w') ∧ kw_db k' = list_to_map [node "a"; node "b"].
Proof.
  assert (is_ok closed.1.1 = true) as Ho by by vm_compute.
  assert (kw_db closed.1.2 = list_to_map [node "a"; node "b"]) as Hd.
  { apply (bool_decide_eq_true_1 (kw_db closed.1.2 = list_to_map [node "a"; node "b"])). by vm_compute. }
  unfold closed in *. revert Ho Hd. destruct (keep_close filled calm) as [[[[]|] k'] w']; cbn; [|done]. intros _ Hd. by exists k', w'.
Qed.

Lemma keep_set_complete_witness : (list_to_map [node "a"; node "b"] : store) = put_all ∅ reads.
Proof.
  destruct closed_ok as (k' & w' & Hc & Hd). rewrite -Hd.
  exact (proj2 (keep_set_complete ∅ 3 reads filled calm k' w' ltac:(lia) (foldl_puts reads _) Hc)).
Defined.

Definition options : PruneOptions := MkPruneOptions "chaindata" "" 64 128 4 false true.

Lemma prune_budget_bounds_witness : (2 ^ 20 ≤ pe_scanBytes (newPruneExecution options) ≤ 2 ^ 24)%Z.
Proof. pose proof (prune_budget_bounds options eq_refl eq_refl eq_refl) as Hb. cbv zeta in Hb. tauto. Defined.

End KeepWitnesses.
