(* ===== verification/PruneDB.v ===== *)
(** * The database that is pruned ([prune_db.go], [prune_manifest.go])

    Pruning keeps the lock of a LevelDB directory over several sessions. Before
    each session it inspects the directory itself: every entry is a regular
    file (or the directory of ancient blocks), no publication of a manifest is
    pending, and [CURRENT] names an existing manifest in its only spelling, so
    that the engine has nothing to repair. The engine changes its files between
    sessions; each inspection sees a directory of its own, [files]. What is in
    the database is a finite map, which sessions leave alone. *)

From S2P Require Import Prelude Manifest StrictIO AtomicDir Export DirectWriter OvmIndex PruneKeep.

(** ** Inspecting the directory *)

(** An entry as [ReadDir] returns it; [Info] may fail. *)
Record dir_entry := MkDirEntry { en_Name : string; en_IsDir : bool; en_Info : result file_info }.

(** What an inspection sees: the entries in the order of the directory, and for
    a strict reading what [Lstat] reports of the root before and after opening
    it and the content of the directory at its two looks. *)
Record prune_files := MkPruneFiles {
  pf_entries : list dir_entry;
  pf_before : result file_info;
  pf_opened : result file_info;
  pf_dir : directory;
  pf_dir' : directory
}.

Section Walk.
Context {St : Type} (visit : dir_entry → M St unit).

Definition visit_entry (entry : dir_entry) : M St unit :=
  if bool_decide (en_Name entry = "ancient"%string) && en_IsDir entry then mret () else
  info ← lift (en_Info entry);
  _ ← lift (reject_if (negb (isRegular info)) "unexpected prune database entry");
  visit entry.

(** The loop of [ReadDir(128)]: it ends with an empty batch. *)
Fixpoint read_dir (fuel : nat) (entries : list dir_entry) : M St unit :=
  match fuel with
  | O => mret ()
  | S fuel' =>
      _ ← io;
      match entries with
      | [] => mret ()
      | _ => _ ← for_each (take 128 entries) visit_entry; read_dir fuel' (drop 128 entries)
      end
  end.

Definition walkPruneFiles (entries : list dir_entry) : M St unit :=
  _ ← wrap "open prune directory" io;
  finally (read_dir (S (length entries)) entries) io.

End Walk.

(** The files of the database are synced after the writer has closed. *)
Definition syncPruneFiles (entries : list dir_entry) (p : path) : M fsys unit :=
  _ ← walkPruneFiles (λ _, _ ← poll; syncFile) entries;
  syncDirectory p.

(** ** The options *)

Section Options.
Context (E : os_env).

Definition validatePruneDirectory (f : fsys) (s : string) : result path :=
  _ ← reject_if (bool_decide (s = ""%string)) "chaindata is required";
  abs ← path_abs (os_cwd E) s;
  real ← EvalSymlinks f abs;
  _ ← reject_if (negb (bool_decide (real = abs))) "prune paths must not contain symlinks";
  info ← os_Lstat f abs;
  _ ← reject_if (match info with FDir _ => false | _ => true end) "prune path must be a directory";
  Ok abs.

Definition validatePruneEntries {St} (files : prune_files) : M St unit :=
  _ ← walkPruneFiles (λ _, mret ()) (pf_entries files);
  info ← wrap "prune requires an existing LevelDB CURRENT" (_ ← io; lift (lstat (pf_dir files) "CURRENT"));
  lift (reject_if (negb (isRegular info)) "LevelDB CURRENT is not a regular file").

Definition validatePruneOptions (o : PruneOptions) (files : prune_files) : M fsys (path * path) :=
  _ ← lift (validatePruneNumbers o);
  f ← get;
  p ← lift (validatePruneDirectory f (po_Chaindata o));
  _ ← validatePruneEntries files;
  let parent := if bool_decide (po_TempDir o = ""%string) then path_text (path_dir p) else po_TempDir o in
  parent ← lift (validatePruneDirectory f parent);
  _ ← lift (rejectOutputInsideDirectory E f (path_text p) (path_text parent)
              "prune temp-dir must be outside chaindata" "prune temp-dir aliases chaindata");
  mret (p, parent).

End Options.

(** ** CURRENT and the manifest *)

(** [strings.CutPrefix] and [strings.CutSuffix]. *)
Definition cut_prefix (s prefix : bytes) : bytes * bool :=
  if has_prefix s prefix then (drop (length prefix) s, true) else (s, false).
Definition cut_suffix (s suffix : bytes) : bytes * bool :=
  let n := (length s - length suffix)%nat in
  if bool_decide (drop n s = suffix) then (take n s, true) else (s, false).

(** [strconv.ParseInt(s, 10, 64)]; [None] for every error. *)
Fixpoint parse_digits (acc : Z) (s : bytes) : option Z :=
  match s with
  | [] => Some acc
  | c :: s' => if PruneKeys.is_digit c then parse_digits (acc * 10 + (Z.of_N (byte_val c) - 48)) s' else None
  end.
Definition ParseInt (s : bytes) : option Z :=
  let '(neg, digits) := match s with
                        | x2b :: s' => (false, s')
                        | x2d :: s' => (true, s')
                        | _ => (false, s)
                        end in
  if bool_decide (digits = []) then None else
  match parse_digits 0 digits with
  | None => None
  | Some n => if neg then (if n <=? 2 ^ 63 then Some (- n) else None)%Z else (if n <? 2 ^ 63 then Some n else None)%Z
  end.

(** goleveldb's [storage.FileDesc]; [String] is the name of its file. *)
Inductive FileType := TypeManifest | TypeJournal | TypeTable | TypeTemp.
Record FileDesc := MkFileDesc { fd_Type : FileType; fd_Num : Z }.
Class FileDescNames := { FileDesc_String : FileDesc → bytes }.

(** A manifest's name is the word and its number with at least six digits. *)
Class FileDescLaws `{FileDescNames} : Prop := {
  manifest_name n : (0 ≤ n)%Z → ∃ digits, FileDesc_String (MkFileDesc TypeManifest n) = bytes_of_string "MANIFEST-" ++ digits ∧
    digits ≠ [] ∧ Forall (λ c, PruneKeys.is_digit c = true) digits ∧ parse_digits 0 digits = Some n
}.

Section Manifest.
Context `{FileDescNames}.

Definition parsePruneCurrent (current : bytes) : result FileDesc :=
  let '(name, newline) := cut_suffix current [x0a] in
  let '(number, prefix) := cut_prefix name (bytes_of_string "MANIFEST-") in
  let invalid := EMsg "invalid prune CURRENT; refusing manifest backup fallback or repair" in
  match ParseInt number with
  | None => Err invalid
  | Some n =>
      let fd := MkFileDesc TypeManifest n in
      if negb newline || negb prefix || (n <? 0)%Z || negb (bytes_equal name (FileDesc_String fd)) then Err invalid else Ok fd
  end.

Definition rejectPendingPruneCurrent (entry : dir_entry) : result unit :=
  let '(suffix, ok) := cut_prefix (bytes_of_string (en_Name entry)) (bytes_of_string "CURRENT.") in
  if negb ok || bytes_equal suffix (bytes_of_string "bak") then Ok () else
  match ParseInt suffix with
  | Some _ => Err (EMsg "pending LevelDB manifest publication; refusing prune metadata recovery")
  | None => Ok ()
  end.

(** [pruneManifestStorage.GetMeta]. *)
Definition GetMeta {St} (files : prune_files) : M St FileDesc :=
  _ ← walkPruneFiles (λ entry, lift (rejectPendingPruneCurrent entry)) (pf_entries files);
  _ ← OpenRoot (pf_before files) (pf_opened files);
  finally (
    current ← wrap "read prune CURRENT without fallback" (ReadRegular (pf_dir files) (pf_dir' files) "CURRENT" 64);
    fd ← lift (parsePruneCurrent current);
    _ ← wrap "open manifest named by prune CURRENT without fallback"
          (OpenRegular (pf_dir files) (pf_dir' files) (String.string_of_list_byte (FileDesc_String fd)));
    _ ← wrap "close inspected prune manifest" io;
    mret fd) io.

End Manifest.

(** ** Sessions *)

(** The content of the database, the open session ([Some true] is read-only),
    the lock, and how often the directory was inspected. *)
Record pruneDatabase := MkPruneDB {
  pd_db : store;
  pd_session : option bool;
  pd_locked : bool;
  pd_looks : nat
}.

Definition set_session (s : option bool) (d : pruneDatabase) : pruneDatabase := MkPruneDB (pd_db d) s (pd_locked d) (pd_looks d).
Definition set_locked (b : bool) (d : pruneDatabase) : pruneDatabase := MkPruneDB (pd_db d) (pd_session d) b (pd_looks d).
Definition set_db (db : store) (d : pruneDatabase) : pruneDatabase := MkPruneDB db (pd_session d) (pd_locked d) (pd_looks d).

Section Sessions.
Context `{FileDescNames} (files : nat → prune_files).

(** The next inspection of the directory. *)
Definition look : M pruneDatabase prune_files :=
  n ← gets pd_looks;
  _ ← modify (λ d, MkPruneDB (pd_db d) (pd_session d) (pd_locked d) (S (pd_looks d)));
  mret (files n).

Definition closeDB : M pruneDatabase unit :=
  s ← gets pd_session;
  match s with
  | None => mret ()
  | Some _ => _ ← modify (set_session None); wrap "close prune database" io
  end.

(** The engine asks for the manifest when it opens the database. *)
Definition reopen (readOnly : bool) : M pruneDatabase unit :=
  _ ← closeDB;
  seen ← look;
  _ ← wrap "open prune database" (_ ← GetMeta seen; io);
  modify (set_session (Some readOnly)).

Definition storage_Close : M pruneDatabase unit := _ ← modify (set_locked false); io.

Definition db_close : M pruneDatabase unit := finally closeDB storage_Close.

Definition openPruneDatabase (dryRun : bool) : M pruneDatabase unit :=
  _ ← (if dryRun then
         seen ← look;
         info ← wrap "prune dry-run requires an existing LevelDB LOCK file" (_ ← io; lift (lstat (pf_dir seen) "LOCK"));
         lift (reject_if (negb (isRegular info)) "prune dry-run requires a regular LevelDB LOCK file")
       else mret ());
  _ ← wrap "lock prune database" io;
  _ ← modify (set_locked true);
  r ← attempt (reopen true);
  match r with
  | Ok _ => mret ()
  | Err e =>
      c ← attempt storage_Close;
      match c with Ok _ => fail e | Err e' => fail (EJoin e e') end
  end.

End Sessions.

(** ** Lemmas on inspections *)

Section WalkLemmas.
Context {St : Type}.

Lemma for_each_ok {A} (l : list A) (body : A → M St unit) s w u s' w' :
  for_each l body s w = (Ok u, s', w') → Forall (λ x, ∃ s1 w1 u1 s2 w2, body x s1 w1 = (Ok u1, s2, w2)) l.
Proof.
  revert s w. induction l as [|x l IH]; intros s w Hr; [constructor|]. cbn [for_each] in Hr. mstep Hr. constructor; [eauto 10|by eapply IH].
Qed.

Lemma walk_keeps P (visit : dir_entry → M St unit) entries : (∀ e, keeps P (visit e)) → keeps P (walkPruneFiles visit entries).
Proof.
  intros Hv. unfold walkPruneFiles. repeat keeps_step. generalize (S (length entries)). intros n. revert entries.
  induction n as [|n IH]; intros entries; cbn [read_dir]; [apply keeps_ret|]. keeps_step; [keeps_step|]. destruct entries; [keeps_step|].
  keeps_step; [|apply IH]. keeps_step. unfold visit_entry. repeat keeps_step. apply Hv.
Qed.

(** The directory of ancient blocks is left out, everything else must be a
    regular file. *)
Definition is_ancient (e : dir_entry) : Prop := en_Name e = "ancient"%string ∧ en_IsDir e = true.
Definition entry_visited (visit : dir_entry → M St unit) (e : dir_entry) : Prop :=
  is_ancient e ∨
  (∃ info, en_Info e = Ok info ∧ fi_mode info = ModeRegular) ∧ ∃ s w u s' w', visit e s w = (Ok u, s', w').

Lemma visit_entry_ok visit e s w u s' w' : visit_entry (St:=St) visit e s w = (Ok u, s', w') → entry_visited visit e.
Proof.
  unfold visit_entry. destruct (bool_decide _ && _) eqn:Ea.
  - intros _. apply andb_true_iff in Ea as [Ea ?]. apply bool_decide_eq_true in Ea. by left.
  - intros Hr. minv. right. split; [|eauto 10]. eexists. split; [done|].
    match goal with Hx : negb (isRegular _) = false |- _ => by apply negb_false_iff, bool_decide_eq_true in Hx end.
Qed.

Lemma read_dir_ok visit fuel entries s w u s' w' :
  (length entries < fuel)%nat → read_dir (St:=St) visit fuel entries s w = (Ok u, s', w') → Forall (entry_visited visit) entries.
Proof.
  revert entries s w. induction fuel as [|fuel IH]; intros entries s w Hl Hr; [lia|]. cbn [read_dir] in Hr. mstep Hr.
  destruct entries as [|e entries]; [constructor|]. mstep Hr. apply IH in Hr.
  - rewrite -(take_drop 128 (e :: entries)). apply Forall_app. split; [|exact Hr].
    match goal with Hx : for_each _ _ _ _ = _ |- _ => apply for_each_ok in Hx; eapply Forall_impl; [exact Hx|] end.
    intros y (? & ? & ? & ? & ? & Hy). by eapply visit_entry_ok.
  - rewrite length_drop. cbn [length] in *. lia.
Qed.

Lemma walkPruneFiles_ok visit entries s w u s' w' :
  walkPruneFiles (St:=St) visit entries s w = (Ok u, s', w') → Forall (entry_visited visit) entries.
Proof. unfold walkPruneFiles. intros Hr. mstep Hr. mstep Hr. eapply read_dir_ok; [|done]. lia. Qed.

End WalkLemmas.

(** ** Lemmas on CURRENT *)

Lemma cut_prefix_spec s prefix rest : cut_prefix s prefix = (rest, true) ↔ s = prefix ++ rest.
Proof.
  unfold cut_prefix. destruct (has_prefix s prefix) eqn:Ep.
  - apply has_prefix_spec in Ep as [r ->]. rewrite drop_app_length. split; [by intros [= ->]|by intros ->%app_inv_head].
  - split; [done|]. intros ->. apply not_true_iff_false in Ep. destruct Ep. apply has_prefix_spec. eauto.
Qed.

Lemma cut_suffix_spec s suffix rest : cut_suffix s suffix = (rest, true) ↔ s = rest ++ suffix.
Proof.
  unfold cut_suffix. case_bool_decide as Hd.
  - rewrite -{3}(take_drop (length s - length suffix) s) Hd. split; [by intros [= ->]|by intros ->%app_inv_tail].
  - split; [done|]. intros ->. destruct Hd. rewrite length_app Nat.add_sub. apply drop_app_length.
Qed.

Lemma parse_digits_nonneg acc s n : (0 ≤ acc)%Z → parse_digits acc s = Some n → (0 ≤ n)%Z.
Proof.
  revert acc. induction s as [|c s IH]; intros acc Ha; cbn; [by intros [= <-]|]. destruct (PruneKeys.is_digit c) eqn:Ec; [|done].
  unfold PruneKeys.is_digit, PruneKeys.between in Ec. apply andb_true_iff in Ec as [Ec%N.leb_le _]. apply IH.
  change (byte_val x30) with 48 in Ec. lia.
Qed.

Lemma ParseInt_range s n : ParseInt s = Some n → (n < 2 ^ 63)%Z.
Proof.
  unfold ParseInt. destruct (match s with [] => _ | _ => _ end) as [neg digits]. case_bool_decide; [done|].
  destruct (parse_digits 0 digits) as [m|] eqn:Em; [|done]. apply parse_digits_nonneg in Em; [|done]. destruct neg.
  - destruct (Z.leb_spec m (2 ^ 63)); [|done]. intros [= <-]. lia.
  - destruct (Z.ltb_spec m (2 ^ 63)); [|done]. by intros [= <-].
Qed.

Lemma ParseInt_digits s n :
  s ≠ [] → Forall (λ c, PruneKeys.is_digit c = true) s → parse_digits 0 s = Some n → (n < 2 ^ 63)%Z → ParseInt s = Some n.
Proof.
  intros Hne Hd Hp Hn. unfold ParseInt. destruct s as [|c s]; [done|].
  assert (match c :: s with x2b :: s' => (false, s') | x2d :: s' => (true, s') | _ => (false, c :: s) end = (false, c :: s)) as ->.
  { apply Forall_cons in Hd as [Hc _]. by destruct c. }
  rewrite bool_decide_eq_false_2 // Hp. by apply Z.ltb_lt in Hn as ->.
Qed.

Section ManifestLemmas.
Context `{FileDescNames, !FileDescLaws}.

(** The text of [CURRENT] that names a manifest. *)
Definition current_text (fd : FileDesc) : bytes := FileDesc_String fd ++ [x0a].

Lemma parsePruneCurrent_ok current fd :
  parsePruneCurrent current = Ok fd ↔
  fd_Type fd = TypeManifest ∧ (0 ≤ fd_Num fd < 2 ^ 63)%Z ∧ current = current_text fd.
Proof.
  unfold parsePruneCurrent. split.
  - destruct (cut_suffix current [x0a]) as [name newline] eqn:Es, (cut_prefix name _) as [number prefix] eqn:Ep.
    destruct (ParseInt number) as [n|] eqn:En; [|done]. apply ParseInt_range in En.
    destruct (negb newline || _ || _ || _) eqn:Ec; [done|]. intros [= <-]. cbn [fd_Type fd_Num].
    apply orb_false_iff in Ec as [Ec Ename]. apply orb_false_iff in Ec as [Ec Eneg]. apply orb_false_iff in Ec as [Enl _].
    apply negb_false_iff, bytes_equal_spec in Ename as ->. apply negb_false_iff in Enl as ->. apply Z.ltb_ge in Eneg.
    apply cut_suffix_spec in Es. done.
  - destruct fd as [t n]. cbn [fd_Type fd_Num]. intros (-> & [Hlo H63] & ->).
    destruct (manifest_name n Hlo) as (digits & Hname & Hne & Hd & Hp).
    rewrite /current_text. rewrite (proj2 (cut_suffix_spec _ _ _) eq_refl). rewrite (proj2 (cut_prefix_spec _ _ _) Hname).
    rewrite (ParseInt_digits _ _ Hne Hd Hp H63) /=. rewrite (proj2 (Z.ltb_ge _ _) Hlo).
    by rewrite (proj2 (bytes_equal_spec _ _) eq_refl).
Qed.

(** An entry that announces the publication of a manifest. *)
Definition pending_current (e : dir_entry) : Prop :=
  ∃ suffix n, bytes_of_string (en_Name e) = bytes_of_string "CURRENT." ++ suffix ∧ suffix ≠ bytes_of_string "bak" ∧ ParseInt suffix = Some n.

Lemma rejectPendingPruneCurrent_ok e : rejectPendingPruneCurrent e = Ok () ↔ ¬ pending_current e.
Proof.
  unfold rejectPendingPruneCurrent, pending_current. destruct (cut_prefix _ _) as [suffix ok] eqn:Ep.
  destruct ok; cbn [negb orb].
  - apply cut_prefix_spec in Ep. destruct (bytes_equal suffix _) eqn:Eb.
    + apply bytes_equal_spec in Eb. split; [|done]. intros _ (s & n & Hs & Hn & _). rewrite Ep in Hs. by apply app_inv_head in Hs as <-.
    + destruct (ParseInt suffix) as [n|] eqn:En.
      * split; [done|]. intros []. exists suffix, n. split_and!; [done| |done]. intros Hx. apply bytes_equal_spec in Hx. congruence.
      * split; [|done]. intros _ (s & n & Hs & _ & Hp). rewrite Ep in Hs. apply app_inv_head in Hs as <-. congruence.
  - split; [|done]. intros _ (s & n & Hs & _). apply cut_prefix_spec in Hs. congruence.
Qed.

End ManifestLemmas.

(** ** Lemmas on sessions *)

Section SessionLemmas.
Context `{FileDescNames, !FileDescLaws}.

(** A directory that needs no repair: regular files (and the ancient blocks), no
    pending publication, and a [CURRENT] that names an existing manifest. *)
Record clean_files (files : prune_files) (fd : FileDesc) : Prop := {
  cf_entries e : e ∈ pf_entries files →
    is_ancient e ∨ (∃ info, en_Info e = Ok info ∧ fi_mode info = ModeRegular) ∧ ¬ pending_current e;
  cf_manifest : fd_Type fd = TypeManifest ∧ (0 ≤ fd_Num fd < 2 ^ 63)%Z;
  cf_current : ∃ node, pf_dir' files !! "CURRENT"%string = Some node ∧ fi_mode (dn_info node) = ModeRegular ∧ dn_content node = current_text fd;
  cf_named : ∃ node, pf_dir' files !! String.string_of_list_byte (FileDesc_String fd) = Some node ∧ fi_mode (dn_info node) = ModeRegular
}.

Lemma GetMeta_ok {St} files (s : St) w fd s' w' : GetMeta files s w = (Ok fd, s', w') → clean_files files fd.
Proof.
  unfold GetMeta. intros Hr. do 3 mstep Hr. minv.
  match goal with Hx : walkPruneFiles _ _ _ _ = _ |- _ => apply walkPruneFiles_ok in Hx; rename Hx into Hwalk end.
  match goal with Hx : ReadRegular _ _ _ _ _ _ = _ |- _ => apply ReadRegular_ok in Hx as (_ & _ & node & Hn & Hm & -> & _) end.
  match goal with Hx : parsePruneCurrent _ = _ |- _ => apply parsePruneCurrent_ok in Hx as (Ht & Hnum & Hc) end.
  match goal with Hx : OpenRegular _ _ _ _ _ = _ |- _ => apply OpenRegular_ok in Hx as (_ & Hf & Hfm & _) end.
  split; [|done|eauto|eauto]. intros e He. rewrite Forall_forall in Hwalk. destruct (Hwalk e He) as [?|[? (s1 & w1 & [] & s2 & w2 & Hv)]]; [by left|].
  right. split; [done|]. apply lift_ok in Hv as (Hv & _). by apply rejectPendingPruneCurrent_ok.
Qed.

Lemma GetMeta_keeps {St} (P : St → Prop) files : keeps P (GetMeta files).
Proof.
  unfold GetMeta. repeat first [apply OpenRoot_keeps | apply OpenRegular_keeps | apply ReadRegular_keeps | apply walk_keeps; intros ? | keeps_step].
Qed.

Context (files : nat → prune_files).

(** No session changes what is in the database. *)
Definition content_is (db : store) (d : pruneDatabase) : Prop := pd_db d = db.

Lemma closeDB_content db : keeps (content_is db) closeDB.
Proof. unfold closeDB. repeat first [apply keeps_modify; done | keeps_step]. Qed.
Lemma look_content db : keeps (content_is db) (look files).
Proof. unfold look. repeat first [apply keeps_modify; done | keeps_step]. Qed.
Lemma reopen_content db ro : keeps (content_is db) (reopen files ro).
Proof. unfold reopen. repeat first [apply closeDB_content | apply look_content | apply GetMeta_keeps | apply keeps_modify; done | keeps_step]. Qed.
Lemma storage_Close_content db : keeps (content_is db) storage_Close.
Proof. unfold storage_Close. repeat first [apply keeps_modify; done | keeps_step]. Qed.
Lemma db_close_content db : keeps (content_is db) db_close.
Proof. unfold db_close. keeps_step; [apply closeDB_content|apply storage_Close_content]. Qed.
Lemma openPruneDatabase_content db dryRun : keeps (content_is db) (openPruneDatabase files dryRun).
Proof.
  unfold openPruneDatabase. repeat first [apply look_content | apply reopen_content | apply storage_Close_content | apply keeps_modify; done | keeps_step].
Qed.

Lemma closeDB_ok d w u d' w' : closeDB d w = (Ok u, d', w') → d' = set_session None d.
Proof. unfold closeDB. intros Hr. mstep Hr. minv. destruct (pd_session d) eqn:Es; minv; [done|]. destruct d. cbn in *. by subst. Qed.

Lemma look_ok d w seen d' w' :
  look files d w = (Ok seen, d', w') → seen = files (pd_looks d) ∧ d' = MkPruneDB (pd_db d) (pd_session d) (pd_locked d) (S (pd_looks d)).
Proof. unfold look. intros Hr. by minv. Qed.

Lemma reopen_cases ro d w u d' w' :
  reopen files ro d w = (Ok u, d', w') →
  d' = MkPruneDB (pd_db d) (Some ro) (pd_locked d) (S (pd_looks d)) ∧ ∃ (d1 : pruneDatabase) w1 fd d2 w2, GetMeta (files (pd_looks d)) d1 w1 = (Ok fd, d2, w2).
Proof.
  unfold reopen. intros Hr. do 2 mstep Hr.
  match goal with Hx : closeDB _ _ = _ |- _ => apply closeDB_ok in Hx as -> end.
  match goal with Hx : look _ _ _ = _ |- _ => apply look_ok in Hx as [-> ->] end. minv. cbn [set_session pd_looks pd_db pd_session pd_locked] in *.
  match goal with Hx : GetMeta _ ?x ?w1 = (Ok ?fd, ?y, ?w2) |- _ =>
    pose proof (keeps_run (λ z, z = x) _ _ _ _ _ _ (GetMeta_keeps _ _) Hx eq_refl) as -> end.
  split; [done|]. eauto 10.
Qed.

Lemma reopen_ok ro d w u d' w' :
  reopen files ro d w = (Ok u, d', w') →
  d' = MkPruneDB (pd_db d) (Some ro) (pd_locked d) (S (pd_looks d)) ∧ ∃ fd, clean_files (files (pd_looks d)) fd.
Proof. intros (? & d1 & w1 & fd & d2 & w2 & Hm)%reopen_cases. apply GetMeta_ok in Hm. eauto. Qed.

(** C35: A session on the database is opened only if its directory needs no
    repair: every entry is a regular file or the directory of ancient blocks,
    no publication of a manifest is pending, and [CURRENT] holds exactly the
    name of an existing manifest of a 63-bit number. The lock and what is in
    the database stay as they are. Of all texts, only these name a manifest. *)
Theorem prune_session_clean ro d w u d' w' current fd :
  (reopen files ro d w = (Ok u, d', w') →
     pd_session d' = Some ro ∧ pd_db d' = pd_db d ∧ pd_locked d' = pd_locked d ∧ ∃ fd, clean_files (files (pd_looks d)) fd) ∧
  (parsePruneCurrent current = Ok fd ↔
     fd_Type fd = TypeManifest ∧ (0 ≤ fd_Num fd < 2 ^ 63)%Z ∧ current = current_text fd).
Proof. split; [|apply parsePruneCurrent_ok]. intros [-> ?]%reopen_ok. done. Qed.

End SessionLemmas.

(** ** The names of goleveldb *)

(** [fmt.Sprintf("%06d", n)]: the digits of [n], at least six. *)
Fixpoint decimal (width : nat) (n : Z) (tail : bytes) : bytes :=
  match width with
  | O => tail
  | S width' => decimal width' (n / 10) (byte_of_N (48 + Z.to_N (n mod 10)) :: tail)
  end.
Fixpoint count_digits (fuel : nat) (n : Z) : nat :=
  match fuel with
  | O => 0%nat
  | S fuel' => if (n <? 10)%Z then 1%nat else S (count_digits fuel' (n / 10))
  end.
Definition sprintf06d (n : Z) : bytes := decimal (Nat.max 6 (count_digits (S (Z.to_nat (Z.log2 n))) n)) n [].

Definition file_name (fd : FileDesc) : bytes :=
  match fd_Type fd with
  | TypeManifest => bytes_of_string "MANIFEST-" ++ sprintf06d (fd_Num fd)
  | TypeJournal => sprintf06d (fd_Num fd) ++ bytes_of_string ".log"
  | TypeTable => sprintf06d (fd_Num fd) ++ bytes_of_string ".ldb"
  | TypeTemp => sprintf06d (fd_Num fd) ++ bytes_of_string ".tmp"
  end.

Module ManifestNames.

#[export] Instance names : FileDescNames := {| FileDesc_String := file_name |}.

Lemma digit_byte d : (0 ≤ d < 10)%Z → byte_val (byte_of_N (48 + Z.to_N d)) = 48 + Z.to_N d.
Proof. intros Hd. rewrite byte_val_of_N N.mod_small //. lia. Qed.

Lemma parse_decimal width n acc tail :
  (0 ≤ n)%Z → parse_digits acc (decimal width n tail) = parse_digits (acc * 10 ^ Z.of_nat width + n mod 10 ^ Z.of_nat width)%Z tail.
Proof.
  revert n tail. induction width as [|width IH]; intros n tail Hn.
  - rewrite /= Z.mod_1_r. f_equal. lia.
  - cbn [decimal]. rewrite IH; [|apply Z.div_pos; lia]. cbn [parse_digits].
    pose proof (Z.mod_pos_bound n 10 ltac:(lia)) as Hm.
    unfold PruneKeys.is_digit, PruneKeys.between. rewrite digit_byte //. change (byte_val x30) with 48. change (byte_val x39) with 57.
    rewrite (proj2 (N.leb_le _ _)); [|lia]. rewrite (proj2 (N.leb_le _ _)); [|lia]. cbn [andb]. f_equal.
    rewrite Nat2Z.inj_succ Z.pow_succ_r; [|lia]. rewrite Z.rem_mul_r; [|lia|lia]. lia.
Qed.

Lemma decimal_digits width n tail :
  (0 ≤ n)%Z → Forall (λ c, PruneKeys.is_digit c = true) tail → Forall (λ c, PruneKeys.is_digit c = true) (decimal width n tail).
Proof.
  revert n tail. induction width as [|width IH]; intros n tail Hn Ht; [done|]. cbn [decimal]. apply IH; [apply Z.div_pos; lia|].
  constructor; [|done]. pose proof (Z.mod_pos_bound n 10 ltac:(lia)) as Hm. unfold PruneKeys.is_digit, PruneKeys.between. rewrite digit_byte //.
  change (byte_val x30) with 48. change (byte_val x39) with 57. apply andb_true_iff. split; apply N.leb_le; lia.
Qed.

Lemma length_decimal width n tail : length (decimal width n tail) = (width + length tail)%nat.
Proof. revert n tail. induction width as [|width IH]; intros n tail; [done|]. cbn [decimal]. rewrite IH /=. lia. Qed.

Lemma count_digits_enough fuel n : (0 ≤ n < 10 ^ Z.of_nat fuel)%Z → (n < 10 ^ Z.of_nat (count_digits fuel n))%Z.
Proof.
  revert n. induction fuel as [|fuel IH]; intros n Hn; [cbn in *; lia|]. cbn [count_digits]. destruct (Z.ltb_spec n 10); [cbn; lia|].
  rewrite !Nat2Z.inj_succ !Z.pow_succ_r in Hn |- *; [|lia..].
  assert (0 ≤ n / 10 < 10 ^ Z.of_nat fuel)%Z as Hq by (split; [apply Z.div_pos; lia|apply Z.div_lt_upper_bound; lia]).
  specialize (IH _ Hq). pose proof (Z.div_mod n 10 ltac:(lia)). pose proof (Z.mod_pos_bound n 10 ltac:(lia)). lia.
Qed.

#[export] Instance names_laws : FileDescLaws.
Proof.
  split. intros n Hn. exists (sprintf06d n). split; [done|]. unfold sprintf06d. set (k := Nat.max _ _).
  assert (Hk : (n < 10 ^ Z.of_nat k)%Z).
  { eapply Z.lt_le_trans; [apply (count_digits_enough (S (Z.to_nat (Z.log2 n))))|apply Z.pow_le_mono_r; lia].
    split; [done|]. destruct (decide (n = 0)%Z) as [->|]; [done|]. pose proof (Z.log2_spec n ltac:(lia)) as [_ Hl].
    eapply Z.lt_le_trans; [exact Hl|]. rewrite Nat2Z.inj_succ Z2Nat.id; [|apply Z.log2_nonneg]. apply Z.pow_le_mono_l. lia. }
  split_and!.
  - intros He. apply (f_equal length) in He. rewrite length_decimal /= in He. lia.
  - by apply decimal_digits.
  - by rewrite parse_decimal //= Z.mod_small.
Qed.

End ManifestNames.

(** ** Witness *)

Module PruneDBWitnesses.
Import ManifestNames.

Definition file (id : N) (content : bytes) : dir_node := MkDirNode (MkFileInfo ModeRegular (Z.of_nat (length content)) id) content None.
Definition listed (name : string) (id : N) : dir_entry := MkDirEntry name false (Ok (MkFileInfo ModeRegular 0 id)).

Definition root_info : file_info := MkFileInfo ModeDir 0 1.
Definition folder : directory :=
  list_to_map [("CURRENT"%string, file 2 (bytes_of_string "MANIFEST-000007" ++ [x0a])); ("MANIFEST-000007"%string, file 3 []);
               ("LOCK"%string, file 4 []); ("CURRENT.bak"%string, file 5 [])].
(** A stopped database with a backup of [CURRENT] and ancient blocks. *)
Definition stopped_files : prune_files :=
  MkPruneFiles [listed "CURRENT" 2; listed "MANIFEST-000007" 3; listed "LOCK" 4; listed "CURRENT.bak" 5;
                MkDirEntry "ancient" true (Ok (MkFileInfo ModeDir 0 6))]
    (Ok root_info) (Ok root_info) folder folder.

Definition closed (db : store) : pruneDatabase := MkPruneDB db None true 0.
Definition session : result unit * pruneDatabase * world := reopen (λ _, stopped_files) true (closed ∅) calm.

#[local] Strategy 100 [reopen].

Lemma session_eq : reopen (λ _, stopped_files) true (closed ∅) calm = (Ok (), session.1.2, session.2).
Proof.
  assert (is_ok session.1.1 = true) as Ho by by vm_compute. unfold session in *.
  destruct (reopen _ _ _ _) as [[[[]|] d] w]; [done|done].
Qed.

Lemma prune_session_clean_witness :
  pd_session session.1.2 = Some true ∧ (∃ fd, clean_files stopped_files fd) ∧
  parsePruneCurrent (bytes_of_string "MANIFEST-000007" ++ [x0a]) = Ok (MkFileDesc TypeManifest 7).
Proof.
  destruct (prune_session_clean (λ _, stopped_files) true (closed ∅) calm () session.1.2 session.2
    (bytes_of_string "MANIFEST-000007" ++ [x0a]) (MkFileDesc TypeManifest 7)) as [Hs Hc].
  destruct (Hs session_eq) as (Hro & _ & _ & Hclean). split; [exact Hro|]. split; [exact Hclean|].
  apply Hc. split; [reflexivity|]. split; [done|]. by vm_compute.
Defined.

End PruneDBWitnesses.
