(* ===== verification/Partition.v ===== *)
(** * Partitioned traversal ([migrate_partitioned.go], [partition_accounts.go], [partition_storage.go], [partition_output.go], [partition_execution.go])

    The parallel counterpart of [Traverse.v]: the account trie is cut into
    sixteen partitions by the first nibble, each walked by its own goroutine,
    which prepares accounts in order, hands those with storage or new code to
    jobs, and merges the results in order into a partial stack trie; the roots
    of the partitions are assembled into the state root. Large storage tries
    are cut the same way. All partitions share the set of code hashes seen, the
    window of accounts in flight, the first failure, and the output.

    A partition is a state machine ([partition_state]); what the goroutines do
    is a list of events, one action of one goroutine each, so that a theorem
    for all lists covers every interleaving of those actions. A job is one
    action: the partitions of a large storage trie run inside it, in any order,
    and share nothing but the output. Not modelled: the work limiter, which
    only delays actions, and progress counters. *)

From S2P Require Import Prelude Sha256 Geth Instances Manifest StrictIO Records Scanner Bundle Account StateTrie Consumer Stream Traverse AtomicDir Export DirectWriter OvmIndex OvmTransform PruneKeep.

(** ** Third-party interfaces *)

(** [trie.PartialStackTrie] builds the part of a trie below one nibble;
    [trie.MountPartitionRoot] turns the root of the only populated partition
    into the root of the trie, [trie.AssembleBranch] joins several. *)
Class PartialTrie := {
  pstack : Type;
  pstack_new : byte → pstack;
  pstack_update : pstack → bytes → bytes → result (pstack * list trie_node);
  pstack_hash : pstack → Hash * list trie_node;
  MountPartitionRoot : bytes → byte → result (Hash * bytes * bool);
  AssembleBranch : list bytes → result (bytes * Hash)
}.

(** Iterators over a range of keys, [start] included, [end] excluded. *)
Class RangeReader := {
  account_range : Hash → option bytes → option bytes → result (list (bytes * bytes) * option error);
  storage_range : Hash → Hash → Hash → option bytes → option bytes → result (list (bytes * bytes) * option error)
}.

(** ** Counts and ranges *)

Definition migrateTriePartitions : nat := 16.
Definition migrateStoragePartitionThreshold : nat := 1024.

Definition addBundleCounts (a b : Counts) : Counts :=
  MkCounts (add64 (Accounts a) (Accounts b)) (add64 (StorageSlots a) (StorageSlots b)) (add64 (CodeReferences a) (CodeReferences b))
    (add64 (CodeRecords a) (CodeRecords b)) (add64 (Manifest.Records a) (Manifest.Records b)) (add64 (PayloadBytes a) (PayloadBytes b)).

Record migratePartitionResult := MkPartResult {
  pr_populated : bool;
  pr_root : Hash;
  pr_rootBlob : bytes;
  pr_counts : Counts
}.

Definition empty_result : migratePartitionResult := MkPartResult false zero_hash [] zero_counts.
#[export] Instance part_result_inhabited : Inhabited migratePartitionResult := populate empty_result.

(** A 32-byte key that starts with the given byte; the shift is on eight bits. *)
Definition range_key (p : N) : bytes := byte_of_N (p * 16) :: replicate 31 x00.

Definition migratePartitionRange (partition : N) : option bytes * option bytes :=
  (if 0 <? partition then Some (range_key partition) else None,
   if partition <? N.of_nat migrateTriePartitions - 1 then Some (range_key (partition + 1)) else None).

(** ** Outputs *)

(** [partitionStateOutput] and its factory: writers are numbered. *)
Record partitionStateOutput (V : Type) := MkOutput {
  out_new : bool → M V nat;
  out_Account : nat → Hash → StateAccount → bytes → M V unit;
  out_Storage : nat → Hash → Hash → bytes → M V unit;
  out_Code : nat → Hash → Hash → bytes → M V unit;
  out_TrieNode : nat → Hash → bytes → Hash → bytes → M V unit;
  out_DeleteTrieNode : nat → Hash → bytes → Hash → M V unit;
  out_CloseContext : nat → M V unit;
  out_Abort : nat → M V unit
}.
Arguments MkOutput {V}.
Arguments out_new {V}.
Arguments out_Account {V}.
Arguments out_Storage {V}.
Arguments out_Code {V}.
Arguments out_TrieNode {V}.
Arguments out_DeleteTrieNode {V}.
Arguments out_CloseContext {V}.
Arguments out_Abort {V}.

(** [newValidationOutput]: nothing is written. *)
Definition newValidationOutput {V : Type} : partitionStateOutput V :=
  MkOutput (λ _, mret 0%nat) (λ _ _ _ _, mret ()) (λ _ _ _ _, mret ()) (λ _ _ _ _, mret ()) (λ _ _ _ _ _, mret ()) (λ _ _ _ _, mret ())
    (λ _, poll) (λ _, mret ()).

(** [persistentPartitionOutput]: direct writers on one database. *)
Record writer_pool := MkPool { pl_db : store; pl_writers : list directStateWriter }.

#[export] Instance direct_writer_inhabited : Inhabited directStateWriter := populate (MkDirectWriter [] "" 0 false).

Section Persistent.
Context `{RawdbKeys, BatchSize, BatchValueSize, SlimRLP}.

Definition on_writer {A} (i : nat) (m : M target A) : M writer_pool A :=
  zoom (λ p, MkTarget (pl_db p) (pl_writers p !!! i)) (λ t p, MkPool (tg_db t) (<[i := tg_writer t]> (pl_writers p))) m.

Definition persistentPartitionOutput (scheme : string) : partitionStateOutput writer_pool :=
  MkOutput
    (λ deferred, p ← get;
       _ ← modify (λ p, MkPool (pl_db p) (pl_writers p ++ [if (deferred : bool) then newDeferredDirectStateWriter scheme else newDirectStateWriter scheme]));
       mret (length (pl_writers p)))
    (λ i hash account rlp, on_writer i (dw_Account hash account rlp))
    (λ i accountHash slotHash value, on_writer i (dw_Storage accountHash slotHash value))
    (λ i accountHash codeHash code, on_writer i (dw_Code accountHash codeHash code))
    (λ i owner path hash blob, on_writer i (dw_TrieNode owner path hash blob))
    (λ i owner path hash, on_writer i (DeleteTrieNode owner path hash))
    (λ i, on_writer i CloseContext)
    (λ i, on_writer i dw_Abort).

End Persistent.

(** ** Nodes, slots, storage *)

(** The error of the node callback, and the root node of the partition. *)
Record nodeState := MkNodes { nd_err : option error; nd_rootBlob : bytes }.
Definition no_nodes : nodeState := MkNodes None [].

Section Storage.
Context `{Keccak, EmptyHashes, AccountRLP, RLPSplit, StackTrie, TrieReader, RangeReader, PartialTrie} {V : Type}.
Context (out : partitionStateOutput V) (root : Hash).

(** The callback of a stack trie; [partial] says that the trie is a partition,
    whose root node has a path of length one. *)
Definition on_partition_node (partial : bool) (w : nat) (owner : Hash) (st : nodeState) (n : trie_node) : M V nodeState :=
  match nd_err st with
  | Some _ => mret st
  | None =>
      let blob := if partial && (length (node_path n) =? 1)%nat then node_blob n else nd_rootBlob st in
      r ← attempt (out_TrieNode out w owner (node_path n) (node_hash n) (node_blob n));
      mret (MkNodes (outcome r) blob)
  end.
Fixpoint on_partition_nodes (partial : bool) (w : nat) (owner : Hash) (st : nodeState) (ns : list trie_node) : M V nodeState :=
  match ns with
  | [] => mret st
  | n :: ns' => st' ← on_partition_node partial w owner st n; on_partition_nodes partial w owner st' ns'
  end.

Definition check_nodes (msg : string) (st : nodeState) : M V unit :=
  match nd_err st with Some e => fail (EWrap msg e) | None => mret () end.

Definition slot_counts (value : bytes) : Counts := MkCounts 0 1 0 0 1 (blen value).

(** One slot, into either kind of stack trie. *)
Definition processMigratedStorageSlot {S : Type} (partial : bool) (update : S → bytes → bytes → result (S * list trie_node))
    (w : nat) (accountHash : Hash) (st : S * nodeState * Counts) (key value : bytes) : M V (S * nodeState * Counts) :=
  let '(stack, nodes, counts) := st in
  _ ← lift (reject_if (negb (length key =? HashLength)%nat) "storage key has wrong length");
  _ ← lift (wrap_err "account slot" (validateStorageRLP value));
  '(stack, ns) ← lift (wrap_err "rebuild storage trie" (update stack key value));
  nodes ← on_partition_nodes partial w accountHash nodes ns;
  _ ← check_nodes "write storage trie nodes" nodes;
  _ ← out_Storage out w accountHash (vec_of_bytes 32 key) value;
  mret (stack, nodes, addBundleCounts counts (slot_counts value)).

Definition finishProbedStorage (w : nat) (stack : stack) (iterErr : option error) (nodes : nodeState) (accountHash expectedRoot : Hash) (counts : Counts)
    : M V (bool * Counts) :=
  match iterErr with
  | Some e => fail (EWrap "iterate storage trie" e)
  | None =>
      nodes ← on_partition_nodes false w accountHash nodes (stack_hash stack).2;
      let computedRoot := (stack_hash stack).1 in
      _ ← check_nodes "write final storage trie nodes" nodes;
      _ ← lift (reject_if (negb (bool_decide (computedRoot = expectedRoot))) "storage root mismatch");
      _ ← wrap "flush account storage trie" (out_CloseContext out w);
      mret (false, counts)
  end.

Fixpoint probe_loop (n : nat) (w : nat) (accountHash expectedRoot : Hash) (st : stack * nodeState * Counts)
    (storage : list (bytes * bytes)) (iterErr : option error) : M V (bool * Counts) :=
  match n with
  | S n' =>
      _ ← poll;
      match storage with
      | [] => let '(stack, nodes, counts) := st in finishProbedStorage w stack iterErr nodes accountHash expectedRoot counts
      | (key, value) :: storage' =>
          st' ← processMigratedStorageSlot false stack_update w accountHash st key value;
          probe_loop n' w accountHash expectedRoot st' storage' iterErr
      end
  | O =>
      match storage with
      | [] => let '(stack, nodes, counts) := st in finishProbedStorage w stack iterErr nodes accountHash expectedRoot counts
      | _ :: _ => _ ← poll; mret (true, zero_counts)
      end
  end.

(** A body with [defer writer.Abort()]. *)
Definition with_writer {A} (deferred : bool) (body : nat → M V A) : M V A :=
  w ← out_new out deferred;
  r ← attempt (body w);
  _ ← out_Abort out w;
  lift r.

Definition probeStorage (accountHash expectedRoot : Hash) : M V (bool * Counts) :=
  _ ← poll;
  '(storage, iterErr) ← lift (wrap_err "open storage iterator" (storage_iterator root accountHash expectedRoot));
  with_writer true (λ w, probe_loop migrateStoragePartitionThreshold w accountHash expectedRoot (stack_new, no_nodes, zero_counts) storage iterErr).

Definition validateMigratePartitionResult (r : migratePartitionResult) : result unit :=
  if negb (pr_populated r) then
    _ ← reject_if (negb (bool_decide (pr_root r = EmptyRootHash))) "empty partition has a root";
    reject_if (negb (length (pr_rootBlob r) =? 0)%nat) "empty partition emitted a root node"
  else
    _ ← reject_if (length (pr_rootBlob r) =? 0)%nat "partition did not emit its root node";
    reject_if (negb (bool_decide (keccak256 (pr_rootBlob r) = pr_root r))) "partition root blob hash mismatch".

(** The loop of [migrateStoragePartition]. *)
Fixpoint storage_partition_loop (w : nat) (accountHash : Hash) (st : pstack * nodeState * Counts) (storage : list (bytes * bytes))
    : M V (pstack * nodeState * Counts) :=
  match storage with
  | [] => mret st
  | (key, value) :: storage' =>
      _ ← poll;
      st' ← processMigratedStorageSlot true pstack_update w accountHash st key value;
      storage_partition_loop w accountHash st' storage'
  end.

Definition migrateStoragePartition (accountHash storageRoot : Hash) (partition : N) : M V migratePartitionResult :=
  _ ← poll;
  let '(start, stop) := migratePartitionRange partition in
  '(storage, iterErr) ← lift (wrap_err "open iterator" (storage_range root accountHash storageRoot start stop));
  with_writer false (λ w,
    '(stack, nodes, counts) ← storage_partition_loop w accountHash (pstack_new (byte_of_N partition), no_nodes, zero_counts) storage;
    match iterErr with
    | Some e => fail (EWrap "iterate storage partition" e)
    | None =>
        nodes ← on_partition_nodes true w accountHash nodes (pstack_hash stack).2;
        _ ← check_nodes "write final storage partition trie nodes" nodes;
        let result := MkPartResult (negb (length storage =? 0)%nat) (pstack_hash stack).1 (nd_rootBlob nodes) counts in
        _ ← lift (validateMigratePartitionResult result);
        _ ← wrap "flush storage partition" (out_CloseContext out w);
        mret result
    end).

(** ** Assembly *)

Definition assembleMigratedTrie (w : nat) (owner expectedRoot : Hash) (partitions : list migratePartitionResult) : M V Hash :=
  let populated := filter (λ ip : nat * migratePartitionResult, pr_populated ip.2 = true) (imap pair partitions) in
  match populated with
  | [] =>
      _ ← lift (reject_if (negb (bool_decide (expectedRoot = EmptyRootHash))) "root mismatch");
      mret EmptyRootHash
  | _ =>
      '(rootHash, rootBlob, orphaned) ←
        (match populated with
         | [(only, partition)] => lift (wrap_err "mount partition root" (MountPartitionRoot (pr_rootBlob partition) (byte_of_N (N.of_nat only))))
         | _ =>
             let children := map (λ p, if pr_populated p then hash_bytes (pr_root p) else []) partitions ++ [[]] in
             '(blob, hash) ← lift (wrap_err "assemble partition branch" (AssembleBranch children));
             mret (hash, blob, false)
         end);
      _ ← lift (reject_if (negb (bool_decide (rootHash = expectedRoot))) "root mismatch");
      _ ← out_TrieNode out w owner [] rootHash rootBlob;
      _ ← (if (orphaned : bool) then
             match last populated with
             | Some (only, partition) => out_DeleteTrieNode out w owner [byte_of_N (N.of_nat only)] (pr_root partition)
             | None => mret ()
             end
           else mret ());
      mret rootHash
  end.

Definition sum_counts (l : list Counts) : Counts := foldl addBundleCounts zero_counts l.

(** [runMigratePartitionTasks] for the storage partitions of one account, in
    the order [order]; the first error ends it. *)
Fixpoint storage_tasks (accountHash expectedRoot : Hash) (order : list nat) (results : list migratePartitionResult)
    : M V (list migratePartitionResult) :=
  match order with
  | [] => _ ← poll; mret results
  | i :: order' =>
      r ← wrap "migrate account storage partition" (migrateStoragePartition accountHash expectedRoot (N.of_nat i));
      storage_tasks accountHash expectedRoot order' (<[i := r]> results)
  end.

Definition migratePartitionedStorage (accountHash expectedRoot : Hash) (order : list nat) : M V Counts :=
  partitions ← storage_tasks accountHash expectedRoot order (replicate migrateTriePartitions empty_result);
  _ ← poll;
  let counts := sum_counts (pr_counts <$> partitions) in
  with_writer false (λ w,
    _ ← wrap "assemble account storage trie" (assembleMigratedTrie w accountHash expectedRoot partitions);
    _ ← wrap "flush account storage root" (out_CloseContext out w);
    mret counts).

Definition migrateStorage (accountHash expectedRoot : Hash) (order : list nat) : M V Counts :=
  if bool_decide (expectedRoot = EmptyRootHash) then mret zero_counts else
  '(partition, counts) ← probeStorage accountHash expectedRoot;
  if negb (partition : bool) then mret counts else
  migratePartitionedStorage accountHash expectedRoot order.

End Storage.

(** ** Accounts *)

Record migrateAccountJob := MkAccountJob {
  aj_sequence : N;
  aj_hash : Hash;
  aj_rlp : bytes;
  aj_account : StateAccount;
  aj_codeHash : Hash;
  aj_writeCode : bool;
  aj_counts : Counts
}.

(** The result of a job: the code it read and its counts, or its error. *)
Record migrateAccountResult := MkAccountResult {
  ar_job : migrateAccountJob;
  ar_code : bytes;
  ar_counts : Counts;
  ar_err : option error
}.

Record migratePreparedAccount := MkPrepared {
  pa_hash : Hash;
  pa_account : StateAccount;
  pa_codeHash : Hash;
  pa_writeCode : bool;
  pa_codeReference : bool
}.

Definition reference_counts (referenced : bool) : Counts := MkCounts 0 0 (if referenced then 1 else 0) 0 0 0.

(** [migratePreparedAccount.result]. *)
Definition prepared_result (p : migratePreparedAccount) (sequence : N) (rlp : bytes) : migrateAccountResult :=
  let counts := reference_counts (pa_codeReference p) in
  MkAccountResult (MkAccountJob sequence (pa_hash p) rlp (pa_account p) (pa_codeHash p) (pa_writeCode p) counts) [] counts None.

(** A job of a burst: still running, or with its result in the channel. *)
Record burst_job := MkBurstJob { bj_prepared : migrateAccountResult; bj_result : option migrateAccountResult }.

(** A burst: the jobs not yet received by the merger, the received results that
    wait for their turn, the next sequence number to merge, whether accounts
    are still being added, whether the iterator ended, and the failure. *)
Record burst := MkBurst {
  bu_jobs : list burst_job;
  bu_pending : gmap N migrateAccountResult;
  bu_next : N;
  bu_filling : bool;
  bu_eof : bool;
  bu_failure : option error
}.

(** Where a partition's goroutine is. *)
Inductive partition_phase :=
| Opening
| Reading
| Acquiring (first : migrateAccountResult)
| Bursting (b : burst)
| Closing
| Finished
| Failed (e : error).

Record partition_state `{PartialTrie} := MkPartition {
  pt_phase : partition_phase;
  pt_accounts : list (bytes * bytes);
  pt_iterErr : option error;
  pt_writer : nat;
  pt_stack : pstack;
  pt_nodes : nodeState;
  pt_result : migratePartitionResult;
  pt_sequence : N
}.
Arguments MkPartition {_}.
Arguments pt_phase {_}.
Arguments pt_accounts {_}.
Arguments pt_iterErr {_}.
Arguments pt_writer {_}.
Arguments pt_stack {_}.
Arguments pt_nodes {_}.
Arguments pt_result {_}.
Arguments pt_sequence {_}.

(** The state shared by the partitions: the output, the code hashes seen, the
    accounts in flight, and the first failure of the run. *)
Record migrator `{PartialTrie} (V : Type) := MkMigrator {
  mg_out : V;
  mg_codes : hashSet;
  mg_inflight : nat;
  mg_failure : option error;
  mg_parts : list partition_state
}.
Arguments MkMigrator {_ V}.
Arguments mg_out {_ V}.
Arguments mg_codes {_ V}.
Arguments mg_inflight {_ V}.
Arguments mg_failure {_ V}.
Arguments mg_parts {_ V}.

(** One action of one goroutine: opening the iterator, reading the next
    account, taking a slot of the window for a burst, adding an account to
    it, running a job, receiving a result,
    ending a burst, closing the partition. Jobs are named by their position. *)
Inductive partition_event :=
| EvOpen (i : nat)
| EvRead (i : nat)
| EvAcquire (i : nat)
| EvFill (i : nat)
| EvWork (i j : nat) (order : list nat)
| EvReceive (i j : nat)
| EvEndBurst (i : nat)
| EvClose (i : nat).

Section Accounts.
Context `{Keccak, EmptyHashes, AccountRLP, RLPSplit, StackTrie, TrieReader, RangeReader, PartialTrie} {V : Type}.
Context (out : partitionStateOutput V) (root : Hash).
(** [source.Get] or the configured code reader; the optional account check;
    the capacity of the window. *)
Context (readCode : Hash → result bytes) (validateAccount : option (Hash → StateAccount → result unit)) (capacity : nat).

Definition fresh_partition : partition_state :=
  MkPartition Opening [] None 0 (pstack_new x00) no_nodes empty_result 0.
#[local] Instance partition_inhabited : Inhabited partition_state := populate fresh_partition.

Definition mg_on_out {A} (m : M V A) : M (migrator V) A :=
  zoom mg_out (λ v g, MkMigrator v (mg_codes g) (mg_inflight g) (mg_failure g) (mg_parts g)) m.
Definition set_part (i : nat) (p : partition_state) (g : migrator V) : migrator V :=
  MkMigrator (mg_out g) (mg_codes g) (mg_inflight g) (mg_failure g) (<[i := p]> (mg_parts g)).
Definition set_inflight (n : nat) (g : migrator V) : migrator V :=
  MkMigrator (mg_out g) (mg_codes g) n (mg_failure g) (mg_parts g).
Definition set_codes_seen (codes : hashSet) (g : migrator V) : migrator V :=
  MkMigrator (mg_out g) codes (mg_inflight g) (mg_failure g) (mg_parts g).

(** [recordRunFailure]. *)
Definition recordRunFailure (e : error) : M (migrator V) unit :=
  modify (λ g, match mg_failure g with
               | Some _ => g
               | None => MkMigrator (mg_out g) (mg_codes g) (mg_inflight g) (Some e) (mg_parts g)
               end).

(** The context of the run: cancelled by a recorded failure. *)
Definition poll_run : M (migrator V) unit :=
  f ← gets mg_failure;
  match f with Some _ => fail ECanceled | None => poll end.

(** [concurrentHashSet.Add]. *)
Definition codes_Add (codeHash : Hash) : M (migrator V) bool :=
  g ← get;
  let '(codes, added) := hashSet_Add (mg_codes g) codeHash in
  _ ← modify (set_codes_seen codes);
  mret added.

Definition prepareMigrateAccount (key rlp : bytes) : M (migrator V) (migratePreparedAccount * bool) :=
  _ ← lift (reject_if (negb (length key =? HashLength)%nat) "account trie key has wrong length");
  let accountHash : Hash := vec_of_bytes 32 key in
  account ← lift (decodeFullAccount rlp);
  _ ← (match validateAccount with Some f => lift (f accountHash account) | None => mret () end);
  let codeHash := BytesToHash (acc_CodeHash account) in
  if bool_decide (codeHash = EmptyCodeHash) then
    mret (MkPrepared accountHash account codeHash false false, negb (bool_decide (acc_Root account = EmptyRootHash)))
  else
    writeCode ← codes_Add codeHash;
    mret (MkPrepared accountHash account codeHash writeCode true, negb (bool_decide (acc_Root account = EmptyRootHash)) || writeCode).

Definition readMigrateCode (codeHash : Hash) : M V bytes :=
  if bool_decide (codeHash = EmptyCodeHash) then mret [] else
  _ ← poll;
  code ← lift (match readCode codeHash with
               | Err e => if error_is ENotExist e then Ok [] else Err (EWrap "read account code" e)
               | Ok code => Ok code
               end);
  _ ← lift (reject_if (length code =? 0)%nat "code is missing");
  _ ← lift (reject_if (negb (bool_decide (keccak256 code = codeHash))) "code hash mismatch");
  mret code.

(** The result of a job; an error is part of it. *)
Definition processMigrateAccount (job : migrateAccountJob) (order : list nat) : M V migrateAccountResult :=
  r ← attempt (_ ← poll;
               storageCounts ← migrateStorage out root (aj_hash job) (acc_Root (aj_account job)) order;
               code ← (if aj_writeCode job then readMigrateCode (aj_codeHash job) else mret []);
               mret (addBundleCounts (aj_counts job) storageCounts, code));
  match r with
  | Ok (counts, code) => mret (MkAccountResult job code counts None)
  | Err e => mret (MkAccountResult job [] (aj_counts job) (Some e))
  end.

Definition code_counts (code : bytes) : Counts := MkCounts 0 0 0 1 1 (blen code).
Definition account_counts (rlp : bytes) : Counts := MkCounts 1 0 0 0 1 (blen rlp).

(** The partition after an account was merged. *)
Definition mergeMigrateAccountDataHeld (p : partition_state) (accountHash : Hash) (account : StateAccount) (rlp : bytes)
    (codeHash : Hash) (code : bytes) (counts : Counts) : M V partition_state :=
  let w := pt_writer p in
  _ ← out_Account out w accountHash account rlp;
  counts ← (if (length code =? 0)%nat then mret counts else
            _ ← out_Code out w accountHash codeHash code;
            mret (addBundleCounts counts (code_counts code)));
  '(stack, ns) ← lift (wrap_err "rebuild account partition" (pstack_update (pt_stack p) (hash_bytes accountHash) rlp));
  nodes ← on_partition_nodes out true w zero_hash (pt_nodes p) ns;
  _ ← check_nodes "write account partition trie nodes" nodes;
  let r := pt_result p in
  let merged := addBundleCounts (addBundleCounts (pr_counts r) (account_counts rlp)) counts in
  mret (MkPartition (pt_phase p) (pt_accounts p) (pt_iterErr p) w stack nodes
          (MkPartResult true (pr_root r) (nd_rootBlob nodes) merged) (pt_sequence p)).

Definition mergeMigrateAccount (p : partition_state) (r : migrateAccountResult) : M V partition_state :=
  match ar_err r with
  | Some e => fail e
  | None =>
      _ ← poll;
      mergeMigrateAccountDataHeld p (aj_hash (ar_job r)) (aj_account (ar_job r)) (aj_rlp (ar_job r)) (aj_codeHash (ar_job r)) (ar_code r) (ar_counts r)
  end.

Definition set_phase (ph : partition_phase) (p : partition_state) : partition_state :=
  MkPartition ph (pt_accounts p) (pt_iterErr p) (pt_writer p) (pt_stack p) (pt_nodes p) (pt_result p) (pt_sequence p).
Definition set_accounts (l : list (bytes * bytes)) (p : partition_state) : partition_state :=
  MkPartition (pt_phase p) l (pt_iterErr p) (pt_writer p) (pt_stack p) (pt_nodes p) (pt_result p) (pt_sequence p).
Definition set_sequence (n : N) (p : partition_state) : partition_state :=
  MkPartition (pt_phase p) (pt_accounts p) (pt_iterErr p) (pt_writer p) (pt_stack p) (pt_nodes p) (pt_result p) n.

(** A partition that failed: its writer is aborted and the run fails. *)
Definition fail_partition (i : nat) (p : partition_state) (e : error) : M (migrator V) unit :=
  _ ← mg_on_out (out_Abort out (pt_writer p));
  _ ← modify (set_part i (set_phase (Failed e) p));
  recordRunFailure (EWrap "migrate account partition" e).

(** Code of partition [i] whose error ends the partition. *)
Definition guarded (i : nat) (p : partition_state) (m : M (migrator V) unit) : M (migrator V) unit :=
  r ← attempt m;
  match r with Ok _ => mret () | Err e => fail_partition i p e end.

(** Opening: the iterator and the writer. *)
Definition open_partition (i : nat) (p : partition_state) : M (migrator V) unit :=
  guarded i p (
    _ ← poll_run;
    let '(start, stop) := migratePartitionRange (N.of_nat i) in
    '(accounts, iterErr) ← lift (wrap_err "open account iterator" (account_range root start stop));
    w ← mg_on_out (out_new out false);
    modify (set_part i (MkPartition Reading accounts iterErr w (pstack_new (byte_of_N (N.of_nat i))) no_nodes empty_result 0))).

(** The next account of the main loop: merged at once if there is nothing to
    do for it, else the first of a burst. *)
Definition read_account (i : nat) (p : partition_state) : M (migrator V) unit :=
  guarded i p (
    _ ← poll_run;
    match pt_accounts p with
    | [] =>
        match pt_iterErr p with
        | Some e => fail (EWrap "iterate account partition" e)
        | None => modify (set_part i (set_phase Closing p))
        end
    | (key, rlp) :: accounts =>
        '(prepared, async) ← prepareMigrateAccount key rlp;
        let p := set_accounts accounts p in
        if negb (async : bool) then
          p ← mg_on_out (mergeMigrateAccountDataHeld p (pa_hash prepared) (pa_account prepared) rlp (pa_codeHash prepared) []
                           (reference_counts (pa_codeReference prepared)));
          modify (set_part i (set_sequence (pt_sequence p + 1) p))
        else
          let first := prepared_result prepared (pt_sequence p) rlp in
          modify (set_part i (set_sequence (pt_sequence p + 1) (set_phase (Acquiring first) p)))
    end).

(** A slot of the window for the first account of a burst; the goroutine waits
    while the window is full. *)
Definition acquire_burst (i : nat) (p : partition_state) (first : migrateAccountResult) : M (migrator V) unit :=
  guarded i p (
    _ ← poll_run;
    inflight ← gets mg_inflight;
    if (capacity <=? inflight)%nat then mret () else
    _ ← modify (λ g, set_inflight (mg_inflight g + 1) g);
    modify (set_part i (set_phase (Bursting (MkBurst [MkBurstJob first None] ∅ (aj_sequence (ar_job first)) true false None)) p))).

(** [migratePipelineFailure.record]: the burst's first failure, which is also
    recorded for the run. *)
Definition record_burst (e : error) (b : burst) : burst :=
  MkBurst (bu_jobs b) (bu_pending b) (bu_next b) (bu_filling b) (bu_eof b) (match bu_failure b with None => Some e | f => f end).

Definition fail_burst (i : nat) (p : partition_state) (b : burst) (e : error) : M (migrator V) unit :=
  _ ← modify (set_part i (set_phase (Bursting (record_burst e b)) p));
  match bu_failure b with None => recordRunFailure e | Some _ => mret () end.

Definition stop_filling (eof : bool) (b : burst) : burst :=
  MkBurst (bu_jobs b) (bu_pending b) (bu_next b) false eof (bu_failure b).

(** The loop that adds accounts to a burst, one turn. *)
Definition fill_burst (i : nat) (p : partition_state) (b : burst) : M (migrator V) unit :=
  inflight ← gets mg_inflight;
  if (capacity <=? inflight)%nat then modify (set_part i (set_phase (Bursting (stop_filling false b)) p)) else
  c ← attempt poll_run;
  match c with
  | Err e => fail_burst i p (stop_filling false b) e
  | Ok _ =>
      match pt_accounts p with
      | [] =>
          match pt_iterErr p with
          | Some e => fail_burst i p (stop_filling true b) (EWrap "iterate account partition" e)
          | None => modify (set_part i (set_phase (Bursting (stop_filling true b)) p))
          end
      | (key, rlp) :: accounts =>
          r ← attempt (prepareMigrateAccount key rlp);
          let p := set_accounts accounts p in
          match r with
          | Err e => fail_burst i p (stop_filling false b) e
          | Ok (prepared, async) =>
              let ready := prepared_result prepared (pt_sequence p) rlp in
              let job := MkBurstJob ready (if (async : bool) then None else Some ready) in
              _ ← modify (λ g, set_inflight (mg_inflight g + 1) g);
              modify (set_part i (set_sequence (pt_sequence p + 1)
                (set_phase (Bursting (MkBurst (bu_jobs b ++ [job]) (bu_pending b) (bu_next b) true (bu_eof b) (bu_failure b))) p)))
          end
      end
  end.

Definition set_jobs_of (jobs : list burst_job) (b : burst) : burst :=
  MkBurst jobs (bu_pending b) (bu_next b) (bu_filling b) (bu_eof b) (bu_failure b).

(** The goroutine of the job at position [j]. *)
Definition work_job (i : nat) (p : partition_state) (b : burst) (j : nat) (order : list nat) : M (migrator V) unit :=
  match bu_jobs b !! j with
  | Some (MkBurstJob prepared None) =>
      c ← attempt poll_run;
      r ← (match c with
           | Err e => mret (MkAccountResult (ar_job prepared) [] (aj_counts (ar_job prepared)) (Some e))
           | Ok _ => mg_on_out (processMigrateAccount (ar_job prepared) order)
           end);
      let b := set_jobs_of (<[j := MkBurstJob prepared (Some r)]> (bu_jobs b)) b in
      match ar_err r with
      | None => modify (set_part i (set_phase (Bursting b) p))
      | Some e => fail_burst i p b (EWrap "account partition" e)
      end
  | _ => mret ()
  end.

Definition release_slots (n : nat) : M (migrator V) unit := modify (λ g, set_inflight (mg_inflight g - n) g).

(** Merging the results whose turn it is; at most one round per result. *)
Fixpoint merge_ready (fuel : nat) (i : nat) (p : partition_state) (b : burst) : M (migrator V) unit :=
  match fuel with
  | O => modify (set_part i (set_phase (Bursting b) p))
  | S fuel' =>
      match bu_pending b !! bu_next b with
      | None => modify (set_part i (set_phase (Bursting b) p))
      | Some ordered =>
          let pending := delete (bu_next b) (bu_pending b) in
          r ← attempt (_ ← lift (match ar_err ordered with Some e => Err e | None => Ok () end);
                       _ ← poll_run; mg_on_out (mergeMigrateAccount p ordered));
          _ ← release_slots 1;
          match r with
          | Err e =>
              _ ← release_slots (size pending);
              fail_burst i p (MkBurst (bu_jobs b) ∅ (bu_next b) (bu_filling b) (bu_eof b) (bu_failure b)) (EWrap "merge account partition" e)
          | Ok p => merge_ready fuel' i p (MkBurst (bu_jobs b) pending (bu_next b + 1) (bu_filling b) (bu_eof b) (bu_failure b))
          end
      end
  end.

(** The merger receives the result of the job at position [j]; it starts when
    the burst is filled. *)
Definition receive_result (i : nat) (p : partition_state) (b : burst) (j : nat) : M (migrator V) unit :=
  if bu_filling b then mret () else
  match bu_jobs b !! j with
  | Some (MkBurstJob _ (Some r)) =>
      let jobs := delete j (bu_jobs b) in
      match bu_failure b with
      | Some _ =>
          _ ← release_slots (1 + size (bu_pending b));
          modify (set_part i (set_phase (Bursting (MkBurst jobs ∅ (bu_next b) false (bu_eof b) (bu_failure b))) p))
      | None =>
          let pending := <[aj_sequence (ar_job r) := r]> (bu_pending b) in
          merge_ready (S (size pending)) i p (MkBurst jobs pending (bu_next b) false (bu_eof b) None)
      end
  | _ => mret ()
  end.

(** The end of a burst: every job was received. *)
Definition end_burst (i : nat) (p : partition_state) (b : burst) : M (migrator V) unit :=
  match bu_jobs b with
  | _ :: _ => mret ()
  | [] =>
      if bu_filling b then mret () else
      guarded i p (
        match bu_failure b with
        | Some e => fail e
        | None =>
            _ ← lift (reject_if (negb (size (bu_pending b) =? 0)%nat) "account partition pipeline ended with unmerged results");
            _ ← poll_run;
            modify (set_part i (set_phase (if bu_eof b then Closing else Reading) p))
        end)
  end.

(** [finishMigrateAccountPartition], and the deferred abort of the writer. *)
Definition close_partition (i : nat) (p : partition_state) : M (migrator V) unit :=
  guarded i p (
    _ ← poll_run;
    nodes ← mg_on_out (on_partition_nodes out true (pt_writer p) zero_hash (pt_nodes p) (pstack_hash (pt_stack p)).2);
    _ ← mg_on_out (check_nodes "write final account partition trie nodes" nodes);
    let result := MkPartResult (pr_populated (pt_result p)) (pstack_hash (pt_stack p)).1 (nd_rootBlob nodes) (pr_counts (pt_result p)) in
    _ ← lift (validateMigratePartitionResult result);
    _ ← wrap "flush account partition" (mg_on_out (out_CloseContext out (pt_writer p)));
    _ ← mg_on_out (out_Abort out (pt_writer p));
    modify (set_part i (MkPartition Finished (pt_accounts p) (pt_iterErr p) (pt_writer p) (pt_stack p) nodes result (pt_sequence p)))).

(** One event; events that do not fit the phase of their partition are those
    of a goroutine that is not there. *)
Definition partition_step (ev : partition_event) : M (migrator V) unit :=
  g ← get;
  match ev with
  | EvOpen i => match mg_parts g !! i with Some p => match pt_phase p with Opening => open_partition i p | _ => mret () end | None => mret () end
  | EvRead i => match mg_parts g !! i with Some p => match pt_phase p with Reading => read_account i p | _ => mret () end | None => mret () end
  | EvAcquire i => match mg_parts g !! i with Some p => match pt_phase p with Acquiring first => acquire_burst i p first | _ => mret () end | None => mret () end
  | EvFill i =>
      match mg_parts g !! i with
      | Some p => match pt_phase p with Bursting b => if bu_filling b then fill_burst i p b else mret () | _ => mret () end
      | None => mret ()
      end
  | EvWork i j order => match mg_parts g !! i with Some p => match pt_phase p with Bursting b => work_job i p b j order | _ => mret () end | None => mret () end
  | EvReceive i j => match mg_parts g !! i with Some p => match pt_phase p with Bursting b => receive_result i p b j | _ => mret () end | None => mret () end
  | EvEndBurst i => match mg_parts g !! i with Some p => match pt_phase p with Bursting b => end_burst i p b | _ => mret () end | None => mret () end
  | EvClose i => match mg_parts g !! i with Some p => match pt_phase p with Closing => close_partition i p | _ => mret () end | None => mret () end
  end.

Definition is_finished (p : partition_state) : bool := match pt_phase p with Finished => true | _ => false end.

Definition new_migrator (v : V) : migrator V :=
  MkMigrator v newHashSet 0 None (replicate migrateTriePartitions fresh_partition).

(** [partitionedStateMigrator.run] over a list of events that takes every
    goroutine to its end; the final writer is returned open. *)
Definition migrator_run (events : list partition_event) : M (migrator V) (StateResult * nat) :=
  _ ← for_each events partition_step;
  g ← get;
  match mg_failure g with
  | Some e => fail e
  | None =>
      if negb (forallb is_finished (mg_parts g)) then fail (EMsg "the events do not reach the end") else
      _ ← poll;
      let partitions := pt_result <$> mg_parts g in
      let counts := sum_counts (pr_counts <$> partitions) in
      finalWriter ← mg_on_out (out_new out false);
      a ← attempt (mg_on_out (assembleMigratedTrie out finalWriter zero_hash root partitions));
      match a with
      | Err e => _ ← mg_on_out (out_Abort out finalWriter); fail (EWrap "assemble account trie" e)
      | Ok r => mret (MkStateResult r counts, finalWriter)
      end
  end.

End Accounts.

(** [validatePartitionedState]: the run without output; the environment of the
    output is not used. *)
Definition validatePartitionedState `{Keccak, EmptyHashes, AccountRLP, RLPSplit, StackTrie, TrieReader, RangeReader, PartialTrie}
    (readCode : Hash → result bytes) (workers : Z) (head : Head) (events : list partition_event) : M unit StateResult :=
  '(r, g) ← run_on (migrator_run newValidationOutput (StateRoot head) readCode None (2 * normalizeMigrateWorkers workers) events) (new_migrator ());
  body ← attempt ('(result, output) ← lift r; _ ← out_CloseContext newValidationOutput output; mret result);
  c ← attempt io;
  match body, c with
  | Ok result, Ok _ => mret result
  | Ok _, Err e => fail e
  | Err e, Ok _ => fail e
  | Err e, Err e' => fail (EJoin e e')
  end.

(** [legacySource.migratePartitionedState]: the run into a database; the writer
    of the root is returned open, unless closing the source fails. *)
Definition migratePartitionedState
    `{Keccak, EmptyHashes, AccountRLP, RLPSplit, StackTrie, TrieReader, RangeReader, PartialTrie, RawdbKeys, BatchSize, BatchValueSize, SlimRLP}
    (readCode : Hash → result bytes) (scheme : string) (workers : Z) (head : Head) (events : list partition_event) : M writer_pool (StateResult * nat) :=
  let out := persistentPartitionOutput scheme in
  pool ← get;
  '(r, g) ← run_on (migrator_run out (StateRoot head) readCode None (2 * normalizeMigrateWorkers workers) events) (new_migrator pool);
  _ ← modify (λ _, mg_out g);
  c ← attempt (wrap "close source trie database" io);
  match r, c with
  | Ok (result, finalWriter), Ok _ => mret (result, finalWriter)
  | Ok (_, finalWriter), Err e => _ ← out_Abort out finalWriter; fail e
  | Err e, Ok _ => fail e
  | Err e, Err e' => fail (EJoin e e')
  end.
