(* ===== verification/PartitionStorage.v ===== *)
(** * Partitioned tries: ranges, counts, assembly, storage ([migrate_partitioned.go], [partition_storage.go])

    What the partitioned traversal relies on, as laws of the third-party
    interfaces of [Partition.v], and its first half: the sixteen ranges tile
    the keys, the assembled root is the root of the whole trie, counts are
    independent of the order in which they are added, and a successful
    [migrateStorage] has read and checked the whole storage of the account on
    either of its paths. *)

From S2P Require Import Prelude Sha256 Geth Instances Manifest StrictIO Records Scanner Bundle Account StateTrie Consumer Stream Traverse AtomicDir Export DirectWriter OvmIndex OvmTransform PruneKeep Partition.

(** ** Laws *)

(** A key is in a range: not below its start, below its end. *)
Definition in_range (r : option bytes * option bytes) (key : bytes) : bool :=
  match r.1 with Some start => negb (bool_decide (bytes_lt key start)) | None => true end &&
  match r.2 with Some stop => bool_decide (bytes_lt key stop) | None => true end.

Definition range_leaves (r : option bytes * option bytes) (leaves : list (bytes * bytes)) : list (bytes * bytes) :=
  filter (λ kv, in_range r kv.1 = true) leaves.

(** An iteration that ends without an error delivers the leaves of the trie,
    in ascending order of their keys; over a range, those in the range. *)
Class RangeReaderLaws `{TrieReader, RangeReader} (account_trie : Hash → list (bytes * bytes))
    (storage_trie : Hash → Hash → Hash → list (bytes * bytes)) : Prop := {
  account_all root l : account_iterator root = Ok (l, None) → l = account_trie root;
  account_some root start stop l :
    account_range root start stop = Ok (l, None) → l = range_leaves (start, stop) (account_trie root);
  account_ascending root : StronglySorted bytes_lt (account_trie root).*1;
  storage_all root h r l : storage_iterator root h r = Ok (l, None) → l = storage_trie root h r;
  storage_some root h r start stop l :
    storage_range root h r start stop = Ok (l, None) → l = range_leaves (start, stop) (storage_trie root h r);
  storage_ascending root h r : StronglySorted bytes_lt (storage_trie root h r).*1
}.

Fixpoint pstack_feed `{PartialTrie} (st : pstack) (leaves : list (bytes * bytes)) : result (pstack * list trie_node) :=
  match leaves with
  | [] => Ok (st, [])
  | (k, v) :: leaves' =>
      '(st1, n1) ← pstack_update st k v;
      '(st2, n2) ← pstack_feed st1 leaves';
      Ok (st2, n1 ++ n2)
  end.

(** The first nibble of a key. *)
Definition first_nibble (key : bytes) : option N := (λ b, byte_val b / 16) <$> head key.

(** The root and the nodes of a partition. *)
Definition partial_root `{PartialTrie} (i : nat) (leaves : list (bytes * bytes)) : Hash :=
  match pstack_feed (pstack_new (byte_of_N (N.of_nat i))) leaves with Ok (st, _) => (pstack_hash st).1 | Err _ => zero_hash end.
Definition partial_nodes `{PartialTrie} (i : nat) (leaves : list (bytes * bytes)) : list trie_node :=
  match pstack_feed (pstack_new (byte_of_N (N.of_nat i))) leaves with Ok (st, ns) => ns ++ (pstack_hash st).2 | Err _ => [] end.

Definition partition_children `{PartialTrie} (parts : list (list (bytes * bytes))) : list bytes :=
  imap (λ i l, match l with [] => [] | _ => hash_bytes (partial_root i l) end) parts ++ [[]].

(** A partial stack trie accepts what a stack trie accepts; a branch over the
    roots of two partitions or more is the root node of the whole trie, and
    mounting the root node of the only partition gives its root. *)
Class PartialTrieLaws `{PartialTrie} (trie_root : list (bytes * bytes) → Hash) : Prop := {
  partial_sorted i leaves st ns :
    Forall (λ kv, length kv.1 = HashLength) leaves → pstack_feed (pstack_new i) leaves = Ok (st, ns) → leaves_ok leaves;
  assemble_root parts i j blob h :
    length parts = migrateTriePartitions → leaves_ok (concat parts) →
    (∀ i l, parts !! i = Some l → Forall (λ kv, first_nibble kv.1 = Some (N.of_nat i)) l) →
    i ≠ j → parts !!! i ≠ [] → parts !!! j ≠ [] →
    AssembleBranch (partition_children parts) = Ok (blob, h) → h = trie_root (concat parts);
  mount_root i leaves n h blob orphaned :
    (i < migrateTriePartitions)%nat → leaves_ok leaves → leaves ≠ [] →
    Forall (λ kv, first_nibble kv.1 = Some (N.of_nat i)) leaves →
    n ∈ partial_nodes i leaves → length (node_path n) = 1%nat →
    MountPartitionRoot (node_blob n) (byte_of_N (N.of_nat i)) = Ok (h, blob, orphaned) → h = trie_root leaves
}.

Lemma pstack_feed_snoc `{PartialTrie} st l k v st1 n1 st2 n2 :
  pstack_feed st l = Ok (st1, n1) → pstack_update st1 k v = Ok (st2, n2) →
  pstack_feed st (l ++ [(k, v)]) = Ok (st2, n1 ++ n2).
Proof.
  revert st n1. induction l as [|[k' v'] l IH]; intros st n1 Hf Hu; cbn [pstack_feed app] in *.
  - injection Hf as <- <-. rewrite Hu. simpl. by rewrite app_nil_r.
  - destruct (pstack_update st k' v') as [[st' ns]|]; [|done]. simpl in *.
    destruct (pstack_feed st' l) as [[s3 n3]|] eqn:E; [|done]. simpl in Hf. injection Hf as -> <-.
    rewrite (IH _ _ E Hu). simpl. by rewrite app_assoc.
Qed.

(** ** The ranges tile the keys *)

Lemma bytes_lt_zeros key b n :
  length key = S n → bytes_lt key (b :: replicate n x00) ↔ ∃ c rest, key = c :: rest ∧ byte_val c < byte_val b.
Proof.
  destruct key as [|c rest]; [done|]. intros [= Hl]. rewrite bytes_lt_cons. split.
  - intros [Hlt|[_ Hlt]]; [eauto|]. exfalso. revert n Hl Hlt. induction rest as [|d rest IH]; intros [|n] Hl Hlt; try done.
    cbn [replicate] in Hlt. apply bytes_lt_cons in Hlt as [Hlt|[_ Hlt]]; [change (byte_val x00) with 0 in Hlt; lia|].
    injection Hl as Hl. by eapply IH.
  - intros (? & ? & [= <- <-] & Hlt). by left.
Qed.

Lemma range_key_val p : p < 16 → byte_val (byte_of_N (p * 16)) = p * 16.
Proof. intros Hp. rewrite byte_val_of_N N.mod_small //. lia. Qed.

(** A hash-sized key is below the start of partition [p] when its first byte is. *)
Lemma bytes_lt_range_key key p :
  length key = HashLength → p < 16 → bytes_lt key (range_key p) ↔ ∃ n, first_nibble key = Some n ∧ n < p.
Proof.
  intros Hl Hp. unfold range_key. rewrite (bytes_lt_zeros key _ 31) //. unfold first_nibble. split.
  - intros (c & rest & -> & Hlt). rewrite range_key_val // in Hlt. eexists. split; [done|].
    apply N.Div0.div_lt_upper_bound. lia.
  - intros (n & Hn & Hlt). destruct key as [|c rest]; [done|]. cbn in Hn. injection Hn as <-. exists c, rest. split; [done|].
    rewrite range_key_val //. pose proof (N.div_mod (byte_val c) 16). pose proof (N.mod_lt (byte_val c) 16). lia.
Qed.

Lemma first_nibble_lt key : length key = HashLength → ∃ n, first_nibble key = Some n ∧ n < 16.
Proof.
  destruct key as [|b key]; [done|]. intros _. unfold first_nibble. cbn. eexists. split; [done|].
  pose proof (byte_val_lt b). apply N.Div0.div_lt_upper_bound. lia.
Qed.

Lemma in_partition_range key p :
  length key = HashLength → p < 16 → in_range (migratePartitionRange p) key = true ↔ first_nibble key = Some p.
Proof.
  intros Hl Hp. destruct (first_nibble_lt key Hl) as (n & Hn & Hn16). rewrite Hn.
  unfold in_range, migratePartitionRange. cbn [fst snd]. change (N.of_nat migrateTriePartitions - 1) with 15.
  rewrite andb_true_iff. assert (Hlow : match (if 0 <? p then Some (range_key p) else None) with
    Some start => negb (bool_decide (bytes_lt key start)) | None => true end = true ↔ p ≤ n).
  { destruct (N.ltb_spec 0 p); [|split; [lia|done]]. rewrite negb_true_iff bool_decide_eq_false bytes_lt_range_key // Hn. split.
    - intros Hno. destruct (N.le_gt_cases p n); [done|]. exfalso. eauto.
    - intros Hle (n' & [= <-] & Hlt). lia. }
  assert (Hhigh : match (if p <? 15 then Some (range_key (p + 1)) else None) with
    Some stop => bool_decide (bytes_lt key stop) | None => true end = true ↔ n < p + 1).
  { destruct (N.ltb_spec p 15); [|split; [lia|done]]. rewrite bool_decide_eq_true bytes_lt_range_key // ?Hn; [|lia]. split.
    - by intros (n' & [= <-] & Hlt).
    - eauto. }
  rewrite Hlow Hhigh. split; [intros [? ?]; f_equal; lia|]. intros [= ->]. lia.
Qed.

(** Cutting sorted leaves at a key. *)
Lemma range_cut start key (leaves : list (bytes * bytes)) :
  StronglySorted bytes_lt leaves.*1 → match start with Some s => bytes_le s key | None => True end →
  range_leaves (start, Some key) leaves ++ range_leaves (Some key, None) leaves = range_leaves (start, None) leaves.
Proof.
  intros Hs Hle. induction leaves as [|[k v] leaves IH]; [done|]. cbn [fmap list_fmap fst] in Hs.
  apply StronglySorted_inv in Hs as [Hs Hf]. specialize (IH Hs). unfold range_leaves in *. rewrite !filter_cons. cbn [fst].
  destruct (decide (bytes_lt k key)) as [Hk|Hk].
  - rewrite (decide_False (P:=in_range (Some key, None) k = true)); [|unfold in_range; cbn; by rewrite (bool_decide_eq_true_2 _ Hk)].
    assert (Hin : in_range (start, Some key) k = in_range (start, None) k).
    { unfold in_range. cbn. by rewrite (bool_decide_eq_true_2 _ Hk). }
    rewrite Hin. case_decide; cbn [app]; by rewrite IH.
  - rewrite (decide_False (P:=in_range (start, Some key) k = true)); [|unfold in_range; cbn; by rewrite (bool_decide_eq_false_2 _ Hk) andb_false_r].
    rewrite (decide_True (P:=in_range (Some key, None) k = true)); [|unfold in_range; cbn; by rewrite (bool_decide_eq_false_2 _ Hk)].
    rewrite (decide_True (P:=in_range (start, None) k = true)); [|].
    + rewrite -IH. assert (Hnil : filter (λ kv : bytes * bytes, in_range (start, Some key) kv.1 = true) leaves = []).
      { apply elem_of_nil_inv. intros [k' v'] [Hin Hel]%list_elem_of_filter. rewrite Forall_fmap Forall_forall in Hf.
        specialize (Hf _ Hel). cbn in *. revert Hin. unfold in_range. cbn. rewrite (bool_decide_eq_false_2 (bytes_lt k' key)); [by rewrite andb_false_r|].
        intros Hk'. apply Hk. by transitivity k'. }
      by rewrite Hnil.
    + unfold in_range. cbn. destruct start as [s|]; [|done]. rewrite bool_decide_eq_false_2 //.
      intros Hlt. apply Hk. by eapply bytes_lt_le_trans.
Qed.

Definition partition_leaves (leaves : list (bytes * bytes)) : list (list (bytes * bytes)) :=
  map (λ i, range_leaves (migratePartitionRange (N.of_nat i)) leaves) (seq 0 migrateTriePartitions).

Lemma range_key_le p q : p ≤ q → q < 16 → bytes_le (range_key p) (range_key q).
Proof.
  intros Hpq Hq Hlt. unfold range_key in Hlt. apply bytes_lt_cons in Hlt as [Hlt|[_ Hlt]].
  - rewrite !range_key_val in Hlt; lia.
  - by apply bytes_lt_irrefl in Hlt.
Qed.

Lemma partition_tail leaves k p :
  StronglySorted bytes_lt leaves.*1 → (p + k = 16)%nat → (0 < k)%nat →
  concat (map (λ i, range_leaves (migratePartitionRange (N.of_nat i)) leaves) (seq p k)) =
  range_leaves ((migratePartitionRange (N.of_nat p)).1, None) leaves.
Proof.
  intros Hs. revert p. induction k as [|k IH]; intros p Hp Hk; [lia|]. cbn [seq map concat].
  destruct k as [|k].
  - cbn [seq map concat]. rewrite app_nil_r. assert (p = 15%nat) as -> by lia. done.
  - rewrite IH; [|lia..]. unfold migratePartitionRange. cbn [fst]. change (N.of_nat migrateTriePartitions - 1) with 15.
    destruct (N.ltb_spec (N.of_nat p) 15); [|lia]. destruct (N.ltb_spec 0 (N.of_nat (S p))); [|lia].
    replace (N.of_nat (S p)) with (N.of_nat p + 1) by lia. apply range_cut; [done|].
    destruct (N.ltb_spec 0 (N.of_nat p)); [|done]. apply range_key_le; lia.
Qed.

(** The partitions of sorted leaves, one after the other, are the leaves. *)
Lemma partition_leaves_concat leaves : StronglySorted bytes_lt leaves.*1 → concat (partition_leaves leaves) = leaves.
Proof.
  intros Hs. unfold partition_leaves. rewrite partition_tail //; [|unfold migrateTriePartitions; lia].
  clear Hs. unfold range_leaves. induction leaves as [|kv leaves IH]; [done|]. by rewrite filter_cons_True // IH.
Qed.

Lemma partition_leaves_nibble leaves i l :
  Forall (λ kv, length kv.1 = HashLength) leaves → partition_leaves leaves !! i = Some l →
  Forall (λ kv, first_nibble kv.1 = Some (N.of_nat i)) l.
Proof.
  intros Hl Hi. unfold partition_leaves in Hi. change (map ?f ?s) with (f <$> s) in Hi. rewrite list_lookup_fmap in Hi.
  apply fmap_Some in Hi as (j & Hj & ->). apply lookup_seq in Hj as [-> Hj]. cbn [Nat.add].
  rewrite Forall_forall in Hl. apply Forall_forall. intros kv Hkv. unfold range_leaves in Hkv. apply list_elem_of_filter in Hkv as [Hin Hkv].
  apply in_partition_range; [by apply Hl| |done]. unfold migrateTriePartitions in Hj. lia.
Qed.

(** ** Counts without a width

    The counters wrap at 64 bits; the sums are taken over the integers and
    reduced at the end, which makes them a commutative monoid. *)

Definition raw_add (a b : Counts) : Counts :=
  MkCounts (Accounts a + Accounts b) (StorageSlots a + StorageSlots b) (CodeReferences a + CodeReferences b)
    (CodeRecords a + CodeRecords b) (Manifest.Records a + Manifest.Records b) (PayloadBytes a + PayloadBytes b).
Definition reduce (a : Counts) : Counts :=
  MkCounts (Accounts a mod two64) (StorageSlots a mod two64) (CodeReferences a mod two64)
    (CodeRecords a mod two64) (Manifest.Records a mod two64) (PayloadBytes a mod two64).
Definition raw_sum (l : list Counts) : Counts := foldr raw_add zero_counts l.

#[export] Instance raw_add_comm : Comm (=) raw_add.
Proof. intros [] []. unfold raw_add. cbn. f_equal; lia. Qed.
#[export] Instance raw_add_assoc : Assoc (=) raw_add.
Proof. intros [] [] []. unfold raw_add. cbn. f_equal; lia. Qed.
#[export] Instance raw_add_left_id : LeftId (=) zero_counts raw_add.
Proof. by intros []. Qed.
#[export] Instance raw_add_right_id : RightId (=) zero_counts raw_add.
Proof. intros []. unfold raw_add. cbn. f_equal; lia. Qed.

Lemma reduce_add a b : addBundleCounts (reduce a) (reduce b) = reduce (raw_add a b).
Proof. unfold addBundleCounts, reduce, raw_add. cbn. f_equal; by rewrite add64_mod_l N.Div0.add_mod_idemp_r. Qed.
Lemma reduce_add_l a b : addBundleCounts (reduce a) b = reduce (raw_add a b).
Proof. unfold addBundleCounts, reduce, raw_add. cbn. f_equal; by rewrite add64_mod_l. Qed.
Lemma reduce_add_raw a b : addBundleCounts a b = reduce (raw_add a b).
Proof. done. Qed.
Lemma reduce_zero : reduce zero_counts = zero_counts.
Proof. done. Qed.

Lemma raw_sum_app l1 l2 : raw_sum (l1 ++ l2) = raw_add (raw_sum l1) (raw_sum l2).
Proof. unfold raw_sum. induction l1 as [|c l1 IH]; cbn [foldr app]; [by rewrite left_id|]. by rewrite IH assoc. Qed.
#[export] Instance raw_sum_proper : Proper ((≡ₚ) ==> (=)) raw_sum.
Proof. exact (foldr_permutation_proper' (=) raw_add zero_counts). Qed.
Lemma raw_sum_snoc l c : raw_sum (l ++ [c]) = raw_add (raw_sum l) c.
Proof. rewrite raw_sum_app. unfold raw_sum. cbn [foldr]. by rewrite right_id. Qed.

Lemma foldl_counts_reduce acc (ls : list Counts) :
  foldl addBundleCounts (reduce acc) (reduce <$> ls) = reduce (raw_add acc (raw_sum ls)).
Proof.
  revert acc. unfold raw_sum. induction ls as [|c ls IH]; intros acc; cbn [foldr foldl fmap list_fmap]; [by rewrite right_id|].
  by rewrite reduce_add IH -assoc.
Qed.
Lemma sum_counts_reduce (ls : list Counts) : sum_counts (reduce <$> ls) = reduce (raw_sum ls).
Proof. unfold sum_counts. by rewrite -{1}reduce_zero foldl_counts_reduce left_id. Qed.

Definition slots_total (slots : list (Hash * bytes)) : Counts := raw_sum (map (λ kv, slot_counts kv.2) slots).

(** ** Nodes and partition results *)

(** The blob of the last node with a path of length one. *)
Definition root_blob (blob : bytes) (ns : list trie_node) : bytes :=
  foldl (λ b n, if (length (node_path n) =? 1)%nat then node_blob n else b) blob ns.

Lemma root_blob_elem blob ns : root_blob blob ns = blob ∨ ∃ n, n ∈ ns ∧ length (node_path n) = 1%nat ∧ root_blob blob ns = node_blob n.
Proof.
  unfold root_blob. revert blob. induction ns as [|n ns IH]; intros blob; [by left|]. cbn [foldl].
  destruct (Nat.eqb_spec (length (node_path n)) 1) as [Hn|_].
  - destruct (IH (node_blob n)) as [->|(m & Hm & Hp & ->)]; right; [exists n|exists m]; (split; [set_solver|done]).
  - destruct (IH blob) as [->|(m & Hm & Hp & ->)]; [by left|right]. exists m. split; [set_solver|done].
Qed.

Lemma concat_only {A} (ls : list (list A)) i l :
  ls !! i = Some l → (∀ j l', ls !! j = Some l' → j ≠ i → l' = []) → concat ls = l.
Proof.
  revert i. induction ls as [|l0 ls IH]; intros [|i] Hi Hne; cbn in *; try done.
  - injection Hi as ->. assert (Hnil : concat ls = []).
    { clear IH. assert (Hall : ∀ j l', ls !! j = Some l' → l' = []) by (intros j l' Hj; by apply (Hne (S j) l')).
      clear Hne. induction ls as [|l1 ls IH]; [done|]. cbn. rewrite (Hall 0%nat l1) // IH //. intros j l' Hj. by apply (Hall (S j)). }
    by rewrite Hnil app_nil_r.
  - rewrite (Hne 0%nat l0) //. cbn. apply (IH i); [done|]. intros j l' Hj Hji. apply (Hne (S j) l'); [done|lia].
Qed.

Section StorageLemmas.
Context `{Keccak, EmptyHashes, AccountRLP, RLPSplit, StackTrie, TrieReader, RangeReader, PartialTrie} {V : Type}.
Context (out : partitionStateOutput V) (root : Hash).

Record partial_result (i : nat) (leaves : list (bytes * bytes)) (r : migratePartitionResult) : Prop := {
  pres_leaves : leaves_ok leaves;
  pres_root : pr_root r = partial_root i leaves;
  pres_blob : pr_rootBlob r = root_blob [] (partial_nodes i leaves);
  pres_valid : validateMigratePartitionResult r = Ok ();
  pres_populated : pr_populated r = negb (length leaves =? 0)%nat
}.

Lemma pres_empty i leaves r : partial_result i leaves r → pr_populated r = false ↔ leaves = [].
Proof. intros [_ _ _ _ ->]. rewrite negb_false_iff Nat.eqb_eq length_zero_iff_nil. done. Qed.

Lemma on_partition_nodes_ok partial w owner st ns v wd st' v' wd' :
  on_partition_nodes out partial w owner st ns v wd = (Ok st', v', wd') → nd_err st' = None →
  nd_err st = None ∧ (partial = true → nd_rootBlob st' = root_blob (nd_rootBlob st) ns).
Proof.
  revert st v wd. induction ns as [|n ns IH]; intros st v wd Hr He; cbn [on_partition_nodes] in Hr; [by minv|].
  mstep Hr. apply IH in Hr as [He1 Hb]; [|done]. unfold on_partition_node in *.
  destruct (nd_err st) eqn:Est; [by minv; rewrite Est in He1|]. minv. cbn in *. split; [done|].
  intros ->. rewrite Hb //.
Qed.

Lemma check_nodes_ok msg st (v : V) wd u v' wd' : check_nodes msg st v wd = (Ok u, v', wd') → nd_err st = None ∧ v' = v.
Proof. unfold check_nodes. destruct (nd_err st); intros Hr; by minv. Qed.

Lemma processMigratedStorageSlot_ok {S} partial (update : S → bytes → bytes → result (S * list trie_node)) w h st nodes counts key value v wd st' nodes' counts' v' wd' :
  processMigratedStorageSlot out partial update w h (st, nodes, counts) key value v wd = (Ok (st', nodes', counts'), v', wd') →
  length key = HashLength ∧ validateStorageRLP value = Ok () ∧ nd_err nodes' = None ∧
  counts' = addBundleCounts counts (slot_counts value) ∧
  ∃ ns, update st key value = Ok (st', ns) ∧ (partial = true → nd_rootBlob nodes' = root_blob (nd_rootBlob nodes) ns).
Proof.
  intros Hr. unfold processMigratedStorageSlot in Hr. minv. destruct x as [st1 ns]. minv. simplify_eq.
  match goal with Hx : on_partition_nodes _ _ _ _ _ _ _ _ = _ |- _ => rename Hx into Hn end.
  match goal with Hx : check_nodes _ _ _ _ = _ |- _ => apply check_nodes_ok in Hx as [He _] end.
  apply on_partition_nodes_ok in Hn as [_ Hb]; [|done].
  match goal with Hx : negb _ = false |- _ => apply negb_false_iff, Nat.eqb_eq in Hx end.
  do 4 (split; [done|]). eauto.
Qed.

(** *** Assembly *)

Section Assembly.
Context (trie_root : list (bytes * bytes) → Hash) `{!StackTrieLaws trie_root, !PartialTrieLaws trie_root}.

Definition populated_of (results : list migratePartitionResult) : list (nat * migratePartitionResult) :=
  filter (λ ip : nat * migratePartitionResult, pr_populated ip.2 = true) (imap pair results).

Lemma elem_of_populated results i r : (i, r) ∈ populated_of results ↔ results !! i = Some r ∧ pr_populated r = true.
Proof.
  unfold populated_of. rewrite list_elem_of_filter elem_of_lookup_imap. cbn. split.
  - intros (Hp & j & x & [= -> ->] & Hj). done.
  - intros [Hj Hp]. eauto.
Qed.
Lemma populated_nodup results : NoDup (populated_of results).*1.
Proof.
  assert (Hn : ∀ l : list (nat * migratePartitionResult), NoDup l.*1 → NoDup (filter (λ ip : nat * migratePartitionResult, pr_populated ip.2 = true) l).*1).
  { induction l as [|x l IH]; intros Hd; [done|]. rewrite filter_cons. apply NoDup_cons in Hd as [Hx Hd].
    case_decide; [|by apply IH]. cbn. constructor; [|by apply IH]. intros (y & Hy & Hin)%list_elem_of_fmap.
    apply list_elem_of_filter in Hin as [_ Hin]. apply Hx. rewrite Hy. by apply list_elem_of_fmap_2. }
  apply Hn. assert (Heq : (imap pair results).*1 = seq 0 (length results)).
  { apply list_eq. intros i. rewrite list_lookup_fmap list_lookup_imap.
    destruct (results !! i) eqn:E; cbn.
    - apply lookup_lt_Some in E. by rewrite lookup_seq_lt.
    - apply lookup_ge_None in E. by rewrite lookup_seq_ge. }
  rewrite Heq. apply NoDup_seq.
Qed.

(** The results of the partitions with leaves [parts]. *)
Record partitions_ok (parts : list (list (bytes * bytes))) (results : list migratePartitionResult) : Prop := {
  po_length : length parts = migrateTriePartitions;
  po_results : length results = migrateTriePartitions;
  po_each : ∀ i l r, parts !! i = Some l → results !! i = Some r → partial_result i l r;
  po_leaves : leaves_ok (concat parts);
  po_nibbles : ∀ i l, parts !! i = Some l → Forall (λ kv, first_nibble kv.1 = Some (N.of_nat i)) l
}.

Lemma po_lookup parts results i r : partitions_ok parts results → results !! i = Some r → ∃ l, parts !! i = Some l ∧ partial_result i l r.
Proof.
  intros Hp Hi. destruct (lookup_lt_is_Some_2 parts i) as [l Hl].
  { apply lookup_lt_Some in Hi. rewrite (po_length _ _ Hp). by rewrite (po_results _ _ Hp) in Hi. }
  exists l. split; [done|]. by eapply po_each.
Qed.
Lemma po_unpopulated parts results i l :
  partitions_ok parts results → parts !! i = Some l → (∀ r, (i, r) ∉ populated_of results) → l = [].
Proof.
  intros Hp Hl Hno. destruct (lookup_lt_is_Some_2 results i) as [r Hr].
  { apply lookup_lt_Some in Hl. rewrite (po_results _ _ Hp). by rewrite (po_length _ _ Hp) in Hl. }
  eapply pres_empty; [by eapply po_each|]. apply not_true_iff_false. intros Ht. eapply (Hno r), elem_of_populated. done.
Qed.

(** One populated partition: its mounted root. *)
Lemma mount_ok parts results only r h blob orphaned :
  partitions_ok parts results → populated_of results = [(only, r)] →
  MountPartitionRoot (pr_rootBlob r) (byte_of_N (N.of_nat only)) = Ok (h, blob, orphaned) → h = trie_root (concat parts).
Proof.
  intros Hp Hone Hm. assert (Hin : (only, r) ∈ populated_of results) by (rewrite Hone; left).
  apply elem_of_populated in Hin as [Hr Hpop]. destruct (po_lookup _ _ _ _ Hp Hr) as (l & Hl & Hres).
  rewrite (concat_only _ _ _ Hl).
  - destruct Hres as [Hok _ Hblob Hval Hlen]. rewrite Hpop in Hlen. symmetry in Hlen. apply negb_true_iff, Nat.eqb_neq in Hlen.
    unfold validateMigratePartitionResult in Hval. rewrite Hpop in Hval. cbn [negb] in Hval. minv.
    match goal with Hx : (length (pr_rootBlob r) =? 0)%nat = false |- _ => apply Nat.eqb_neq in Hx; rename Hx into Hbl end.
    destruct (root_blob_elem [] (partial_nodes only l)) as [Hemp|(n & Hn & Hpath & Hb)]; [by rewrite Hblob Hemp in Hbl|].
    rewrite Hblob Hb in Hm. eapply mount_root; [| | | |done..]; [|done| |by eapply po_nibbles].
    + apply lookup_lt_Some in Hl. by rewrite (po_length _ _ Hp) in Hl.
    + by intros ->.
  - intros j l' Hj Hne. eapply po_unpopulated; [done..|]. intros r' Hr'. rewrite Hone in Hr'. apply list_elem_of_singleton in Hr'. by simplify_eq.
Qed.

(** Several: a branch over their roots. *)
Lemma branch_ok parts results i ri j rj rest h blob :
  partitions_ok parts results → populated_of results = (i, ri) :: (j, rj) :: rest →
  AssembleBranch (map (λ p, if pr_populated p then hash_bytes (pr_root p) else []) results ++ [[]]) = Ok (blob, h) →
  h = trie_root (concat parts).
Proof.
  intros Hp Hpop Ha. pose proof (populated_nodup results) as Hnd. rewrite Hpop in Hnd. cbn in Hnd. apply NoDup_cons in Hnd as [Hij _].
  assert (Hne : ∀ k rk, (k, rk) ∈ populated_of results → parts !!! k ≠ []).
  { intros k rk Hk. apply elem_of_populated in Hk as [Hk Hpk]. destruct (po_lookup _ _ _ _ Hp Hk) as (l & Hl & Hres).
    rewrite (list_lookup_total_correct _ _ _ Hl). intros ->. by rewrite (proj2 (pres_empty _ _ _ Hres)) in Hpk. }
  eapply (assemble_root parts i j blob h); [apply Hp..|set_solver| | |].
  - apply (Hne i ri). rewrite Hpop. left.
  - apply (Hne j rj). rewrite Hpop. right; left.
  - rewrite -Ha. f_equal. unfold partition_children. f_equal. apply list_eq. intros k.
    change (map ?f ?s) with (f <$> s). rewrite list_lookup_fmap list_lookup_imap.
    destruct (results !! k) as [r|] eqn:Hr.
    + destruct (po_lookup _ _ _ _ Hp Hr) as (l & Hl & Hres). rewrite Hl. cbn. f_equal. rewrite (pres_populated _ _ _ Hres) (pres_root _ _ _ Hres).
      by destruct l.
    + apply lookup_ge_None in Hr. rewrite (po_results _ _ Hp) -(po_length _ _ Hp) in Hr. apply lookup_ge_None in Hr. by rewrite Hr.
Qed.

Lemma assembleMigratedTrie_ok w owner expected parts results v wd h v' wd' :
  partitions_ok parts results →
  assembleMigratedTrie out w owner expected results v wd = (Ok h, v', wd') → h = expected ∧ trie_root (concat parts) = expected.
Proof.
  intros Hp Hr. unfold assembleMigratedTrie in Hr. fold (populated_of results) in Hr.
  destruct (populated_of results) as [|[i ri] [|[j rj] rest]] eqn:Hpop.
  - minv. match goal with Hx : negb _ = false |- _ => apply negb_false_iff, bool_decide_eq_true in Hx; subst end. split; [done|].
    assert (Hnil : concat parts = []).
    { assert (Hall : ∀ l, l ∈ parts → l = []).
      { intros l Hl. apply list_elem_of_lookup in Hl as [k Hk]. eapply po_unpopulated; [done..|]. intros r. rewrite Hpop. set_solver. }
      clear -Hall. induction parts as [|l parts IH]; [done|]. cbn. rewrite (Hall l) ?IH //; set_solver. }
    rewrite Hnil. apply stack_root_empty.
  - mstep Hr. minv. destruct x as [[h0 blob] orphaned]. minv.
    match goal with Hx : negb _ = false |- _ => apply negb_false_iff, bool_decide_eq_true in Hx; subst end.
    match goal with Hx : MountPartitionRoot _ _ = _ |- _ => apply (mount_ok parts results) in Hx; [|done..] end. done.
  - mstep Hr. minv. destruct x2 as [blob h0]. minv.
    match goal with Hx : negb _ = false |- _ => apply negb_false_iff, bool_decide_eq_true in Hx; subst end.
    match goal with Hx : AssembleBranch _ = _ |- _ => apply (branch_ok parts results i ri j rj rest) in Hx; [|done..] end. done.
Qed.

(** *** One storage partition *)

Lemma storage_partition_loop_ok w h st0 st ns nodes done_ storage v wd st' nodes' counts' v' wd' :
  pstack_feed st0 done_ = Ok (st, ns) → nd_err nodes = None → nd_rootBlob nodes = root_blob [] ns →
  Forall (λ kv, length kv.1 = HashLength ∧ validateStorageRLP kv.2 = Ok ()) done_ →
  storage_partition_loop out w h (st, nodes, reduce (raw_sum (map (λ kv, slot_counts kv.2) done_))) storage v wd = (Ok (st', nodes', counts'), v', wd') →
  ∃ ns', pstack_feed st0 (done_ ++ storage) = Ok (st', ns') ∧ nd_err nodes' = None ∧ nd_rootBlob nodes' = root_blob [] ns' ∧
    Forall (λ kv, length kv.1 = HashLength ∧ validateStorageRLP kv.2 = Ok ()) (done_ ++ storage) ∧
    counts' = reduce (raw_sum (map (λ kv, slot_counts kv.2) (done_ ++ storage))).
Proof.
  revert st ns nodes done_ v wd. induction storage as [|[k x] storage IH]; intros st ns nodes done_ v wd Hf He Hb Hv Hr;
    cbn [storage_partition_loop] in Hr.
  - minv. simplify_eq. rewrite app_nil_r. eauto 10.
  - minv. destruct x0 as [[st1 nodes1] counts1].
    match goal with Hx : processMigratedStorageSlot _ _ _ _ _ _ _ _ _ _ = _ |- _ =>
      apply processMigratedStorageSlot_ok in Hx as (Hk & Hval & He1 & -> & ns1 & Hup & Hb1) end.
    specialize (Hb1 eq_refl). replace (done_ ++ (k, x) :: storage) with ((done_ ++ [(k, x)]) ++ storage) by by rewrite -app_assoc.
    eapply (IH st1 (ns ++ ns1) nodes1); [by eapply pstack_feed_snoc|done| |by apply Forall_app; split; [|constructor]|].
    + rewrite Hb1 Hb. unfold root_blob. by rewrite foldl_app.
    + rewrite map_app raw_sum_snoc -reduce_add_l. exact Hr.
Qed.

Lemma with_writer_ok {A} deferred (body : nat → M V A) v wd a v' wd' :
  with_writer out deferred body v wd = (Ok a, v', wd') → ∃ w v1 wd1 v2 wd2, body w v1 wd1 = (Ok a, v2, wd2).
Proof. unfold with_writer. intros Hr. minv. subst. eauto 10. Qed.

Lemma migrateStoragePartition_ok h r i v wd res v' wd' :
  migrateStoragePartition out root h r (N.of_nat i) v wd = (Ok res, v', wd') →
  ∃ storage, storage_range root h r (migratePartitionRange (N.of_nat i)).1 (migratePartitionRange (N.of_nat i)).2 = Ok (storage, None) ∧
    Forall (λ kv, length kv.1 = HashLength ∧ validateStorageRLP kv.2 = Ok ()) storage ∧
    partial_result i storage res ∧ pr_counts res = reduce (raw_sum (map (λ kv, slot_counts kv.2) storage)).
Proof.
  intros Hr. unfold migrateStoragePartition in Hr. mstep Hr. minv.
  destruct (migratePartitionRange (N.of_nat i)) as [start stop]. cbn [fst snd]. mstep Hr. minv. destruct x as [storage iterErr].
  apply with_writer_ok in Hr as (w & v1 & wd1 & v2 & wd2 & Hr). mstep Hr. destruct x as [[st nodes] counts].
  match goal with Hx : storage_partition_loop _ _ _ _ _ _ _ = _ |- _ =>
    apply (storage_partition_loop_ok _ _ (pstack_new (byte_of_N (N.of_nat i))) _ [] _ []) in Hx as (ns & Hf & He & Hb & Hv & Hc) end; [|done..].
  destruct iterErr; [by minv|]. minv.
  match goal with Hx : on_partition_nodes _ _ _ _ _ _ _ _ = _ |- _ => rename Hx into Hn end.
  match goal with Hx : check_nodes _ _ _ _ = _ |- _ => apply check_nodes_ok in Hx as [He1 _] end.
  apply on_partition_nodes_ok in Hn as [_ Hb1]; [|done]. specialize (Hb1 eq_refl). cbn [app] in *.
  exists storage. split; [done|]. split; [done|]. split; [|done]. split; cbn.
  - eapply partial_sorted; [|exact Hf]. eapply Forall_impl; [exact Hv|]. by intros ? [? _].
  - unfold partial_root. by rewrite Hf.
  - unfold partial_nodes. rewrite Hf Hb1 Hb. unfold root_blob. by rewrite foldl_app.
  - done.
  - done.
Qed.

Lemma storage_tasks_ok h r order results v wd results' v' wd' :
  storage_tasks out root h r order results v wd = (Ok results', v', wd') → length results' = length results ∧
  (∀ i, (i < length results)%nat →
    (¬ (i ∈ order) ∧ results' !! i = results !! i) ∨
    (∃ res v1 wd1 v2 wd2, i ∈ order ∧ results' !! i = Some res ∧ migrateStoragePartition out root h r (N.of_nat i) v1 wd1 = (Ok res, v2, wd2))).
Proof.
  revert results v wd. induction order as [|j order IH]; intros results v wd Hr; cbn [storage_tasks] in Hr.
  - minv. subst. split; [done|]. intros i Hi. left. split; [set_solver|done].
  - minv. apply IH in Hr as [Hl Hr]. rewrite length_insert in Hl Hr. split; [done|]. intros i Hi.
    destruct (Hr i Hi) as [[Hno Heq]|(res & v1 & wd1 & v2 & wd2 & Hin & Hres)]; [|right; eexists res, _, _, _, _; split; [by right|done]].
    destruct (decide (i = j)) as [->|Hne].
    + right. rewrite list_lookup_insert_eq // in Heq. eexists _, _, _, _, _. split; [by left|]. split; [exact Heq|done].
    + left. rewrite list_lookup_insert_ne // in Heq. split; [set_solver|done].
Qed.

(** *** The probe *)

Lemma probe_loop_ok n w h r st0 st ns nodes done_ storage iterErr v wd part counts' v' wd' :
  stack_feed st0 done_ = Ok (st, ns) → Forall (λ kv, length kv.1 = HashLength ∧ validateStorageRLP kv.2 = Ok ()) done_ →
  probe_loop out n w h r (st, nodes, reduce (raw_sum (map (λ kv, slot_counts kv.2) done_))) storage iterErr v wd = (Ok (part, counts'), v', wd') →
  part = true ∨
  (part = false ∧ iterErr = None ∧ ∃ st' ns', stack_feed st0 (done_ ++ storage) = Ok (st', ns') ∧ (stack_hash st').1 = r ∧
    Forall (λ kv, length kv.1 = HashLength ∧ validateStorageRLP kv.2 = Ok ()) (done_ ++ storage) ∧
    counts' = reduce (raw_sum (map (λ kv, slot_counts kv.2) (done_ ++ storage)))).
Proof.
  assert (Hfin : ∀ w st ns nodes done_ v wd, stack_feed st0 done_ = Ok (st, ns) →
    Forall (λ kv, length kv.1 = HashLength ∧ validateStorageRLP kv.2 = Ok ()) done_ →
    finishProbedStorage out w st iterErr nodes h r (reduce (raw_sum (map (λ kv, slot_counts kv.2) done_))) v wd = (Ok (part, counts'), v', wd') →
    part = false ∧ iterErr = None ∧ ∃ st' ns', stack_feed st0 (done_ ++ []) = Ok (st', ns') ∧ (stack_hash st').1 = r ∧
      Forall (λ kv, length kv.1 = HashLength ∧ validateStorageRLP kv.2 = Ok ()) (done_ ++ []) ∧
      counts' = reduce (raw_sum (map (λ kv, slot_counts kv.2) (done_ ++ [])))).
  { intros w0 st1 ns1 nodes1 d v0 wd0 Hf Hv Hr. unfold finishProbedStorage in Hr. destruct iterErr; [by minv|]. minv. simplify_eq.
    match goal with Hx : negb _ = false |- _ => apply negb_false_iff, bool_decide_eq_true in Hx end. rewrite app_nil_r. eauto 10. }
  revert st ns nodes done_ storage v wd. induction n as [|n IH]; intros st ns nodes done_ storage v wd Hf Hv Hr; cbn [probe_loop] in Hr.
  - destruct storage as [|kv storage]; [right; by eapply Hfin|]. minv. simplify_eq. by left.
  - minv. destruct storage as [|[k x] storage]; [right; by eapply Hfin|]. minv. destruct x0 as [[st1 nodes1] counts1].
    match goal with Hx : processMigratedStorageSlot _ _ _ _ _ _ _ _ _ _ = _ |- _ =>
      apply processMigratedStorageSlot_ok in Hx as (Hk & Hval & _ & -> & ns1 & Hup & _) end.
    replace (done_ ++ (k, x) :: storage) with ((done_ ++ [(k, x)]) ++ storage) by by rewrite -app_assoc.
    eapply (IH st1 (ns ++ ns1)); [by eapply stack_feed_snoc|by apply Forall_app; split; [|constructor]|].
    rewrite map_app raw_sum_snoc -reduce_add_l. exact Hr.
Qed.

Definition slots_of (leaves : list (bytes * bytes)) : list (Hash * bytes) := map (λ kv, (vec_of_bytes 32 kv.1, kv.2)) leaves.

Lemma slot_leaves_of leaves : Forall (λ kv, length kv.1 = HashLength) leaves → slot_leaves (slots_of leaves) = leaves.
Proof.
  unfold slot_leaves, slots_of. rewrite map_map. induction 1 as [|[k v] l Hk _ IH]; [done|]. cbn in *. by rewrite IH hash_bytes_of.
Qed.

(** *** Storage of an account *)

Context (account_trie : Hash → list (bytes * bytes)) (storage_trie : Hash → Hash → Hash → list (bytes * bytes))
  `{!RangeReaderLaws account_trie storage_trie}.

(** The whole storage of account [h], whose storage root is [r], was read and
    checked: [slots]. *)
Definition storage_read (h r : Hash) (slots : list (Hash * bytes)) : Prop :=
  (r = EmptyRootHash ∧ slots = []) ∨
  (r ≠ EmptyRootHash ∧ slot_leaves slots = storage_trie root h r ∧ leaves_ok (slot_leaves slots) ∧
   Forall (λ kv, validateStorageRLP kv.2 = Ok ()) slots ∧ trie_root (slot_leaves slots) = r).

Lemma storage_read_leaves h r leaves :
  r ≠ EmptyRootHash → leaves = storage_trie root h r → leaves_ok leaves → trie_root leaves = r →
  Forall (λ kv, length kv.1 = HashLength ∧ validateStorageRLP kv.2 = Ok ()) leaves →
  storage_read h r (slots_of leaves) ∧ raw_sum (map (λ kv, slot_counts kv.2) leaves) = slots_total (slots_of leaves).
Proof.
  intros Hr Hl Hok Hroot Hv. assert (Hkeys : Forall (λ kv : bytes * bytes, length kv.1 = HashLength) leaves).
  { eapply Forall_impl; [exact Hv|]. by intros ? [? _]. }
  split.
  - right. rewrite slot_leaves_of //. do 3 (split; [done|]). split; [|done]. unfold slots_of. apply Forall_fmap.
    eapply Forall_impl; [exact Hv|]. by intros ? [_ ?].
  - unfold slots_total, slots_of. by rewrite map_map.
Qed.

(** Results of all ranges of sorted leaves. *)
Lemma partition_leaves_lookup L i : (i < migrateTriePartitions)%nat →
  partition_leaves L !! i = Some (range_leaves (migratePartitionRange (N.of_nat i)) L).
Proof.
  intros Hi. unfold partition_leaves. change (map ?f ?s) with (f <$> s). by rewrite list_lookup_fmap lookup_seq_lt.
Qed.

Lemma Forall_partitions (P : bytes * bytes → Prop) L :
  StronglySorted bytes_lt L.*1 →
  (∀ i, (i < migrateTriePartitions)%nat → Forall P (range_leaves (migratePartitionRange (N.of_nat i)) L)) → Forall P L.
Proof.
  intros Hs Hp. rewrite -(partition_leaves_concat L Hs). apply Forall_concat, Forall_fmap, Forall_forall.
  intros i [_ Hi]%elem_of_seq. by apply Hp.
Qed.

Lemma partitions_whole L results :
  StronglySorted bytes_lt L.*1 → length results = migrateTriePartitions →
  (∀ i res, results !! i = Some res → partial_result i (range_leaves (migratePartitionRange (N.of_nat i)) L) res) →
  partitions_ok (partition_leaves L) results.
Proof.
  intros Hs Hlen Hres. assert (Hok : leaves_ok L).
  { split; [done|]. apply (Forall_partitions _ _ Hs). intros i Hi.
    destruct (lookup_lt_is_Some_2 results i) as [res Hir]; [by rewrite Hlen|]. by destruct (Hres i res Hir) as [[_ ?] _ _ _ _]. }
  split; [done|done| | |].
  - intros i l res Hi Hir. rewrite partition_leaves_lookup in Hi; [|apply lookup_lt_Some in Hir; by rewrite Hlen in Hir].
    injection Hi as <-. by apply Hres.
  - by rewrite partition_leaves_concat.
  - intros i l. apply partition_leaves_nibble. destruct Hok as [_ Hf]. eapply Forall_impl; [exact Hf|]. by intros ? [? _].
Qed.

Lemma raw_sum_concat (ls : list (list Counts)) : raw_sum (concat ls) = raw_sum (map raw_sum ls).
Proof. induction ls as [|l ls IH]; [done|]. cbn [concat map]. rewrite raw_sum_app IH //. Qed.

(** The counts of all partitions. *)
Lemma partition_counts_sum (results : list migratePartitionResult) (costs : list (list Counts)) :
  length costs = length results →
  (∀ i res, results !! i = Some res → ∃ cs, costs !! i = Some cs ∧ pr_counts res = reduce (raw_sum cs)) →
  sum_counts (pr_counts <$> results) = reduce (raw_sum (concat costs)).
Proof.
  intros Hlen Hc. rewrite raw_sum_concat -sum_counts_reduce. f_equal. apply list_eq. intros i. rewrite !list_lookup_fmap.
  destruct (results !! i) as [res|] eqn:Hi; cbn.
  - destruct (Hc i res Hi) as (cs & -> & ->). done.
  - apply lookup_ge_None in Hi. rewrite -Hlen in Hi. apply lookup_ge_None in Hi. by rewrite Hi.
Qed.

(** The partitioned path. *)
Lemma migratePartitionedStorage_ok h r order v wd counts v' wd' :
  order ≡ₚ seq 0 migrateTriePartitions → r ≠ EmptyRootHash →
  migratePartitionedStorage out root h r order v wd = (Ok counts, v', wd') →
  ∃ slots, storage_read h r slots ∧ counts = reduce (slots_total slots).
Proof.
  intros Hord Hne Hr. unfold migratePartitionedStorage in Hr. mstep Hr. minv.
  match goal with Hx : storage_tasks _ _ _ _ _ _ _ _ = (Ok ?x, _, _) |- _ => apply storage_tasks_ok in Hx as [Hlen Htasks]; rename x into results end.
  apply with_writer_ok in Hr as (w & v1 & wd1 & v2 & wd2 & Hr). minv.
  set (L := storage_trie root h r) in *. assert (Hs : StronglySorted bytes_lt L.*1) by apply storage_ascending.
  assert (Hres : ∀ i res, results !! i = Some res → let l := range_leaves (migratePartitionRange (N.of_nat i)) L in
    partial_result i l res ∧ pr_counts res = reduce (raw_sum (map (λ kv, slot_counts kv.2) l)) ∧
    Forall (λ kv, length kv.1 = HashLength ∧ validateStorageRLP kv.2 = Ok ()) l).
  { intros i res Hi. assert (Hlt : (i < 16)%nat) by (apply lookup_lt_Some in Hi; by rewrite Hlen in Hi).
    destruct (Htasks i Hlt) as [[Hno _]|(res' & v3 & wd3 & v4 & wd4 & _ & Hi' & Hm)].
    - exfalso. apply Hno. rewrite Hord. apply elem_of_seq. unfold migrateTriePartitions. lia.
    - rewrite Hi in Hi'. injection Hi' as <-. apply migrateStoragePartition_ok in Hm as (storage & Hst & Hv & Hp & Hc).
      apply storage_some in Hst. rewrite -surjective_pairing in Hst. subst storage. done. }
  assert (Hparts : partitions_ok (partition_leaves L) results) by (apply partitions_whole; [done..|]; intros i res Hi; by apply Hres).
  assert (Hall : Forall (λ kv, length kv.1 = HashLength ∧ validateStorageRLP kv.2 = Ok ()) L).
  { apply (Forall_partitions _ _ Hs). intros i Hi. destruct (lookup_lt_is_Some_2 results i) as [res Hir]; [by rewrite Hlen|]. by apply (Hres i res). }
  match goal with Hx : assembleMigratedTrie _ _ _ _ _ _ _ = _ |- _ =>
    apply (assembleMigratedTrie_ok _ _ _ (partition_leaves L)) in Hx as [_ Hroot]; [|done] end.
  pose proof (po_leaves _ _ Hparts) as Hok. rewrite partition_leaves_concat // in Hroot Hok.
  destruct (storage_read_leaves h r L) as [Hrd Htot]; try done. exists (slots_of L). split; [done|].
  rewrite -Htot -{1}(partition_leaves_concat L Hs) concat_map. apply partition_counts_sum.
  - by rewrite length_map Hlen.
  - intros i res Hi. eexists. change (map ?f (partition_leaves L)) with (f <$> partition_leaves L).
    rewrite list_lookup_fmap partition_leaves_lookup; [|apply lookup_lt_Some in Hi; by rewrite Hlen in Hi].
    split; [reflexivity|]. by apply Hres.
Qed.

Lemma migrateStorage_ok h r order v wd counts v' wd' :
  order ≡ₚ seq 0 migrateTriePartitions →
  migrateStorage out root h r order v wd = (Ok counts, v', wd') →
  ∃ slots, storage_read h r slots ∧ counts = reduce (slots_total slots).
Proof.
  intros Hord Hr. unfold migrateStorage in Hr. case_bool_decide as He.
  { minv. exists []. split; [by left|done]. }
  mstep Hr. destruct x as [part cs]. destruct part; cbn [negb] in Hr; [by eapply migratePartitionedStorage_ok|]. minv. simplify_eq.
  match goal with Hx : probeStorage _ _ _ _ _ _ = _ |- _ => rename Hx into Hp; unfold probeStorage in Hp end.
  mstep Hp. minv. destruct x as [storage iterErr].
  match goal with Hx : with_writer _ _ _ _ _ = _ |- _ => apply with_writer_ok in Hx as (w & v1 & wd1 & v2 & wd2 & Hp2) end.
  apply (probe_loop_ok _ _ _ _ stack_new _ [] _ []) in Hp2 as [?|(_ & -> & st & ns & Hf & Hroot & Hv & ->)]; [done| |done..]. cbn [app] in *.
  match goal with Hx : storage_iterator _ _ _ = _ |- _ => apply storage_all in Hx as Hl end.
  assert (Hok : leaves_ok storage).
  { eapply stack_feed_sorted; [|exact Hf]. eapply Forall_impl; [exact Hv|]. by intros ? [? _]. }
  destruct (storage_read_leaves h r storage) as [Hrd Htot]; try done.
  { rewrite -Hroot. symmetry. by eapply stack_root. }
  exists (slots_of storage). by rewrite Htot.
Qed.

End Assembly.

End StorageLemmas.
