(* ===== verification/PartitionRun.v ===== *)
(** * The partitioned run is correct under every interleaving

    The invariant of the partition state machines of [Partition.v]: every
    account a partition has read is prepared, in flight in a job, waiting in
    the merger or merged, merged accounts form a prefix in order, and the
    code hashes claimed by all partitions together are the shared set without
    repetition. From it: a run that succeeds, whatever the order of its
    events, has read and checked the whole state, its root is the root asked
    for, its counts are those of the state, and they are the result of the
    sequential traversal of [Traverse.v]. *)

From S2P Require Import Prelude Sha256 Geth Instances Manifest StrictIO Records Scanner Bundle Account StateTrie Consumer Stream Traverse AtomicDir Export DirectWriter OvmIndex OvmTransform PruneKeep Partition PartitionStorage.

(** An account as its partition prepared it, with its leaf value. *)
Definition prep : Type := migratePreparedAccount * bytes.
Definition prep_leaf (x : prep) : bytes * bytes := (hash_bytes (pa_hash x.1), x.2).

(** An account as it was merged: with its storage and the code read for it. *)
Record merged := MkMerged { mm_prep : prep; mm_slots : list (Hash * bytes); mm_code : bytes }.

(** ** Claims on code *)

Definition claims (xs : list prep) : list Hash := omap (λ x, if pa_writeCode x.1 then Some (pa_codeHash x.1) else None) xs.

Lemma claims_cons x xs : claims (x :: xs) = (if pa_writeCode x.1 then [pa_codeHash x.1] else []) ++ claims xs.
Proof. unfold claims. cbn. by destruct (pa_writeCode x.1). Qed.

Record claims_ok (codes : hashSet) (xs : list prep) : Prop := {
  co_nodup : NoDup (claims xs);
  co_codes : list_to_set (claims xs) = codes;
  co_known : Forall (λ x, pa_codeReference x.1 = true → pa_codeHash x.1 ∈ codes) xs
}.

#[export] Instance claims_proper : Proper ((≡ₚ) ==> (≡ₚ)) claims.
Proof. intros xs ys Hp. unfold claims. by rewrite Hp. Qed.
#[export] Instance claims_ok_proper codes : Proper ((≡ₚ) ==> iff) (claims_ok codes).
Proof.
  assert (Hone : ∀ xs ys, xs ≡ₚ ys → claims_ok codes xs → claims_ok codes ys).
  { intros xs ys Hp [Hn Hc Hk]. split; [by rewrite -Hp| |by rewrite -Hp].
    rewrite -Hc. apply list_to_set_perm_L. by rewrite Hp. }
  intros xs ys Hp. split; by apply Hone.
Qed.

(** What preparing an account does to the shared set. *)
Definition claim_step (codes : hashSet) (x : prep) (codes' : hashSet) : Prop :=
  if pa_codeReference x.1 then hashSet_Add codes (pa_codeHash x.1) = (codes', pa_writeCode x.1)
  else codes' = codes ∧ pa_writeCode x.1 = false.

Lemma claims_ok_add codes x codes' xs : claims_ok codes xs → claim_step codes x codes' → claims_ok codes' (x :: xs).
Proof.
  intros [Hn Hc Hk] Hs. unfold claim_step, hashSet_Add, hashSet_Has in Hs.
  destruct (pa_codeReference x.1) eqn:Hr.
  - case_bool_decide as Hin; injection Hs as <- Hw; split; rewrite ?claims_cons -?Hw.
    + done.
    + done.
    + by constructor.
    + constructor; [|done]. intros Hx. apply Hin. rewrite -Hc. by apply elem_of_list_to_set.
    + cbn. by rewrite Hc.
    + constructor; [set_solver|]. eapply Forall_impl; [exact Hk|]. set_solver.
  - destruct Hs as [-> Hw]. split; rewrite ?claims_cons ?Hw; [done..|]. constructor; [by rewrite Hr|done].
Qed.

Lemma claims_ok_nil : claims_ok newHashSet [].
Proof. split; [constructor|done|constructor]. Qed.

Lemma concat_snoc_at {A} (ls : list (list A)) i l x : ls !! i = Some l → concat (<[i := l ++ [x]]> ls) ≡ₚ x :: concat ls.
Proof.
  revert i. induction ls as [|l0 ls IH]; intros [|i] Hi; cbn in *; try done.
  - injection Hi as ->. rewrite -app_assoc. cbn. by rewrite Permutation_middle.
  - rewrite (IH _ Hi). by rewrite Permutation_middle.
Qed.

(** ** Partitions *)

Definition code_cost (code : bytes) : Counts := if (length code =? 0)%nat then zero_counts else code_counts code.
Definition account_total (m : merged) : Counts :=
  raw_add (account_counts (mm_prep m).2)
    (raw_add (raw_add (reference_counts (pa_codeReference (mm_prep m).1)) (slots_total (mm_slots m))) (code_cost (mm_code m))).

(** The job of the account at position [n]. *)
Definition job_of (x : prep) (n : nat) : migrateAccountResult := prepared_result x.1 (N.of_nat n) x.2.

Section Run.
Context `{Keccak, EmptyHashes, AccountRLP, RLPSplit, StackTrie, TrieReader, RangeReader, PartialTrie} {V : Type}.
Context (out : partitionStateOutput V) (root : Hash).
Context (readCode : Hash → result bytes) (validateAccount : option (Hash → StateAccount → result unit)) (capacity : nat).
Context (trie_root : list (bytes * bytes) → Hash) `{!StackTrieLaws trie_root, !PartialTrieLaws trie_root}.
Context (account_trie : Hash → list (bytes * bytes)) (storage_trie : Hash → Hash → Hash → list (bytes * bytes))
  `{!RangeReaderLaws account_trie storage_trie}.
Implicit Types (g : migrator V) (p : partition_state) (b : burst) (x : prep) (ms : list merged).

Record prep_ok (x : prep) : Prop := {
  px_account : decodeFullAccount x.2 = Ok (pa_account x.1);
  px_valid : match validateAccount with Some f => f (pa_hash x.1) (pa_account x.1) = Ok () | None => True end;
  px_codeHash : pa_codeHash x.1 = BytesToHash (acc_CodeHash (pa_account x.1));
  px_reference : pa_codeReference x.1 = negb (bool_decide (pa_codeHash x.1 = EmptyCodeHash));
  px_write : pa_writeCode x.1 = true → pa_codeReference x.1 = true
}.

(** The storage and, if this account claimed it, the code were read. *)
Definition account_read (m : merged) : Prop :=
  let x := (mm_prep m).1 in
  storage_read root trie_root storage_trie (pa_hash x) (acc_Root (pa_account x)) (mm_slots m) ∧
  if pa_writeCode x then readCode (pa_codeHash x) = Ok (mm_code m) ∧ keccak256 (mm_code m) = pa_codeHash x ∧ mm_code m ≠ []
  else mm_code m = [].

Definition result_ok (x : prep) (n : nat) (r : migrateAccountResult) : Prop :=
  ar_job r = ar_job (job_of x n) ∧ ar_err r = None ∧
  ∃ slots, account_read (MkMerged x slots (ar_code r)) ∧
    ar_counts r = reduce (raw_add (reference_counts (pa_codeReference x.1)) (slots_total slots)).

(** The partial stack and the counts hold the merged accounts. *)
Record merged_ok (i : nat) (p : partition_state) (ms : list merged) : Prop := {
  mo_stack : ∃ ns, pstack_feed (pstack_new (byte_of_N (N.of_nat i))) (map (λ m, prep_leaf (mm_prep m)) ms) = Ok (pt_stack p, ns) ∧
                   nd_rootBlob (pt_nodes p) = root_blob [] ns;
  mo_err : nd_err (pt_nodes p) = None;
  mo_read : Forall account_read ms;
  mo_counts : pr_counts (pt_result p) = reduce (raw_sum (map account_total ms));
  mo_populated : pr_populated (pt_result p) = negb (length ms =? 0)%nat
}.

Record burst_ok (preps : list prep) (ms : list merged) (p : partition_state) (b : burst) : Prop := {
  bo_failure : bu_failure b = None;
  bo_next : bu_next b = N.of_nat (length ms);
  bo_jobs : ∀ job, job ∈ bu_jobs b → ∃ n x, preps !! n = Some x ∧ bj_prepared job = job_of x n ∧
              ∀ r, bj_result job = Some r → result_ok x n r;
  bo_pending : ∀ k r, bu_pending b !! k = Some r → ∃ n x, preps !! n = Some x ∧ k = N.of_nat n ∧ result_ok x n r;
  bo_cover : ∀ n, (length ms ≤ n < length preps)%nat →
    (∃ job, job ∈ bu_jobs b ∧ aj_sequence (ar_job (bj_prepared job)) = N.of_nat n) ∨ is_Some (bu_pending b !! N.of_nat n);
  bo_eof : bu_eof b = true → pt_accounts p = [] ∧ pt_iterErr p = None
}.

(** A partition that is open, with the accounts [preps] read and [ms] merged. *)
Record part_open (i : nat) (p : partition_state) (preps : list prep) (ms : list merged) : Prop := {
  op_range : account_range root (migratePartitionRange (N.of_nat i)).1 (migratePartitionRange (N.of_nat i)).2 =
             Ok (map prep_leaf preps ++ pt_accounts p, pt_iterErr p);
  op_sequence : pt_sequence p = N.of_nat (length preps);
  op_preps : Forall prep_ok preps;
  op_prefix : map mm_prep ms `prefix_of` preps;
  op_merged : merged_ok i p ms
}.

(** A finished partition. *)
Record part_finished (i : nat) (r : migratePartitionResult) (preps : list prep) (ms : list merged) : Prop := {
  pf_range : account_range root (migratePartitionRange (N.of_nat i)).1 (migratePartitionRange (N.of_nat i)).2 =
             Ok (map prep_leaf preps, None);
  pf_preps : Forall prep_ok preps;
  pf_merged : map mm_prep ms = preps;
  pf_read : Forall account_read ms;
  pf_result : partial_result i (map prep_leaf preps) r;
  pf_counts : pr_counts r = reduce (raw_sum (map account_total ms))
}.

Definition part_inv (i : nat) (p : partition_state) (preps : list prep) : Prop :=
  match pt_phase p with
  | Opening => preps = []
  | Reading => ∃ ms, part_open i p preps ms ∧ map mm_prep ms = preps
  | Acquiring first => ∃ ms x, part_open i p preps ms ∧ preps = map mm_prep ms ++ [x] ∧ first = job_of x (length ms)
  | Bursting b => ∃ ms, part_open i p preps ms ∧ burst_ok preps ms p b
  | Closing => ∃ ms, part_open i p preps ms ∧ map mm_prep ms = preps ∧ pt_accounts p = [] ∧ pt_iterErr p = None
  | Finished => ∃ ms, part_finished i (pt_result p) preps ms
  | Failed _ => False
  end.

Record good (P : list (list prep)) (g : migrator V) : Prop := {
  gd_length : length P = migrateTriePartitions;
  gd_parts : length (mg_parts g) = migrateTriePartitions;
  gd_claims : claims_ok (mg_codes g) (concat P);
  gd_inv : ∀ i p preps, mg_parts g !! i = Some p → P !! i = Some preps → part_inv i p preps
}.

(** As long as no failure is recorded. *)
Definition run_inv (g : migrator V) : Prop := mg_failure g = None → ∃ P, good P g.

Lemma good_lookup P g i p : good P g → mg_parts g !! i = Some p → ∃ preps, P !! i = Some preps ∧ part_inv i p preps.
Proof.
  intros Hg Hi. destruct (lookup_lt_is_Some_2 P i) as [preps Hp].
  { apply lookup_lt_Some in Hi. rewrite (gd_length _ _ Hg). by rewrite (gd_parts _ _ Hg) in Hi. }
  exists preps. split; [done|]. by eapply gd_inv.
Qed.

Lemma good_set P g g' i preps p' :
  good P g → P !! i = Some preps → mg_parts g' = <[i := p']> (mg_parts g) → mg_codes g' = mg_codes g →
  part_inv i p' preps → good P g'.
Proof.
  intros [Hl Hp Hc Hi] Hlook Hparts Hcodes Hinv. split; [done|by rewrite Hparts length_insert|by rewrite Hcodes|].
  intros j p0 preps0 Hj Hpj. rewrite Hparts in Hj. destruct (decide (j = i)) as [->|Hne].
  - rewrite Hlook in Hpj. injection Hpj as <-. apply list_lookup_insert_Some in Hj as [(_ & <- & _)|[? _]]; done.
  - rewrite list_lookup_insert_ne // in Hj. by eapply Hi.
Qed.

Lemma good_add P g g' i preps x p' :
  good P g → P !! i = Some preps → mg_parts g' = <[i := p']> (mg_parts g) → claim_step (mg_codes g) x (mg_codes g') →
  part_inv i p' (preps ++ [x]) → good (<[i := preps ++ [x]]> P) g'.
Proof.
  intros [Hl Hp Hc Hi] Hlook Hparts Hcodes Hinv. split; [by rewrite length_insert|by rewrite Hparts length_insert| |].
  - rewrite concat_snoc_at //. by eapply claims_ok_add.
  - intros j p0 preps0 Hj Hpj. rewrite Hparts in Hj. destruct (decide (j = i)) as [->|Hne].
    + apply list_lookup_insert_Some in Hj as [(_ & <- & _)|[? _]]; [|done].
      apply list_lookup_insert_Some in Hpj as [(_ & <- & _)|[? _]]; done.
    + rewrite list_lookup_insert_ne // in Hj. rewrite list_lookup_insert_ne // in Hpj. by eapply Hi.
Qed.

(** ** The recorded failure *)

Lemma poll_run_ok g wd u g' wd' : poll_run g wd = (Ok u, g', wd') → mg_failure g = None ∧ g' = g.
Proof. unfold poll_run. intros Hr. mstep Hr. minv. destruct (mg_failure g); by minv. Qed.

Lemma recordRunFailure_ok e g wd u g' wd' : recordRunFailure e g wd = (Ok u, g', wd') → mg_failure g' ≠ None.
Proof. unfold recordRunFailure. intros Hr. minv. by destruct (mg_failure g) eqn:E; rewrite ?E. Qed.

Lemma guarded_ok i p m g wd u g' wd' :
  guarded out i p m g wd = (Ok u, g', wd') → mg_failure g' = None → m g wd = (Ok (), g', wd').
Proof.
  unfold guarded, fail_partition. intros Hr Hf. mstep Hr. minv. destruct x as [[]|e]; minv; [done|].
  match goal with Hx : recordRunFailure _ _ _ = _ |- _ => by apply recordRunFailure_ok in Hx end.
Qed.

Lemma fail_burst_ok i p b e g wd u g' wd' :
  fail_burst i p b e g wd = (Ok u, g', wd') → bu_failure b = None → mg_failure g' ≠ None.
Proof. unfold fail_burst. intros Hr Hb. rewrite Hb in Hr. minv. match goal with Hx : recordRunFailure _ _ _ = _ |- _ => by apply recordRunFailure_ok in Hx end. Qed.

(** A recorded failure stays. *)
Definition failed (g : migrator V) : Prop := mg_failure g ≠ None.

Lemma keeps_out {A} (m : M V A) : keeps failed (mg_on_out m).
Proof. intros g wd Hf. unfold mg_on_out, zoom. by destruct (m (mg_out g) wd) as [[r v] wd']. Qed.
Lemma keeps_poll_run : keeps failed poll_run.
Proof. unfold poll_run. apply keeps_bind; [apply keeps_gets|]. intros []; [apply keeps_fail|apply keeps_poll]. Qed.
Lemma keeps_record e : keeps failed (recordRunFailure e).
Proof. apply keeps_modify. intros g Hf. by destruct (mg_failure g) eqn:E. Qed.
Lemma keeps_codes_Add h : keeps failed (codes_Add h).
Proof. unfold codes_Add. apply keeps_bind; [apply keeps_get|]. intros g. destruct (hashSet_Add _ _). apply keeps_bind; [by apply keeps_modify|]. intros _. apply keeps_ret. Qed.

Ltac keeps_step :=
  first
  [ progress intros
  | apply keeps_out | apply keeps_poll_run | apply keeps_record | apply keeps_codes_Add
  | apply keeps_ret | apply keeps_fail | apply keeps_lift | apply keeps_get | apply keeps_gets | apply keeps_poll
  | apply keeps_attempt | apply keeps_wrap | apply keeps_bind | (apply keeps_modify; by intros) | done
  | case_match ].

Lemma keeps_fail_partition i p e : keeps failed (fail_partition out i p e).
Proof. unfold fail_partition. repeat keeps_step. Qed.
Lemma keeps_guarded i p m : keeps failed m → keeps failed (guarded out i p m).
Proof. intros Hm. unfold guarded. apply keeps_bind; [by apply keeps_attempt|]. intros []; [apply keeps_ret|apply keeps_fail_partition]. Qed.
Lemma keeps_prepare key rlp : keeps failed (prepareMigrateAccount (V:=V) validateAccount key rlp).
Proof. unfold prepareMigrateAccount. repeat keeps_step. Qed.
Lemma keeps_fail_burst i p b e : keeps failed (fail_burst i p b e).
Proof. unfold fail_burst. repeat keeps_step. Qed.
Lemma keeps_merge_ready fuel i p b : keeps failed (merge_ready out fuel i p b).
Proof.
  revert p b. induction fuel as [|fuel IH]; intros p b; cbn [merge_ready]; [by apply keeps_modify|].
  unfold release_slots. repeat first [apply IH | apply keeps_fail_burst | keeps_step].
Qed.

Lemma keeps_step_ev ev : keeps failed (partition_step out root readCode validateAccount capacity ev).
Proof.
  unfold partition_step, open_partition, read_account, acquire_burst, fill_burst, work_job, receive_result, end_burst, close_partition, release_slots.
  repeat first [apply keeps_guarded | apply keeps_prepare | apply keeps_fail_burst | apply keeps_merge_ready | keeps_step].
Qed.

(** ** Preparing, processing and merging one account *)

Lemma prepare_ok key rlp g wd pa async g' wd' :
  prepareMigrateAccount validateAccount key rlp g wd = (Ok (pa, async), g', wd') →
  prep_ok (pa, rlp) ∧ prep_leaf (pa, rlp) = (key, rlp) ∧ mg_parts g' = mg_parts g ∧ mg_failure g' = mg_failure g ∧
  claim_step (mg_codes g) (pa, rlp) (mg_codes g') ∧
  async = negb (bool_decide (acc_Root (pa_account pa) = EmptyRootHash)) || pa_writeCode pa.
Proof.
  intros Hr. unfold prepareMigrateAccount in Hr. mstep Hr. minv.
  match goal with Hx : negb _ = false |- _ => apply negb_false_iff, Nat.eqb_eq in Hx; rename Hx into Hk end.
  match goal with Hx : (match validateAccount with _ => _ end) _ _ = (Ok ?u, ?g1, _) |- _ =>
    assert (match validateAccount with Some f => f (vec_of_bytes 32 key) x = Ok () | None => True end ∧ g1 = g) as [Hval ->] end.
  { destruct validateAccount; minv; done. }
  case_bool_decide as He.
  - minv. simplify_eq. split; [split; cbn; try done; by rewrite bool_decide_eq_true_2|].
    split; [unfold prep_leaf; cbn; by rewrite hash_bytes_of|]. split; [done|]. split; [done|]. split; [done|]. cbn. by rewrite orb_false_r.
  - mstep Hr. match goal with Hx : codes_Add _ _ _ = _ |- _ => unfold codes_Add in Hx; mstep Hx; minv end.
    destruct (hashSet_Add _ _) as [codes added] eqn:Hadd. minv. simplify_eq. cbn.
    split; [split; cbn; try done; by rewrite bool_decide_eq_false_2|].
    split; [unfold prep_leaf; cbn; by rewrite hash_bytes_of|]. done.
Qed.

Lemma readMigrateCode_ok h v wd code v' wd' :
  readMigrateCode (V:=V) readCode h v wd = (Ok code, v', wd') → h ≠ EmptyCodeHash →
  readCode h = Ok code ∧ keccak256 code = h ∧ code ≠ [].
Proof.
  unfold readMigrateCode. intros Hr Hne. rewrite bool_decide_eq_false_2 // in Hr. minv.
  match goal with Hx : negb _ = false |- _ => apply negb_false_iff, bool_decide_eq_true in Hx; rename Hx into Hk end.
  match goal with Hx : (length _ =? 0)%nat = false |- _ => apply Nat.eqb_neq in Hx; rename Hx into Hl end.
  destruct (readCode h) as [c|e]; [|destruct (error_is ENotExist e)]; simplify_eq; try done.
  split; [done|]. split; [done|]. by intros ->.
Qed.

Lemma processMigrateAccount_ok x n order v wd r v' wd' :
  prep_ok x → order ≡ₚ seq 0 migrateTriePartitions →
  processMigrateAccount out root readCode (ar_job (job_of x n)) order v wd = (Ok r, v', wd') → ar_err r = None → result_ok x n r.
Proof.
  intros Hx Hord Hr He. unfold processMigrateAccount in Hr. mstep Hr. minv. destruct x0 as [[counts code]|e]; minv; [|done].
  match goal with Hy : migrateStorage _ _ _ _ _ _ _ = _ |- _ =>
    apply (migrateStorage_ok out root trie_root account_trie storage_trie) in Hy as (slots & Hrd & ->); [|done] end.
  simplify_eq. cbn [ar_job job_of prepared_result aj_counts aj_hash aj_account aj_writeCode aj_codeHash] in *.
  split; [done|]. split; [done|]. exists slots. cbn. split.
  - split; [exact Hrd|]. cbn. destruct (pa_writeCode x.1) eqn:Hw; [|by minv].
    eapply readMigrateCode_ok; [done|]. intros Hemp. pose proof (px_write _ Hx Hw) as Href.
    rewrite (px_reference _ Hx) Hemp bool_decide_eq_true_2 // in Href.
  - rewrite reduce_add_raw. cbn. unfold reduce, raw_add. cbn. f_equal; by rewrite N.Div0.add_mod_idemp_r.
Qed.

Lemma reduce_reference c : reduce (reference_counts c) = reference_counts c.
Proof. by destruct c. Qed.

(** An account without a job. *)
Lemma ready_ok x n : prep_ok x → acc_Root (pa_account x.1) = EmptyRootHash → pa_writeCode x.1 = false → result_ok x n (job_of x n).
Proof.
  intros Hx Hr Hw. split; [done|]. split; [done|]. exists []. split.
  - split; [by left|]. cbn. by rewrite Hw.
  - cbn. unfold slots_total, raw_sum. cbn [foldr map]. by rewrite right_id reduce_reference.
Qed.

Lemma merge_held_ok i p ms x slots code counts v wd p' v' wd' :
  merged_ok i p ms → account_read (MkMerged x slots code) →
  counts = reduce (raw_add (reference_counts (pa_codeReference x.1)) (slots_total slots)) →
  mergeMigrateAccountDataHeld out p (pa_hash x.1) (pa_account x.1) x.2 (pa_codeHash x.1) code counts v wd = (Ok p', v', wd') →
  merged_ok i p' (ms ++ [MkMerged x slots code]) ∧ pt_phase p' = pt_phase p ∧ pt_accounts p' = pt_accounts p ∧
  pt_iterErr p' = pt_iterErr p ∧ pt_sequence p' = pt_sequence p.
Proof.
  intros [(ns & Hf & Hb) He Hrd Hc Hpop] Hm -> Hr. unfold mergeMigrateAccountDataHeld in Hr. mstep Hr. mstep Hr.
  match goal with Hy : (if (length code =? 0)%nat then _ else _) _ _ = (Ok ?c, _, _) |- _ =>
    assert (c = reduce (raw_add (raw_add (reference_counts (pa_codeReference x.1)) (slots_total slots)) (code_cost code))) as ->; [|clear Hy] end.
  { unfold code_cost. destruct (length code =? 0)%nat; minv; subst; [by rewrite right_id|]. by rewrite reduce_add_l. }
  mstep Hr. minv. match goal with Hy : pstack_update _ _ _ = Ok ?y |- _ => destruct y as [st1 ns1] end. minv.
  match goal with Hx : on_partition_nodes _ _ _ _ _ _ _ _ = _ |- _ => rename Hx into Hn end.
  match goal with Hx : check_nodes _ _ _ _ = _ |- _ => apply check_nodes_ok in Hx as [He1 _] end.
  apply on_partition_nodes_ok in Hn as [_ Hb1]; [|done]. specialize (Hb1 eq_refl). subst. split; [|done]. split; cbn.
  - exists (ns ++ ns1). rewrite map_app. split; [by eapply pstack_feed_snoc|]. rewrite Hb1 Hb. unfold root_blob. by rewrite foldl_app.
  - done.
  - apply Forall_app. by split; [|constructor].
  - rewrite Hc reduce_add_l reduce_add map_app raw_sum_snoc. by rewrite -assoc.
  - by rewrite length_app Nat.add_comm.
Qed.

(** ** The steps of a partition *)

Lemma part_open_same i p p' preps ms :
  part_open i p preps ms → merged_ok i p' ms → pt_accounts p' = pt_accounts p → pt_iterErr p' = pt_iterErr p →
  pt_sequence p' = pt_sequence p → part_open i p' preps ms.
Proof. intros [Hr Hs Hp Hx Hm] Hm' Ha Hi Hq. split; [by rewrite Ha Hi|by rewrite Hq|done..]. Qed.

Lemma merged_ok_same i p p' ms :
  merged_ok i p ms → pt_stack p' = pt_stack p → pt_nodes p' = pt_nodes p → pt_result p' = pt_result p → merged_ok i p' ms.
Proof. intros [? ? ? ? ?] Hs Hn Hr. split; by rewrite ?Hs ?Hn ?Hr. Qed.

Lemma part_open_phase i p preps ms ph : part_open i p preps ms → part_open i (set_phase ph p) preps ms.
Proof. intros Ho. eapply part_open_same; [done|by eapply merged_ok_same; [apply Ho|..]|done..]. Qed.

(** One more account is merged. *)
Lemma part_open_merge i p p' preps ms m :
  part_open i p preps ms → merged_ok i p' (ms ++ [m]) → preps !! length ms = Some (mm_prep m) →
  pt_accounts p' = pt_accounts p → pt_iterErr p' = pt_iterErr p → pt_sequence p' = pt_sequence p → part_open i p' preps (ms ++ [m]).
Proof.
  intros [Hr Hs Hp [rest Hx] Hm] Hm' Hl Ha Hi Hq. split; [by rewrite Ha Hi|by rewrite Hq|done| |done].
  rewrite Hx lookup_app_r length_map // Nat.sub_diag in Hl. destruct rest as [|y rest]; [done|]. injection Hl as ->.
  exists rest. by rewrite Hx map_app -app_assoc.
Qed.

(** The next account of the iterator. *)
Lemma part_open_read i p preps ms x accounts :
  part_open i p preps ms → pt_accounts p = prep_leaf x :: accounts → prep_ok x →
  part_open i (set_sequence (pt_sequence p + 1) (set_accounts accounts p)) (preps ++ [x]) ms.
Proof.
  intros [Hr Hs Hp Hx Hm] Ha Hok. split.
  - rewrite Hr Ha map_app -app_assoc. done.
  - cbn. rewrite Hs length_app. cbn. lia.
  - by apply Forall_app; split; [|constructor].
  - by apply prefix_app_r.
  - by eapply merged_ok_same.
Qed.

Lemma open_inv i p g wd u g' wd' :
  run_inv g → mg_parts g !! i = Some p → pt_phase p = Opening →
  open_partition out root i p g wd = (Ok u, g', wd') → run_inv g'.
Proof.
  intros Hinv Hi Hph Hr Hf. apply guarded_ok in Hr; [|done]. mstep Hr.
  match goal with Hx : poll_run _ _ = _ |- _ => apply poll_run_ok in Hx as [Hnone ->] end.
  destruct (Hinv Hnone) as [P Hg]. destruct (good_lookup _ _ _ _ Hg Hi) as (preps & HP & Hpi).
  unfold part_inv in Hpi. rewrite Hph in Hpi. subst preps.
  destruct (migratePartitionRange (N.of_nat i)) as [start stop] eqn:Hrange. mstep Hr. minv. unfold mg_on_out in Hr.
  match goal with Hx : account_range _ _ _ = Ok ?y |- _ => destruct y as [accounts iterErr] end. minv.
  eexists P. eapply good_set; [done|done|done|done|]. unfold part_inv. cbn. exists [].
  split; [|done]. split; [by rewrite Hrange|done|constructor|done|]. split; try done. by exists [].
Qed.

Lemma read_inv i p g wd u g' wd' :
  run_inv g → mg_parts g !! i = Some p → pt_phase p = Reading →
  read_account out validateAccount i p g wd = (Ok u, g', wd') → run_inv g'.
Proof.
  intros Hinv Hi Hph Hr Hf. apply guarded_ok in Hr; [|done]. mstep Hr.
  match goal with Hx : poll_run _ _ = _ |- _ => apply poll_run_ok in Hx as [Hnone ->] end.
  destruct (Hinv Hnone) as [P Hg]. destruct (good_lookup _ _ _ _ Hg Hi) as (preps & HP & Hpi).
  unfold part_inv in Hpi. rewrite Hph in Hpi. destruct Hpi as (ms & Ho & <-).
  destruct (pt_accounts p) as [|[key rlp] accounts] eqn:Ha.
  { destruct (pt_iterErr p) eqn:Hit; minv. exists P. eapply good_set; [done..|]. unfold part_inv. cbn.
    exists ms. split; [by apply part_open_phase|]. done. }
  mstep Hr. match goal with Hx : prepareMigrateAccount _ _ _ _ _ = (Ok ?y, _, _) |- _ =>
    destruct y as [pa async]; apply prepare_ok in Hx as (Hok & Hleaf & Hparts & Hfail & Hclaim & Hasync) end.
  assert (Ho1 := part_open_read _ _ _ _ (pa, rlp) accounts Ho ltac:(by rewrite Ha Hleaf) Hok).
  destruct async; cbn [negb] in Hr.
  - minv. eexists. eapply good_add; [done|done|by rewrite /= Hparts|done|]. unfold part_inv. cbn.
    exists ms, (pa, rlp). split; [by apply (part_open_phase _ _ _ _ _ Ho1)|]. split; [done|].
    unfold job_of. cbn. by rewrite (op_sequence _ _ _ _ Ho) length_map.
  - symmetry in Hasync. apply orb_false_iff in Hasync as [Hroot Hw]. apply negb_false_iff, bool_decide_eq_true in Hroot.
    mstep Hr. unfold mg_on_out in *. minv.
    match goal with Hx : mergeMigrateAccountDataHeld _ _ _ _ _ _ _ _ _ _ = _ |- _ =>
      apply (merge_held_ok i _ ms (pa, rlp) []) in Hx as (Hm & Hphase & Hacc & Hit & Hseq) end.
    + eexists. eapply good_add; [done|done|by rewrite /= Hparts|done|]. unfold part_inv. cbn. cbn in Hacc, Hit, Hseq.
      rewrite Hphase. cbn. rewrite Hph. exists (ms ++ [MkMerged (pa, rlp) [] []]). split; [|by rewrite map_app]. eapply part_open_merge; [exact Ho1| |by rewrite lookup_app_r length_map // Nat.sub_diag|by cbn..|].
      * by eapply merged_ok_same.
      * cbn. by rewrite Hseq.
    + eapply merged_ok_same; [apply Ho|done..].
    + split; [by left|]. cbn. by rewrite Hw.
    + cbn. unfold slots_total, raw_sum. cbn [foldr map]. by rewrite right_id reduce_reference.
Qed.

Lemma acquire_inv i p first g wd u g' wd' :
  run_inv g → mg_parts g !! i = Some p → pt_phase p = Acquiring first →
  acquire_burst out capacity i p first g wd = (Ok u, g', wd') → run_inv g'.
Proof.
  intros Hinv Hi Hph Hr Hf. apply guarded_ok in Hr; [|done]. mstep Hr.
  match goal with Hx : poll_run _ _ = _ |- _ => apply poll_run_ok in Hx as [Hnone ->] end.
  destruct (Hinv Hnone) as [P Hg]. mstep Hr. minv. destruct (capacity <=? mg_inflight g)%nat; [minv; by exists P|].
  destruct (good_lookup _ _ _ _ Hg Hi) as (preps & HP & Hpi).
  unfold part_inv in Hpi. rewrite Hph in Hpi. destruct Hpi as (ms & x & Ho & -> & ->). minv.
  exists P. eapply good_set; [done..|]. unfold part_inv. cbn. exists ms. split; [by apply part_open_phase|].
  assert (Hx : (map mm_prep ms ++ [x]) !! length ms = Some x) by by rewrite lookup_app_r length_map // Nat.sub_diag.
  split; cbn; try done.
  - intros job ->%list_elem_of_singleton. exists (length ms), x. done.
  - intros n Hn. rewrite length_app length_map in Hn. cbn in Hn. left. eexists. split; [by left|]. cbn. f_equal. lia.
Qed.

(** Adding a job to a burst. *)
Lemma burst_add preps ms p b x accounts job :
  burst_ok preps ms p b → bj_prepared job = job_of x (length preps) →
  (∀ r, bj_result job = Some r → result_ok x (length preps) r) → bu_eof b = false →
  burst_ok (preps ++ [x]) ms (set_sequence (pt_sequence p + 1) (set_accounts accounts p))
    (MkBurst (bu_jobs b ++ [job]) (bu_pending b) (bu_next b) true (bu_eof b) (bu_failure b)).
Proof.
  intros [Hfail Hnext Hjobs Hpend Hcov Heof] Hjob Hres He. split; cbn; try done.
  - intros j [Hj|Hj%list_elem_of_singleton]%elem_of_app.
    + destruct (Hjobs j Hj) as (n & y & Hn & Hrest). exists n, y. split; [by apply lookup_app_l_Some|done].
    + subst j. exists (length preps), x. split; [by rewrite lookup_app_r // Nat.sub_diag|]. done.
  - intros k r Hk. destruct (Hpend k r Hk) as (n & y & Hn & Hrest). exists n, y. split; [by apply lookup_app_l_Some|done].
  - intros n Hn. rewrite length_app in Hn. cbn in Hn. destruct (decide (n = length preps)) as [->|Hne].
    + left. exists job. split; [set_solver|]. by rewrite Hjob.
    + destruct (Hcov n) as [(j & Hj & Hs)|Hs]; [lia| |by right]. left. exists j. split; [set_solver|done].
  - by rewrite He.
Qed.

Lemma burst_stop preps ms p b eof :
  burst_ok preps ms p b → (eof = true → pt_accounts p = [] ∧ pt_iterErr p = None) → burst_ok preps ms p (stop_filling eof b).
Proof. intros [Hfail Hnext Hjobs Hpend Hcov Heof] He. by split. Qed.

Lemma burst_ok_same preps ms p p' b :
  burst_ok preps ms p b → pt_accounts p' = pt_accounts p → pt_iterErr p' = pt_iterErr p → burst_ok preps ms p' b.
Proof. intros [Hfail Hnext Hjobs Hpend Hcov Heof] Ha Hi. split; try done. by rewrite Ha Hi. Qed.

Lemma fill_inv i p b g wd u g' wd' :
  run_inv g → mg_failure g = None → mg_parts g !! i = Some p → pt_phase p = Bursting b →
  fill_burst validateAccount capacity i p b g wd = (Ok u, g', wd') → run_inv g'.
Proof.
  intros Hinv Hnone Hi Hph Hr Hf. destruct (Hinv Hnone) as [P Hg]. destruct (good_lookup _ _ _ _ Hg Hi) as (preps & HP & Hpi).
  unfold part_inv in Hpi. rewrite Hph in Hpi. destruct Hpi as (ms & Ho & Hb). pose proof (bo_failure _ _ _ _ Hb) as Hbf.
  unfold fill_burst in Hr. mstep Hr. minv. destruct (capacity <=? mg_inflight g)%nat.
  { minv. exists P. eapply good_set; [done..|]. unfold part_inv. cbn. exists ms. split; [by apply part_open_phase|].
    eapply (burst_ok_same _ _ p); [by apply burst_stop|done..]. }
  mstep Hr. minv. match goal with Hx : poll_run _ _ = (?c, _, _) |- _ => destruct c as [[]|e] end; [|by apply fail_burst_ok in Hr].
  match goal with Hx : poll_run _ _ = _ |- _ => apply poll_run_ok in Hx as [_ ->] end.
  destruct (pt_accounts p) as [|[key rlp] accounts] eqn:Ha.
  { destruct (pt_iterErr p) eqn:Hit; [by apply fail_burst_ok in Hr|]. minv. exists P. eapply good_set; [done..|].
    unfold part_inv. cbn. exists ms. split; [by apply part_open_phase|]. eapply (burst_ok_same _ _ p); [by apply burst_stop|done..]. }
  mstep Hr. minv. match goal with Hx : prepareMigrateAccount _ _ _ _ _ = (?y, _, _) |- _ => destruct y as [[pa async]|e] end; [|by apply fail_burst_ok in Hr].
  match goal with Hx : prepareMigrateAccount _ _ _ _ _ = _ |- _ =>
    apply prepare_ok in Hx as (Hok & Hleaf & Hparts & Hfail & Hclaim & Hasync) end.
  assert (Ho1 := part_open_read _ _ _ _ (pa, rlp) accounts Ho ltac:(by rewrite Ha Hleaf) Hok). minv.
  eexists. eapply good_add; [done|done|by rewrite /= Hparts|done|]. unfold part_inv. cbn.
  exists ms. split; [by apply (part_open_phase _ _ _ _ _ Ho1)|]. rewrite (op_sequence _ _ _ _ Ho).
  eapply (burst_ok_same _ _ (set_sequence (pt_sequence p + 1) (set_accounts accounts p))); [|done..].
  eapply (burst_add _ _ p _ (pa, rlp) accounts); [done|done| |].
  - cbn. destruct (negb _ || _) eqn:Hasync; [done|]. intros r [= <-].
    apply orb_false_iff in Hasync as [Hroot Hw]. apply negb_false_iff, bool_decide_eq_true in Hroot.
    by apply (ready_ok (pa, rlp)).
  - destruct (bu_eof b) eqn:E; [|done]. destruct (bo_eof _ _ _ _ Hb E) as [Hacc _]. by rewrite Ha in Hacc.
Qed.

Lemma work_inv i p b j order g wd u g' wd' :
  run_inv g → mg_failure g = None → mg_parts g !! i = Some p → pt_phase p = Bursting b →
  order ≡ₚ seq 0 migrateTriePartitions →
  work_job out root readCode i p b j order g wd = (Ok u, g', wd') → run_inv g'.
Proof.
  intros Hinv Hnone Hi Hph Hord Hr Hf. destruct (Hinv Hnone) as [P Hg]. destruct (good_lookup _ _ _ _ Hg Hi) as (preps & HP & Hpi).
  unfold part_inv in Hpi. rewrite Hph in Hpi. destruct Hpi as (ms & Ho & Hb). pose proof (bo_failure _ _ _ _ Hb) as Hbf.
  unfold work_job in Hr. destruct (bu_jobs b !! j) as [[prepared [r0|]]|] eqn:Hj; [by minv; exists P| |by minv; exists P].
  mstep Hr. minv. destruct (ar_err _) eqn:He; [by apply fail_burst_ok in Hr|].
  match goal with Hx : poll_run _ _ = (?c, _, _) |- _ => destruct c as [[]|e] end; [|by minv].
  match goal with Hx : poll_run _ _ = _ |- _ => apply poll_run_ok in Hx as [_ ->] end. unfold mg_on_out in *. minv.
  destruct (bo_jobs _ _ _ _ Hb (MkBurstJob prepared None)) as (n & y & Hn & Hprep & _); [by eapply list_elem_of_lookup_2|].
  cbn in Hprep. subst prepared.
  match goal with Hx : processMigrateAccount _ _ _ _ _ _ _ = _ |- _ => apply processMigrateAccount_ok in Hx; [|by eapply Forall_lookup_1; [apply Ho|]|done..] end.
  exists P. eapply good_set; [done..|]. unfold part_inv. cbn. exists ms. split; [by apply part_open_phase|].
  destruct Hb as [Hfail Hnext Hjobs Hpend Hcov Heof]. split; cbn; try done.
  - intros job Hjob. apply list_elem_of_lookup in Hjob as [k Hk]. apply list_lookup_insert_Some in Hk as [(_ & <- & _)|[_ Hk]].
    + exists n, y. split; [done|]. split; [done|]. cbn. by intros ? [= <-].
    + apply Hjobs. by eapply list_elem_of_lookup_2.
  - intros m Hm. destruct (Hcov m Hm) as [(job & Hjob & Hs)|Hs]; [|by right]. left.
    apply list_elem_of_lookup in Hjob as [k Hk]. destruct (decide (k = j)) as [->|Hne].
    + rewrite Hj in Hk. injection Hk as <-. eexists. split; [apply (list_elem_of_lookup_2 _ j); rewrite list_lookup_insert_eq; [reflexivity|by eapply lookup_lt_Some]|exact Hs].
    + exists job. split; [|done]. apply (list_elem_of_lookup_2 _ k). by rewrite list_lookup_insert_ne.
Qed.

(** Merging the results whose turn it is. *)
Lemma burst_merged preps ms m p p' b :
  burst_ok preps ms p b → pt_accounts p' = pt_accounts p → pt_iterErr p' = pt_iterErr p →
  burst_ok preps (ms ++ [m]) p'
    (MkBurst (bu_jobs b) (delete (bu_next b) (bu_pending b)) (bu_next b + 1) (bu_filling b) (bu_eof b) (bu_failure b)).
Proof.
  intros [Hfail Hnext Hjobs Hpend Hcov Heof] Ha Hi. split; cbn; try done.
  - rewrite Hnext length_app. cbn. lia.
  - intros k r [_ Hk]%lookup_delete_Some. by apply Hpend.
  - intros n Hn. rewrite length_app in Hn. cbn in Hn. destruct (Hcov n) as [?|Hs]; [lia|by left|right].
    rewrite lookup_delete_ne // Hnext. lia.
  - by rewrite Ha Hi.
Qed.

Lemma merge_ready_ok fuel i p b preps ms g wd u g' wd' :
  part_open i p preps ms → burst_ok preps ms p b →
  merge_ready out fuel i p b g wd = (Ok u, g', wd') → mg_failure g' = None →
  ∃ p', mg_parts g' = <[i := p']> (mg_parts g) ∧ mg_codes g' = mg_codes g ∧ part_inv i p' preps.
Proof.
  revert p b ms g wd. induction fuel as [|fuel IH]; intros p b ms g wd Ho Hb Hr Hf; cbn [merge_ready] in Hr.
  { minv. eexists. split; [done|]. split; [done|]. unfold part_inv. cbn. exists ms. split; [by apply part_open_phase|by eapply (burst_ok_same _ _ p)]. }
  destruct (bu_pending b !! bu_next b) as [ordered|] eqn:Hnext.
  2: { minv. eexists. split; [done|]. split; [done|]. unfold part_inv. cbn. exists ms. split; [by apply part_open_phase|by eapply (burst_ok_same _ _ p)]. }
  pose proof (bo_failure _ _ _ _ Hb) as Hbf. unfold release_slots in Hr. mstep Hr. minv.
  match goal with Hx : mbind _ _ _ _ = (?y, _, _) |- _ => destruct y as [p1|e]; rename Hx into Hm end; [|minv; by apply fail_burst_ok in Hr].
  mstep Hm. match goal with Hx : lift _ _ _ = _ |- _ => mstep Hx end.
  mstep Hm. match goal with Hx : poll_run _ _ = _ |- _ => apply poll_run_ok in Hx as [_ ->] end. unfold mg_on_out, mergeMigrateAccount in Hm. minv.
  destruct (bo_pending _ _ _ _ Hb _ _ Hnext) as (n & y & Hn & Hk & Hjob & He & slots & Hread & Hcounts).
  rewrite He in Hm. minv. rewrite Hjob in Hm. cbn in Hm.
  apply (merge_held_ok i p ms y slots) in Hm as (Hm & _ & Hacc & Hit & Hseq); [|apply Ho|done|done].
  eapply IH in Hr as (p' & Hparts & Hcodes & Hinv); [exists p'; done| |by eapply burst_merged|done].
  eapply part_open_merge; [done..| |done|done|done].
  cbn. rewrite (bo_next _ _ _ _ Hb) in Hk. apply Nat2N.inj in Hk. by rewrite Hk.
Qed.

Lemma receive_inv i p b j g wd u g' wd' :
  run_inv g → mg_failure g = None → mg_parts g !! i = Some p → pt_phase p = Bursting b →
  receive_result out i p b j g wd = (Ok u, g', wd') → run_inv g'.
Proof.
  intros Hinv Hnone Hi Hph Hr Hf. destruct (Hinv Hnone) as [P Hg]. destruct (good_lookup _ _ _ _ Hg Hi) as (preps & HP & Hpi).
  unfold part_inv in Hpi. rewrite Hph in Hpi. destruct Hpi as (ms & Ho & Hb). pose proof (bo_failure _ _ _ _ Hb) as Hbf.
  unfold receive_result in Hr. destruct (bu_filling b); [minv; by exists P|].
  destruct (bu_jobs b !! j) as [[prepared [r|]]|] eqn:Hj; [|by minv; exists P..]. rewrite Hbf in Hr.
  destruct (bo_jobs _ _ _ _ Hb (MkBurstJob prepared (Some r))) as (n & x & Hn & Hprep & Hres); [by eapply list_elem_of_lookup_2|].
  specialize (Hres r eq_refl). cbn in Hprep. subst prepared. pose proof (proj1 Hres) as Hjob.
  apply (merge_ready_ok _ _ _ _ preps ms) in Hr as (p' & Hparts & Hcodes & Hp'); [exists P; by eapply good_set|done| |done].
  destruct Hb as [Hfail Hnext Hjobs Hpend Hcov Heof]. split; cbn; try done.
  - intros job Hjob'. apply Hjobs. by eapply elem_of_submseteq, submseteq_delete.
  - intros k r' [(<- & <-)|[_ Hk]]%lookup_insert_Some; [|by apply Hpend]. exists n, x. split; [done|]. split; [by rewrite Hjob|done].
  - intros m Hm. destruct (decide (m = n)) as [->|Hne].
    { right. rewrite Hjob. cbn. rewrite lookup_insert_eq. done. }
    destruct (Hcov m Hm) as [(job & Hjob' & Hs)|Hs].
    + left. exists job. split; [|done]. apply list_elem_of_lookup in Hjob' as [k Hk]. apply list_elem_of_lookup.
      destruct (Nat.lt_trichotomy k j) as [Hlt|[->|Hlt]].
      * exists k. by rewrite list_lookup_delete_lt.
      * rewrite Hj in Hk. injection Hk as <-. cbn in Hs. apply Nat2N.inj in Hs. congruence.
      * exists (k - 1)%nat. rewrite list_lookup_delete_ge; [|lia]. replace (S (k - 1)) with k by lia. done.
    + right. rewrite lookup_insert_ne // Hjob. cbn. intros Hc. apply Nat2N.inj in Hc. congruence.
Qed.

Lemma end_inv i p b g wd u g' wd' :
  run_inv g → mg_failure g = None → mg_parts g !! i = Some p → pt_phase p = Bursting b →
  end_burst out i p b g wd = (Ok u, g', wd') → run_inv g'.
Proof.
  intros Hinv Hnone Hi Hph Hr Hf. destruct (Hinv Hnone) as [P Hg]. destruct (good_lookup _ _ _ _ Hg Hi) as (preps & HP & Hpi).
  unfold part_inv in Hpi. rewrite Hph in Hpi. destruct Hpi as (ms & Ho & Hb).
  unfold end_burst in Hr. destruct (bu_jobs b) eqn:Hjobs; [|minv; by exists P]. destruct (bu_filling b); [minv; by exists P|].
  apply guarded_ok in Hr; [|done]. rewrite (bo_failure _ _ _ _ Hb) in Hr. mstep Hr. minv.
  match goal with Hx : poll_run _ _ = _ |- _ => apply poll_run_ok in Hx as [_ ->] end.
  match goal with Hx : negb _ = false |- _ => apply negb_false_iff, Nat.eqb_eq, map_size_empty_inv in Hx; rename Hx into Hemp end.
  exists P. eapply good_set; [done..|].
  assert (Hms : map mm_prep ms = preps).
  { destruct (op_prefix _ _ _ _ Ho) as [[|y rest] Hrest]; [by rewrite app_nil_r in Hrest|]. exfalso.
    destruct (bo_cover _ _ _ _ Hb (length ms)) as [(job & Hjob & _)|[r Hr]].
    - rewrite Hrest length_app length_map. cbn. lia.
    - rewrite Hjobs in Hjob. set_solver.
    - by rewrite Hemp lookup_empty in Hr. }
  destruct (bu_eof b) eqn:He; unfold part_inv; cbn; exists ms; (split; [by apply part_open_phase|]); [|done].
  split; [done|]. by apply (bo_eof _ _ _ _ Hb).
Qed.

Lemma close_inv i p g wd u g' wd' :
  run_inv g → mg_parts g !! i = Some p → pt_phase p = Closing →
  close_partition out i p g wd = (Ok u, g', wd') → run_inv g'.
Proof.
  intros Hinv Hi Hph Hr Hf. apply guarded_ok in Hr; [|done]. mstep Hr.
  match goal with Hx : poll_run _ _ = _ |- _ => apply poll_run_ok in Hx as [Hnone ->] end.
  destruct (Hinv Hnone) as [P Hg]. destruct (good_lookup _ _ _ _ Hg Hi) as (preps & HP & Hpi).
  unfold part_inv in Hpi. rewrite Hph in Hpi. destruct Hpi as (ms & Ho & <- & Ha & Hit). unfold mg_on_out in *. minv.
  match goal with Hx : on_partition_nodes _ _ _ _ _ _ _ _ = _ |- _ => rename Hx into Hn end.
  match goal with Hx : check_nodes _ _ _ _ = _ |- _ => apply check_nodes_ok in Hx as [He1 ->] end.
  apply on_partition_nodes_ok in Hn as [_ Hb1]; [|done]. specialize (Hb1 eq_refl).
  exists P. eapply good_set; [done..|]. unfold part_inv. cbn. exists ms.
  destruct Ho as [Hrange Hseq Hpreps _ [(ns & Hfeed & Hblob) He Hread Hcounts Hpop]]. rewrite Ha app_nil_r Hit in Hrange.
  split; [done|done|done|done| |done]. rewrite map_map. split.
  - eapply partial_sorted; [|exact Hfeed]. apply Forall_fmap, Forall_true. intros m. apply length_hash_bytes.
  - cbn. unfold partial_root. by rewrite Hfeed.
  - cbn. unfold partial_nodes. rewrite Hfeed Hb1 Hblob. unfold root_blob. by rewrite foldl_app.
  - done.
  - cbn. by rewrite Hpop length_map.
Qed.

(** An event whose storage tasks, if it runs a job, are the sixteen partitions. *)
Definition event_ok (ev : partition_event) : Prop :=
  match ev with EvWork _ _ order => order ≡ₚ seq 0 migrateTriePartitions | _ => True end.

Lemma step_inv ev g wd u g' wd' :
  run_inv g → event_ok ev → partition_step out root readCode validateAccount capacity ev g wd = (Ok u, g', wd') → run_inv g'.
Proof.
  intros Hinv Hev Hr Hf. assert (Hnone : mg_failure g = None).
  { destruct (mg_failure g) eqn:E; [|done]. exfalso.
    assert (Hk : failed g') by (eapply (keeps_run _ _ _ _ _ _ _ (keeps_step_ev ev) Hr); unfold failed; by rewrite E). done. }
  revert Hf. change (run_inv g'). unfold partition_step in Hr. mstep Hr. minv.
  destruct ev as [i|i|i|i|i j order|i j|i|i]; (destruct (mg_parts g !! i) as [p|] eqn:Hi; [|by minv]);
    destruct (pt_phase p) as [| |first|b| | |e] eqn:Hph; try (by minv).
  - by eapply open_inv.
  - by eapply read_inv.
  - by eapply acquire_inv.
  - destruct (bu_filling b); [by eapply fill_inv|by minv].
  - by eapply work_inv.
  - by eapply receive_inv.
  - by eapply end_inv.
  - by eapply close_inv.
Qed.

Lemma steps_inv events g wd u g' wd' :
  run_inv g → Forall event_ok events →
  for_each events (partition_step out root readCode validateAccount capacity) g wd = (Ok u, g', wd') → run_inv g'.
Proof.
  intros Hinv Hev. revert g wd Hinv. induction Hev as [|ev events Hev _ IH]; intros g wd Hinv Hr; cbn [for_each] in Hr; [by minv|].
  mstep Hr. eapply IH; [|exact Hr]. by eapply step_inv.
Qed.

Lemma new_migrator_inv v : run_inv (new_migrator v).
Proof.
  intros _. exists (replicate migrateTriePartitions []). split; [done|done|apply claims_ok_nil|].
  intros i p preps Hp Hpr. apply lookup_replicate in Hp as [-> _]. by apply lookup_replicate in Hpr as [-> _].
Qed.

End Run.
