(* ===== verification/PartitionResult.v ===== *)
(** * What a partitioned run returns

    The outcome of [PartitionRun.v] as a state: the entries a run has read
    form a well-formed state with the root asked for, and the counts are
    those of the state, although the partitions decide by a race which
    account a code is counted with. The same entries determine what the
    sequential traversal returns, hence both return the same result. *)

From S2P Require Import Prelude Sha256 Geth Instances Manifest StrictIO Records Scanner Bundle Account StateTrie Consumer StateBinding Stream Traverse AtomicDir Export DirectWriter OvmIndex OvmTransform PruneKeep Partition PartitionStorage PartitionRun.

(** ** Counts of a state, code apart *)

Section StateCounts.
Context `{Keccak, EmptyHashes, AccountRLP, RLPSplit, StackTrie}.
Context (readCode : Hash → result bytes).

Definition codeOf (h : Hash) : bytes := match readCode h with Ok c => c | Err _ => [] end.

Definition base_counts (full : bytes) (codeHash : Hash) (slots : list (Hash * bytes)) : Counts :=
  raw_add (account_counts full) (raw_add (reference_counts (negb (bool_decide (codeHash = EmptyCodeHash)))) (slots_total slots)).
Definition e_base (e : entry) : Counts := base_counts (e_full e) (e_codeHash e) (e_slots e).
Definition e_cost (e : entry) : Counts := match e_code e with Some c => code_counts c | None => zero_counts end.

(** The code hashes that entries refer to. *)
Definition referenced (es : list entry) : gset Hash := list_to_set (filter (λ h, h ≠ EmptyCodeHash) (map e_codeHash es)).

Definition codes_cost (codes : gset Hash) : Counts := raw_sum (map (λ h, code_cost (codeOf h)) (elements codes)).

Lemma reduce_count_record typ n c : typ = RecordAccount ∨ typ = RecordStorage ∨ typ = RecordCode →
  count_record typ n (reduce c) =
  reduce (raw_add c (MkCounts (if bool_decide (typ = RecordAccount) then 1 else 0) (if bool_decide (typ = RecordStorage) then 1 else 0)
                              0 (if bool_decide (typ = RecordCode) then 1 else 0) 1 n)).
Proof.
  intros Ht. unfold count_record, count_type, reduce, raw_add. cbn.
  destruct Ht as [->|[->| ->]]; cbn; f_equal; by rewrite ?add64_mod_l ?N.add_0_r.
Qed.

Lemma reduce_count_reference c : count_reference (reduce c) = reduce (raw_add c (reference_counts true)).
Proof. unfold count_reference, reduce, raw_add. cbn. f_equal; by rewrite ?add64_mod_l ?N.add_0_r. Qed.

Lemma foldl_slots c slots :
  foldl (λ c kv, count_record RecordStorage (blen kv.2) c) (reduce c) slots = reduce (raw_add c (slots_total slots)).
Proof.
  revert c. unfold slots_total. induction slots as [|kv slots IH]; intros c; cbn [foldl map]; [by rewrite right_id|].
  rewrite reduce_count_record; [|by right; left]. rewrite IH. f_equal. by rewrite -assoc.
Qed.

Lemma reduce_entry c e : entry_counts (reduce c) e = reduce (raw_add c (raw_add (e_base e) (e_cost e))).
Proof.
  assert (Hopen : open_counts (reduce c) e = reduce (raw_add (raw_add (raw_add c (account_counts (e_full e))) (slots_total (e_slots e))) (e_cost e))).
  { unfold open_counts, e_cost. rewrite reduce_count_record; [|by left]. rewrite foldl_slots.
    destruct (e_code e); [|by rewrite right_id]. rewrite reduce_count_record; [done|by right; right]. }
  unfold entry_counts. rewrite Hopen. unfold e_base, base_counts. destruct (bool_decide _).
  - f_equal. cbn [negb]. change (reference_counts false) with zero_counts. by rewrite left_id !assoc.
  - rewrite reduce_count_reference. f_equal. cbn [negb]. generalize (account_counts (e_full e)), (slots_total (e_slots e)), (e_cost e), (reference_counts true).
    intros a s k r. rewrite -!assoc. do 2 f_equal. rewrite (assoc _ r) [raw_add r s]comm -assoc. f_equal. by rewrite comm.
Qed.

Lemma state_counts_raw es : state_counts es = reduce (raw_sum (map (λ e, raw_add (e_base e) (e_cost e)) es)).
Proof.
  assert (Hg : ∀ c, foldl entry_counts (reduce c) es = reduce (raw_add c (raw_sum (map (λ e, raw_add (e_base e) (e_cost e)) es)))).
  { induction es as [|e es IH]; intros c; cbn [foldl map]; [by rewrite right_id|]. by rewrite reduce_entry IH -assoc. }
  unfold state_counts. by rewrite -{1}reduce_zero Hg left_id.
Qed.

Lemma raw_sum_add {A} (f k : A → Counts) l : raw_sum (map (λ a, raw_add (f a) (k a)) l) = raw_add (raw_sum (map f l)) (raw_sum (map k l)).
Proof.
  induction l as [|a l IH]; [done|]. change (raw_sum (map ?q (a :: l))) with (raw_add (q a) (raw_sum (map q l))). rewrite IH.
  rewrite !assoc. f_equal. rewrite -!assoc. f_equal. by rewrite comm.
Qed.

(** The codes entries introduce: each once, those referred to. *)
Definition introduced (es : list entry) : list Hash := omap (λ e, match e_code e with Some _ => Some (e_codeHash e) | None => None end) es.

Lemma introduced_ok known es :
  entries_wf known es → NoDup (introduced es) ∧
  (∀ h, h ∈ introduced es → ¬ (h ∈ known)) ∧ (∀ h, h ∈ introduced es → h ∈ referenced es) ∧ (∀ h, h ∈ referenced es → h ∈ known ∨ h ∈ introduced es).
Proof.
  revert known. induction es as [|e es IH]; intros known Hwf; [split; [constructor|set_solver]|].
  cbn [entries_wf] in Hwf. destruct Hwf as [[Hopen _ Hcode] Hwf]. destruct (IH _ Hwf) as (Hnd & Hnk & Href & Hcov).
  assert (Hr : ∀ h, h ∈ referenced (e :: es) ↔ (h = e_codeHash e ∧ h ≠ EmptyCodeHash) ∨ h ∈ referenced es).
  { intros h. unfold referenced. rewrite !elem_of_list_to_set !list_elem_of_filter. cbn. rewrite elem_of_cons. naive_solver. }
  unfold introduced in *. cbn. unfold entry_codes in *. destruct (e_code e) as [c|] eqn:Ec.
  - destruct (eo_code _ _ Hopen c Ec) as (Hne & _ & Hnk0). repeat split.
    + constructor; [|done]. intros Hin. apply (Hnk _ Hin). set_solver.
    + intros h [->|Hin]%elem_of_cons; [done|]. intros Hk. apply (Hnk _ Hin). set_solver.
    + intros h [->|Hin]%elem_of_cons; rewrite Hr; [by left|right; by apply Href].
    + intros h [[-> _]|Hin]%Hr; [right; set_solver|]. destruct (Hcov _ Hin) as [Hk|Hin']; set_solver.
  - rewrite right_id_L in Hcode Hnk Hcov. repeat split; [done|done| |].
    + intros h Hin. rewrite Hr. right. by apply Href.
    + intros h [[-> Hne]|Hin]%Hr; [|by apply Hcov]. destruct Hcode; [done|by left].
Qed.

(** The counts of a well-formed state whose codes were read. *)
Lemma state_counts_codes es :
  entries_wf ∅ es → Forall (λ e, ∀ c, e_code e = Some c → readCode (e_codeHash e) = Ok c ∧ c ≠ []) es →
  state_counts es = reduce (raw_add (raw_sum (map e_base es)) (codes_cost (referenced es))).
Proof.
  intros Hwf Hread. rewrite state_counts_raw raw_sum_add. do 2 f_equal.
  destruct (introduced_ok ∅ es Hwf) as (Hnd & _ & Href & Hcov). unfold codes_cost.
  assert (Hp : elements (referenced es) ≡ₚ introduced es).
  { apply NoDup_Permutation; [apply NoDup_elements|done|]. intros h. rewrite elem_of_elements. split; [|by apply Href].
    intros Hh. destruct (Hcov _ Hh) as [Hemp|]; [set_solver|done]. }
  rewrite Hp. clear -Hread. unfold introduced. induction Hread as [|e es Hr _ IH]; [done|]. cbn [map omap list_omap].
  change (raw_sum (?a :: ?l)) with (raw_add a (raw_sum l)). rewrite IH. unfold e_cost. destruct (e_code e) as [c|]; [|by rewrite left_id].
  cbn [map]. change (raw_sum (?a :: ?l)) with (raw_add a (raw_sum l)). f_equal. unfold codeOf, code_cost.
  destruct (Hr c eq_refl) as [-> Hne]. by destruct c.
Qed.

End StateCounts.

(** ** The state a run has read *)

Section Outcome.
Context `{Keccak, EmptyHashes, AccountRLP, RLPSplit, StackTrie, TrieReader, RangeReader, PartialTrie} {V : Type}.
Context (out : partitionStateOutput V) (root : Hash).
Context (readCode : Hash → result bytes) (validateAccount : option (Hash → StateAccount → result unit)) (capacity : nat).
Context (trie_root : list (bytes * bytes) → Hash) `{!AccountRLPLaws, !StackTrieLaws trie_root, !PartialTrieLaws trie_root}.
Context (account_trie : Hash → list (bytes * bytes)) (storage_trie : Hash → Hash → Hash → list (bytes * bytes))
  `{!RangeReaderLaws account_trie storage_trie}.

Abbreviation prep_ok := (prep_ok validateAccount).
Abbreviation account_read := (account_read root readCode trie_root storage_trie).
Abbreviation storage_read := (storage_read root trie_root storage_trie).

(** The entries of merged accounts, each code with its first reference. *)
Definition merged_entry (known : hashSet) (m : merged) : entry :=
  let a := pa_account (mm_prep m).1 in
  let h := pa_codeHash (mm_prep m).1 in
  MkEntry (pa_hash (mm_prep m).1) a (mm_prep m).2 (match EncodeAccount (Some a) with Ok s => s | Err _ => [] end) (mm_slots m)
    (if bool_decide (h = EmptyCodeHash ∨ h ∈ known) then None else Some (codeOf readCode h)).
Fixpoint merged_entries (known : hashSet) (ms : list merged) : list entry :=
  match ms with
  | [] => []
  | m :: ms' => merged_entry known m :: merged_entries (known ∪ entry_codes (merged_entry known m)) ms'
  end.

Definition code_available (m : merged) : Prop :=
  pa_codeHash (mm_prep m).1 = EmptyCodeHash ∨
  ∃ c, readCode (pa_codeHash (mm_prep m).1) = Ok c ∧ keccak256 c = pa_codeHash (mm_prep m).1 ∧ c ≠ [].

(** Every code referred to was claimed, hence read, by some account. *)
Lemma codes_available codes ms :
  Forall prep_ok (map mm_prep ms) → Forall account_read ms → claims_ok codes (map mm_prep ms) → Forall code_available ms.
Proof.
  intros Hp Hr [_ Hc Hk]. apply Forall_forall. intros m Hm. unfold code_available.
  rewrite Forall_forall in Hp; rewrite Forall_forall in Hk; rewrite Forall_forall in Hr. assert (Hx : mm_prep m ∈ map mm_prep ms) by by apply list_elem_of_fmap_2.
  destruct (decide (pa_codeHash (mm_prep m).1 = EmptyCodeHash)) as [|Hne]; [by left|right].
  assert (Hin : pa_codeHash (mm_prep m).1 ∈ codes).
  { apply (Hk _ Hx). rewrite (px_reference _ _ (Hp _ Hx)) bool_decide_eq_false_2 //. }
  rewrite -Hc in Hin. apply elem_of_list_to_set in Hin. unfold claims in Hin. apply list_elem_of_omap in Hin as (x & Hxin & Hxc).
  apply list_elem_of_fmap in Hxin as (m' & -> & Hm'). destruct (pa_writeCode (mm_prep m').1) eqn:Hw; [|done]. injection Hxc as Hxc.
  destruct (Hr _ Hm') as [_ Hcode]. rewrite Hw in Hcode. rewrite -Hxc. eauto.
Qed.

Lemma storage_read_wf h r slots :
  storage_read h r slots →
  StronglySorted hash_lt slots.*1 ∧ Forall (λ kv, kv.2 ≠ []) slots ∧ Forall (λ kv, validateStorageRLP kv.2 = Ok ()) slots ∧
  (slots ≠ [] → r ≠ EmptyRootHash) ∧ r = slots_root slots.
Proof.
  intros [[-> ->]|(Hne & _ & Hok & Hv & Hroot)]; [split; [constructor|done]|].
  destruct (slot_leaves_sorted _ Hok) as [Hs Hnonempty]. do 4 (split; [done|]). unfold slots_root. destruct slots as [|kv slots].
  - by rewrite -Hroot stack_root_empty.
  - destruct (stack_feed_ok (trie_root:=trie_root) _ Hok) as (st & ns & Hf). rewrite (stack_after_ok _ _ _ Hf) -Hroot. symmetry. by eapply stack_root.
Qed.

Lemma merged_entry_wf known m :
  prep_ok (mm_prep m) → account_read m → code_available m → entry_wf known (merged_entry known m).
Proof.
  intros Hx [Hst _] Hc. destruct (storage_read_wf _ _ _ Hst) as (Hs & _ & Hv & Hne & Hroot).
  destruct (decodeFullAccount_ok _ _ (px_account _ _ Hx)) as (slim & Hdec & Henc & _).
  assert (Hhash : e_codeHash (merged_entry known m) = pa_codeHash (mm_prep m).1) by by rewrite (px_codeHash _ _ Hx).
  split; [split|..]; cbn [merged_entry e_slim e_account e_full e_slots e_code]; try done.
  - by rewrite Henc.
  - intros code. case_bool_decide as Hb; [done|]. intros [= <-]. rewrite Hhash. apply Decidable.not_or in Hb as [Hb1 Hb2].
    destruct Hc as [|(c & Hrd & Hk & _)]; [done|]. unfold codeOf. by rewrite Hrd.
  - rewrite Hhash. unfold entry_codes. rewrite Hhash. cbn [merged_entry e_code]. case_bool_decide as Hb; [|right; set_solver].
    destruct Hb; [by left|right; set_solver].
Qed.

Lemma merged_entries_wf known ms :
  Forall prep_ok (map mm_prep ms) → Forall account_read ms → Forall code_available ms → entries_wf known (merged_entries known ms).
Proof.
  revert known. induction ms as [|m ms IH]; intros known Hp Hr Hc; [done|]. cbn [merged_entries entries_wf map] in *.
  apply Forall_cons in Hp as [Hp Hps], Hr as [Hr Hrs], Hc as [Hc Hcs]. split; [by apply merged_entry_wf|by apply IH].
Qed.

(** An entry comes from the sources of the run. *)
Definition entry_checked (e : entry) : Prop :=
  decodeFullAccount (e_full e) = Ok (e_account e) ∧
  storage_read (e_hash e) (acc_Root (e_account e)) (e_slots e) ∧
  (∀ c, e_code e = Some c → readCode (e_codeHash e) = Ok c ∧ c ≠ []) ∧
  match validateAccount with Some f => f (e_hash e) (e_account e) = Ok () | None => True end.

Lemma merged_entries_checked known ms :
  Forall prep_ok (map mm_prep ms) → Forall account_read ms → Forall code_available ms → Forall entry_checked (merged_entries known ms).
Proof.
  revert known. induction ms as [|m ms IH]; intros known Hp Hr Hc; [done|]. cbn [merged_entries map] in *.
  apply Forall_cons in Hp as [Hp Hps], Hr as [Hr Hrs], Hc as [Hc Hcs]. constructor; [|by apply IH].
  split; [apply Hp|]. split; [apply Hr|]. split; [|apply Hp]. cbn [merged_entry e_code]. intros c. case_bool_decide as Hb; [done|]. intros [= <-].
  apply Decidable.not_or in Hb as [Hb _]. unfold e_codeHash. cbn. rewrite -(px_codeHash _ _ Hp).
  destruct Hc as [|(c & Hrd & _ & Hne)]; [done|]. unfold codeOf. by rewrite Hrd.
Qed.

Lemma merged_entries_leaves known ms : account_leaves (merged_entries known ms) = map (λ m, prep_leaf (mm_prep m)) ms.
Proof. unfold account_leaves. revert known. induction ms as [|m ms IH]; intros known; [done|]. cbn [merged_entries map]. by rewrite IH. Qed.

(** Counting codes with their claims or with their first references is the same. *)
Lemma merged_counts known ms :
  Forall prep_ok (map mm_prep ms) → Forall account_read ms →
  raw_sum (map account_total ms) =
  raw_add (raw_sum (map e_base (merged_entries known ms))) (raw_sum (map (λ h, code_cost (codeOf readCode h)) (claims (map mm_prep ms)))).
Proof.
  revert known. induction ms as [|m ms IH]; intros known Hp Hr; [done|]. cbn [merged_entries map] in *.
  apply Forall_cons in Hp as [Hp Hps], Hr as [Hr Hrs]. rewrite claims_cons map_app raw_sum_app.
  change (raw_sum (?a :: ?l)) with (raw_add a (raw_sum l)). rewrite (IH (known ∪ entry_codes (merged_entry known m))) //.
  set (S1 := raw_sum (map e_base _)). set (S2 := raw_sum (map _ (claims _))).
  assert (Hm : account_total m = raw_add (e_base (merged_entry known m))
                 (raw_sum (map (λ h, code_cost (codeOf readCode h)) (if pa_writeCode (mm_prep m).1 then [pa_codeHash (mm_prep m).1] else [])))).
  { unfold account_total, e_base, base_counts. cbn [merged_entry e_full e_slots].
    assert (Hh : e_codeHash (merged_entry known m) = pa_codeHash (mm_prep m).1) by by rewrite (px_codeHash _ _ Hp).
    rewrite Hh -(px_reference _ _ Hp). rewrite -!assoc. do 3 f_equal.
    destruct Hr as [_ Hcode]. destruct (pa_writeCode (mm_prep m).1).
    - destruct Hcode as (Hrd & _). unfold codeOf, raw_sum. cbn [map foldr]. by rewrite Hrd right_id.
    - by rewrite Hcode. }
  rewrite Hm. generalize (e_base (merged_entry known m)). intros a.
  rewrite -!assoc. f_equal. rewrite !assoc. f_equal. by rewrite comm.
Qed.

Lemma merged_referenced codes ms :
  Forall prep_ok (map mm_prep ms) → claims_ok codes (map mm_prep ms) → ∀ known, referenced (merged_entries known ms) = codes.
Proof.
  intros Hp [Hnd Hc Hk] known. assert (Hmap : map e_codeHash (merged_entries known ms) = map pa_codeHash (map fst (map mm_prep ms))).
  { clear -Hp. revert known. induction ms as [|m ms IH]; intros known; [done|]. cbn in *. apply Forall_cons in Hp as [Hp Hps].
    rewrite IH // (px_codeHash _ _ Hp). done. }
  unfold referenced. rewrite Hmap. apply set_eq. intros h. rewrite elem_of_list_to_set list_elem_of_filter.
  rewrite Forall_forall in Hp; rewrite Forall_forall in Hk. split.
  - intros [Hne Hin]. rewrite map_map in Hin. apply list_elem_of_fmap in Hin as (x & -> & Hx). apply (Hk _ Hx).
    by rewrite (px_reference _ _ (Hp _ Hx)) bool_decide_eq_false_2.
  - intros Hin. rewrite -Hc in Hin. apply elem_of_list_to_set in Hin. unfold claims in Hin. apply list_elem_of_omap in Hin as (x & Hx & Hxc).
    destruct (pa_writeCode x.1) eqn:Hw; [|done]. injection Hxc as <-. split.
    + pose proof (px_write _ _ (Hp _ Hx) Hw) as Href. rewrite (px_reference _ _ (Hp _ Hx)) in Href. by apply negb_true_iff, bool_decide_eq_false in Href.
    + rewrite map_map. by apply (list_elem_of_fmap_2 (λ x : prep, pa_codeHash x.1)).
Qed.

Lemma choose_list {A} (n : nat) (R : nat → A → Prop) :
  (∀ i, (i < n)%nat → ∃ a, R i a) → ∃ l, length l = n ∧ ∀ i a, l !! i = Some a → R i a.
Proof.
  induction n as [|n IH]; intros Hr; [by exists []|]. destruct IH as (l & Hl & Hi); [intros; apply Hr; lia|].
  destruct (Hr n) as [a Ha]; [lia|]. exists (l ++ [a]). split; [rewrite length_app Hl; cbn; lia|].
  intros i b [Hb|[Hlen Hb]]%lookup_app_Some; [by apply Hi|]. apply list_lookup_singleton_Some in Hb as [Hz <-].
  by replace i with n by lia.
Qed.

(** The accounts of all partitions, once they are finished. *)
Record run_read (g : migrator V) (mss : list (list merged)) : Prop := {
  rr_length : length mss = migrateTriePartitions;
  rr_parts : length (mg_parts g) = migrateTriePartitions;
  rr_each : ∀ i p, mg_parts g !! i = Some p → ∃ ms, mss !! i = Some ms ∧
              part_finished root readCode validateAccount trie_root storage_trie i (pt_result p) (map mm_prep ms) ms;
  rr_claims : claims_ok (mg_codes g) (map mm_prep (concat mss))
}.

Lemma good_finished P g :
  good root readCode validateAccount trie_root storage_trie P g → forallb is_finished (mg_parts g) = true → ∃ mss, run_read g mss.
Proof.
  intros [Hl Hp Hc Hi] Hfin. rewrite forallb_forall in Hfin.
  destruct (choose_list migrateTriePartitions (λ i ms, ∃ p, mg_parts g !! i = Some p ∧ P !! i = Some (map mm_prep ms) ∧
    part_finished root readCode validateAccount trie_root storage_trie i (pt_result p) (map mm_prep ms) ms)) as (mss & Hlen & Hmss).
  { intros i Hlt. destruct (lookup_lt_is_Some_2 (mg_parts g) i) as [p Hpi]; [by rewrite Hp|].
    destruct (lookup_lt_is_Some_2 P i) as [preps HPi]; [by rewrite Hl|]. specialize (Hi _ _ _ Hpi HPi). unfold part_inv in Hi.
    assert (Hf := Hfin p ltac:(apply list_elem_of_In; by eapply list_elem_of_lookup_2)). unfold is_finished in Hf.
    destruct (pt_phase p); try done. destruct Hi as [ms Hms]. exists ms, p. split; [done|].
    pose proof (pf_merged _ _ _ _ _ _ _ _ _ Hms) as Hm. by rewrite Hm. }
  exists mss. split; [done|done| |].
  - intros i p Hpi. destruct (lookup_lt_is_Some_2 mss i) as [ms Hms]; [apply lookup_lt_Some in Hpi; by rewrite Hlen -Hp|].
    exists ms. split; [done|]. destruct (Hmss i ms Hms) as (p' & Hpi' & _ & Hpf). rewrite Hpi in Hpi'. by injection Hpi' as <-.
  - assert (HP : P = map (map mm_prep) mss).
    { apply list_eq. intros i. change (map ?f mss) with (f <$> mss). rewrite list_lookup_fmap. destruct (mss !! i) as [ms|] eqn:Hms; cbn.
      - by destruct (Hmss i ms Hms) as (_ & _ & ? & _).
      - apply lookup_ge_None in Hms. apply lookup_ge_None. by rewrite Hl -Hlen. }
    by rewrite concat_map -HP.
Qed.

(** The merged accounts are the account trie. *)
Lemma run_read_leaves g mss :
  run_read g mss → map (λ m, prep_leaf (mm_prep m)) (concat mss) = account_trie root ∧
  partitions_ok (partition_leaves (account_trie root)) (pt_result <$> mg_parts g).
Proof.
  intros [Hlen Hp Hi _]. set (L := account_trie root). assert (Hs : StronglySorted bytes_lt L.*1) by apply account_ascending.
  assert (Hrange : ∀ i p ms, mg_parts g !! i = Some p → mss !! i = Some ms →
    part_finished root readCode validateAccount trie_root storage_trie i (pt_result p) (map mm_prep ms) ms →
    map prep_leaf (map mm_prep ms) = range_leaves (migratePartitionRange (N.of_nat i)) L).
  { intros i p ms Hpi Hms Hf. pose proof (pf_range _ _ _ _ _ _ _ _ _ Hf) as Hr. apply account_some in Hr. by rewrite -surjective_pairing in Hr. }
  split.
  - rewrite -(partition_leaves_concat L Hs) concat_map. f_equal. apply list_eq. intros i. change (map ?f mss) with (f <$> mss). rewrite list_lookup_fmap.
    destruct (mg_parts g !! i) as [p|] eqn:Hpi.
    + destruct (Hi i p Hpi) as (ms & Hms & Hf). rewrite Hms. cbn [fmap option_fmap option_map].
      rewrite partition_leaves_lookup; [|apply lookup_lt_Some in Hpi; by rewrite Hp in Hpi]. f_equal.
      by rewrite -(Hrange i p ms) // map_map.
    + apply lookup_ge_None in Hpi. rewrite Hp -Hlen in Hpi. rewrite (proj2 (lookup_ge_None _ _) Hpi). cbn. symmetry. apply lookup_ge_None.
      by rewrite Hlen in Hpi.
  - apply partitions_whole; [done|by rewrite length_fmap|]. intros i res Hres. rewrite list_lookup_fmap in Hres.
    apply fmap_Some in Hres as (p & Hpi & ->). destruct (Hi i p Hpi) as (ms & Hms & Hf).
    rewrite -(Hrange i p ms) //. apply Hf.
Qed.

Lemma run_read_all g mss :
  run_read g mss → Forall prep_ok (map mm_prep (concat mss)) ∧ Forall account_read (concat mss).
Proof.
  intros [Hlen Hp Hi _]. assert (Hall : ∀ ms, ms ∈ mss → Forall prep_ok (map mm_prep ms) ∧ Forall account_read ms).
  { intros ms Hms. apply list_elem_of_lookup in Hms as [i Hms].
    destruct (lookup_lt_is_Some_2 (mg_parts g) i) as [p Hpi]; [apply lookup_lt_Some in Hms; by rewrite Hp -Hlen|].
    destruct (Hi i p Hpi) as (ms' & Hms' & Hf). rewrite Hms in Hms'. injection Hms' as <-. by destruct Hf. }
  rewrite concat_map. split; apply Forall_concat; [apply Forall_fmap|]; apply Forall_forall; intros ms Hms; by apply Hall.
Qed.

Lemma run_read_counts g mss :
  run_read g mss → sum_counts (pr_counts <$> (pt_result <$> mg_parts g)) = reduce (raw_sum (map account_total (concat mss))).
Proof.
  intros [Hlen Hp Hi _]. rewrite concat_map. apply partition_counts_sum; [by rewrite length_map length_fmap Hlen|].
  intros i res Hres. rewrite list_lookup_fmap in Hres. apply fmap_Some in Hres as (p & Hpi & ->).
  destruct (Hi i p Hpi) as (ms & Hms & Hf). exists (map account_total ms). change (map ?f mss) with (f <$> mss).
  rewrite list_lookup_fmap Hms. split; [done|]. apply Hf.
Qed.

(** The state of a run that has read everything. *)
Lemma run_read_state g mss :
  run_read g mss → trie_root (account_trie root) = root →
  ∃ es, account_leaves es = account_trie root ∧ state_wf es root ∧ values_nonempty es ∧ Forall entry_checked es ∧
    sum_counts (pr_counts <$> (pt_result <$> mg_parts g)) = state_counts es.
Proof.
  intros Hrr Hroot. destruct (run_read_leaves _ _ Hrr) as [Hleaves Hparts]. destruct (run_read_all _ _ Hrr) as [Hpreps Hread].
  pose proof (rr_claims _ _ Hrr) as Hclaims. pose proof (codes_available _ _ Hpreps Hread Hclaims) as Havail.
  set (es := merged_entries ∅ (concat mss)). exists es.
  assert (Hl : account_leaves es = account_trie root) by by rewrite merged_entries_leaves.
  assert (Hwf : entries_wf ∅ es) by by apply merged_entries_wf.
  assert (Hchk : Forall entry_checked es) by by apply merged_entries_checked.
  assert (Hok : leaves_ok (account_trie root)).
  { pose proof (po_leaves _ _ Hparts) as Hok. by rewrite partition_leaves_concat in Hok; [|apply account_ascending]. }
  split; [done|]. split; [|split; [|split; [done|]]].
  - split; [|done|].
    + rewrite -Hl in Hok. destruct Hok as [Hs _]. clear -Hs. unfold account_leaves in Hs.
      induction es as [|e es' IH]; cbn; [constructor|]. cbn in Hs. apply StronglySorted_inv in Hs as [Hs Hf].
      constructor; [by apply IH|]. clear -Hf. induction es'; cbn; constructor; inversion Hf; subst; auto.
    + rewrite Hl. destruct (stack_feed_ok (trie_root:=trie_root) _ Hok) as (st & ns & Hf).
      rewrite (stack_after_ok _ _ _ Hf) -Hroot. by eapply stack_root.
  - unfold values_nonempty. eapply Forall_impl; [exact Hchk|]. intros e (_ & Hst & _). by apply storage_read_wf in Hst as (_ & ? & _).
  - rewrite (run_read_counts g mss) // (merged_counts ∅) // (state_counts_codes readCode) //; [|eapply Forall_impl; [exact Hchk|]; by intros e (_ & _ & ? & _)].
    do 2 f_equal. rewrite (merged_referenced (mg_codes g)) //. unfold codes_cost. apply raw_sum_proper, Permutation_map.
    destruct Hclaims as [Hnd Hcodes _]. apply NoDup_Permutation; [done|apply NoDup_elements|]. intros h.
    by rewrite elem_of_elements -Hcodes elem_of_list_to_set.
Qed.

Lemma migrator_run_ok events v wd res fw g wd' :
  Forall event_ok events →
  migrator_run out root readCode validateAccount capacity events (new_migrator v) wd = (Ok (res, fw), g, wd') →
  ∃ es, account_leaves es = account_trie root ∧ state_wf es root ∧ values_nonempty es ∧ Forall entry_checked es ∧
    res = MkStateResult root (state_counts es).
Proof.
  intros Hev Hr. unfold migrator_run in Hr. mstep Hr. mstep Hr. minv.
  match goal with Hx : for_each _ _ _ _ = (_, ?g0, _) |- _ =>
    eapply (steps_inv _ _ _ _ _ trie_root account_trie storage_trie) in Hx as Hinv; [|apply new_migrator_inv|done] end.
  destruct (mg_failure _) eqn:Hfail; [by minv|]. destruct (Hinv Hfail) as [P Hg].
  destruct (forallb is_finished _) eqn:Hfin; cbn [negb] in Hr; [|by minv]. destruct (good_finished _ _ Hg Hfin) as [mss Hrr].
  unfold mg_on_out in Hr. minv. match goal with a : result Hash |- _ => destruct a as [h|e] end; minv. simplify_eq.
  match goal with Hx : assembleMigratedTrie _ _ _ _ _ _ _ = _ |- _ =>
    apply (assembleMigratedTrie_ok _ trie_root _ _ _ (partition_leaves (account_trie root))) in Hx as [-> Hroot]; [|by apply (run_read_leaves _ mss)] end.
  rewrite partition_leaves_concat in Hroot; [|apply account_ascending].
  destruct (run_read_state _ _ Hrr Hroot) as (es & Hl & Hwf & Hne & Hchk & Hc). exists es. by rewrite Hc.
Qed.

(** ** The sequential traversal *)

Lemma entries_agree es1 es2 :
  Forall (entry_source root readCode) es1 → Forall entry_checked es2 → account_leaves es1 = account_leaves es2 →
  map e_base es1 = map e_base es2 ∧ map e_codeHash es1 = map e_codeHash es2.
Proof.
  revert es2. induction es1 as [|e1 es1 IH]; intros [|e2 es2] H1' H2' Hl; try done. apply Forall_cons in H1' as [He1 Hes1], H2' as [He2 Hes2].
  unfold account_leaves in Hl. cbn [map] in Hl. injection Hl as Hh Hf Hl. apply hash_bytes_inj in Hh.
  destruct (IH es2 Hes1 Hes2 Hl) as [Hb Hc]. destruct He1 as (Hd1 & Hs1 & _), He2 as (Hd2 & Hs2 & _).
  rewrite Hf Hd2 in Hd1. injection Hd1 as Ha. assert (Hslots : e_slots e1 = e_slots e2).
  { rewrite -Ha Hh in Hs1. destruct Hs1 as [[Hr1 ->]|[Hr1 Hi]], Hs2 as [[Hr2 ->]|(Hr2 & Hsl & _)]; try done.
    apply storage_all in Hi. apply slot_leaves_inj. by rewrite Hi Hsl. }
  assert (Hch : e_codeHash e1 = e_codeHash e2) by by rewrite /e_codeHash Ha. cbn [map]. unfold e_base at 1 3.
  by rewrite Hf Hslots Hch Hb Hc.
Qed.

(** Both traversals of one state return the same result. *)
Lemma traversals_agree {W} (visitor : option (StateVisitor W)) (nodes : option (trieNodeSink W)) v0 w1 r1 t w1' es :
  traverser_run root readCode visitor nodes (newStateTraverser v0) w1 = (Ok r1, t, w1') →
  account_leaves es = account_trie root → state_wf es root → Forall entry_checked es →
  r1 = MkStateResult root (state_counts es).
Proof.
  intros Hr Hl Hwf Hchk. apply (traverser_run_sources root readCode visitor nodes trie_root) in Hr as (es1 & Hsrc & Hit & Hwf1 & _ & -> & _).
  apply account_all in Hit. destruct (entries_agree es1 es Hsrc Hchk) as [Hb Hc]; [by rewrite Hit|]. f_equal.
  rewrite !(state_counts_codes readCode); [| |eapply Forall_impl; [exact Hchk|]; by intros e (_ & _ & ? & _)| |eapply Forall_impl; [exact Hsrc|]; by intros e (_ & _ & ?)].
  - unfold referenced. by rewrite Hb Hc.
  - apply Hwf.
  - apply Hwf1.
Qed.

End Outcome.
