(* ===== verification/Partitioned.v ===== *)
(** * Partitioned migration: its properties

    The theorems about [partitionedStateMigrator.run] and
    [validatePartitionedState], with an executable trie that is assembled from
    sixteen partitions, at which their witnesses run. *)

From S2P Require Import Prelude Sha256 Geth Instances Manifest StrictIO Records Scanner Bundle Account StateTrie Consumer Stream Traverse AtomicDir Export DirectWriter OvmIndex OvmTransform PruneKeep Partition PartitionStorage PartitionRun PartitionResult.

(** ** Theorems *)

(** The sixteen ranges of [migratePartitionRange] tile the hash-sized keys:
    every key is in exactly one of them, that of its first nibble, and cutting
    any leaves in ascending order into the ranges and joining the pieces gives
    the leaves back. *)
Theorem partition_ranges_tile (key : bytes) (leaves : list (bytes * bytes)) :
  length key = HashLength → StronglySorted bytes_lt leaves.*1 →
  (∃ n, first_nibble key = Some n ∧ n < 16 ∧
     ∀ p, p < 16 → in_range (migratePartitionRange p) key = true ↔ p = n) ∧
  concat (map (λ i, range_leaves (migratePartitionRange (N.of_nat i)) leaves) (seq 0 migrateTriePartitions)) = leaves.
Proof.
  intros Hl Hs. split; [|exact (partition_leaves_concat leaves Hs)].
  destruct (first_nibble_lt key Hl) as (n & Hn & Hlt). exists n. split; [done|]. split; [done|].
  intros p Hp. rewrite in_partition_range // Hn. naive_solver.
Qed.

(** ** The state a run has read *)

Section StateRead.
Context `{Keccak, EmptyHashes, AccountRLP, RLPSplit, StackTrie, TrieReader, RangeReader, PartialTrie}.
Context (trie_root : list (bytes * bytes) → Hash) `{!AccountRLPLaws, !StackTrieLaws trie_root, !PartialTrieLaws trie_root}.
Context (account_trie : Hash → list (bytes * bytes)) (storage_trie : Hash → Hash → Hash → list (bytes * bytes))
  `{!RangeReaderLaws account_trie storage_trie}.
Context (readCode : Hash → result bytes).

(** A well-formed state whose accounts are the leaves of the account trie, with
    its storage and codes as they were read. *)
Definition source_state (root : Hash) (es : list entry) : Prop :=
  account_leaves es = account_trie root ∧ state_wf es root ∧ values_nonempty es ∧
  Forall (entry_checked root readCode None trie_root storage_trie) es.

Lemma validatePartitionedState_ok workers hd events wd res u wd' :
  validatePartitionedState readCode workers hd events () wd = (Ok res, u, wd') →
  ∃ fw g wd1, migrator_run newValidationOutput (StateRoot hd) readCode None (2 * normalizeMigrateWorkers workers) events
    (new_migrator ()) wd = (Ok (res, fw), g, wd1).
Proof.
  unfold validatePartitionedState. intros Hr. mstep Hr.
  match goal with x : result (StateResult * nat) * _ |- _ => destruct x as [r g] end. minv. cbn [fst snd] in *.
  match goal with a : result StateResult, c : result unit |- _ => destruct a as [x|e], c as [[]|e'] end; minv. subst.
  match goal with y : StateResult * nat |- _ => destruct y as [result fw] end. minv. subst. eauto.
Qed.

(** A validation that succeeds has read the whole state. *)
Lemma validated_state workers hd events u wd res u' wd' :
  Forall event_ok events → validatePartitionedState readCode workers hd events u wd = (Ok res, u', wd') →
  ∃ es, source_state (StateRoot hd) es ∧ res = MkStateResult (StateRoot hd) (state_counts es).
Proof.
  intros Hev Hp. destruct u. apply validatePartitionedState_ok in Hp as (fw & g & wd1 & Hp).
  apply (migrator_run_ok _ _ _ _ _ trie_root account_trie storage_trie) in Hp as (es & ? & ? & ? & ? & ->); [|done].
  exists es. by split_and!.
Qed.

End StateRead.

Section Theorems.
Context `{Keccak, EmptyHashes, AccountRLP, RLPSplit, StackTrie, TrieReader, RangeReader, PartialTrie}.
Context (trie_root : list (bytes * bytes) → Hash) `{!AccountRLPLaws, !StackTrieLaws trie_root, !PartialTrieLaws trie_root}.
Context (account_trie : Hash → list (bytes * bytes)) (storage_trie : Hash → Hash → Hash → list (bytes * bytes))
  `{!RangeReaderLaws account_trie storage_trie}.
Context (readCode : Hash → result bytes).

(** C13: Whatever the order in which the goroutines of a partitioned run act and
    whatever its output, a run that succeeds has read the whole account trie:
    there is a well-formed state with the root asked for whose account leaves
    are the leaves of the trie, each account was accepted by the account check
    and its whole storage and code were read and validated, and the result is
    the root with the counts of that state. *)
Theorem partitioned_run_sound {V} (out : partitionStateOutput V) root validateAccount capacity events v wd res fw g wd' :
  Forall event_ok events →
  migrator_run out root readCode validateAccount capacity events (new_migrator v) wd = (Ok (res, fw), g, wd') →
  ∃ es, account_leaves es = account_trie root ∧ state_wf es root ∧ values_nonempty es ∧
    Forall (entry_checked root readCode validateAccount trie_root storage_trie) es ∧
    res = MkStateResult root (state_counts es).
Proof. exact (migrator_run_ok out root readCode validateAccount capacity trie_root account_trie storage_trie events v wd res fw g wd'). Qed.

(** C14: [validatePartitionedState] and the sequential [TraverseState] of the
    same head agree: if both succeed, for any number of workers, any order of
    events, any visitor and any node sink, they return the same root and the
    same counts. *)
Theorem partitioned_equals_sequential {W} workers hd events u wd r1 u' wd' (visitor : option (StateVisitor W)) nodes v w2 r2 v' w2' :
  Forall event_ok events →
  validatePartitionedState readCode workers hd events u wd = (Ok r1, u', wd') →
  TraverseState (StateRoot hd) readCode visitor nodes v w2 = (Ok r2, v', w2') → r1 = r2.
Proof.
  intros Hev Hp Ht. destruct u. apply validatePartitionedState_ok in Hp as (fw & g & wd1 & Hp).
  apply (migrator_run_ok _ _ _ _ _ trie_root account_trie storage_trie) in Hp as (es & Hl & Hwf & _ & Hchk & ->); [|done].
  unfold TraverseState in Ht. mstep Ht. minv.
  match goal with x : result StateResult * _ |- _ => destruct x as [r t] end. minv. cbn [fst snd] in *. subst. symmetry.
  eapply (traversals_agree (StateRoot hd) readCode None trie_root account_trie storage_trie); eauto.
Qed.

End Theorems.

(** ** A trie assembled from partitions *)

(** Leaves whose keys share a first nibble have the hash of their
    serialization; others are a branch over sixteen such hashes. *)
Definition leaf_nodes (st : list (bytes * bytes)) : list trie_node :=
  match st with
  | [] => []
  | kv :: _ => [MkTrieNode [byte_of_N (default 0 (first_nibble kv.1))] (toy_root st) (mjoin (map leaf_bytes st))]
  end.

Definition toy_partial : PartialTrie :=
  {| pstack := list (bytes * bytes);
     pstack_new _ := [];
     pstack_update := toy_update;
     pstack_hash st := (toy_root st, leaf_nodes st);
     MountPartitionRoot blob _ := Ok (sha256 blob, blob, true);
     AssembleBranch children := Ok (mjoin children, sha256 (mjoin children)) |}.

Definition nibble_leaves (leaves : list (bytes * bytes)) (i : nat) : list (bytes * bytes) :=
  filter (λ kv, first_nibble kv.1 = Some (N.of_nat i)) leaves.
Definition nibble_parts (leaves : list (bytes * bytes)) : list (list (bytes * bytes)) :=
  map (nibble_leaves leaves) (seq 0 migrateTriePartitions).

Definition one_nibble (leaves : list (bytes * bytes)) : bool :=
  match leaves with
  | [] => true
  | kv :: _ => bool_decide (Forall (λ kv', first_nibble kv'.1 = first_nibble kv.1) leaves)
  end.

Definition branch_root (leaves : list (bytes * bytes)) : Hash :=
  if one_nibble leaves then toy_root leaves else sha256 (mjoin (partition_children (H:=toy_partial) (nibble_parts leaves))).

Definition branch_stack : StackTrie :=
  {| stack := list (bytes * bytes);
     stack_new := [];
     stack_update := toy_update;
     stack_hash st := (branch_root st, leaf_nodes st) |}.

Lemma branch_feed st leaves : stack_feed (H:=branch_stack) st leaves = stack_feed (H:=toy_stack) st leaves.
Proof.
  revert st. induction leaves as [|[k v] leaves IH]; intros st; [done|]. cbn [stack_feed].
  cbn [stack_update toy_stack branch_stack]. destruct (toy_update st k v) as [[st1 n1]|]; cbn; [|done]. by rewrite IH.
Qed.
Lemma partial_feed st leaves : pstack_feed (H:=toy_partial) st leaves = stack_feed (H:=toy_stack) st leaves.
Proof.
  revert st. induction leaves as [|[k v] leaves IH]; intros st; [done|]. cbn [stack_feed pstack_feed].
  cbn [stack_update toy_stack pstack_update toy_partial]. destruct (toy_update st k v) as [[st1 n1]|]; cbn; [|done]. by rewrite IH.
Qed.

Lemma toy_feed_all leaves st ns : leaves_ok leaves → stack_feed (H:=toy_stack) [] leaves = Ok (st, ns) → st = leaves ∧ ns = [].
Proof.
  intros [Hs Hf] He. rewrite (toy_feed [] leaves) in He; [by injection He as <- <-|done|].
  eapply Forall_impl; [done|]. naive_solver.
Qed.

#[export] Instance branch_stack_laws : StackTrieLaws (H:=branch_stack) (H0:=toy_empty) branch_root.
Proof.
  split.
  - intros leaves. rewrite branch_feed. exact (stack_feed_ok (StackTrieLaws:=toy_stack_laws) leaves).
  - intros leaves st nodes. rewrite branch_feed. exact (stack_feed_sorted (StackTrieLaws:=toy_stack_laws) leaves st nodes).
  - intros leaves st nodes Hok Hf. rewrite branch_feed in Hf. by apply toy_feed_all in Hf as [-> _].
  - done.
Qed.

Lemma filter_all {A} (P : A → Prop) `{!∀ a, Decision (P a)} l : Forall P l → filter P l = l.
Proof. induction 1; [done|]. rewrite filter_cons_True //. by f_equal. Qed.
Lemma filter_none {A} (P : A → Prop) `{!∀ a, Decision (P a)} l : Forall (λ a, ¬ P a) l → filter P l = [].
Proof. induction 1; [done|]. by rewrite filter_cons_False. Qed.

Lemma nibble_concat k parts i :
  (∀ j l, parts !! j = Some l → Forall (λ kv, first_nibble kv.1 = Some (N.of_nat (k + j))) l) →
  nibble_leaves (concat parts) (k + i) = parts !!! i.
Proof.
  unfold nibble_leaves. revert k i. induction parts as [|l parts IH]; intros k i Hn; [by destruct i|]. cbn [concat]. rewrite filter_app.
  assert (Hl := Hn 0%nat l eq_refl). assert (Htail : ∀ j l', parts !! j = Some l' → Forall (λ kv, first_nibble kv.1 = Some (N.of_nat (S k + j))) l').
  { intros j l' Hj. specialize (Hn (S j) l' Hj). by rewrite -Nat.add_succ_comm in Hn. }
  destruct i as [|i].
  - rewrite filter_all //. cbn. rewrite filter_none; [by rewrite app_nil_r|]. apply Forall_concat, Forall_forall. intros l' Hl'.
    apply list_elem_of_lookup in Hl' as [j Hj]. eapply Forall_impl; [exact (Htail j l' Hj)|]. intros kv ->. intros [= He]. lia.
  - rewrite filter_none; [|eapply Forall_impl; [exact Hl|]; intros kv ->; intros [= He]; lia]. cbn.
    replace (k + S i)%nat with (S k + i)%nat by lia. by apply IH.
Qed.

Lemma nibble_parts_concat parts :
  length parts = migrateTriePartitions →
  (∀ j l, parts !! j = Some l → Forall (λ kv, first_nibble kv.1 = Some (N.of_nat j)) l) → nibble_parts (concat parts) = parts.
Proof.
  intros Hlen Hn. apply list_eq. intros i. unfold nibble_parts. change (map ?f ?s) with (f <$> s). rewrite list_lookup_fmap.
  destruct (parts !! i) as [l|] eqn:Hi.
  - rewrite lookup_seq_lt; [|apply lookup_lt_Some in Hi; by rewrite -Hlen]. cbn [fmap option_fmap option_map].
    rewrite (nibble_concat 0) //. by rewrite (list_lookup_total_correct _ _ _ Hi).
  - apply lookup_ge_None in Hi. rewrite lookup_seq_ge //. by rewrite -Hlen.
Qed.

Lemma one_nibble_same leaves n : Forall (λ kv, first_nibble kv.1 = Some n) leaves → one_nibble leaves = true.
Proof.
  intros Hf. destruct leaves as [|kv leaves]; [done|]. cbn. apply bool_decide_eq_true. pose proof (Forall_inv Hf) as Hkv. cbn in Hkv.
  rewrite Hkv. done.
Qed.

#[export] Instance toy_partial_laws : PartialTrieLaws (H:=toy_partial) branch_root.
Proof.
  split.
  - intros i leaves st ns Hl Hf. rewrite partial_feed in Hf. by eapply (stack_feed_sorted (StackTrieLaws:=toy_stack_laws)).
  - intros parts i j blob h Hlen Hok Hn Hij Hi Hj [= _ <-]. unfold branch_root. rewrite nibble_parts_concat //.
    destruct (one_nibble (concat parts)) eqn:Hone; [exfalso|done].
    assert (Hel : ∀ k, parts !!! k ≠ [] → ∃ kv, kv ∈ concat parts ∧ first_nibble kv.1 = Some (N.of_nat k)).
    { intros k Hk. rewrite list_lookup_total_alt in Hk. destruct (parts !! k) as [[|kv l]|] eqn:Hp; [done| |done].
      exists kv. split; [|by apply (Forall_inv (Hn k _ Hp))]. apply list_elem_of_In, in_concat. exists (kv :: l).
      split; apply list_elem_of_In; [by eapply list_elem_of_lookup_2|left]. }
    destruct (Hel i Hi) as (ki & Hki & Hni), (Hel j Hj) as (kj & Hkj & Hnj).
    unfold one_nibble in Hone. destruct (concat parts) as [|kv rest]; [set_solver|]. apply bool_decide_eq_true in Hone.
    rewrite Forall_forall in Hone. pose proof (Hone ki Hki) as E1. pose proof (Hone kj Hkj) as E2. cbn in E1, E2.
    rewrite -E2 Hni Hnj in E1. injection E1. lia.
  - intros i leaves n h blob orphaned Hi Hok Hne Hn Hin Hpath [= <- _ _]. unfold partial_nodes in Hin. rewrite partial_feed in Hin.
    destruct (stack_feed_ok (StackTrieLaws:=toy_stack_laws) leaves Hok) as (st & ns & Hf). cbn [pstack_new toy_partial] in Hin.
    change (stack_feed (H:=toy_stack) [] leaves) with (stack_feed (H:=toy_stack) stack_new leaves) in Hin. rewrite Hf in Hin.
    apply toy_feed_all in Hf as [-> ->]; [|done]. cbn in Hin. unfold branch_root. rewrite (one_nibble_same _ _ Hn).
    destruct leaves as [|kv leaves]; [done|]. cbn in Hin. apply list_elem_of_singleton in Hin as ->. done.
Qed.

(** ** Witnesses *)

Module PartitionWitnesses.

#[local] Existing Instance toy_keccak.
#[local] Existing Instance toy_empty.
#[local] Existing Instance toy_accounts.
#[local] Existing Instance toy_split.
#[local] Existing Instance branch_stack.
#[local] Existing Instance toy_partial.

Definition key_of (b : byte) : bytes := b :: replicate 31 x11.
Definition code : bytes := bytes_of_string "code".
Definition slots : list (bytes * bytes) := [(key_of x30, [x07]); (key_of x90, [x08])].
Definition storage_root : Hash := branch_root slots.

Definition account_bytes (balance : N) (storage : Hash) (codeHash : Hash) : bytes :=
  match rlp_encode_account (MkStateAccount 1 (Some balance) storage (hash_bytes codeHash)) with Ok d => d | Err _ => [] end.

(** Two contracts with the same code in different partitions, the second with
    storage, and a plain account. *)
Definition accounts : list (bytes * bytes) :=
  Eval vm_compute in
  [(key_of x12, account_bytes 5 EmptyRootHash (sha256 code)); (key_of x21, account_bytes 6 storage_root (sha256 code));
   (key_of x2f, account_bytes 7 EmptyRootHash EmptyCodeHash)].
Definition state_root : Hash := Eval vm_compute in branch_root accounts.

Definition accounts_at (root : Hash) : list (bytes * bytes) := if bool_decide (root = state_root) then accounts else [].
Definition slots_at (root h r : Hash) : list (bytes * bytes) := if bool_decide (r = storage_root) then slots else [].

#[local] Instance reader : TrieReader :=
  {| account_iterator root := Ok (accounts_at root, None); storage_iterator root h r := Ok (slots_at root h r, None) |}.
#[local] Instance ranges : RangeReader :=
  {| account_range root start stop := Ok (range_leaves (start, stop) (accounts_at root), None);
     storage_range root h r start stop := Ok (range_leaves (start, stop) (slots_at root h r), None) |}.

Lemma sorted_check (l : list bytes) :
  (fix go (l : list bytes) : bool :=
     match l with [] => true | k :: l' => forallb (λ k', bool_decide (bytes_lt k k')) l' && go l' end) l = true →
  StronglySorted bytes_lt l.
Proof.
  induction l as [|k l IH]; intros Hl; [constructor|]. apply andb_true_iff in Hl as [Hk Hl]. constructor; [by apply IH|].
  rewrite forallb_forall in Hk. apply Forall_forall. intros k' Hk'. apply (bool_decide_eq_true_1 _), Hk. by apply list_elem_of_In.
Qed.

#[local] Instance reader_laws : RangeReaderLaws accounts_at slots_at.
Proof.
  split; cbn.
  - by intros root l [= <-].
  - by intros root start stop l [= <-].
  - intros root. unfold accounts_at. case_bool_decide; [|constructor]. apply sorted_check. by vm_compute.
  - by intros root h r l [= <-].
  - by intros root h r start stop l [= <-].
  - intros root h r. unfold slots_at. case_bool_decide; [|constructor]. apply sorted_check. by vm_compute.
Qed.

Definition readCode (h : Hash) : result bytes := if bool_decide (h = sha256 code) then Ok code else Err ENotExist.

(** Both bursts are open at once, and the second partition's results arrive out
    of order. *)
Definition events : list partition_event :=
  map EvOpen (seq 0 16) ++
  [EvRead 1; EvRead 2; EvAcquire 2; EvFill 2; EvAcquire 1; EvFill 2; EvFill 1; EvReceive 2 1; EvWork 1 0 (seq 0 16); EvWork 2 0 (reverse (seq 0 16));
   EvReceive 1 0; EvReceive 2 0; EvEndBurst 1; EvEndBurst 2] ++
  map EvRead (seq 0 16) ++ map EvClose (reverse (seq 0 16)).

Lemma events_ok : Forall event_ok events.
Proof.
  unfold events. repeat (apply Forall_app; split); try (by apply Forall_fmap, Forall_true).
  repeat first [apply Forall_nil_2 | apply Forall_cons_2; [first [exact I | cbn [event_ok]; first [reflexivity | apply reverse_Permutation]]|]].
Qed.

Definition result : StateResult := MkStateResult state_root (MkCounts 3 2 2 1 6 321).

Definition run : Prelude.result (StateResult * nat) * migrator unit * world :=
  migrator_run newValidationOutput state_root readCode None 4 events (new_migrator ()) calm.

#[local] Strategy 100 [migrator_run validatePartitionedState TraverseState accounts events].

Lemma run_result : run.1.1 = Ok (result, 0%nat).
Proof. by vm_compute. Qed.

Lemma partitioned_run_eq : migrator_run newValidationOutput state_root readCode None 4 events (new_migrator ()) calm = (Ok (result, 0%nat), run.1.2, run.2).
Proof. rewrite -run_result. fold run. by destruct run as [[? ?] ?]. Qed.

Lemma partitioned_run_sound_witness :
  ∃ es, account_leaves es = accounts ∧ state_wf es state_root ∧ result = MkStateResult state_root (state_counts es).
Proof.
  destruct (partitioned_run_sound branch_root accounts_at slots_at readCode newValidationOutput state_root None 4 events () calm
              result 0%nat run.1.2 run.2 events_ok partitioned_run_eq) as (es & Hl & Hwf & _ & _ & Hr).
  exists es. split; [exact Hl|]. split; [exact Hwf|exact Hr].
Defined.

Definition head_of_state : Head := MkHead 1 zero_hash state_root.

Lemma partitioned_eq : validatePartitionedState readCode 2 head_of_state events () calm = (Ok result, (), calm).
Proof. by vm_compute. Qed.
Lemma sequential_eq :
  TraverseState (V:=unit) (StateRoot head_of_state) readCode None None () calm =
  (Ok (MkStateResult state_root (MkCounts 3 2 2 1 6 321)), (), calm).
Proof. by vm_compute. Qed.

Lemma partitioned_equals_sequential_witness : result = MkStateResult state_root (MkCounts 3 2 2 1 6 321).
Proof.
  exact (partitioned_equals_sequential branch_root accounts_at slots_at readCode 2 head_of_state events () calm result () calm
           None None () calm _ () calm events_ok partitioned_eq sequential_eq).
Defined.

Lemma partition_ranges_tile_witness :
  (∃ n, first_nibble (key_of x21) = Some n ∧ n < 16 ∧ ∀ p, p < 16 → in_range (migratePartitionRange p) (key_of x21) = true ↔ p = n) ∧
  concat (map (λ i, range_leaves (migratePartitionRange (N.of_nat i)) accounts) (seq 0 migrateTriePartitions)) = accounts.
Proof. apply (partition_ranges_tile (key_of x21) accounts); [reflexivity|]. apply sorted_check. by vm_compute. Defined.

End PartitionWitnesses.
