(* ===== verification/Verify.v ===== *)
(** * Verification of an artifact ([verify.go], [head_metadata.go], [trienode_index.go], [report.go], [target.go])

    [Verify] scans a bundle and, if an artifact is given, checks that its
    database holds the state of the bundle and nothing else: the head metadata,
    in the path scheme the snapshot metadata and the flat state beside the
    tries, every node, slot and code reachable from the root, and finally an
    inventory of all keys, whose numbers must be those of the traversal.

    The database is a finite map that nobody writes; an iterator is the sorted
    list of its entries, and each advance may fail. The trie readers are those
    of [Traverse.v]; [NodeReader] adds the nodes an iteration visits. The
    traversal marks nodes while it iterates; the marks touch only the index,
    which is read when the traversal has ended, and are collected there. *)

From S2P Require Import Prelude Sha256 Geth Instances Manifest StrictIO Records Scanner Bundle Account StateTrie Consumer Stream Traverse AtomicDir Export DirectWriter OvmIndex.

(** ** Third-party interfaces *)

(** rawdb's accessors of the head. [WriteHeader] takes the RLP of the header it
    is given; the writers are the puts they make. *)
Class HeadDB := {
  ReadHeaderRLP : store → Hash → N → bytes;
  ReadHeaderNumber : store → Hash → option N;
  ReadCanonicalHash : store → N → Hash;
  ReadHeadBlockHash : store → Hash;
  ReadHeadHeaderHash : store → Hash;
  WriteHeader : bytes → list (bytes * bytes);
  WriteCanonicalHash : Hash → N → list (bytes * bytes);
  WriteHeadBlockHash : Hash → list (bytes * bytes);
  WriteHeadHeaderHash : Hash → list (bytes * bytes)
}.

Record snapshotGeneratorMarker := MkMarker {
  mk_Wiping : bool;
  mk_Done : bool;
  mk_Marker : bytes;
  mk_Accounts : N;
  mk_Slots : N;
  mk_Storage : N
}.

(** Accessors of the path scheme's metadata, and the RLP of the marker. *)
Class PathDB := {
  SnapshotCompleted : store → bool;
  ReadSnapshotRoot : store → Hash;
  ReadPersistentStateID : store → N;
  ReadSnapSyncStatusFlag : store → byte;
  StateSyncFinished : byte;
  rlp_encode_marker : snapshotGeneratorMarker → result bytes
}.

(** [rawdb.IsLegacyTrieNode] and [rawdb.IsCodeKey]. *)
Class ArtifactKeys := {
  IsLegacyTrieNode : bytes → bytes → bool;
  IsCodeKey : bytes → option bytes
}.

(** The path and the hash of every node that an iteration over a trie visits;
    the hash is zero for a node embedded in its parent. *)
Class NodeReader := {
  account_nodes : Hash → list (bytes * Hash);
  storage_nodes : Hash → Hash → Hash → list (bytes * Hash)
}.

(** ** Head metadata ([head_metadata.go]) *)

Abbreviation headMetadataEntries := (gmap bytes bytes).

Section HeadMetadata.
Context `{Keccak, HeaderRLP, HeadDB}.

Definition validatedSourceHeader (source : SourceEvidence) : result Header :=
  wrap_err "validate source head metadata" (ValidatedHeader source).

Definition writeHeadMetadataEntries (headerRLP : bytes) (head : Head) : list (bytes * bytes) :=
  WriteHeader headerRLP ++ WriteCanonicalHash (BlockHash head) (BlockNumber head) ++
  WriteHeadBlockHash (BlockHash head) ++ WriteHeadHeaderHash (BlockHash head).

Definition writeHeadMetadata (source : SourceEvidence) : M store unit :=
  _ ← lift (validatedSourceHeader source);
  _ ← wrap "write target head metadata" io;
  modify (λ db, foldl (λ db kv, <[kv.1 := kv.2]> db) db (writeHeadMetadataEntries (HeaderRLP_ source) (HeadBefore source))).

(** [headMetadataEntries.Put], for each put of the accessors. *)
Definition entries_Put (entries : headMetadataEntries) (kv : bytes * bytes) : headMetadataEntries := <[kv.1 := kv.2]> entries.

Definition expectedHeadMetadata (source : SourceEvidence) : result headMetadataEntries :=
  _ ← validatedSourceHeader source;
  Ok (foldl entries_Put ∅ (writeHeadMetadataEntries (HeaderRLP_ source) (HeadBefore source))).

Definition verifyHeadMetadata (db : store) (source : SourceEvidence) : result unit :=
  _ ← validatedSourceHeader source;
  let head := HeadBefore source in
  let headerRLP := ReadHeaderRLP db (BlockHash head) (BlockNumber head) in
  _ ← reject_if (length headerRLP =? 0)%nat "artifact head header is missing";
  _ ← reject_if (negb (bytes_equal headerRLP (HeaderRLP_ source))) "artifact head header RLP does not match source evidence";
  number ← (match ReadHeaderNumber db (BlockHash head) with
            | None => Err (EMsg "artifact head hash-to-number mapping is missing")
            | Some n => Ok n
            end);
  _ ← reject_if (negb (number =? BlockNumber head)) "artifact head hash-to-number mapping is wrong";
  _ ← reject_if (negb (bool_decide (ReadCanonicalHash db (BlockNumber head) = BlockHash head))) "artifact canonical hash is wrong";
  _ ← reject_if (negb (bool_decide (ReadHeadBlockHash db = BlockHash head))) "artifact LastBlock is wrong";
  reject_if (negb (bool_decide (ReadHeadHeaderHash db = BlockHash head))) "artifact LastHeader is wrong".

(** A key that is expected twice is an error. *)
Definition mergeExpectedMetadata (headMetadata : headMetadataEntries) (extraMetadata : list headMetadataEntries) : result headMetadataEntries :=
  foldl (λ r entries,
    md ← r;
    if bool_decide (dom md ∩ dom entries = (∅ : gset bytes)) then Ok (entries ∪ md) else Err (EMsg "duplicate expected artifact metadata"))
    (Ok headMetadata) extraMetadata.

End HeadMetadata.

(** ** Keys of an artifact *)

Inductive inventoryEntryKind := inventoryMetadata | inventoryTrieNode | inventoryCode | inventoryFlatAccount | inventoryFlatStorage.
#[export] Instance inventory_kind_eq_dec : EqDecision inventoryEntryKind.
Proof. solve_decision. Defined.

Section Keys.
Context `{RawdbKeys, ArtifactKeys, PathDB}.

Definition isNonEmptyCodeEntry (key code : bytes) : bool :=
  match IsCodeKey key with Some _ => negb (length code =? 0)%nat | None => false end.

Definition isCanonicalHexPath (path : bytes) : bool :=
  negb (2 * HashLength <? length path)%nat && forallb (λ nibble, negb (0x0f <? byte_val nibble)) path.

Definition isCanonicalPathAccountTrieNodeKey (key : bytes) : bool :=
  has_prefix key TrieNodeAccountPrefix && isCanonicalHexPath (drop (length TrieNodeAccountPrefix) key).

Definition isCanonicalPathStorageTrieNodeKey (key : bytes) : bool :=
  let pathOffset := (length TrieNodeStoragePrefix + HashLength)%nat in
  has_prefix key TrieNodeStoragePrefix && negb (length key <? pathOffset)%nat && isCanonicalHexPath (drop pathOffset key).

Definition snapshotGeneratorKey : bytes := bytes_of_string "SnapshotGenerator".
Definition lastStateIDKey : bytes := bytes_of_string "LastStateID".
Definition snapSyncStatusKey : bytes := bytes_of_string "SnapSyncStatus".

Definition allowedPathMetadataKey (key : bytes) : bool :=
  existsb (bytes_equal key) [SnapshotRootKey; snapshotGeneratorKey; lastStateIDKey; snapSyncStatusKey].

Definition classifyArtifactEntry (scheme : string) (key value : bytes) : result inventoryEntryKind :=
  if bool_decide (scheme = HashScheme) then
    if IsLegacyTrieNode key value then Ok inventoryTrieNode
    else if isNonEmptyCodeEntry key value then Ok inventoryCode
    else Err (EMsg "hash artifact contains non-state key")
  else
    if isCanonicalPathAccountTrieNodeKey key || isCanonicalPathStorageTrieNodeKey key then Ok inventoryTrieNode
    else if isNonEmptyCodeEntry key value then Ok inventoryCode
    else if has_prefix key SnapshotAccountPrefix && (length key =? length SnapshotAccountPrefix + HashLength)%nat then Ok inventoryFlatAccount
    else if has_prefix key SnapshotStoragePrefix && (length key =? length SnapshotStoragePrefix + 2 * HashLength)%nat then Ok inventoryFlatStorage
    else if allowedPathMetadataKey key then Ok inventoryMetadata
    else Err (EMsg "path artifact contains non-state key").

(** The metadata of a path database, with the values it must have. *)
Definition pathMetadata (root : Hash) : result (list (bytes * bytes)) :=
  generator ← wrap_err "encode expected path snapshot generator marker" (rlp_encode_marker (MkMarker false true [] 0 0 0));
  Ok [(SnapshotRootKey, hash_bytes root); (snapshotGeneratorKey, generator); (lastStateIDKey, put_uint64 0);
      (snapSyncStatusKey, [StateSyncFinished])].

Definition check_metadata (db : store) (kv : bytes * bytes) : result unit :=
  match db !! kv.1 with
  | None => Err (EMsg "read path metadata")
  | Some value => reject_if (negb (bytes_equal value kv.2)) "path metadata is non-canonical"
  end.

Fixpoint check_all_metadata (db : store) (l : list (bytes * bytes)) : result unit :=
  match l with
  | [] => Ok ()
  | kv :: l' => _ ← check_metadata db kv; check_all_metadata db l'
  end.

Definition verifyPathMetadata (db : store) (root : Hash) : result unit :=
  expected ← pathMetadata root;
  check_all_metadata db expected.

End Keys.

(** ** The flat state beside the tries *)

Record flatStateVerifier := MkFlat { fv_accounts : list (bytes * bytes); fv_storage : list (bytes * bytes) }.

Section Flat.
Context `{RawdbKeys, SlimRLP}.

Definition newFlatStateVerifier (db : store) : flatStateVerifier :=
  MkFlat (db_iterate db SnapshotAccountPrefix []) (db_iterate db SnapshotStoragePrefix []).

(** What is left of the iterator after a matching entry. *)
Definition compareNext {St} (it : list (bytes * bytes)) (key value : bytes) : M St (list (bytes * bytes)) :=
  _ ← poll;
  _ ← wrap "iterate flat state" io;
  match it with
  | [] => fail (EMsg "entry is missing")
  | (k, v) :: rest =>
      _ ← lift (reject_if (negb (bytes_equal k key)) "key mismatch");
      _ ← lift (reject_if (negb (bytes_equal v value)) "value does not match its trie leaf");
      mret rest
  end.

Definition fv_Account (hash : Hash) (account : StateAccount) (fullRLP : bytes) : M flatStateVerifier unit :=
  v ← get;
  rest ← wrap "flat account" (compareNext (fv_accounts v) (prefixedKey SnapshotAccountPrefix (hash_bytes hash)) (SlimAccountRLP account));
  modify (λ v, MkFlat rest (fv_storage v)).

Definition fv_Storage (accountHash slotHash : Hash) (valueRLP : bytes) : M flatStateVerifier unit :=
  v ← get;
  rest ← wrap "flat slot" (compareNext (fv_storage v) (SnapshotStoragePrefix ++ hash_bytes accountHash ++ hash_bytes slotHash) valueRLP);
  modify (λ v, MkFlat (fv_accounts v) rest).

Definition fv_Code (accountHash codeHash : Hash) (code : bytes) : M flatStateVerifier unit := mret ().

Definition flatVisitor : StateVisitor flatStateVerifier := MkVisitor fv_Account fv_Storage fv_Code None.

Definition finish_flat {St} (it : list (bytes * bytes)) : M St unit :=
  _ ← poll;
  _ ← wrap "finish flat iteration" io;
  lift (reject_if (negb (length it =? 0)%nat) "path artifact contains extra flat key").
Definition fv_Finish : M flatStateVerifier unit :=
  v ← get;
  _ ← finish_flat (fv_accounts v);
  finish_flat (fv_storage v).

End Flat.

(** ** The index of reachable nodes ([trienode_index.go]) *)

(** The marks written to the temporary database and those in the batch. *)
Record temporaryTrieNodeIndex := MkIndex { ix_db : gset Hash; ix_batch : list Hash; ix_closed : bool }.

Definition newTemporaryTrieNodeIndex : temporaryTrieNodeIndex := MkIndex ∅ [] false.

Definition trieNodeIndexMaxCacheMB : Z := 16.
Definition trieNodeIndexMaxHandles : Z := 16.
Definition boundedTrieNodeIndexResource (configured limit : Z) : Z :=
  if (configured <=? 0)%Z then limit else Z.min configured limit.

Record stateInventory := MkInventory { si_TrieNodes : N; si_CodeEntries : N }.

Section Index.
Context `{BatchSize}.
(** [nodeBatch.Len()]: the encoded size of a batch. *)
Context (batchLen : list Hash → N).

Definition require_open : M temporaryTrieNodeIndex unit :=
  i ← get;
  lift (reject_if (ix_closed i) "temporary trie-node index is closed").

Definition index_flush_marks : M temporaryTrieNodeIndex unit :=
  i ← get;
  if batchLen (ix_batch i) =? 0 then mret () else
  _ ← wrap "flush reachable trie-node index" io;
  modify (λ i, MkIndex (ix_db i ∪ list_to_set (ix_batch i)) [] (ix_closed i)).

Definition Mark (hash : Hash) : M temporaryTrieNodeIndex unit :=
  _ ← require_open;
  _ ← wrap "store reachable trie node in temporary index" io;
  _ ← modify (λ i, MkIndex (ix_db i) (ix_batch i ++ [hash]) (ix_closed i));
  i ← get;
  if IdealBatchSize <=? batchLen (ix_batch i) then index_flush_marks else mret ().

Fixpoint count_marks (l : list Hash) (count : N) : M temporaryTrieNodeIndex N :=
  match l with
  | [] => mret count
  | _ :: l' => _ ← poll; count_marks l' (add64 count 1)
  end.

Definition Count : M temporaryTrieNodeIndex N :=
  _ ← require_open;
  _ ← poll;
  _ ← index_flush_marks;
  i ← get;
  _ ← wrap "open reachable trie-node index iterator" io;
  r ← attempt (count ← count_marks (elements (ix_db i)) 0; _ ← wrap "iterate reachable trie-node index" io; mret count);
  c ← attempt (wrap "close reachable trie-node index iterator" io);
  match r, c with
  | Ok count, Ok _ => mret count
  | Ok _, Err e => fail e
  | Err e, Ok _ => fail e
  | Err e, Err e' => fail (EJoin e e')
  end.

Definition index_Has (hash : Hash) : M temporaryTrieNodeIndex bool :=
  _ ← require_open;
  _ ← wrap "read reachable trie-node index" io;
  i ← get;
  mret (bool_decide (hash ∈ ix_db i)).

(** Closing is idempotent; the three steps all run. *)
Definition index_Close : M temporaryTrieNodeIndex unit :=
  i ← get;
  if ix_closed i then mret () else
  _ ← modify (λ i, MkIndex (ix_db i) (ix_batch i) true);
  a ← attempt (wrap "close reachable trie-node index batch" io);
  b ← attempt (wrap "close temporary trie-node index" io);
  c ← attempt (wrap "remove temporary trie-node index" io);
  match errors_join (errors_join (outcome a) (outcome b)) (outcome c) with Some e => fail e | None => mret () end.

End Index.

(** ** The verified traversal *)

(** The flat verifier and the index: what verification changes. [vf_nodes] is
    the number of nodes counted in the path scheme. *)
Record verifier := MkVerifier { vf_flat : flatStateVerifier; vf_index : temporaryTrieNodeIndex; vf_nodes : N }.

Section Verify.
Context `{Keccak, EmptyHashes, AccountRLP, RLPSplit, StackTrie, TrieReader, NodeReader, HeaderRLP}.
Context `{RawdbKeys, BatchSize, SlimRLP, HeadDB, PathDB, ArtifactKeys}.
Context (batchLen : list Hash → N) (db : store).

Definition on_flat {A} (m : M flatStateVerifier A) : M verifier A :=
  zoom vf_flat (λ f v, MkVerifier f (vf_index v) (vf_nodes v)) m.
Definition on_index {A} (m : M temporaryTrieNodeIndex A) : M verifier A :=
  zoom vf_index (λ i v, MkVerifier (vf_flat v) i (vf_nodes v)) m.

(** [targetConfig.readCode]: an absent key is empty code. *)
Definition target_readCode (hash : Hash) : result bytes :=
  Ok (default [] (db !! prefixedKey CodePrefix (hash_bytes hash))).

(** [stateInventoryTracker.recordTrieNode]. *)
Definition recordTrieNode (scheme : string) (hash : Hash) : M verifier unit :=
  if bool_decide (scheme = HashScheme) then on_index (Mark batchLen hash)
  else modify (λ v, MkVerifier (vf_flat v) (vf_index v) (add64 (vf_nodes v) 1)).

(** [inventoryNodeIterator.Next]: nodes without a hash are embedded in others. *)
Definition inventory_Next (scheme : string) (node : Hash * (bytes * Hash)) : M verifier unit :=
  if bool_decide (node.2.2 = zero_hash) then mret () else recordTrieNode scheme node.2.2.

(** The nodes of a storage trie, with their owner. *)
Definition owner_nodes (root : Hash) (kv : bytes * bytes) : list (Hash * (bytes * Hash)) :=
  match decodeFullAccount kv.2 with
  | Ok a => if bool_decide (acc_Root a = EmptyRootHash) then []
            else map (pair (vec_of_bytes 32 kv.1)) (storage_nodes root (vec_of_bytes 32 kv.1) (acc_Root a))
  | Err _ => []
  end.

(** The nodes of the account trie, whose owner is zero, and of every storage trie. *)
Definition reached_nodes (root : Hash) : list (Hash * (bytes * Hash)) :=
  map (pair zero_hash) (account_nodes root) ++
  match account_iterator root with
  | Ok (accounts, _) => accounts ≫= owner_nodes root
  | Err _ => []
  end.

(** [traverseState] with the inventory. *)
Definition traverseState (scheme : string) (root : Hash) : M verifier (StateResult * stateInventory) :=
  let body :=
    (result ← on_flat (TraverseState root target_readCode (if bool_decide (scheme = PathScheme) then Some flatVisitor else None) None);
     _ ← for_each (reached_nodes root) (inventory_Next scheme);
     nodes ← (if bool_decide (scheme = HashScheme) then wrap "count reachable hash trie nodes" (on_index (Count batchLen)) else gets vf_nodes);
     mret (result, MkInventory nodes (CodeRecords (st_Counts result)))) in
  if bool_decide (scheme = HashScheme) then
    _ ← wrap "open temporary trie-node index" io;
    _ ← modify (λ v, MkVerifier (vf_flat v) newTemporaryTrieNodeIndex (vf_nodes v));
    r ← attempt body;
    c ← attempt (on_index index_Close);
    match r, c with
    | Ok x, Ok _ => mret x
    | Ok _, Err e => fail e
    | Err e, Ok _ => fail e
    | Err e, Err e' => fail (EJoin e e')
    end
  else body.

(** ** The inventory of all keys *)

Record inventoryCounts := MkSeen { in_flatAccounts : N; in_flatSlots : N; in_trieNodes : N; in_codeEntries : N }.

Definition count_kind (kind : inventoryEntryKind) (c : inventoryCounts) : inventoryCounts :=
  match kind with
  | inventoryMetadata => c
  | inventoryTrieNode => MkSeen (in_flatAccounts c) (in_flatSlots c) (add64 (in_trieNodes c) 1) (in_codeEntries c)
  | inventoryCode => MkSeen (in_flatAccounts c) (in_flatSlots c) (in_trieNodes c) (add64 (in_codeEntries c) 1)
  | inventoryFlatAccount => MkSeen (add64 (in_flatAccounts c) 1) (in_flatSlots c) (in_trieNodes c) (in_codeEntries c)
  | inventoryFlatStorage => MkSeen (in_flatAccounts c) (add64 (in_flatSlots c) 1) (in_trieNodes c) (in_codeEntries c)
  end.

(** The loop over all entries. *)
Fixpoint inspect_entries (scheme : string) (entries : list (bytes * bytes)) (headMetadata : headMetadataEntries) (c : inventoryCounts)
    : M verifier (headMetadataEntries * inventoryCounts) :=
  match entries with
  | [] => mret (headMetadata, c)
  | (key, value) :: entries' =>
      _ ← wrap "inspect artifact database" io;
      _ ← poll;
      match headMetadata !! key with
      | Some expectedValue =>
          _ ← lift (reject_if (negb (bytes_equal value expectedValue)) "artifact head metadata key has an unexpected value");
          inspect_entries scheme entries' (delete key headMetadata) c
      | None =>
          kind ← lift (classifyArtifactEntry scheme key value);
          inspect_entries scheme entries' headMetadata (count_kind kind c)
      end
  end.

Definition verifyDatabaseInventory (scheme : string) (source : SourceEvidence) (counts : Counts) (expected : stateInventory)
    (extraMetadata : list headMetadataEntries) : M verifier unit :=
  _ ← poll;
  headMetadata ← lift (expectedHeadMetadata source);
  headMetadata ← lift (mergeExpectedMetadata headMetadata extraMetadata);
  '(headMetadata, c) ← inspect_entries scheme (db_iterate db [] []) headMetadata (MkSeen 0 0 0 0);
  _ ← poll;
  _ ← wrap "inspect artifact database" io;
  _ ← lift (reject_if (negb (size headMetadata =? 0)%nat) "artifact head metadata inventory is missing entries");
  _ ← lift (reject_if (bool_decide (scheme = PathScheme) &&
                       (negb (in_flatAccounts c =? Accounts counts) || negb (in_flatSlots c =? StorageSlots counts)))
              "path flat-state inventory mismatch");
  _ ← lift (reject_if (negb (in_trieNodes c =? si_TrieNodes expected)) "artifact trie-node inventory mismatch");
  lift (reject_if (negb (in_codeEntries c =? si_CodeEntries expected)) "artifact code inventory mismatch").

(** ** The whole database *)

Definition verify_path_state (root : Hash) : result unit :=
  _ ← reject_if (negb (SnapshotCompleted db)) "path artifact snapshot is not complete";
  _ ← reject_if (negb (bool_decide (ReadSnapshotRoot db = root))) "path snapshot root mismatch";
  _ ← reject_if (negb (ReadPersistentStateID db =? 0)) "path artifact persistent state ID is not 0";
  _ ← reject_if (negb (bool_decide (ReadSnapSyncStatusFlag db = StateSyncFinished))) "path artifact snap sync status is not finished";
  verifyPathMetadata db root.

(** The body of [verifyOpenedTarget], before its deferred calls. *)
Definition verify_target_body (scheme : string) (source : SourceEvidence) (expected : StateResult)
    (extraMetadata : list headMetadataEntries) : M verifier StateResult :=
  _ ← (if bool_decide (scheme = PathScheme) then lift (verify_path_state (st_Root expected)) else mret ());
  _ ← modify (λ v, MkVerifier (newFlatStateVerifier db) (vf_index v) 0);
  '(state, inventory) ← wrap "verify artifact state" (traverseState scheme (st_Root expected));
  _ ← lift (reject_if (negb (bool_decide (st_Counts state = st_Counts expected))) "artifact counts mismatch");
  _ ← (if bool_decide (scheme = PathScheme) then wrap "verify path flat-state inventory" (on_flat fv_Finish) else mret ());
  _ ← verifyDatabaseInventory scheme source (st_Counts expected) inventory extraMetadata;
  mret state.

Definition verifyOpenedTarget (scheme : string) (source : SourceEvidence) (expected : StateResult)
    (extraMetadata : list headMetadataEntries) : M verifier StateResult :=
  _ ← lift (verifyHeadMetadata db source);
  _ ← lift (reject_if (negb (bool_decide (scheme = HashScheme) || bool_decide (scheme = PathScheme))) "unsupported artifact scheme");
  r ← attempt (verify_target_body scheme source expected extraMetadata);
  c ← attempt (wrap "close artifact trie database" io);
  match r, c with
  | Ok x, Ok _ => mret x
  | Ok _, Err e => fail e
  | Err e, Ok _ => fail e
  | Err e, Err e' => fail (EJoin e e')
  end.

(** [verifyTargetDatabase]: opening and closing the database. *)
Definition verifyTargetDatabase (scheme : string) (source : SourceEvidence) (expected : StateResult)
    (extraMetadata : list headMetadataEntries) : M verifier StateResult :=
  _ ← wrap "open artifact database read-only" io;
  r ← attempt (verifyOpenedTarget scheme source expected extraMetadata);
  c ← attempt (wrap "close artifact database" io);
  match r, c with
  | Ok x, Ok _ => mret x
  | Ok _, Err e => fail e
  | Err e, Ok _ => fail e
  | Err e, Err e' => fail (EJoin e e')
  end.

End Verify.
