(* ===== verification/VerifyState.v ===== *)
(** * What verification establishes

    Success of [verifyOpenedTarget] means that the database is exactly the one
    the state requires: head metadata, the state's flat entries and code, the
    path scheme's metadata, and trie nodes reached from the root. The parts:
    the index counts the distinct nodes, the flat verifier consumes the
    snapshot in lockstep with the traversal, and the inventory classifies every
    key, so that equal numbers leave no room for a key that nothing requires. *)

From S2P Require Import Prelude Sha256 Geth Instances Manifest StrictIO Records Scanner Bundle Account StateTrie Consumer Stream Traverse AtomicDir Export DirectWriter OvmIndex Verify.

(** ** Counting *)

(** A duplicate-free part as long as the whole is all of it. *)
Lemma counted_all {A} (part whole : list A) :
  NoDup part → (∀ x, x ∈ part → x ∈ whole) → length whole = length part → ∀ x, x ∈ whole → x ∈ part.
Proof.
  intros Hn Hs Hl x Hx. assert (Hp : part ≡ₚ whole).
  { apply submseteq_length_Permutation; [by apply NoDup_submseteq|lia]. }
  by rewrite Hp.
Qed.

Lemma fmap_list_bind {A B C} (f : B → C) (g : A → list B) l : f <$> (l ≫= g) = l ≫= λ x, f <$> g x.
Proof. induction l as [|x l IH]; [done|]. by rewrite !bind_cons fmap_app IH. Qed.

(** ** The index of reachable nodes *)

Section IndexLemmas.
Context `{BatchSize} (batchLen : list Hash → N).
(** A batch with marks in it is not empty. *)
Context (batchLen_zero : ∀ l, batchLen l = 0 → l = []).

Definition index_marks (i : temporaryTrieNodeIndex) : gset Hash := ix_db i ∪ list_to_set (ix_batch i).

Lemma node_flush_ok i w u i' w' :
  index_flush_marks batchLen i w = (Ok u, i', w') → index_marks i' = ix_db i' ∧ index_marks i' = index_marks i.
Proof.
  unfold index_flush_marks. intros Hr. mstep Hr. minv. destruct (N.eqb_spec (batchLen (ix_batch i)) 0) as [Hz|_]; minv.
  - apply batchLen_zero in Hz. unfold index_marks. rewrite Hz. set_solver.
  - unfold index_marks. cbn. set_solver.
Qed.

Lemma Mark_ok h i w u i' w' : Mark batchLen h i w = (Ok u, i', w') → index_marks i' = index_marks i ∪ {[h]}.
Proof.
  unfold Mark, require_open. intros Hr. minv.
  match type of Hr with (if ?b then _ else _) _ _ = _ => destruct b end.
  - apply node_flush_ok in Hr as [_ ->]. unfold index_marks. cbn. rewrite list_to_set_app_L. set_solver.
  - minv. unfold index_marks. cbn. rewrite list_to_set_app_L. set_solver.
Qed.

Lemma count_marks_ok l n i w n' i' w' :
  count_marks l n i w = (Ok n', i', w') → n + N.of_nat (length l) < two64 → n' = n + N.of_nat (length l).
Proof.
  revert n w. induction l as [|h l IH]; intros n w Hr Hl; cbn [count_marks length] in *; minv; [lia|].
  apply IH in Hr as ->; rewrite add64_small; lia.
Qed.

(** [Count] is the number of distinct marks. *)
Lemma Count_ok i w n i' w' :
  Count batchLen i w = (Ok n, i', w') → N.of_nat (size (index_marks i)) < two64 → n = N.of_nat (size (index_marks i)).
Proof.
  unfold Count, require_open. intros Hr Hl. minv.
  match goal with Hx : index_flush_marks _ _ _ = _ |- _ => apply node_flush_ok in Hx as [Hd Hm] end.
  mcases. match goal with Hx : count_marks _ _ _ _ = _ |- _ => apply count_marks_ok in Hx; rename Hx into Hc end.
  - rewrite Hc -Hm Hd. unfold size, set_size. cbn. lia.
  - rewrite -Hd Hm. unfold size, set_size in Hl. cbn in Hl. lia.
Qed.

End IndexLemmas.

(** ** The flat verifier *)

Section FlatLemmas.
Context `{StackTrie, RawdbKeys, SlimRLP}.

Definition event_account (ev : event) : list (bytes * bytes) :=
  match ev with EvAccount h a _ _ => [(prefixedKey SnapshotAccountPrefix (hash_bytes h), SlimAccountRLP a)] | _ => [] end.
Definition event_slot (ev : event) : list (bytes * bytes) :=
  match ev with EvStorage a s v => [(SnapshotStoragePrefix ++ hash_bytes a ++ hash_bytes s, v)] | _ => [] end.

Lemma compareNext_ok {St} it key value (s : St) w rest s' w' :
  compareNext it key value s w = (Ok rest, s', w') → it = (key, value) :: rest ∧ s' = s.
Proof.
  unfold compareNext. intros Hr. minv. destruct it as [|[k v] it]; minv.
  repeat match goal with Hx : negb _ = false |- _ => apply negb_false_iff, bool_decide_eq_true in Hx end. by subst.
Qed.

(** Each event of the traversal consumes its entry. *)
Lemma flat_observed ev f f' :
  observed (Some flatVisitor) None ev f f' →
  fv_accounts f = event_account ev ++ fv_accounts f' ∧ fv_storage f = event_slot ev ++ fv_storage f'.
Proof.
  intros (w & w' & Ho). destruct ev as [h a full slim|a s v|a h c|o n]; cbn in Ho.
  - unfold fv_Account in Ho. minv. match goal with Hx : compareNext _ _ _ _ _ = _ |- _ => apply compareNext_ok in Hx as [He ->] end.
    cbn. by rewrite He.
  - unfold fv_Storage in Ho. minv. match goal with Hx : compareNext _ _ _ _ _ = _ |- _ => apply compareNext_ok in Hx as [He ->] end.
    cbn. by rewrite He.
  - unfold fv_Code in Ho. by minv.
  - by minv.
Qed.

Lemma flat_steps evs f f' :
  steps (observed (Some flatVisitor) None) evs f f' →
  fv_accounts f = (evs ≫= event_account) ++ fv_accounts f' ∧ fv_storage f = (evs ≫= event_slot) ++ fv_storage f'.
Proof.
  induction 1 as [f|ev evs f f1 f2 Ho _ [IHa IHs]]; [done|]. apply flat_observed in Ho as [Ha Hs].
  by rewrite !bind_cons Ha Hs IHa IHs !app_assoc.
Qed.

Lemma finish_flat_ok {St} it (s : St) w u s' w' : finish_flat it s w = (Ok u, s', w') → it = [] ∧ s' = s.
Proof. unfold finish_flat. intros Hr. minv. split; [|done]. destruct it; [done|]. by simplify_eq/=. Qed.

Lemma fv_Finish_ok f w u f' w' : fv_Finish f w = (Ok u, f', w') → f = MkFlat [] [].
Proof.
  unfold fv_Finish. intros Hr. minv.
  match goal with Hx : finish_flat (fv_accounts _) _ _ = _ |- _ => apply finish_flat_ok in Hx as [Ha ->] end.
  apply finish_flat_ok in Hr as [Hs ->]. destruct f. cbn in *. by subst.
Qed.

End FlatLemmas.

(** ** The traversal's flat entries *)

Section VisitLemmas.
Context `{Keccak, EmptyHashes, AccountRLP, !AccountRLPLaws, RLPSplit, StackTrie}.
Context (trie_root : list (bytes * bytes) → Hash) `{!StackTrieLaws trie_root}.

(** The observations of a traversal other than trie nodes. *)
Definition visit_events (e : entry) : list event :=
  EvAccount (e_hash e) (e_account e) (e_full e) None ::
  map (λ kv, EvStorage (e_hash e) kv.1 kv.2) (e_slots e) ++
  match e_code e with Some code => [EvCode (e_hash e) (e_codeHash e) code] | None => [] end.

Lemma visits_trace_bind {X} (g : event → list X) known st es st' ns :
  (∀ o n, g (EvNode o n) = []) → entries_wf known es → values_nonempty es → stack_feed st (account_leaves es) = Ok (st', ns) →
  visits_trace st es ≫= g = (es ≫= visit_events) ≫= g.
Proof.
  intros Hg. revert known st ns. induction es as [|e es IH]; intros known st ns Hw Hv Hf; [done|].
  destruct Hw as [He Hes]. apply Forall_cons in Hv as [Hv Hvs].
  unfold account_leaves in Hf. cbn [map stack_feed] in Hf. cbn [visits_trace].
  destruct (stack_update st (hash_bytes (e_hash e)) (e_full e)) as [[st1 n1]|]; [|done]. simpl in Hf. fold (account_leaves es) in Hf.
  destruct (stack_feed st1 (account_leaves es)) as [[s3 n3]|] eqn:Ef; [|done]. injection Hf as -> _.
  destruct (stack_feed_ok _ (slot_leaves_ok _ (eo_sorted _ _ (ew_open _ _ He)) Hv)) as (st2 & n2 & Hf2).
  assert (Hcl : close_trace e ≫= g = []) by (unfold close_trace; destruct (e_slots e); [done|by apply node_events_bind]).
  rewrite bind_cons !bind_app (IH _ _ _ Hes Hvs Ef) node_events_bind //. f_equal.
  unfold visit_trace, visit_events. rewrite !bind_cons !bind_app (slots_trace_bind _ _ _ _ _ _ Hg Hf2) Hcl app_nil_r. done.
Qed.

Lemma state_visits_bind {X} (g : event → list X) es root :
  (∀ o n, g (EvNode o n) = []) → state_wf es root → values_nonempty es →
  (visits_trace stack_new es ++ node_events zero_hash (stack_hash (stack_after (account_leaves es))).2) ≫= g =
  (es ≫= visit_events) ≫= g.
Proof.
  intros Hg [Hs Hw _] Hv. rewrite bind_app node_events_bind // app_nil_r.
  destruct (stack_feed_ok _ (account_leaves_ok _ _ Hs Hw)) as (st & ns & Hf). by eapply visits_trace_bind.
Qed.

(** The codes of a state, with their keys. *)
Definition code_entries `{RawdbKeys} (es : list entry) : list (bytes * bytes) :=
  es ≫= λ e, match e_code e with Some code => [(prefixedKey CodePrefix (hash_bytes (e_codeHash e)), code)] | None => [] end.

Lemma CodeRecords_state_counts `{RawdbKeys} es : CodeRecords (state_counts es) = N.of_nat (length (code_entries es)) mod two64.
Proof.
  induction es as [|e es IH] using rev_ind; [done|]. rewrite state_counts_snoc. unfold code_entries. rewrite bind_app length_app.
  fold (code_entries es). unfold entry_counts.
  assert (Hr : ∀ b (c : Counts), CodeRecords (if (b : bool) then c else count_reference c) = CodeRecords c) by (by intros []).
  rewrite Hr. unfold open_counts.
  assert (Hs : ∀ slots c, CodeRecords (foldl (λ c (kv : Hash * bytes), count_record RecordStorage (blen kv.2) c) c slots) = CodeRecords c).
  { clear. induction slots as [|kv slots IH]; intros c; [done|]. cbn [foldl]. by rewrite IH. }
  cbn [mbind list_bind]. rewrite app_nil_r. destruct (e_code e) as [code|].
  - change (CodeRecords (count_record RecordCode ?n ?c)) with (add64 (CodeRecords c) 1). rewrite Hs.
    change (CodeRecords (count_record RecordAccount ?n ?c)) with (CodeRecords c). rewrite IH add64_mod_l. f_equal. cbn [length]. lia.
  - rewrite Hs. change (CodeRecords (count_record RecordAccount ?n ?c)) with (CodeRecords c). rewrite IH. f_equal. cbn [length]. lia.
Qed.

Lemma code_entries_NoDup `{RawdbKeys} known es : entries_wf known es → NoDup (code_entries es).*1.
Proof.
  revert known. induction es as [|e es IH]; intros known Hw; [constructor|]. destruct Hw as [Hw Hws].
  unfold code_entries. rewrite bind_cons fmap_app. fold (code_entries es). destruct (e_code e) as [code|] eqn:Hc; cbn; [|by eapply IH].
  constructor; [|by eapply IH]. intros Hin.
  apply list_elem_of_fmap in Hin as ([k v] & Hk & Hin). cbn in Hk. apply list_elem_of_bind in Hin as (e' & Hin & He').
  destruct (e_code e') as [code'|] eqn:Hc'; [|by apply elem_of_nil in Hin]. apply list_elem_of_singleton in Hin. injection Hin as -> ->.
  unfold prefixedKey in Hk. apply app_inj_2 in Hk as [_ Hk]; [|by rewrite !length_hash_bytes]. apply hash_bytes_inj in Hk.
  destruct (entries_code_fresh _ _ _ _ Hws He' Hc'). rewrite -Hk. apply elem_of_union_r. unfold entry_codes. rewrite Hc. by apply elem_of_singleton.
Qed.

End VisitLemmas.

(** ** The inventory *)

Section InventoryLemmas.
Context `{Keccak, RawdbKeys, ArtifactKeys, PathDB}.
Context (scheme : string).

Definition seen_count (kind : inventoryEntryKind) (c : inventoryCounts) : N :=
  match kind with
  | inventoryMetadata => 0
  | inventoryTrieNode => in_trieNodes c
  | inventoryCode => in_codeEntries c
  | inventoryFlatAccount => in_flatAccounts c
  | inventoryFlatStorage => in_flatSlots c
  end.

(** An entry is not head metadata and is of kind [kind]. *)
Definition of_kind (md : headMetadataEntries) (kind : inventoryEntryKind) (kv : bytes * bytes) : Prop :=
  md !! kv.1 = None ∧ classifyArtifactEntry scheme kv.1 kv.2 = Ok kind.
#[local] Instance of_kind_dec md kind kv : Decision (of_kind md kind kv).
Proof. unfold of_kind. apply _. Defined.

Definition kind_entries (md : headMetadataEntries) (kind : inventoryEntryKind) (l : list (bytes * bytes)) : list (bytes * bytes) :=
  filter (of_kind md kind) l.

(** Metadata that has been found does not come back. *)
Lemma of_kind_delete md key kind kv : kv.1 ≠ key → of_kind (delete key md) kind kv ↔ of_kind md kind kv.
Proof. intros Hne. unfold of_kind. by rewrite lookup_delete_ne. Qed.

Lemma kind_entries_delete md key kind l :
  ¬ (key ∈ l.*1) → kind_entries (delete key md) kind l = kind_entries md kind l.
Proof.
  induction l as [|kv l IH]; intros Hk; [done|]. cbn in Hk. apply not_elem_of_cons in Hk as [Hne Hk]. unfold kind_entries in *.
  rewrite !filter_cons IH //. by rewrite (decide_ext _ (of_kind md kind kv) _ _ (of_kind_delete md key kind kv (not_eq_sym Hne))).
Qed.

Lemma count_kind_seen kind k c :
  kind ≠ inventoryMetadata → seen_count kind (count_kind k c) = if bool_decide (kind = k) then add64 (seen_count kind c) 1 else seen_count kind c.
Proof. by destruct kind, k. Qed.

(** What the loop over all entries has found out. *)
Lemma inspect_entries_ok l md c (s : verifier) w md' c' s' w' :
  NoDup l.*1 → (∀ kind, seen_count kind c + N.of_nat (length l) < two64) →
  inspect_entries scheme l md c s w = (Ok (md', c'), s', w') →
  (∀ kind, kind ≠ inventoryMetadata → seen_count kind c' = seen_count kind c + N.of_nat (length (kind_entries md kind l))) ∧
  (∀ k x, md !! k = Some x → md' !! k = Some x ∨ (k, x) ∈ l) ∧
  Forall (λ kv, md !! kv.1 = Some kv.2 ∨ ∃ kind, of_kind md kind kv) l.
Proof.
  revert md c w. induction l as [|[k v] l IH]; intros md c w Hn Hlt Hr; cbn [inspect_entries] in Hr.
  - minv. simplify_eq. split; [intros; cbn; lia|]. split; [auto|constructor].
  - cbn [length fmap list_fmap fst] in *. apply NoDup_cons in Hn as [Hk Hn]. minv. destruct (md !! k) as [ev|] eqn:Hmd; minv.
    + match goal with Hx : negb _ = false |- _ => apply negb_false_iff, bool_decide_eq_true in Hx; subst end.
      apply IH in Hr as (Hc & Hm & Hf); [|done|intros kind; specialize (Hlt kind); lia]. split; [|split].
      * intros kind Hkind. rewrite (Hc kind Hkind) kind_entries_delete //. unfold kind_entries. rewrite filter_cons_False //.
        intros [Hx _]. cbn in Hx. congruence.
      * intros k' x Hx. destruct (decide (k' = k)) as [->|Hne]; [rewrite Hmd in Hx; injection Hx as ->; right; left|].
        destruct (Hm k' x) as [|Hin]; [by rewrite lookup_delete_ne|by left|right; by right].
      * constructor; [by left|]. rewrite Forall_forall in Hf. apply Forall_forall. intros [k' v'] Hin.
        assert (Hne : k' ≠ k) by (intros ->; destruct Hk; by apply (list_elem_of_fmap_2 fst) in Hin).
        destruct (Hf _ Hin) as [Hx|[kind Hx]]; [left|right; exists kind; by apply of_kind_delete in Hx].
        cbn in *. by rewrite lookup_delete_ne in Hx.
    + match goal with Hx : classifyArtifactEntry _ _ _ = Ok ?x |- _ => rename Hx into Hcl; set (knd := x) in * end.
      assert (Hone : ∀ kind, seen_count kind (count_kind knd c) ≤ seen_count kind c + 1).
      { intros kind. destruct (decide (kind = inventoryMetadata)) as [->|Hkind]; [done|]. rewrite count_kind_seen //.
        case_bool_decide; [|lia]. specialize (Hlt kind). rewrite add64_small; lia. }
      apply IH in Hr as (Hc & Hm & Hf); [|done|intros kind; specialize (Hlt kind); specialize (Hone kind); lia]. split; [|split].
      * intros kind Hkind. rewrite (Hc kind Hkind) count_kind_seen //. unfold kind_entries. rewrite filter_cons.
        specialize (Hlt kind). case_bool_decide as Hb; case_decide as Hd.
        -- rewrite add64_small; cbn [length]; lia.
        -- destruct Hd. subst. by split.
        -- destruct Hd as [_ Hd]. cbn in Hd. congruence.
        -- done.
      * intros k' x' Hx. destruct (Hm _ _ Hx); [by left|right; by right].
      * constructor; [|done]. right. exists knd. by split.
Qed.

End InventoryLemmas.

(** ** What is relied on *)

(** rawdb's predicates on keys. *)
Class ArtifactKeysLaws `{Keccak, RawdbKeys, ArtifactKeys} : Prop := {
  legacy_trie_node k v : IsLegacyTrieNode k v = true ↔ length k = HashLength ∧ k = hash_bytes (keccak256 v);
  code_key k h : IsCodeKey k = Some h ↔ k = CodePrefix ++ h ∧ length h = HashLength
}.

(** A key that state can occupy: a bare hash or one below a state prefix. *)
Definition state_key `{RawdbKeys} (k : bytes) : Prop :=
  length k = HashLength ∨
  Exists (λ p, has_prefix k p = true)
    [CodePrefix; SnapshotAccountPrefix; SnapshotStoragePrefix; TrieNodeAccountPrefix; TrieNodeStoragePrefix].

(** The head is not stored among the state. *)
Class HeadDBLaws `{RawdbKeys, HeadDB} : Prop := {
  head_keys headerRLP head : Forall (λ kv, ¬ state_key kv.1) (writeHeadMetadataEntries headerRLP head)
}.

Section NodeKeys.
Context `{EmptyHashes, AccountRLP, TrieReader, NodeReader, RawdbKeys}.

Definition node_key (scheme : string) (n : Hash * (bytes * Hash)) : bytes :=
  match trieNodeKey scheme n.1 n.2.1 n.2.2 with Ok k => k | Err _ => [] end.

(** The nodes that have an entry of their own. *)
Definition hashed_nodes (root : Hash) : list (Hash * (bytes * Hash)) := filter (λ n, n.2.2 ≠ zero_hash) (reached_nodes root).

End NodeKeys.

(** go-ethereum's node iterators: an iteration visits every path at most once,
    the paths are sequences of nibbles, and what it has visited it has read
    from the database, under the key of rawdb's schema. No account hash is zero. *)
Class NodeReaderLaws `{TrieReader, NodeReader, RawdbKeys} (db : store) (scheme : string) : Prop := {
  account_paths root :
    NoDup (account_nodes root).*1 ∧ Forall (λ n, isCanonicalHexPath n.1 = true) (account_nodes root);
  storage_paths root owner storageRoot :
    NoDup (storage_nodes root owner storageRoot).*1 ∧
    Forall (λ n, isCanonicalHexPath n.1 = true) (storage_nodes root owner storageRoot);
  account_stored root leaves :
    account_iterator root = Ok (leaves, None) →
    Forall (λ n, n.2 ≠ zero_hash → is_Some (db !! node_key scheme (zero_hash, n))) (account_nodes root) ∧
    Forall (λ kv, kv.1 ≠ hash_bytes zero_hash) leaves;
  storage_stored root owner storageRoot leaves :
    storage_iterator root owner storageRoot = Ok (leaves, None) →
    Forall (λ n, n.2 ≠ zero_hash → is_Some (db !! node_key scheme (owner, n))) (storage_nodes root owner storageRoot)
}.

(** ** The nodes of a traversal *)

Section NodeLemmas.
Context `{Keccak, EmptyHashes, AccountRLP, RLPSplit, StackTrie, TrieReader, NodeReader, RawdbKeys, !RawdbKeysLaws, BatchSize}.
Context (batchLen : list Hash → N) (batchLen_zero : ∀ l, batchLen l = 0 → l = []).

Definition nonzero_hashes (nodes : list (Hash * (bytes * Hash))) : list Hash :=
  map (λ n, n.2.2) (filter (λ n, n.2.2 ≠ zero_hash) nodes).

(** The inventory of the hash scheme: the set of the nodes. *)
Lemma mark_nodes nodes v w u v' w' :
  for_each nodes (inventory_Next batchLen HashScheme) v w = (Ok u, v', w') →
  index_marks (vf_index v') = index_marks (vf_index v) ∪ list_to_set (nonzero_hashes nodes) ∧ vf_flat v' = vf_flat v.
Proof.
  revert v w. induction nodes as [|n nodes IH]; intros v w Hr; cbn [for_each] in Hr.
  { minv. unfold nonzero_hashes. cbn. split; [set_solver|done]. }
  apply bind_ok in Hr as ([] & v1 & w1 & Hm & Hr). apply IH in Hr as [-> ->].
  unfold inventory_Next, recordTrieNode in Hm. unfold nonzero_hashes. rewrite filter_cons. case_bool_decide as Hz.
  - rewrite decide_False; [|by intros []]. by minv.
  - rewrite decide_True //. rewrite bool_decide_eq_true_2 // in Hm. unfold on_index in Hm. minv.
    match goal with Hx : Mark _ _ _ _ = _ |- _ => apply Mark_ok in Hx; [|done]; rename Hx into Hmk end.
    cbn. rewrite Hmk. split; [set_solver|done].
Qed.

(** The inventory of the path scheme: the number of the nodes. *)
Lemma count_nodes nodes v w u v' w' :
  for_each nodes (inventory_Next batchLen PathScheme) v w = (Ok u, v', w') →
  vf_nodes v + N.of_nat (length (nonzero_hashes nodes)) < two64 →
  vf_nodes v' = vf_nodes v + N.of_nat (length (nonzero_hashes nodes)) ∧ vf_flat v' = vf_flat v.
Proof.
  revert v w. induction nodes as [|n nodes IH]; intros v w Hr Hl; cbn [for_each] in Hr.
  { minv. unfold nonzero_hashes. cbn. split; [lia|done]. }
  apply bind_ok in Hr as ([] & v1 & w1 & Hm & Hr).
  unfold inventory_Next, recordTrieNode in Hm. unfold nonzero_hashes in *. rewrite filter_cons in Hl |- *. case_bool_decide as Hz.
  - rewrite decide_False in Hl |- *; [|by intros []..]. minv. by apply IH in Hr.
  - rewrite decide_True // in Hl |- *. rewrite bool_decide_eq_false_2 // in Hm. minv. cbn [length map] in *.
    apply IH in Hr as [-> ->]; cbn [vf_nodes vf_flat]; rewrite add64_small; first [lia | split; [lia|done]].
Qed.

(** The nodes of the storage trie of an entry. *)
Definition entry_nodes (root : Hash) (e : entry) : list (Hash * (bytes * Hash)) :=
  if bool_decide (acc_Root (e_account e) = EmptyRootHash) then []
  else map (pair (e_hash e)) (storage_nodes root (e_hash e) (acc_Root (e_account e))).

Context (root : Hash) (readCode : Hash → result bytes) (db : store) (scheme : string) `{!NodeReaderLaws db scheme}.
Context (es : list entry) (es_leaves : account_iterator root = Ok (account_leaves es, None)).
Context (es_source : Forall (entry_source root readCode) es).

Lemma reached_nodes_entries : reached_nodes root = map (pair zero_hash) (account_nodes root) ++ (es ≫= entry_nodes root).
Proof.
  unfold reached_nodes. rewrite es_leaves. f_equal. clear es_leaves. unfold account_leaves.
  revert es_source. generalize es. induction 1 as [|e es' He _ IH]; [done|]. cbn [map]. rewrite !bind_cons IH. f_equal. unfold owner_nodes, entry_nodes. cbn [fst snd].
  destruct He as (-> & _). by rewrite vec_of_hash_bytes.
Qed.

Lemma entry_hash_nonzero e : e ∈ es → e_hash e ≠ zero_hash.
Proof.
  intros He Hz. destruct (account_stored _ _ es_leaves) as [_ Hf]. rewrite Forall_forall in Hf.
  apply (Hf (hash_bytes (e_hash e), e_full e)); [|cbn; by rewrite Hz].
  apply (list_elem_of_fmap_2 (λ e, (hash_bytes (e_hash e), e_full e)) es e He).
Qed.

(** Every node with a hash is stored. *)
Lemma hashed_nodes_stored n : n ∈ hashed_nodes root → is_Some (db !! node_key scheme n).
Proof.
  unfold hashed_nodes. rewrite list_elem_of_filter reached_nodes_entries elem_of_app list_elem_of_fmap list_elem_of_bind.
  intros [Hz [(m & -> & Hm)|(e & Hn & He)]].
  - destruct (account_stored _ _ es_leaves) as [Hf _]. rewrite Forall_forall in Hf. by apply Hf.
  - unfold entry_nodes in Hn. destruct (proj1 (Forall_forall _ _) es_source e He) as (_ & Hst & _).
    case_bool_decide as Hr; [by apply elem_of_nil in Hn|]. apply list_elem_of_fmap in Hn as (m & -> & Hm).
    destruct Hst as [[? _]|[_ Hst]]; [done|]. apply storage_stored in Hst. rewrite Forall_forall in Hst. by apply Hst.
Qed.

(** In the path scheme the key determines owner and path. *)
Lemma path_node_key_inj n m : node_key PathScheme n = node_key PathScheme m → n.1 = m.1 ∧ n.2.1 = m.2.1.
Proof.
  destruct prefix_lengths as (_ & _ & _ & La & Ls). destruct prefix_differ as (_ & _ & _ & _ & _ & _ & _ & _ & _ & Hd).
  unfold node_key, trieNodeKey, keyBytes. rewrite (bool_decide_eq_false_2 (PathScheme = HashScheme)) // (bool_decide_eq_true_2 (PathScheme = PathScheme)) //.
  case_bool_decide as Hn; case_bool_decide as Hm; rewrite ?app_nil_r; intros Hk.
  - apply app_inv_head in Hk. by rewrite Hn Hm.
  - by apply prefixes_apart in Hk.
  - by apply prefixes_apart in Hk.
  - apply app_inv_head, hash_app_inj in Hk. done.
Qed.

Lemma hash_sorted_NoDup (l : list Hash) : StronglySorted hash_lt l → NoDup l.
Proof.
  induction 1 as [|h l _ IH Hf]; constructor; [|done]. intros Hin. rewrite Forall_forall in Hf.
  specialize (Hf _ Hin). by apply bytes_lt_irrefl in Hf.
Qed.

Lemma NoDup_pairs {A B C} (x : A) (l : list (B * C)) :
  NoDup l.*1 → NoDup (map (λ n : A * (B * C), (n.1, n.2.1)) (map (pair x) l)).
Proof.
  intros Hn. rewrite map_map. change (map ?f ?s) with (f <$> s). rewrite (list_fmap_ext _ (pair x ∘ fst)) //.
  rewrite list_fmap_compose. apply NoDup_fmap_2; [|done]. by intros ? ? [=].
Qed.

Lemma reached_paths_NoDup : state_wf es root → NoDup (map (λ n, (n.1, n.2.1)) (reached_nodes root)).
Proof.
  intros [Hs _ _]. rewrite reached_nodes_entries map_app. change (map ?f ?s) with (f <$> s). rewrite fmap_list_bind.
  apply NoDup_app. split; [apply NoDup_pairs, account_paths|]. split.
  - intros [o p] Hin Hin'. apply list_elem_of_fmap in Hin as (n & [= -> ->] & Hn). apply list_elem_of_fmap in Hn as (n' & -> & _).
    apply list_elem_of_bind in Hin' as (e & Hin' & He). apply list_elem_of_fmap in Hin' as (m & [= Hm _] & Hin'). unfold entry_nodes in Hin'.
    case_bool_decide; [by apply elem_of_nil in Hin'|]. apply list_elem_of_fmap in Hin' as (m' & -> & _). by destruct (entry_hash_nonzero e He).
  - apply NoDup_bind.
    + intros e1 e2 [o p] H1' H2' Hy1 Hy2. apply (StronglySorted_key_unique hash_lt e_hash es e1 e2); [intros h; apply bytes_lt_irrefl|done..|].
      assert (Hown : ∀ e, (o, p) ∈ (λ n, (n.1, n.2.1)) <$> entry_nodes root e → o = e_hash e).
      { intros e Hin. apply list_elem_of_fmap in Hin as (m & [= -> ->] & Hin). unfold entry_nodes in Hin.
        case_bool_decide; [by apply elem_of_nil in Hin|]. by apply list_elem_of_fmap in Hin as (m' & -> & _). }
      by rewrite -(Hown e1 Hy1) -(Hown e2 Hy2).
    + intros e _. unfold entry_nodes. case_bool_decide; [constructor|]. apply NoDup_pairs, storage_paths.
    + by apply (NoDup_fmap_1 e_hash), hash_sorted_NoDup.
Qed.

(** Different keys, one by one, for things that differ. *)
Lemma NoDup_fmap_finer {A B C} (f : A → B) (g : A → C) l :
  (∀ x y, g x = g y → f x = f y) → NoDup (map f l) → NoDup (map g l).
Proof.
  intros Hfg. induction l as [|x l IH]; cbn; intros Hn; [constructor|]. apply NoDup_cons in Hn as [Hx Hn]. constructor; [|by apply IH].
  intros Hin. apply Hx. apply list_elem_of_fmap in Hin as (y & Hy & Hin). rewrite (Hfg _ _ Hy). by apply (list_elem_of_fmap_2 f).
Qed.

Lemma path_keys_NoDup : state_wf es root → NoDup (map (node_key PathScheme) (hashed_nodes root)).
Proof.
  intros Hwf. apply (NoDup_fmap_finer (λ n, (n.1, n.2.1))).
  - intros n m Hk. apply path_node_key_inj in Hk as [H1' H2']. congruence.
  - eapply sublist_NoDup; [by apply reached_paths_NoDup|]. apply (fmap_sublist _ (hashed_nodes root)), sublist_filter.
Qed.

Lemma path_node_canonical n :
  n ∈ hashed_nodes root →
  isCanonicalPathAccountTrieNodeKey (node_key PathScheme n) || isCanonicalPathStorageTrieNodeKey (node_key PathScheme n) = true.
Proof.
  destruct prefix_lengths as (_ & _ & _ & La & Ls).
  intros Hn. assert (Hp : isCanonicalHexPath n.2.1 = true).
  { apply list_elem_of_filter in Hn as [_ Hn]. rewrite reached_nodes_entries elem_of_app in Hn. destruct Hn as [Hn|Hn].
    - apply list_elem_of_fmap in Hn as (m & -> & Hm). by apply (proj1 (Forall_forall _ _) (proj2 (account_paths root)) m).
    - apply list_elem_of_bind in Hn as (e & Hn & _). unfold entry_nodes in Hn. case_bool_decide; [by apply elem_of_nil in Hn|].
      apply list_elem_of_fmap in Hn as (m & -> & Hm).
      by apply (proj1 (Forall_forall _ _) (proj2 (storage_paths root (e_hash e) (acc_Root (e_account e)))) m). }
  unfold node_key, trieNodeKey, keyBytes. rewrite (bool_decide_eq_false_2 (PathScheme = HashScheme)) // (bool_decide_eq_true_2 (PathScheme = PathScheme)) //.
  unfold isCanonicalPathAccountTrieNodeKey, isCanonicalPathStorageTrieNodeKey. case_bool_decide; apply orb_true_iff; [left|right].
  - rewrite app_nil_r drop_app_length Hp andb_true_r. apply has_prefix_spec. eauto.
  - rewrite app_assoc (drop_app_length' (_ ++ _)); [|by rewrite length_app length_hash_bytes]. rewrite Hp andb_true_r.
    rewrite -app_assoc. apply andb_true_iff. split; [apply has_prefix_spec; eauto|]. apply negb_true_iff, Nat.ltb_ge.
    rewrite !length_app length_hash_bytes. lia.
Qed.

End NodeLemmas.

Lemma keys_bounded (db : store) (ks : list bytes) : NoDup ks → (∀ k, k ∈ ks → is_Some (db !! k)) → (length ks ≤ size db)%nat.
Proof.
  intros Hn Hk. rewrite -size_dom -(size_list_to_set (C := gset bytes) ks) //. apply subseteq_size. intros k. rewrite elem_of_list_to_set elem_of_dom. apply Hk.
Qed.

(** ** The verified traversal *)

Section Traversal.
Context `{Keccak, EmptyHashes, AccountRLP, !AccountRLPLaws, RLPSplit, StackTrie, TrieReader, NodeReader, HeaderRLP}.
Context `{RawdbKeys, !RawdbKeysLaws, BatchSize, SlimRLP}.
Context (trie_root : list (bytes * bytes) → Hash) `{!StackTrieLaws trie_root}.
Context (batchLen : list Hash → N) (batchLen_zero : ∀ l, batchLen l = 0 → l = []).
Context (db : store) (db_size : N.of_nat (size db) < two64).

(** [ks] lists the keys of the nodes, each once. *)
Definition node_keys_of (scheme : string) (root : Hash) (ks : list bytes) : Prop :=
  NoDup ks ∧ ∀ k, k ∈ ks ↔ ∃ n, n ∈ hashed_nodes root ∧ k = node_key scheme n.

(** What a traversal of the database has seen. *)
Definition traversed (scheme : string) (root : Hash) (res : StateResult) (es : list entry) (f f' : flatStateVerifier) : Prop :=
  account_iterator root = Ok (account_leaves es, None) ∧ Forall (entry_source root (target_readCode db)) es ∧
  state_wf es root ∧ values_nonempty es ∧ res = MkStateResult root (state_counts es) ∧
  (scheme = PathScheme →
   steps (observed (Some flatVisitor) None)
     (visits_trace stack_new es ++ node_events zero_hash (stack_hash (stack_after (account_leaves es))).2) f f').

Lemma TraverseState_traversed scheme root f w res f' w' :
  TraverseState root (target_readCode db) (if bool_decide (scheme = PathScheme) then Some flatVisitor else None) None f w = (Ok res, f', w') →
  ∃ es, traversed scheme root res es f f'.
Proof.
  unfold TraverseState. intros Hr. minv. repeat match goal with p : (_ * _)%type |- _ => destruct p end. minv. cbn [fst snd] in *.
  match goal with Hx : traverser_run _ _ _ _ _ _ = _ |- _ => apply (traverser_run_sources _ _ _ _ trie_root) in Hx as (es & Hs & Hi & Hw & Hv & -> & Hst) end.
  exists es. split_and!; try done. intros ->. rewrite bool_decide_eq_true_2 // in Hst.
Qed.

Lemma node_keys_hash root (marks : gset Hash) :
  marks = list_to_set (nonzero_hashes (reached_nodes root)) → node_keys_of HashScheme root (map hash_bytes (elements marks)).
Proof.
  intros Hm. split.
  - apply NoDup_fmap_2; [intros ? ?; apply hash_bytes_inj|apply NoDup_elements].
  - intros k. change (map ?f ?s) with (f <$> s). rewrite list_elem_of_fmap. setoid_rewrite elem_of_elements. rewrite Hm. setoid_rewrite elem_of_list_to_set.
    unfold nonzero_hashes. change (map ?f ?s) with (f <$> s). setoid_rewrite list_elem_of_fmap. fold (hashed_nodes root).
    assert (Hk : ∀ n, node_key HashScheme n = hash_bytes n.2.2).
    { intros n. unfold node_key, trieNodeKey, keyBytes. by rewrite bool_decide_eq_true_2 // app_nil_r. }
    setoid_rewrite Hk. naive_solver.
Qed.

Lemma node_keys_length scheme root es ks `{!NodeReaderLaws db scheme} :
  account_iterator root = Ok (account_leaves es, None) → Forall (entry_source root (target_readCode db)) es →
  node_keys_of scheme root ks → N.of_nat (length ks) < two64.
Proof.
  intros Hi Hs [Hn Hk]. assert (Hl : (length ks ≤ size db)%nat); [|lia]. apply keys_bounded; [done|].
  intros k (n & Hin & ->)%Hk. by eapply hashed_nodes_stored.
Qed.

Lemma traverseState_ok scheme root v w res inv v' w' `{!NodeReaderLaws db scheme} :
  scheme = HashScheme ∨ scheme = PathScheme → vf_nodes v = 0 →
  traverseState batchLen db scheme root v w = (Ok (res, inv), v', w') →
  ∃ es ks, traversed scheme root res es (vf_flat v) (vf_flat v') ∧ node_keys_of scheme root ks ∧
    inv = MkInventory (N.of_nat (length ks)) (CodeRecords (state_counts es)).
Proof.
  intros Hs Hz Hr. unfold traverseState, on_flat in Hr. destruct Hs as [->| ->].
  - rewrite bool_decide_eq_true_2 // in Hr. mcases. simplify_eq.
    match goal with Hx : TraverseState _ _ _ _ _ _ = _ |- _ => apply (TraverseState_traversed HashScheme) in Hx as (es & Ht) end.
    match goal with Hx : for_each _ _ _ _ = _ |- _ => apply (mark_nodes batchLen batchLen_zero) in Hx as [Hm Hfl] end.
    match goal with Hx : on_index (Count _) _ _ = _ |- _ => unfold on_index in Hx; minv end.
    match goal with Hx : on_index index_Close _ _ = _ |- _ => unfold on_index in Hx; minv end.
    match type of Hm with index_marks (vf_index ?x) = _ => rename x into vm end.
    cbn [vf_index vf_flat vf_nodes] in *. unfold index_marks at 2, newTemporaryTrieNodeIndex in Hm. cbn [ix_db ix_batch] in Hm.
    assert (Hk : node_keys_of HashScheme root (map hash_bytes (elements (index_marks (vf_index vm))))) by (apply node_keys_hash; rewrite Hm; set_solver).
    destruct Ht as (Hi & Hso & Hw & Hv & -> & Hst). pose proof (node_keys_length _ _ _ _ Hi Hso Hk) as Hlen. rewrite length_map in Hlen.
    match goal with Hx : Count _ _ _ = _ |- _ => apply (Count_ok batchLen batchLen_zero) in Hx as ->; [|done] end.
    exists es, (map hash_bytes (elements (index_marks (vf_index vm)))). split; [|split; [done|]].
    + by split_and!.
    + by rewrite length_map.
  - rewrite bool_decide_eq_false_2 // in Hr. minv. simplify_eq.
    match goal with Hx : TraverseState _ _ _ _ _ _ = _ |- _ => apply (TraverseState_traversed PathScheme) in Hx as (es & Ht) end.
    destruct Ht as (Hi & Hso & Hw & Hv & -> & Hst).
    assert (Hk : node_keys_of PathScheme root (map (node_key PathScheme) (hashed_nodes root))).
    { split; [by eapply path_keys_NoDup|]. intros k. change (map ?f ?s) with (f <$> s). rewrite list_elem_of_fmap. naive_solver. }
    pose proof (node_keys_length _ _ _ _ Hi Hso Hk) as Hlen.
    assert (Hl : length (nonzero_hashes (reached_nodes root)) = length (map (node_key PathScheme) (hashed_nodes root))) by (unfold nonzero_hashes; by rewrite !length_map).
    match goal with Hx : for_each _ _ _ _ = _ |- _ => apply (count_nodes batchLen) in Hx as [Hm Hfl]; [|cbn [vf_nodes]; rewrite Hz Hl; lia] end.
    cbn [vf_nodes vf_flat] in *. rewrite Hz Hl in Hm.
    exists es, (map (node_key PathScheme) (hashed_nodes root)). rewrite Hm Hfl. split; [by split_and!|]. split; [done|]. by rewrite N.add_0_l.
Qed.

End Traversal.

(** ** The whole database *)

Section Exact.
Context `{Keccak, EmptyHashes, AccountRLP, !AccountRLPLaws, RLPSplit, StackTrie, TrieReader, NodeReader, HeaderRLP}.
Context `{RawdbKeys, !RawdbKeysLaws, BatchSize, SlimRLP, !SlimRLPLaws, HeadDB, !HeadDBLaws, PathDB, ArtifactKeys, !ArtifactKeysLaws}.
Context (trie_root : list (bytes * bytes) → Hash) `{!StackTrieLaws trie_root}.
Context (db : store) (scheme : string) `{!NodeReaderLaws db scheme}.
Context (scheme_ok : scheme = HashScheme ∨ scheme = PathScheme).

Definition all_entries : list (bytes * bytes) := db_iterate db [] [].

Lemma all_entries_elem k v : (k, v) ∈ all_entries ↔ db !! k = Some v.
Proof. unfold all_entries. rewrite db_iterate_elem. split; [by intros (? & _)|]. intros ?. by split_and!; [|destruct k|destruct k]. Qed.

Lemma all_entries_NoDup : NoDup all_entries.*1.
Proof.
  pose proof (db_iterate_sorted db [] []) as Hs. fold all_entries in Hs. induction Hs as [|k l _ IH Hf]; constructor; [|done].
  intros Hin. rewrite Forall_forall in Hf. specialize (Hf _ Hin). by apply bytes_lt_irrefl in Hf.
Qed.

(** Metadata that no state key names. *)
Definition no_state (m : headMetadataEntries) : Prop := ∀ k, is_Some (m !! k) → ¬ state_key k.

Lemma expected_no_state source md : expectedHeadMetadata source = Ok md → no_state md.
Proof.
  unfold expectedHeadMetadata. intros Hm. minv. pose proof (head_keys (HeaderRLP_ source) (HeadBefore source)) as Hk. revert Hk.
  generalize (writeHeadMetadataEntries (HeaderRLP_ source) (HeadBefore source)). intros l Hk.
  assert (Hg : ∀ m, no_state m → no_state (foldl entries_Put m l)); [|apply Hg; intros k [? Hx]; by rewrite lookup_empty in Hx].
  induction Hk as [|[k v] l Hkv _ IH]; intros m Hm; [done|]. cbn [foldl]. apply IH. intros k' Hk'. unfold entries_Put in Hk'. cbn in *.
  destruct (decide (k' = k)) as [->|Hne]; [done|]. rewrite lookup_insert_ne // in Hk'. by apply Hm.
Qed.

Lemma merge_no_state md extra md' :
  no_state md → Forall no_state extra → mergeExpectedMetadata md extra = Ok md' → no_state md'.
Proof.
  unfold mergeExpectedMetadata. intros Hm He. revert md Hm. induction He as [|m extra Hm' _ IH]; intros md Hm Hr; cbn [foldl] in Hr; [by injection Hr as <-|].
  cbn [mbind result_bind] in Hr. simpl in Hr. case_bool_decide as Hd.
  - eapply IH; [|exact Hr]. intros k [x Hx]. apply lookup_union_Some_raw in Hx as [Hx|[_ Hx]]; eauto.
  - exfalso. revert Hr. clear. induction extra as [|m extra IH]; cbn [foldl]; [done|]. exact IH.
Qed.

Lemma state_key_prefix p rest :
  p ∈ [CodePrefix; SnapshotAccountPrefix; SnapshotStoragePrefix; TrieNodeAccountPrefix; TrieNodeStoragePrefix] → state_key (p ++ rest).
Proof. intros Hp. right. apply Exists_exists. exists p. split; [done|]. apply has_prefix_spec. eauto. Qed.

Lemma node_key_cases n :
  (scheme = HashScheme ∧ node_key scheme n = hash_bytes n.2.2) ∨
  (scheme = PathScheme ∧ (∃ p rest, p ∈ [TrieNodeAccountPrefix; TrieNodeStoragePrefix] ∧ node_key scheme n = p ++ rest)).
Proof.
  unfold node_key, trieNodeKey, keyBytes. destruct scheme_ok as [->| ->]; [left|right]; split; try done.
  - by rewrite bool_decide_eq_true_2 // app_nil_r.
  - rewrite bool_decide_eq_false_2 // bool_decide_eq_true_2 //. case_bool_decide; eexists _, _; split; [|done| |done]; set_solver.
Qed.

Lemma node_state_key n : state_key (node_key scheme n).
Proof.
  destruct (node_key_cases n) as [[_ ->]|[_ (p & rest & Hp & ->)]]; [left; apply length_hash_bytes|]. apply state_key_prefix. set_solver.
Qed.

Lemma single_prefix_neq (p q rest : bytes) : length p = 1%nat → length q = 1%nat → p ≠ q → has_prefix (p ++ rest) q = false.
Proof. intros Hp Hq Hne. apply not_true_iff_false. rewrite has_prefix_spec. intros [x Hx]. by apply prefixes_apart in Hx. Qed.

(** An accepted entry at the key of a reached node counts as a node. *)
Lemma classify_node root es readCode n v kind :
  account_iterator root = Ok (account_leaves es, None) → Forall (entry_source root readCode) es → n ∈ hashed_nodes root →
  classifyArtifactEntry scheme (node_key scheme n) v = Ok kind → kind = inventoryTrieNode.
Proof.
  intros Hi Hs Hn Hc. unfold classifyArtifactEntry in Hc. destruct (node_key_cases n) as [[-> Hk]|[-> _]].
  - rewrite bool_decide_eq_true_2 // Hk in Hc. destruct (IsLegacyTrieNode _ _); [by injection Hc|].
    unfold isNonEmptyCodeEntry in Hc. destruct (IsCodeKey _) as [h|] eqn:Eh; [|done]. apply code_key in Eh as [Eh Hl].
    apply (f_equal length) in Eh. rewrite length_hash_bytes length_app Hl (proj1 prefix_lengths) in Eh. lia.
  - rewrite bool_decide_eq_false_2 // in Hc. erewrite path_node_canonical in Hc; [|done..]. by injection Hc.
Qed.

(** An accepted entry at a code key counts as code. *)
Lemma classify_code (h : Hash) v kind :
  v ≠ [] → classifyArtifactEntry scheme (prefixedKey CodePrefix (hash_bytes h)) v = Ok kind → kind = inventoryCode.
Proof.
  intros Hv Hc. destruct prefix_lengths as (Lc & La & Lo & LA & LO). destruct prefix_differ as (? & ? & ? & ? & _).
  assert (Hnc : isNonEmptyCodeEntry (prefixedKey CodePrefix (hash_bytes h)) v = true).
  { unfold isNonEmptyCodeEntry. rewrite (proj2 (code_key _ (hash_bytes h))); [by destruct v|]. split; [done|apply length_hash_bytes]. }
  unfold classifyArtifactEntry in Hc. rewrite Hnc in Hc. destruct scheme_ok as [->| ->].
  - rewrite bool_decide_eq_true_2 // in Hc. destruct (IsLegacyTrieNode _ _) eqn:El; [|by injection Hc].
    apply legacy_trie_node in El as [El _]. unfold prefixedKey in El. rewrite length_app length_hash_bytes Lc in El. lia.
  - rewrite bool_decide_eq_false_2 // in Hc. unfold isCanonicalPathAccountTrieNodeKey, isCanonicalPathStorageTrieNodeKey, prefixedKey in Hc.
    rewrite !single_prefix_neq // in Hc. by injection Hc.
Qed.

(** Entries of a kind are exactly those a traversal accounts for, if there are
    as many. *)
Lemma kind_exact md kind ks :
  no_state md → Forall (λ kv, md !! kv.1 = Some kv.2 ∨ ∃ kind, of_kind scheme md kind kv) all_entries →
  NoDup ks → (∀ k, k ∈ ks → state_key k ∧ is_Some (db !! k)) →
  (∀ k v knd, k ∈ ks → db !! k = Some v → classifyArtifactEntry scheme k v = Ok knd → knd = kind) →
  length (kind_entries scheme md kind all_entries) = length ks →
  ∀ k v, db !! k = Some v → of_kind scheme md kind (k, v) → k ∈ ks.
Proof.
  intros Hmd Hall Hn Hst Hcl Hlen k v Hk Hkind. eapply (counted_all ks (kind_entries scheme md kind all_entries).*1); [done| |by rewrite length_fmap|].
  - intros k' Hk'. destruct (Hst _ Hk') as [Hsk [v' Hv']]. assert (Hin : (k', v') ∈ all_entries) by (by apply all_entries_elem).
    apply (list_elem_of_fmap_2 fst _ (k', v')). apply list_elem_of_filter. split; [|done].
    destruct (proj1 (Forall_forall _ _) Hall _ Hin) as [Hx|[knd [Hx Hc]]]; cbn in *; [destruct (Hmd k'); [by eexists|done]|].
    split; [done|]. cbn. by rewrite -(Hcl k' v' knd).
  - apply (list_elem_of_fmap_2 fst _ (k, v)), list_elem_of_filter. split; [done|]. by apply all_entries_elem.
Qed.

(** *** The state's own entries *)

Lemma code_entries_stored root es k c :
  Forall (entry_source root (target_readCode db)) es → (k, c) ∈ code_entries es → db !! k = Some c ∧ c ≠ [] ∧ ∃ h : Hash, k = prefixedKey CodePrefix (hash_bytes h).
Proof.
  intros Hs Hin. apply list_elem_of_bind in Hin as (e & Hin & He). destruct (e_code e) as [code|] eqn:Hc; [|by apply elem_of_nil in Hin].
  apply list_elem_of_singleton in Hin. injection Hin as -> ->. destruct (proj1 (Forall_forall _ _) Hs e He) as (_ & _ & Hr).
  destruct (Hr _ Hc) as [Hrd Hne]. unfold target_readCode in Hrd. injection Hrd as Hrd. split; [|split; [done|by eexists]].
  destruct (db !! _) as [x|]; cbn in Hrd; by subst.
Qed.

Lemma code_entries_flat es kv : kv ∈ code_entries es → kv ∈ flat_state scheme es.
Proof.
  intros Hin. apply list_elem_of_bind in Hin as (e & Hin & He). apply list_elem_of_bind. exists e. split; [|done].
  unfold entry_flat. apply elem_of_app. right. destruct (e_code e); [|done]. unfold keyBytes. by rewrite app_nil_r.
Qed.

(** The snapshot of a state. *)
Definition flat_accounts (es : list entry) : list (bytes * bytes) :=
  map (λ e, (prefixedKey SnapshotAccountPrefix (hash_bytes (e_hash e)), e_slim e)) es.
Definition flat_slots (es : list entry) : list (bytes * bytes) :=
  es ≫= λ e, map (λ kv, (SnapshotStoragePrefix ++ hash_bytes (e_hash e) ++ hash_bytes kv.1, kv.2)) (e_slots e).

Lemma visits_accounts known es : entries_wf known es → (es ≫= visit_events) ≫= event_account = flat_accounts es.
Proof.
  revert known. induction es as [|e es IH]; intros known Hw; [done|]. destruct Hw as [Hw Hws].
  rewrite bind_cons bind_app (IH _ Hws). cbn [flat_accounts map]. fold (flat_accounts es).
  unfold visit_events. rewrite bind_cons bind_app. cbn [event_account].
  assert (Hsl : map (λ kv, EvStorage (e_hash e) kv.1 kv.2) (e_slots e) ≫= event_account = []).
  { generalize (e_slots e). clear. induction l as [|kv l IH]; [done|]. cbn. exact IH. }
  rewrite Hsl. pose proof (eo_account _ _ (ew_open _ _ Hw)) as Hd.
  apply DecodeAccount_ok in Hd as (He & _). rewrite (slim_account_rlp _ _ He). by destruct (e_code e).
Qed.

Lemma visits_slots es : (es ≫= visit_events) ≫= event_slot = flat_slots es.
Proof.
  induction es as [|e es IH]; [done|]. rewrite (bind_cons visit_events) bind_app IH. unfold flat_slots. rewrite bind_cons. fold (flat_slots es). f_equal.
  unfold visit_events. rewrite bind_cons bind_app. cbn [event_slot app].
  assert (Hsl : map (λ kv, EvStorage (e_hash e) kv.1 kv.2) (e_slots e) ≫= event_slot =
                map (λ kv, (SnapshotStoragePrefix ++ hash_bytes (e_hash e) ++ hash_bytes kv.1, kv.2)) (e_slots e)).
  { generalize (e_slots e). clear. induction l as [|kv l IH]; [done|]. cbn. by rewrite IH. }
  rewrite Hsl. destruct (e_code e); cbn; by rewrite app_nil_r.
Qed.

(** A path database's flat state is the snapshot of the state, the codes apart. *)
Lemma flat_state_split es kv :
  kv ∈ flat_state PathScheme es ↔ kv ∈ flat_accounts es ∨ kv ∈ flat_slots es ∨ kv ∈ code_entries es.
Proof.
  unfold flat_state, flat_accounts, flat_slots, code_entries. rewrite !list_elem_of_bind.
  change (map (λ e, (prefixedKey SnapshotAccountPrefix (hash_bytes (e_hash e)), e_slim e)) es) with
    ((λ e, (prefixedKey SnapshotAccountPrefix (hash_bytes (e_hash e)), e_slim e)) <$> es). rewrite list_elem_of_fmap.
  unfold entry_flat. rewrite bool_decide_eq_false_2 //. setoid_rewrite elem_of_app. setoid_rewrite elem_of_cons.
  unfold keyBytes, prefixedKey. setoid_rewrite app_nil_r. split.
  - intros (e & [[?|?]|Hc] & ?); [eauto..|]. right; right. exists e. split; [|done]. destruct (e_code e); [by rewrite app_nil_r in Hc|done].
  - intros [(e & ? & ?)|[(e & ? & ?)|(e & Hc & ?)]]; [eauto..|]. exists e. split; [|done]. right. destruct (e_code e); [by rewrite app_nil_r|done].
Qed.

(** *** The inventory *)

Context (db_size : N.of_nat (size db) < two64).

Lemma all_entries_length : (length all_entries ≤ size db)%nat.
Proof.
  rewrite -(length_fmap fst). apply keys_bounded; [apply all_entries_NoDup|].
  intros k ([k' v] & -> & Hin)%list_elem_of_fmap. apply all_entries_elem in Hin. by eexists.
Qed.

(** What is expected beside the state. *)
Definition expected_metadata (source : SourceEvidence) (extraMetadata : list headMetadataEntries) : result headMetadataEntries :=
  headMetadata ← expectedHeadMetadata source;
  mergeExpectedMetadata headMetadata extraMetadata.

Lemma verifyDatabaseInventory_ok source counts inv extra v w u v' w' :
  verifyDatabaseInventory db scheme source counts inv extra v w = (Ok u, v', w') →
  ∃ md, expected_metadata source extra = Ok md ∧
    N.of_nat (length (kind_entries scheme md inventoryTrieNode all_entries)) = si_TrieNodes inv ∧
    N.of_nat (length (kind_entries scheme md inventoryCode all_entries)) = si_CodeEntries inv ∧
    (∀ k x, md !! k = Some x → db !! k = Some x) ∧
    Forall (λ kv, md !! kv.1 = Some kv.2 ∨ ∃ kind, of_kind scheme md kind kv) all_entries.
Proof.
  unfold verifyDatabaseInventory. intros Hr. minv. fold all_entries in *.
  repeat match goal with p : (_ * _)%type |- _ => destruct p end. minv.
  match goal with Hx : inspect_entries _ _ ?m _ _ _ = _ |- _ => rename m into md; apply inspect_entries_ok in Hx as (Hc & Hm & Hf) end.
  2: apply all_entries_NoDup.
  2: intros kind; pose proof all_entries_length; destruct kind; cbn; lia.
  exists md. split; [unfold expected_metadata; match goal with Hx : expectedHeadMetadata _ = _ |- _ => by rewrite Hx end|].
  repeat match goal with Hx : negb (_ =? _) = false |- _ => apply negb_false_iff, N.eqb_eq in Hx; rewrite -Hx; clear Hx end.
  change (in_trieNodes ?c) with (seen_count inventoryTrieNode c). change (in_codeEntries ?c) with (seen_count inventoryCode c).
  split; [by rewrite (Hc inventoryTrieNode)|]. split; [by rewrite (Hc inventoryCode)|]. split; [|done].
  intros k y Hy. destruct (Hm _ _ Hy) as [Hg|Hin]; [|by apply all_entries_elem].
  match goal with Hx : negb (size _ =? 0)%nat = false |- _ => apply negb_false_iff, Nat.eqb_eq, map_size_empty_iff in Hx; subst end.
  by rewrite lookup_empty in Hg.
Qed.

Lemma check_all_metadata_ok l kv : check_all_metadata db l = Ok () → kv ∈ l → db !! kv.1 = Some kv.2.
Proof.
  induction l as [|kv' l IH]; cbn [check_all_metadata]; intros Hr Hin; [by apply elem_of_nil in Hin|]. minv.
  apply elem_of_cons in Hin as [->|Hin]; [|by apply IH].
  match goal with Hx : check_metadata _ _ = _ |- _ => unfold check_metadata in Hx; rename Hx into Hc end.
  destruct (db !! kv'.1) as [x|]; [|done]. minv.
  match goal with Hx : negb _ = false |- _ => apply negb_false_iff, bool_decide_eq_true in Hx; by subst end.
Qed.

(** The metadata of the path scheme covers the keys the inventory lets pass. *)
Lemma path_metadata_ok root :
  verify_path_state db root = Ok () →
  ∃ meta, pathMetadata root = Ok meta ∧ (∀ k v, (k, v) ∈ meta → db !! k = Some v) ∧
    ∀ k v, db !! k = Some v → allowedPathMetadataKey k = true → (k, v) ∈ meta.
Proof.
  unfold verify_path_state, verifyPathMetadata. intros Hr. minv.
  match goal with Hx : pathMetadata _ = Ok ?m |- _ => rename m into meta; rename Hx into Hm end. exists meta. split; [done|].
  assert (Hin : ∀ k v, (k, v) ∈ meta → db !! k = Some v) by (intros k v Hkv; by apply (check_all_metadata_ok meta (k, v))).
  split; [done|]. intros k v Hk Ha. assert (∃ v', (k, v') ∈ meta) as [v' Hv'].
  { unfold pathMetadata in Hm. minv. unfold allowedPathMetadataKey in Ha. cbn [existsb] in Ha. rewrite !orb_true_iff in Ha.
    unfold bytes_equal in Ha. rewrite !bool_decide_eq_true in Ha.
    destruct Ha as [->|[->|[->|[->|?]]]]; [eexists; left|eexists; right; left|eexists; do 2 right; left|eexists; do 3 right; left|done]. }
  pose proof (Hin _ _ Hv') as Hx. congruence.
Qed.

(** *** Every entry is accounted for *)

(** The path scheme's own metadata. *)
Definition path_meta_entry (root : Hash) (k v : bytes) : Prop :=
  scheme = PathScheme ∧ ∃ meta, pathMetadata root = Ok meta ∧ (k, v) ∈ meta.

(** A trie node reached from the root; in the hash scheme its key is the hash
    of its value. *)
Definition node_entry (root : Hash) (k v : bytes) : Prop :=
  (∃ n, n ∈ hashed_nodes root ∧ k = node_key scheme n) ∧ (scheme = HashScheme → k = hash_bytes (keccak256 v)).

(** The results of the parts. *)
Record inventory_facts (root : Hash) (es : list entry) (ks : list bytes) (md : headMetadataEntries) : Prop := {
  if_leaves : account_iterator root = Ok (account_leaves es, None);
  if_source : Forall (entry_source root (target_readCode db)) es;
  if_wf : state_wf es root;
  if_values : values_nonempty es;
  if_keys : node_keys_of scheme root ks;
  if_nostate : no_state md;
  if_nodes : length (kind_entries scheme md inventoryTrieNode all_entries) = length ks;
  if_codes : length (kind_entries scheme md inventoryCode all_entries) = length (code_entries es);
  if_md : ∀ k x, md !! k = Some x → db !! k = Some x;
  if_all : Forall (λ kv, md !! kv.1 = Some kv.2 ∨ ∃ kind, of_kind scheme md kind kv) all_entries;
  if_meta : scheme = PathScheme → verify_path_state db root = Ok ();
  if_flat : scheme = PathScheme → newFlatStateVerifier db = MkFlat (flat_accounts es) (flat_slots es)
}.

Lemma flat_stored root es ks md kv : inventory_facts root es ks md → kv ∈ flat_state scheme es → db !! kv.1 = Some kv.2.
Proof.
  intros F Hin. destruct kv as [k v]. assert (Hc : (k, v) ∈ code_entries es → db !! k = Some v).
  { intros Hc. by apply (code_entries_stored _ _ _ _ (if_source _ _ _ _ F)) in Hc as (? & _). }
  destruct scheme_ok as [Hs|Hs].
  - apply Hc. rewrite Hs in Hin. apply list_elem_of_bind in Hin as (e & Hin & He). apply list_elem_of_bind. exists e. split; [|done].
    unfold entry_flat in Hin. by rewrite bool_decide_eq_true_2 in Hin.
  - pose proof (if_flat _ _ _ _ F Hs) as Hf. unfold newFlatStateVerifier in Hf. injection Hf as Ha Hl. rewrite Hs in Hin.
    apply flat_state_split in Hin as [Hin|[Hin|Hin]]; [| |by apply Hc].
    + rewrite -Ha in Hin. by apply db_iterate_elem in Hin as (? & _).
    + rewrite -Hl in Hin. by apply db_iterate_elem in Hin as (? & _).
Qed.

Lemma node_found root es ks md k v :
  inventory_facts root es ks md → db !! k = Some v → of_kind scheme md inventoryTrieNode (k, v) → node_entry root k v.
Proof.
  intros F Hk Hkind. destruct (if_keys _ _ _ _ F) as [Hn Hks]. split.
  - apply Hks. eapply (kind_exact md inventoryTrieNode ks); [apply F|apply F|done| | |apply F|done|done].
    + intros k' (n & Hin & ->)%Hks. split; [apply node_state_key|]. by apply (hashed_nodes_stored root (target_readCode db) db scheme es); [apply F|apply F|].
    + intros k' v' knd (n & Hin & ->)%Hks _ Hcl. by eapply (classify_node root es (target_readCode db)); [apply F|apply F| |].
  - intros Hs. destruct Hkind as [_ Hcl]. unfold classifyArtifactEntry in Hcl. cbn [fst snd] in Hcl. rewrite bool_decide_eq_true_2 // in Hcl.
    destruct (IsLegacyTrieNode k v) eqn:El; [by apply legacy_trie_node in El as [_ ?]|]. by destruct (isNonEmptyCodeEntry k v).
Qed.

Lemma code_found root es ks md k v :
  inventory_facts root es ks md → db !! k = Some v → of_kind scheme md inventoryCode (k, v) → (k, v) ∈ flat_state scheme es.
Proof.
  intros F Hk Hkind. pose proof (code_entries_stored root es) as Hst.
  assert (Hin : k ∈ (code_entries es).*1).
  { eapply (kind_exact md inventoryCode (code_entries es).*1); [apply F|apply F| | | | |done|done].
    - eapply code_entries_NoDup, F.
    - intros k' ([k1 c] & -> & Hin)%list_elem_of_fmap. apply Hst in Hin as (Hc & _ & h & ->); [|apply F]. split; [|by eexists].
      apply state_key_prefix. left.
    - intros k' v' knd ([k1 c] & -> & Hin)%list_elem_of_fmap Hv' Hcl. apply Hst in Hin as (Hc & Hne & h & ->); [|apply F].
      cbn [fst] in *. rewrite Hc in Hv'. injection Hv' as <-. by eapply classify_code.
    - rewrite length_fmap. apply F. }
  apply list_elem_of_fmap in Hin as ([k1 c] & -> & Hin). cbn [fst] in *. pose proof Hin as (Hc & _)%Hst; [|apply F].
  rewrite Hc in Hk. injection Hk as <-. by apply code_entries_flat.
Qed.

(** The kinds that only the path scheme has. *)
Lemma classify_path k v kind :
  classifyArtifactEntry scheme k v = Ok kind → kind ≠ inventoryTrieNode → kind ≠ inventoryCode →
  scheme = PathScheme ∧
  match kind with
  | inventoryMetadata => allowedPathMetadataKey k = true
  | inventoryFlatAccount => has_prefix k SnapshotAccountPrefix = true
  | _ => has_prefix k SnapshotStoragePrefix = true
  end.
Proof.
  intros Hc Hn Hm. unfold classifyArtifactEntry in Hc. destruct scheme_ok as [Hs|Hs]; rewrite Hs in Hc.
  - rewrite bool_decide_eq_true_2 // in Hc. destruct (IsLegacyTrieNode k v), (isNonEmptyCodeEntry k v); by simplify_eq.
  - rewrite bool_decide_eq_false_2 // in Hc. split; [done|].
    repeat match type of Hc with (if ?b then _ else _) = _ => destruct b eqn:? end; simplify_eq; try done;
      match goal with Hx : _ && _ = true |- _ => by apply andb_true_iff in Hx as [? _] end.
Qed.

Lemma entry_accounted root es ks md k v :
  inventory_facts root es ks md → db !! k = Some v →
  md !! k = Some v ∨ path_meta_entry root k v ∨ (k, v) ∈ flat_state scheme es ∨ node_entry root k v.
Proof.
  intros F Hk. assert (Hin : (k, v) ∈ all_entries) by (by apply all_entries_elem).
  destruct (proj1 (Forall_forall _ _) (if_all _ _ _ _ F) _ Hin) as [?|[kind Hkind]]; [by left|right].
  destruct (decide (kind = inventoryTrieNode)) as [->|Hn]; [right; right; by eapply node_found|].
  destruct (decide (kind = inventoryCode)) as [->|Hc]; [right; left; by eapply code_found|].
  destruct Hkind as [_ Hcl]. apply classify_path in Hcl as [Hs Hp]; [|done..]. cbn [fst snd] in Hp.
  pose proof (if_flat _ _ _ _ F Hs) as Hf. unfold newFlatStateVerifier in Hf. injection Hf as Ha Hl.
  assert (Hflat : ∀ p, has_prefix k p = true → (k, v) ∈ db_iterate db p []).
  { intros p Hpk. apply db_iterate_elem. split_and!; [done|done|]. apply has_prefix_spec in Hpk as [rest ->]. rewrite app_nil_r. unfold bytes_le.
    clear. induction p as [|b p IH]; [by destruct rest|]. cbn [app]. rewrite bytes_lt_cons. intros [?|[_ ?]]; [lia|done]. }
  rewrite Hs. destruct kind; try done.
  - left. split; [done|]. destruct (path_metadata_ok _ (if_meta _ _ _ _ F Hs)) as (meta & Hm & _ & Hall). exists meta. split; [done|]. by apply Hall.
  - right; left. apply flat_state_split. left. rewrite -Ha. by apply Hflat.
  - right; left. apply flat_state_split. right; left. rewrite -Hl. by apply Hflat.
Qed.

(** The database is exactly what its parts require. *)
Lemma database_exact root es ks md :
  inventory_facts root es ks md → ∀ k v,
  db !! k = Some v ↔ md !! k = Some v ∨ path_meta_entry root k v ∨ (k, v) ∈ flat_state scheme es ∨ (db !! k = Some v ∧ node_entry root k v).
Proof.
  intros F k v. split.
  - intros Hk. destruct (entry_accounted _ _ _ _ _ _ F Hk) as [?|[?|[?|?]]]; auto.
  - intros [Hm|[(Hs & meta & Hm & Hin)|[Hin|[? _]]]]; [by apply F| | |done].
    + destruct (path_metadata_ok _ (if_meta _ _ _ _ F Hs)) as (meta' & Hm' & Hall & _). rewrite Hm in Hm'. injection Hm' as <-. by apply Hall.
    + by apply (flat_stored _ _ _ _ _ F) in Hin.
Qed.

End Exact.

(** ** The theorem *)

Section VerifyTheorem.
Context `{Keccak, EmptyHashes, AccountRLP, !AccountRLPLaws, RLPSplit, StackTrie, TrieReader, NodeReader, HeaderRLP}.
Context `{RawdbKeys, !RawdbKeysLaws, BatchSize, SlimRLP, !SlimRLPLaws, HeadDB, !HeadDBLaws, PathDB, ArtifactKeys, !ArtifactKeysLaws}.
Context (trie_root : list (bytes * bytes) → Hash) `{!StackTrieLaws trie_root}.
Context (batchLen : list Hash → N) (db : store).

Lemma verify_target_body_facts scheme source expected extra v w res v' w' `{!NodeReaderLaws db scheme} :
  (∀ l, batchLen l = 0 → l = []) → N.of_nat (size db) < two64 → Forall no_state extra →
  scheme = HashScheme ∨ scheme = PathScheme →
  verify_target_body batchLen db scheme source expected extra v w = (Ok res, v', w') →
  ∃ es ks md, inventory_facts db scheme (st_Root expected) es ks md ∧ expected_metadata source extra = Ok md ∧
    res = MkStateResult (st_Root expected) (state_counts es) ∧ st_Counts expected = state_counts es.
Proof.
  intros Hbl Hsize Hex Hs Hr. unfold verify_target_body in Hr. minv.
  repeat match goal with p : (_ * _)%type |- _ => destruct p end. minv.
  match goal with Hx : traverseState _ _ _ _ _ _ = _ |- _ =>
    apply (traverseState_ok trie_root batchLen Hbl db Hsize _ _ _ _ _ _ _ _ Hs) in Hx as (es & ks & Ht & Hks & Hinv); [|done] end.
  match goal with Hx : verifyDatabaseInventory _ _ _ _ _ _ _ _ = _ |- _ =>
    apply verifyDatabaseInventory_ok in Hx as (md & Hmd & Hn & Hc & Hall & Hf); [|done] end.
  destruct Ht as (Hi & Hso & Hw & Hv & -> & Hst). subst. cbn [si_TrieNodes si_CodeEntries] in *.
  match goal with Hx : negb (bool_decide _) = false |- _ => apply negb_false_iff, bool_decide_eq_true in Hx; cbn [st_Counts] in Hx; rename Hx into Hcnt end.
  exists es, ks, md. split; [|done]. split; try done.
  - unfold expected_metadata in Hmd. minv. eapply merge_no_state; [|exact Hex|done]. by eapply expected_no_state.
  - lia.
  - assert (Hl : (length (code_entries es).*1 ≤ size db)%nat).
    { apply keys_bounded; [by eapply code_entries_NoDup, Hw|]. intros k ([k' c] & -> & Hin)%list_elem_of_fmap.
      apply (code_entries_stored db (st_Root expected)) in Hin as (? & _); [by eexists|done]. }
    rewrite length_fmap in Hl. rewrite CodeRecords_state_counts N.mod_small in Hc; lia.
  - intros ->. match goal with Hx : (if bool_decide (PathScheme = PathScheme) then lift _ else _) _ _ = _ |- _ => rewrite bool_decide_eq_true_2 // in Hx; by minv end.
  - intros ->. match goal with Hx : (if bool_decide (PathScheme = PathScheme) then wrap _ _ else _) _ _ = _ |- _ => rewrite bool_decide_eq_true_2 // in Hx; rename Hx into Hfin end.
    unfold on_flat in Hfin. minv. apply fv_Finish_ok in Hfin. specialize (Hst eq_refl). apply flat_steps in Hst as [Ha Hsl].
    cbn [vf_flat] in Ha, Hsl. rewrite Hfin !(state_visits_bind trie_root _ es (st_Root expected)) // ?visits_slots in Ha, Hsl.
    erewrite visits_accounts in Ha; [|apply Hw]. cbn [fv_accounts fv_storage] in Ha, Hsl. rewrite !app_nil_r in Ha, Hsl.
    unfold newFlatStateVerifier in *. cbn in Ha, Hsl. by rewrite Ha Hsl.
Qed.

(** The same for an accepted database. *)
Lemma verifyOpenedTarget_facts scheme source expected extra v w res v' w' `{!NodeReaderLaws db scheme} :
  (∀ l, batchLen l = 0 → l = []) → N.of_nat (size db) < two64 → Forall no_state extra →
  verifyOpenedTarget batchLen db scheme source expected extra v w = (Ok res, v', w') →
  (scheme = HashScheme ∨ scheme = PathScheme) ∧
  ∃ es ks md, inventory_facts db scheme (st_Root expected) es ks md ∧ expected_metadata source extra = Ok md ∧
    res = MkStateResult (st_Root expected) (state_counts es) ∧ st_Counts expected = state_counts es.
Proof.
  intros Hbl Hsize Hex Hr. unfold verifyOpenedTarget in Hr. mcases.
  match goal with Hx : negb (_ || _) = false |- _ => apply negb_false_iff, orb_true_iff in Hx; rewrite !bool_decide_eq_true in Hx; rename Hx into Hs end.
  split; [done|]. by eapply verify_target_body_facts.
Qed.

(** C2: A database that verification accepts is exact. If
    [verifyOpenedTarget] succeeds for the expected root and counts, then there
    is a well-formed state with this root and these counts, and a key is in the
    database, with its value, if and only if it is head or extra metadata, in
    the path scheme snapshot metadata, one of the state's flat entries or codes,
    or a trie node reached from the root (in the hash scheme under the hash of
    its value). Nothing is missing and nothing is left over, whatever the
    environment did during verification. *)
Theorem verified_database_exact scheme source expected extra v w res v' w' `{!NodeReaderLaws db scheme} :
  (∀ l, batchLen l = 0 → l = []) → N.of_nat (size db) < two64 → Forall no_state extra →
  verifyOpenedTarget batchLen db scheme source expected extra v w = (Ok res, v', w') →
  ∃ es md, state_wf es (st_Root expected) ∧ res = MkStateResult (st_Root expected) (state_counts es) ∧
    st_Counts expected = state_counts es ∧ expected_metadata source extra = Ok md ∧
    ∀ k v, db !! k = Some v ↔
      md !! k = Some v ∨ path_meta_entry scheme (st_Root expected) k v ∨ (k, v) ∈ flat_state scheme es ∨
      (db !! k = Some v ∧ node_entry scheme (st_Root expected) k v).
Proof.
  intros Hbl Hsize Hex Hr. apply verifyOpenedTarget_facts in Hr as (Hs & es & ks & md & F & Hmd & Hres & Hcnt); [|done..].
  exists es, md. split_and!; try done; [apply F|]. by apply (database_exact trie_root db scheme Hs _ _ _ _ F).
Qed.

End VerifyTheorem.

(** ** A verified import

    The sample chain of [Export.v], imported into a path database. *)
Module SampleArtifact.
Import Sample SampleChain SampleTarget ExportWitnesses.

Definition key_of (name : string) : bytes := bytes_of_string name.

#[export] Instance toy_head : HeadDB := {|
  ReadHeaderRLP db h _ := default [] (db !! (key_of "h" ++ hash_bytes h));
  ReadHeaderNumber db h := get_uint64 <$> db !! (key_of "H" ++ hash_bytes h);
  ReadCanonicalHash db n := vec_of_bytes 32 (default [] (db !! (key_of "n" ++ put_uint64 n)));
  ReadHeadBlockHash db := vec_of_bytes 32 (default [] (db !! key_of "LastBlock"));
  ReadHeadHeaderHash db := vec_of_bytes 32 (default [] (db !! key_of "LastHeader"));
  WriteHeader d := [(key_of "h" ++ hash_bytes (sha256 d), d); (key_of "H" ++ hash_bytes (sha256 d), take 8 d)];
  WriteCanonicalHash h n := [(key_of "n" ++ put_uint64 n, hash_bytes h)];
  WriteHeadBlockHash h := [(key_of "LastBlock", hash_bytes h)];
  WriteHeadHeaderHash h := [(key_of "LastHeader", hash_bytes h)]
|}.

#[export] Instance toy_path : PathDB := {|
  SnapshotCompleted db := bool_decide (db !! snapshotGeneratorKey = Some [x01]);
  ReadSnapshotRoot db := vec_of_bytes 32 (default [] (db !! SnapshotRootKey));
  ReadPersistentStateID db := get_uint64 (default [] (db !! lastStateIDKey));
  ReadSnapSyncStatusFlag db := default x00 (db !! snapSyncStatusKey ≫= hd_error);
  StateSyncFinished := x02;
  rlp_encode_marker m := Ok [if mk_Done m then x01 else x00]
|}.

#[export] Instance toy_artifact : ArtifactKeys := {|
  IsLegacyTrieNode k v := bool_decide (k = hash_bytes (sha256 v));
  IsCodeKey k := if has_prefix k CodePrefix && (length k =? 33)%nat then Some (drop 1 k) else None
|}.

#[export] Instance toy_artifact_laws : ArtifactKeysLaws.
Proof.
  split.
  - intros k v. cbn. rewrite bool_decide_eq_true. split; [|by intros [_ ?]]. intros ->. split; [apply length_hash_bytes|done].
  - intros k h. cbn [IsCodeKey toy_artifact]. destruct (has_prefix k CodePrefix) eqn:Ep; cbn [andb].
    + apply has_prefix_spec in Ep as [rest ->]. change (drop 1 (CodePrefix ++ rest)) with rest. rewrite length_app. change (length CodePrefix) with 1%nat.
      destruct (Nat.eqb_spec (1 + length rest) 33) as [Hl|Hl]; split.
      * intros [= ->]. split; [done|lia].
      * intros [Hx%app_inv_head _]. by subst.
      * done.
      * intros [Hx%app_inv_head Hh]. subst. lia.
    + split; [done|]. intros [-> _]. by rewrite (proj2 (has_prefix_spec (CodePrefix ++ h) CodePrefix) (ex_intro _ h eq_refl)) in Ep.
Qed.

#[export] Instance toy_head_laws : HeadDBLaws.
Proof.
  split. intros d h. assert (Hk : ∀ c (rest : bytes), length rest ≠ 31%nat → ¬ (c ∈ [x63; x61; x6f; x41; x4f]) → ¬ state_key (c :: rest)).
  { intros c rest Hl Hc [Hx|Hx]; [cbn in Hx; lia|]. apply Exists_exists in Hx as (p & Hp & Hx). apply Hc.
    repeat (apply elem_of_cons in Hp as [->|Hp]; [cbn in Hx; apply andb_true_iff in Hx as [Hx _]; apply bool_decide_eq_true in Hx; subst; set_solver|]). by apply elem_of_nil in Hp. }
  unfold writeHeadMetadataEntries. cbn. repeat constructor; cbn [fst]; apply Hk; rewrite ?length_hash_bytes ?length_put_uint64; try done;
    apply (bool_decide_eq_false_1 _); by vm_compute.
Qed.

(** The readers of the imported database. *)
Definition owner : Hash := hash_of "account-2".
#[export] Instance artifact_tries : TrieReader := {|
  account_iterator root := if bool_decide (root = state_root) then Ok (accounts, None) else Err (EMsg "missing trie node");
  storage_iterator _ o root := if bool_decide (o = owner ∧ root = toy_root slots) then Ok (slots, None) else Err (EMsg "missing trie node")
|}.
#[export] Instance artifact_nodes : NodeReader := {| account_nodes root := [([], root)]; storage_nodes _ _ root := [([], root)] |}.

Definition source : SourceEvidence := Source exported.1.
Definition imported_state : StateResult := MkStateResult state_root (mCounts exported.1).

(** What the import wrote, then the head and the snapshot's metadata. *)
Definition artifact : store :=
  foldl entries_Put (tg_db (CloseContext imported.1.2 calm).1.2)
    (match pathMetadata state_root with Ok meta => meta | Err _ => [] end ++
     writeHeadMetadataEntries (HeaderRLP_ source) (HeadBefore source)).

Definition mark_bytes (l : list Hash) : N := 12 + 33 * N.of_nat (length l).
Definition fresh : verifier := MkVerifier (MkFlat [] []) newTemporaryTrieNodeIndex 0.
Definition verification := verifyOpenedTarget mark_bytes artifact PathScheme source imported_state [] fresh calm.

Lemma verification_run : verification = (Ok imported_state, verification.1.2, verification.2).
Proof.
  assert (Hr : verification.1.1 = Ok imported_state) by (by vm_compute).
  rewrite <- Hr. by destruct verification as [[r v] w].
Qed.

Lemma artifact_size : N.of_nat (size artifact) < two64.
Proof. by vm_compute. Qed.

Lemma artifact_roots : is_Some (artifact !! node_key PathScheme (zero_hash, ([], state_root))) ∧
  is_Some (artifact !! node_key PathScheme (owner, ([], toy_root slots))) ∧ Forall (λ kv, kv.1 ≠ hash_bytes zero_hash) accounts.
Proof. split_and!; [apply (bool_decide_eq_true_1 _); by vm_compute..|]. apply (bool_decide_eq_true_1 _). by vm_compute. Qed.

#[export] Instance artifact_reader_laws : NodeReaderLaws artifact PathScheme.
Proof.
  destruct artifact_roots as (Ha & Hs & Hz). split; cbn [account_nodes storage_nodes account_iterator storage_iterator artifact_tries artifact_nodes].
  - intros root. split; [apply NoDup_singleton|]. by constructor.
  - intros root o r. split; [apply NoDup_singleton|]. by constructor.
  - intros root leaves. case_bool_decide as Hr; [|done]. subst root. intros [= <-]. split; [|exact Hz]. by constructor.
  - intros root o r leaves. case_bool_decide as Hr; [|done]. destruct Hr as [-> ->]. intros [= <-]. by constructor.
Qed.

End SampleArtifact.

Module VerifyWitnesses.
Import Sample SampleChain SampleTarget ExportWitnesses SampleArtifact.

#[local] Strategy 100 [verification artifact verifyOpenedTarget].

Lemma verified_database_exact_witness :
  ∃ es md, state_wf es state_root ∧ state_counts es = mCounts exported.1 ∧ expected_metadata source [] = Ok md ∧
    ∀ k v, artifact !! k = Some v ↔
      md !! k = Some v ∨ path_meta_entry PathScheme state_root k v ∨ (k, v) ∈ flat_state PathScheme es ∨
      (artifact !! k = Some v ∧ node_entry PathScheme state_root k v).
Proof.
  destruct (verified_database_exact toy_root mark_bytes artifact PathScheme source imported_state [] fresh calm
    imported_state verification.1.2 verification.2) as (es & md & Hw & _ & Hc & Hm & Hk).
  - intros l. unfold mark_bytes. lia.
  - exact artifact_size.
  - constructor.
  - exact verification_run.
  - exists es, md. split; [exact Hw|]. split; [symmetry; exact Hc|]. split; [exact Hm|exact Hk].
Defined.

End VerifyWitnesses.
