(* ===== verification/Report.v ===== *)
(** * Reports and publication ([report.go], [direct_report.go], [target.go], [tempdb.go], [artifact_layout.go], [publish_artifact.go])

    The verification reports of an imported and of a directly migrated artifact
    with their validation, the choice of
    engine, layout and scheme it is valid for, the strict reading of an
    artifact's report, and the order in which an artifact is published: the
    report is written, read back and compared before the output directory is
    committed. The JSON encoding of a report is a parameter; so is [view],
    which lists a directory of the file system for the strict reader. *)

From S2P Require Import Prelude Sha256 Geth Instances Manifest StrictIO Records Scanner Bundle Account StateTrie Consumer Stream Traverse AtomicDir Export DirectWriter OvmIndex Verify.

(** ** Modes of temporary databases ([tempdb.go]) *)

Definition TempDBDisk : string := "disk".
Definition TempDBMemory : string := "memory".

Definition TempDBMode_normalized (m : string) : string := if bool_decide (m = ""%string) then TempDBDisk else m.
Definition TempDBMode_validate (m : string) : result unit :=
  reject_if (negb (bool_decide (TempDBMode_normalized m = TempDBDisk)) && negb (bool_decide (m = TempDBMemory)))
    "temp-db must be disk or memory".

(** ** Targets ([target.go]) *)

Definition DBEnginePebble : string := "pebble".
Definition DBEngineLevelDB : string := "leveldb".
Definition LayoutGeth : string := "geth".

Record targetConfig := MkTargetConfig { tc_engine : string; tc_layout : string }.
#[export] Instance targetConfig_eq_dec : EqDecision targetConfig.
Proof. solve_decision. Defined.

Definition known_engine (engine : string) : bool :=
  bool_decide (engine = DBEnginePebble) || bool_decide (engine = DBEngineLevelDB).
Definition known_scheme (scheme : string) : bool :=
  bool_decide (scheme = HashScheme) || bool_decide (scheme = PathScheme).

(** An absent layout is the one all reports had before the field existed. *)
Definition reportTarget (engine layout scheme : string) : result targetConfig :=
  let layout := if bool_decide (layout = ""%string) then LayoutGeth else layout in
  _ ← reject_if (negb (known_engine engine)) "invalid database engine";
  _ ← reject_if (negb (bool_decide (layout = LayoutGeth))) "invalid state layout";
  _ ← reject_if (negb (known_scheme scheme)) "invalid state scheme";
  Ok (MkTargetConfig engine layout).

Definition targetOptions (engine scheme : string) : result targetConfig :=
  let engine := if bool_decide (engine = ""%string) then DBEnginePebble else engine in
  _ ← reject_if (negb (known_engine engine)) "db-engine must be pebble or leveldb";
  reportTarget engine LayoutGeth scheme.

(** ** The report ([report.go]) *)

Definition VerificationFormat : string := "metis-l2state-verification".
Definition VerificationVersion : N := 1.
Definition VerificationFileName : string := "verification.json".
Definition BundleScheme : string := "bundle".

Record VerificationReport := MkReport {
  rp_Format : string;
  rp_Version : N;
  rp_VerifiedAt : N;
  rp_Verified : bool;
  rp_Scheme : string;
  rp_DBEngine : string;
  rp_StateLayout : string;
  rp_ToolVersion : string;
  rp_GethVersion : string;
  rp_ManifestSHA256 : Hash;
  rp_StateFileSHA256 : Hash;
  rp_RecordChainHash : Hash;
  rp_Head : Head;
  rp_Counts : Counts;
  rp_RecomputedRoot : Hash
}.
#[export] Instance VerificationReport_eq_dec : EqDecision VerificationReport.
Proof. solve_decision. Defined.

(** [now], [tool] and [geth] are the clock and the build's version strings. *)
Definition newVerificationReport (now : N) (tool geth : string) (bundleResult : BundleResult) (scheme : string) : VerificationReport :=
  let stored := known_scheme scheme in
  {| rp_Format := VerificationFormat;
     rp_Version := VerificationVersion;
     rp_VerifiedAt := now;
     rp_Verified := true;
     rp_Scheme := scheme;
     rp_DBEngine := if stored then DBEnginePebble else "";
     rp_StateLayout := if stored then LayoutGeth else "";
     rp_ToolVersion := tool;
     rp_GethVersion := geth;
     rp_ManifestSHA256 := br_ManifestSHA256 bundleResult;
     rp_StateFileSHA256 := scan_FileSHA256 (br_Records bundleResult);
     rp_RecordChainHash := scan_RecordChainHash (br_Records bundleResult);
     rp_Head := HeadBefore (Source (br_Manifest bundleResult));
     rp_Counts := st_Counts (br_State bundleResult);
     rp_RecomputedRoot := st_Root (br_State bundleResult) |}.

(** [report.DBEngine, report.StateLayout = target.engine, target.layout]. *)
Definition with_target (t : targetConfig) (r : VerificationReport) : VerificationReport :=
  {| rp_Format := rp_Format r; rp_Version := rp_Version r; rp_VerifiedAt := rp_VerifiedAt r; rp_Verified := rp_Verified r;
     rp_Scheme := rp_Scheme r; rp_DBEngine := tc_engine t; rp_StateLayout := tc_layout t; rp_ToolVersion := rp_ToolVersion r;
     rp_GethVersion := rp_GethVersion r; rp_ManifestSHA256 := rp_ManifestSHA256 r; rp_StateFileSHA256 := rp_StateFileSHA256 r;
     rp_RecordChainHash := rp_RecordChainHash r; rp_Head := rp_Head r; rp_Counts := rp_Counts r; rp_RecomputedRoot := rp_RecomputedRoot r |}.

Definition Report_Validate (r : VerificationReport) : result unit :=
  _ ← reject_if (negb (bool_decide (rp_Format r = VerificationFormat)) || negb (rp_Version r =? VerificationVersion))
        "unsupported verification report";
  _ ← reject_if (negb (rp_Verified r)) "verification report is not marked verified";
  _ ← reject_if (rp_VerifiedAt r =? 0) "verification report timestamp is empty";
  _ ← reject_if (negb (bool_decide (rp_Scheme r = BundleScheme)) && negb (known_scheme (rp_Scheme r))) "invalid verification scheme";
  _ ← (if bool_decide (rp_Scheme r = BundleScheme) then
         _ ← reject_if (negb (bool_decide (rp_StateLayout r = ""%string))) "bundle verification report has state layout";
         reject_if (negb (bool_decide (rp_DBEngine r = ""%string))) "bundle verification report has database engine"
       else _ ← reportTarget (rp_DBEngine r) (rp_StateLayout r) (rp_Scheme r); Ok ());
  _ ← reject_if (bool_decide (rp_ToolVersion r = ""%string)) "verification report tool_version is empty";
  _ ← reject_if (bool_decide (rp_ManifestSHA256 r = zero_hash) || bool_decide (rp_StateFileSHA256 r = zero_hash) ||
                 bool_decide (rp_RecordChainHash r = zero_hash)) "verification report digest is empty";
  _ ← reject_if (bool_decide (BlockHash (rp_Head r) = zero_hash) || bool_decide (StateRoot (rp_Head r) = zero_hash))
        "verification report head hash or state root is empty";
  _ ← wrap_err "validate verification report counts" (Counts_Validate (rp_Counts r));
  _ ← reject_if (bool_decide (rp_RecomputedRoot r = zero_hash)) "verification report recomputed root is empty";
  reject_if (negb (bool_decide (rp_RecomputedRoot r = StateRoot (rp_Head r)))) "verification report root does not match head state root".

(** The stored report names the bundle that has just been scanned
    ([verify.go]). *)
Definition compareStoredReport (stored : VerificationReport) (current : BundleResult) : result unit :=
  _ ← reject_if (negb (bool_decide (rp_ManifestSHA256 stored = br_ManifestSHA256 current))) "artifact report refers to a different manifest";
  _ ← reject_if (negb (bool_decide (rp_StateFileSHA256 stored = scan_FileSHA256 (br_Records current))) ||
                 negb (bool_decide (rp_RecordChainHash stored = scan_RecordChainHash (br_Records current))))
        "artifact report refers to different state records";
  reject_if (negb (bool_decide (rp_Head stored = HeadBefore (Source (br_Manifest current)))) ||
             negb (bool_decide (rp_Counts stored = st_Counts (br_State current))) ||
             negb (bool_decide (rp_RecomputedRoot stored = st_Root (br_State current))))
    "artifact report evidence does not match the bundle".

(** ** The report of a direct migration ([direct_report.go]) *)

Definition DirectVerificationFormat : string := "metis-l2state-direct-verification".
Definition DirectVerificationVersion : N := 1.

Record DirectVerificationReport := MkDirectReport {
  dr_Format : string;
  dr_Version : N;
  dr_VerifiedAt : N;
  dr_Verified : bool;
  dr_Scheme : string;
  dr_DBEngine : string;
  dr_StateLayout : string;
  dr_ToolVersion : string;
  dr_GethVersion : string;
  dr_Source : SourceEvidence;
  dr_Counts : Counts;
  dr_RecomputedRoot : Hash
}.
#[export] Instance DirectVerificationReport_eq_dec : EqDecision DirectVerificationReport.
Proof. solve_decision. Defined.

Definition newDirectVerificationReport (now : N) (tool geth : string) (source : SourceEvidence) (state : StateResult) (scheme : string)
    : DirectVerificationReport :=
  {| dr_Format := DirectVerificationFormat;
     dr_Version := DirectVerificationVersion;
     dr_VerifiedAt := now;
     dr_Verified := true;
     dr_Scheme := scheme;
     dr_DBEngine := DBEnginePebble;
     dr_StateLayout := LayoutGeth;
     dr_ToolVersion := tool;
     dr_GethVersion := geth;
     dr_Source := source;
     dr_Counts := st_Counts state;
     dr_RecomputedRoot := st_Root state |}.

Definition with_direct_target (t : targetConfig) (r : DirectVerificationReport) : DirectVerificationReport :=
  {| dr_Format := dr_Format r; dr_Version := dr_Version r; dr_VerifiedAt := dr_VerifiedAt r; dr_Verified := dr_Verified r;
     dr_Scheme := dr_Scheme r; dr_DBEngine := tc_engine t; dr_StateLayout := tc_layout t; dr_ToolVersion := dr_ToolVersion r;
     dr_GethVersion := dr_GethVersion r; dr_Source := dr_Source r; dr_Counts := dr_Counts r; dr_RecomputedRoot := dr_RecomputedRoot r |}.

Definition DirectReport_Validate `{Keccak, HeaderRLP} (r : DirectVerificationReport) : result unit :=
  _ ← reject_if (negb (bool_decide (dr_Format r = DirectVerificationFormat)) || negb (dr_Version r =? DirectVerificationVersion))
        "unsupported direct verification report";
  _ ← reject_if (negb (dr_Verified r)) "direct verification report is not marked verified";
  _ ← reject_if (dr_VerifiedAt r =? 0) "direct verification report timestamp is empty";
  _ ← reject_if (negb (known_scheme (dr_Scheme r))) "invalid direct verification scheme";
  _ ← reportTarget (dr_DBEngine r) (dr_StateLayout r) (dr_Scheme r);
  _ ← reject_if (bool_decide (dr_ToolVersion r = ""%string)) "direct verification report tool_version is empty";
  _ ← wrap_err "validate direct source evidence" (SourceEvidence_Validate (dr_Source r));
  _ ← wrap_err "validate direct state counts" (Counts_Validate (dr_Counts r));
  _ ← reject_if (bool_decide (dr_RecomputedRoot r = zero_hash)) "direct verification report root is empty";
  reject_if (negb (bool_decide (dr_RecomputedRoot r = StateRoot (HeadBefore (dr_Source r)))))
    "direct verification report root does not match source head state root".

Definition sameDirectVerificationReport (left right : DirectVerificationReport) : bool :=
  bool_decide (dr_Format left = dr_Format right) && (dr_Version left =? dr_Version right) &&
  (dr_VerifiedAt left =? dr_VerifiedAt right) && Bool.eqb (dr_Verified left) (dr_Verified right) &&
  bool_decide (dr_Scheme left = dr_Scheme right) && bool_decide (dr_DBEngine left = dr_DBEngine right) &&
  bool_decide (dr_StateLayout left = dr_StateLayout right) && bool_decide (dr_ToolVersion left = dr_ToolVersion right) &&
  bool_decide (dr_GethVersion left = dr_GethVersion right) && sameSourceEvidence (dr_Source left) (dr_Source right) &&
  bool_decide (dr_Counts left = dr_Counts right) && bool_decide (dr_RecomputedRoot left = dr_RecomputedRoot right).

(** ** Reading an artifact's report ([artifact_layout.go]) *)

Definition artifactDatabaseDirName : string := "chaindata".

(** What strict reading observes of an artifact: its root before and after it
    is opened, its entries before and after the report is opened. *)
Record artifact_view := MkView {
  av_before : result file_info;
  av_opened : result file_info;
  av_dir : directory;
  av_dir' : directory
}.

Definition artifact_layout : gmap string EntryKind :=
  <[artifactDatabaseDirName := Directory]> {[VerificationFileName := RegularFile]}.

(** The deferred close of the root. *)
Definition with_root {St A} (v : artifact_view) (body : M St A) : M St A :=
  _ ← wrap "open artifact" (OpenRoot (av_before v) (av_opened v));
  r ← attempt body;
  c ← attempt io;
  match r, c with
  | Ok a, Ok _ => mret a
  | Ok _, Err e => fail e
  | Err e, Ok _ => fail e
  | Err e, Err e' => fail (EJoin e e')
  end.

Definition require_layout {St} (v : artifact_view) : M St unit :=
  lift (wrap_err "validate artifact layout" (RequireExactLayout (av_dir v) artifact_layout)).

Definition validateArtifactLayout {St} (v : artifact_view) : M St unit := with_root v (require_layout v).

(** [decode] is the strict JSON decoder. *)
Definition loadArtifactJSON {St T} (decode : bytes → result T) (label : string) (validate : T → result unit) (v : artifact_view) : M St T :=
  with_root v (
    _ ← require_layout v;
    data ← wrap label (ReadRegular (av_dir v) (av_dir' v) VerificationFileName MaxMetadataSize);
    report ← lift (decode data);
    _ ← lift (validate report);
    mret report).

Definition loadVerificationReport {St} (decode : bytes → result VerificationReport) (v : artifact_view) : M St VerificationReport :=
  loadArtifactJSON decode "verification report" Report_Validate v.

Definition loadDirectVerificationReport `{Keccak, HeaderRLP} {St} (decode : bytes → result DirectVerificationReport) (v : artifact_view)
    : M St DirectVerificationReport :=
  loadArtifactJSON decode "direct verification report" DirectReport_Validate v.

(** ** Writing a report *)

Section Writing.
Context (E : os_env).

Definition writeVerificationReport (encode : VerificationReport → bytes) (dir : path) (report : VerificationReport) : M fsys bytes :=
  _ ← lift (Report_Validate report);
  let data := encode report ++ [x0a] in
  let file := dir ++ [VerificationFileName] in
  _ ← wrap "write verification report" (_ ← io; modify (fs_put file (FFile (inode E file) data)));
  _ ← io;
  mret data.

Definition writeDirectVerificationReport `{Keccak, HeaderRLP} (encode : DirectVerificationReport → bytes) (dir : path)
    (report : DirectVerificationReport) : M fsys bytes :=
  _ ← lift (DirectReport_Validate report);
  let data := encode report ++ [x0a] in
  let file := dir ++ [VerificationFileName] in
  _ ← wrap "write direct verification report" (_ ← io; modify (fs_put file (FFile (inode E file) data)));
  _ ← io;
  mret data.

End Writing.

(** ** Publication ([publish_artifact.go]) *)

Record artifactReportCodec (St T : Type) := MkCodec {
  codec_label : string;
  codec_write : path → T → M St unit;
  codec_load : path → M St T;
  codec_equal : T → T → bool
}.
Arguments MkCodec {St T}.
Arguments codec_label {St T}.
Arguments codec_write {St T}.
Arguments codec_load {St T}.
Arguments codec_equal {St T}.

(** [publishArtifact] up to [output.Commit], which [publish_work] adds. *)
Definition publishArtifact {St T} (output : path) (report : T) (codec : artifactReportCodec St T) (beforeCommit : option (M St unit)) : M St unit :=
  _ ← poll;
  _ ← codec_write codec output report;
  stored ← wrap (codec_label codec) (codec_load codec output);
  _ ← lift (reject_if (negb (codec_equal codec stored report)) "re-opened report does not match generated report");
  _ ← poll;
  _ ← (match beforeCommit with Some f => f | None => mret () end);
  poll.

(** ** Lemmas *)

Lemma reportTarget_ok engine layout scheme t :
  reportTarget engine layout scheme = Ok t →
  t = MkTargetConfig engine LayoutGeth ∧ known_engine engine = true ∧ known_scheme scheme = true.
Proof.
  unfold reportTarget. intros Hr. minv.
  repeat match goal with Hx : negb _ = false |- _ => apply negb_false_iff in Hx end.
  match goal with Hx : bool_decide (_ = LayoutGeth) = true |- _ => apply bool_decide_eq_true in Hx; rewrite Hx end. done.
Qed.

Lemma targetOptions_ok engine scheme t :
  targetOptions engine scheme = Ok t → tc_layout t = LayoutGeth ∧ known_engine (tc_engine t) = true ∧ known_scheme scheme = true.
Proof. unfold targetOptions. intros Hr. minv. by apply reportTarget_ok in Hr as (-> & ? & ?). Qed.

Lemma known_scheme_spec scheme : known_scheme scheme = true ↔ scheme = HashScheme ∨ scheme = PathScheme.
Proof. unfold known_scheme. by rewrite orb_true_iff !bool_decide_eq_true. Qed.

(** Reading leaves the state alone. *)
Lemma with_root_keeps {St A} (P : St → Prop) v (body : M St A) : keeps P body → keeps P (with_root v body).
Proof.
  intros Hb. unfold with_root. apply keeps_bind; [apply keeps_wrap; unfold OpenRoot|intros _];
  repeat first [progress auto with l2 | apply keeps_bind; [|intros ?] | case_match].
Qed.

Lemma loadArtifactJSON_keeps {St T} (P : St → Prop) (decode : bytes → result T) label validate v :
  keeps P (loadArtifactJSON decode label validate v).
Proof.
  unfold loadArtifactJSON, require_layout. apply with_root_keeps.
  apply keeps_bind; [auto with l2|intros _]. apply keeps_bind; [apply keeps_wrap, ReadRegular_keeps|]. eauto 10 with l2.
Qed.

(** A loaded report is valid and the decoding of a regular file of an artifact
    with exactly the expected entries. *)
Lemma loadArtifactJSON_ok {St T} (decode : bytes → result T) label validate v (s : St) w r s' w' :
  loadArtifactJSON decode label validate v s w = (Ok r, s', w') →
  s' = s ∧ validate r = Ok () ∧ RequireExactLayout (av_dir v) artifact_layout = Ok () ∧
  ∃ node, av_dir' v !! VerificationFileName = Some node ∧ fi_mode (dn_info node) = ModeRegular ∧ decode (dn_content node) = Ok r.
Proof.
  intros Hr. split; [exact (keeps_run _ _ _ _ _ _ _ (loadArtifactJSON_keeps (λ x, x = s) decode label validate v) Hr eq_refl)|].
  unfold loadArtifactJSON, with_root, require_layout in Hr. mcases.
  repeat match goal with u : () |- _ => destruct u end.
  match goal with Hx : ReadRegular _ _ _ _ _ _ = _ |- _ => apply ReadRegular_ok in Hx as (_ & _ & node & Hn & Hm & -> & _) end.
  split_and!; try done. by exists node.
Qed.

Lemma openLegacySource_head `{Keccak, HeaderRLP} {St} db (st : St) w l st' w' :
  openLegacySource db st w = (Ok l, st', w') → st' = st ∧ readLegacyHead db = Ok (ls_head l, ls_headerRLP l).
Proof.
  unfold openLegacySource. intros Hr. minv. destruct (readLegacyHead db) as [[head rlp]|e]; [by minv|mcases].
Qed.

Lemma sameSourceEvidence_eq a b : sameSourceEvidence a b = true → a = b.
Proof.
  unfold sameSourceEvidence. rewrite !andb_true_iff !bool_decide_eq_true. intros [[? ?] ?].
  destruct a, b; cbn in *; congruence.
Qed.

Lemma sameDirectVerificationReport_eq a b : sameDirectVerificationReport a b = true → a = b.
Proof.
  unfold sameDirectVerificationReport. pose proof (sameSourceEvidence_eq (dr_Source a) (dr_Source b)) as Hs.
  revert Hs. generalize (sameSourceEvidence (dr_Source a) (dr_Source b)). intros same Hs.
  rewrite !andb_true_iff !bool_decide_eq_true !N.eqb_eq eqb_true_iff.
  intros [[[[[[[[[[[? ?] ?] ?] ?] ?] ?] ?] ?] Hsame] ?] ?]. specialize (Hs Hsame). destruct a, b; cbn in *; congruence.
Qed.
