(* ===== verification/Import.v ===== *)
(** * Import ([import.go])

    [Import] scans a bundle into a new database inside its output directory,
    adopts the path state, writes the head, closes the database, verifies it
    after reopening, and publishes it with its report. The database lives in
    the directory [chaindata]; its own files are not part of the file system
    model, its content is [im_target]. A new directory holds an empty
    database. Syncing the files of a closed LevelDB is one step. *)

From S2P Require Import Prelude Sha256 Geth Instances Manifest StrictIO Records Scanner Bundle Account StateTrie Consumer Stream Traverse AtomicDir Export DirectWriter OvmIndex Verify VerifyState Report.

(** [triedb.Database.AdoptSyncedState]: the database afterwards, and the error. *)
Class TrieDB := { AdoptSyncedState : store → Hash → store * option error }.

(** Adoption writes metadata only. *)
Class TrieDBLaws `{RawdbKeys, TrieDB} : Prop := {
  adopt_flat db root k : flat_key PathScheme k = true → (AdoptSyncedState db root).1 !! k = db !! k
}.

Record ImportOptions := MkImportOptions {
  im_TempDB : string;
  im_Bundle : string;
  im_Output : string;
  im_Scheme : string;
  im_DBEngine : string
}.

Record ImportResult := MkImportResult { ir_ArtifactPath : string; ir_Report : VerificationReport }.

(** The observations of the bundle that [scanBundle] makes. *)
Record bundle_input := MkBundleInput {
  bi_before : result file_info;
  bi_opened : result file_info;
  bi_dir : directory;
  bi_dir' : directory;
  bi_loaded : result (Manifest * bytes);
  bi_reloaded : result (Manifest * bytes)
}.

(** The target with its writer, whether it has been closed, and the verifier. *)
Record import_state := MkImport { im_target : target; im_closed : bool; im_verifier : verifier }.

Definition set_target (t : target) (s : import_state) : import_state := MkImport t (im_closed s) (im_verifier s).
Definition set_verifier (v : verifier) (s : import_state) : import_state := MkImport (im_target s) (im_closed s) v.
Definition set_im_closed (s : import_state) : import_state := MkImport (im_target s) true (im_verifier s).

(** [os.Mkdir]. *)
Definition Mkdir (E : os_env) (p : path) : M fsys unit :=
  _ ← io;
  f ← get;
  match f p with Some _ => fail EExist | None => modify (fs_put p (FDir (inode E p))) end.

Definition validateImportOptions (opts : ImportOptions) : result unit :=
  _ ← reject_if (bool_decide (im_Bundle opts = ""%string)) "bundle path is required";
  _ ← reject_if (bool_decide (im_Output opts = ""%string)) "artifact output path is required";
  _ ← reject_if (negb (known_scheme (im_Scheme opts))) "scheme must be hash or path";
  _ ← targetOptions (im_DBEngine opts) (im_Scheme opts);
  Ok ().

Section ImportOperation.
Context `{Keccak, EmptyHashes, AccountRLP, RLPSplit, StackTrie, TrieReader, NodeReader, HeaderRLP, Zstd}.
Context `{RawdbKeys, BatchSize, BatchValueSize, SlimRLP, HeadDB, PathDB, ArtifactKeys, TrieDB}.
Context (E : os_env) (now : N) (tool geth : string) (batchLen : list Hash → N).
Context (encode : VerificationReport → bytes) (decode : bytes → result VerificationReport) (view : fsys → path → artifact_view).

Definition on_target {A} (m : M target A) : M (fsys * import_state) A := zoom (λ s, im_target s.2) (λ t s, (s.1, set_target t s.2)) m.
Definition on_store {A} (m : M store A) : M (fsys * import_state) A :=
  on_target (zoom tg_db (λ db t, MkTarget db (tg_writer t)) m).
Definition on_verifier {A} (m : M verifier A) : M (fsys * import_state) A :=
  zoom (λ s, im_verifier s.2) (λ v s, (s.1, set_verifier v s.2)) m.

(** ** Finishing the database *)

Definition closeTrieDBWithError {A} (original : error) : M store A :=
  c ← attempt io;
  match c with Ok _ => fail original | Err e => fail (EJoin original (EWrap "close path trie database" e)) end.

Definition adoptPathStateDatabase (root : Hash) : M store unit :=
  _ ← poll;
  db ← get;
  let '(db', e) := AdoptSyncedState db root in
  _ ← modify (λ _, db');
  match e with
  | Some e => closeTrieDBWithError (EWrap "adopt generated path state" e)
  | None =>
      if negb (SnapshotCompleted db') then closeTrieDBWithError (EMsg "path snapshot is not marked complete after adoption")
      else wrap "close adopted path trie database" io
  end.

Definition adoptPathState (scheme : string) (root : Hash) : M store unit :=
  if bool_decide (scheme = HashScheme) then poll else adoptPathStateDatabase root.

Definition persistHeadMetadata (source : SourceEvidence) : M store unit :=
  _ ← poll;
  writeHeadMetadata source.

Definition finalizeTargetDatabase (dbPath : path) (t : targetConfig) : M (fsys * import_state) unit :=
  _ ← poll;
  _ ← wrap "sync target database" io;
  _ ← wrap "close target database" io;
  _ ← modify (λ s, (s.1, set_im_closed s.2));
  _ ← (if bool_decide (tc_engine t = DBEngineLevelDB) then io else mret ());
  on_fst (syncDirectory dbPath).

Definition finalizeAndVerifyTarget (dbPath : path) (scheme : string) (t : targetConfig) (source : SourceEvidence) (expected : StateResult)
    : M (fsys * import_state) StateResult :=
  _ ← on_store (adoptPathState scheme (st_Root expected));
  _ ← on_store (persistHeadMetadata source);
  _ ← finalizeTargetDatabase dbPath t;
  s ← get;
  on_verifier (verifyTargetDatabase batchLen (tg_db (im_target s.2)) scheme source expected []).

(** ** The operation *)

Definition importCodec : artifactReportCodec (fsys * import_state) VerificationReport :=
  MkCodec "verification report"
    (λ dir report, _ ← on_fst (writeVerificationReport E encode dir report); mret ())
    (λ dir, s ← get; loadVerificationReport decode (view s.1 dir))
    (λ a b, bool_decide (a = b)).

Definition publishImportedArtifact (output : path) (report : VerificationReport) : M (fsys * import_state) unit :=
  publishArtifact output report importCodec None.

(** From the scan to the publication. *)
Definition import_body (opts : ImportOptions) (t : targetConfig) (b : bundle_input) (output : path) : M (fsys * import_state) VerificationReport :=
  r ← attempt (on_target (scanBundle (bi_before b) (bi_opened b) (bi_dir b) (bi_dir' b) (bi_loaded b) (bi_reloaded b)
                            (Some directVisitor) (Some directSink) true));
  bundleResult ← (match r with Ok x => mret x | Err e => _ ← on_target dw_Abort; fail e end);
  _ ← on_target CloseContext;
  dbState ← finalizeAndVerifyTarget (output ++ [artifactDatabaseDirName]) (im_Scheme opts) t (Source (br_Manifest bundleResult)) (br_State bundleResult);
  _ ← lift (reject_if (negb (bool_decide (dbState = br_State bundleResult))) "target state result mismatch");
  let report := with_target t (newVerificationReport now tool geth bundleResult (im_Scheme opts)) in
  _ ← publishImportedArtifact output report;
  mret report.

(** The target database, with its deferred close. *)
Definition import_work (opts : ImportOptions) (t : targetConfig) (b : bundle_input) (d : atomicDir) : M (fsys * import_state) VerificationReport :=
  let dbPath := ad_temp d ++ [artifactDatabaseDirName] in
  _ ← wrap "create artifact database directory" (on_fst (Mkdir E dbPath));
  _ ← wrap "open target database" io;
  _ ← modify (λ s, (s.1, MkImport (MkTarget ∅ (newDirectStateWriter (im_Scheme opts))) false (im_verifier s.2)));
  r ← attempt (import_body opts t b (ad_temp d));
  closed ← gets (λ s, im_closed s.2);
  c ← (if (closed : bool) then mret (Ok ()) else attempt (wrap "close target database" io));
  match r, c with
  | Ok x, Ok _ => mret x
  | Ok _, Err e => fail e
  | Err e, Ok _ => fail e
  | Err e, Err e' => fail (EJoin e e')
  end.

Definition Import (opts : ImportOptions) (b : bundle_input) : M (fsys * import_state) ImportResult :=
  _ ← lift (TempDBMode_validate (im_TempDB opts));
  _ ← lift (validateImportOptions opts);
  t ← lift (targetOptions (im_DBEngine opts) (im_Scheme opts));
  s ← get;
  _ ← lift (rejectOutputInsideBundle E s.1 (im_Bundle opts) (im_Output opts));
  report ← with_output E (im_Output opts) "remove partial artifact" (publish_work E (import_work opts t b));
  mret (MkImportResult (im_Output opts) report).

End ImportOperation.

(** ** What happens outside the output *)

(** Work on the database does not touch the file system. *)
Lemma keeps_zoom_snd {X Y A} (P : fsys * Y → Prop) (get : fsys * Y → X) (set : X → Y → Y) (m : M X A) :
  (∀ f y y', P (f, y) → P (f, y')) → keeps P (zoom get (λ x s, (s.1, set x s.2)) m).
Proof. intros HP [f y] w Hs. unfold zoom. destruct (m (get (f, y)) w) as [[r x] w1]. by eapply HP. Qed.

Lemma keeps_on_fst {X Y A} (P : X → Prop) (m : M X A) : keeps P m → keeps (λ s : X * Y, P s.1) (on_fst m).
Proof. intros Hm [x y] w Hs. unfold on_fst, zoom. specialize (Hm x w Hs). cbn in *. by destruct (m x w) as [[r x'] w1]. Qed.

(** What happens below a directory is not seen outside. *)
Lemma put_below dir rest e f q : under dir q = false → fs_put (dir ++ rest) e f q = f q.
Proof.
  intros Hq. unfold fs_put. rewrite bool_decide_eq_false_2 //. intros ->.
  assert (under dir (dir ++ rest) = true) by (apply under_spec; eauto). congruence.
Qed.

(** The steps of an import, seen from one path outside its output. *)
Ltac keeps_outside :=
  lazymatch goal with
  | |- keeps _ (mbind _ _) => apply keeps_bind; [|intros ?]
  | |- keeps _ (wrap _ _) => apply keeps_wrap
  | |- keeps _ (attempt _) => apply keeps_attempt
  | |- keeps _ (on_fst _) => apply keeps_on_fst
  | |- keeps _ (zoom _ _ _) => apply keeps_zoom_snd; intros ? ? ?; exact id
  | |- keeps _ (loadArtifactJSON _ _ _ _) => apply loadArtifactJSON_keeps
  | |- keeps _ poll => apply keeps_poll
  | |- keeps _ io => apply keeps_io
  | |- keeps _ get => apply keeps_get
  | |- keeps _ (gets _) => apply keeps_gets
  | |- keeps _ (lift _) => apply keeps_lift
  | |- keeps _ (mret _) => apply keeps_ret
  | |- keeps _ (fail _) => apply keeps_fail
  | |- keeps _ (if ?b then _ else _) => destruct b
  | |- keeps _ (match ?x with _ => _ end) => destruct x
  | |- keeps _ (match ?x with _ => _ end _) => destruct x
  end.

(** ** Lemmas *)

Section FinalizeLemmas.
Context `{Keccak, EmptyHashes, AccountRLP, RLPSplit, StackTrie, TrieReader, NodeReader, HeaderRLP}.
Context `{RawdbKeys, !RawdbKeysLaws, BatchSize, SlimRLP, HeadDB, !HeadDBLaws, PathDB, ArtifactKeys, TrieDB, !TrieDBLaws}.
Context (batchLen : list Hash → N).

(** Two databases agree on the keys of flat entries. *)
Definition same_flat (scheme : string) (db db' : store) : Prop := ∀ k, flat_key scheme k = true → db' !! k = db !! k.

Lemma same_flat_trans scheme db1 db2 db3 : same_flat scheme db1 db2 → same_flat scheme db2 db3 → same_flat scheme db1 db3.
Proof. intros Ha Hb k Hk. by rewrite Hb // Ha. Qed.

Lemma flat_state_key scheme k : flat_key scheme k = true → state_key k.
Proof.
  unfold flat_key. intros Hk. right. apply Exists_exists. case_bool_decide.
  - apply andb_true_iff in Hk as [Hk _]. exists CodePrefix. split; [left|done].
  - rewrite !orb_true_iff in Hk. destruct Hk as [[Hk|Hk]|Hk]; eexists; (split; [|exact Hk]); set_solver.
Qed.

Lemma flat_state_flat_key scheme es kv : scheme = HashScheme ∨ scheme = PathScheme → kv ∈ flat_state scheme es → flat_key scheme kv.1 = true.
Proof.
  intros Hs Hin. apply list_elem_of_bind in Hin as (e & Hin & _). unfold entry_flat in Hin.
  assert (Hp : ∀ p rest : bytes, has_prefix (p ++ rest) p = true) by (intros; apply has_prefix_spec; eauto).
  apply elem_of_app in Hin as [Hin|Hin].
  - destruct Hs as [->| ->]; [by rewrite bool_decide_eq_true_2 // in Hin; apply elem_of_nil in Hin|].
    rewrite bool_decide_eq_false_2 // in Hin. unfold flat_key. rewrite bool_decide_eq_false_2 //.
    apply elem_of_cons in Hin as [->|Hin]; [by rewrite /keyBytes Hp|]. apply list_elem_of_fmap in Hin as (x & -> & _).
    by rewrite /keyBytes Hp orb_true_r.
  - destruct (e_code e); [|by apply elem_of_nil in Hin]. apply list_elem_of_singleton in Hin as ->. unfold flat_key, keyBytes. cbn [fst].
    rewrite Hp app_nil_r length_app length_hash_bytes (proj1 prefix_lengths) orb_true_r. by case_bool_decide.
Qed.

Lemma adoptPathState_flat scheme root db w u db' w' :
  scheme = HashScheme ∨ scheme = PathScheme → adoptPathState scheme root db w = (Ok u, db', w') → same_flat scheme db db'.
Proof.
  unfold adoptPathState, adoptPathStateDatabase, closeTrieDBWithError. intros Hs Hr. case_bool_decide as Hh.
  - minv. done.
  - destruct Hs as [?| ->]; [done|]. mstep Hr. minv. destruct (AdoptSyncedState db root) as [db1 oe] eqn:Ea. minv.
    assert (Hdb : same_flat PathScheme db db1).
    { intros k Hk. change db1 with ((db1, oe).1). rewrite -Ea. by apply adopt_flat. }
    destruct oe as [e|]; [mcases|]. destruct (negb _); [mcases|]. minv. done.
Qed.

Lemma writeHeadMetadata_flat scheme source db w u db' w' :
  writeHeadMetadata source db w = (Ok u, db', w') → same_flat scheme db db'.
Proof.
  unfold writeHeadMetadata. intros Hr. minv. pose proof (head_keys (HeaderRLP_ source) (HeadBefore source)) as Hh.
  revert Hh. generalize (writeHeadMetadataEntries (HeaderRLP_ source) (HeadBefore source)). intros l Hl.
  revert db. induction Hl as [|[k' v'] l Hk' _ IH]; intros db; [done|]. cbn [foldl].
  eapply same_flat_trans; [|apply IH]. intros k Hk. apply lookup_insert_ne. intros <-. apply Hk'. by eapply flat_state_key.
Qed.

(** Finishing and verifying leaves the flat entries alone and verifies the
    database as it was closed. *)
Lemma finalizeAndVerifyTarget_ok dbPath scheme t source expected f s w res f' s' w' :
  scheme = HashScheme ∨ scheme = PathScheme →
  finalizeAndVerifyTarget batchLen dbPath scheme t source expected (f, s) w = (Ok res, (f', s'), w') →
  f' = f ∧ im_closed s' = true ∧ same_flat scheme (tg_db (im_target s)) (tg_db (im_target s')) ∧
  ∃ v w1 v' w2, verifyOpenedTarget batchLen (tg_db (im_target s')) scheme source expected [] v w1 = (Ok res, v', w2).
Proof.
  intros Hs Hr. unfold finalizeAndVerifyTarget, finalizeTargetDatabase, persistHeadMetadata, on_store, on_target, on_verifier, verifyTargetDatabase in Hr.
  minv. mcases. cbn [fst snd] in *.
  match goal with Hx : (if ?b then io else _) _ _ = (_, ?y, _) |- _ => assert (Hy : y = (f, set_im_closed (set_target (MkTarget x2 (tg_writer (im_target s))) s))) by (destruct b; by minv) end.
  match goal with Hx : on_fst (syncDirectory _) _ _ = _ |- _ => unfold on_fst in Hx; minv;
    match goal with Hz : syncDirectory _ _ _ = _ |- _ => apply syncDirectory_state in Hz end end.
  simplify_eq. cbn in *. split_and!; try done; [|by eauto 10].
  eapply same_flat_trans; [by eapply adoptPathState_flat|by eapply writeHeadMetadata_flat].
Qed.

End FinalizeLemmas.

Section ImportLemmas.
Context `{Keccak, EmptyHashes, AccountRLP, !AccountRLPLaws, RLPSplit, StackTrie, TrieReader, NodeReader, HeaderRLP, Zstd}.
Context `{RawdbKeys, !RawdbKeysLaws, BatchSize, BatchValueSize, SlimRLP, !SlimRLPLaws, HeadDB, !HeadDBLaws, PathDB, ArtifactKeys, !ArtifactKeysLaws, TrieDB, !TrieDBLaws}.
Context (trie_root : list (bytes * bytes) → Hash) `{!StackTrieLaws trie_root}.
Context (E : os_env) (now : N) (tool geth : string) (batchLen : list Hash → N).
Context (encode : VerificationReport → bytes) (decode : bytes → result VerificationReport) (view : fsys → path → artifact_view).

(** The report is written, and what is read back is the same report. *)
Lemma publishImportedArtifact_ok output report f s w u f' s' w' :
  publishImportedArtifact E encode decode view output report (f, s) w = (Ok u, (f', s'), w') →
  s' = s ∧ Report_Validate report = Ok () ∧
  f' = fs_put (output ++ [VerificationFileName]) (FFile (inode E (output ++ [VerificationFileName])) (encode report ++ [x0a])) f ∧
  RequireExactLayout (av_dir (view f' output)) artifact_layout = Ok () ∧
  ∃ node, av_dir' (view f' output) !! VerificationFileName = Some node ∧ decode (dn_content node) = Ok report.
Proof.
  unfold publishImportedArtifact, publishArtifact, importCodec. cbn [codec_label codec_write codec_load codec_equal].
  unfold on_fst, writeVerificationReport. intros Hr. minv. cbn [fst snd] in *.
  match goal with Hx : loadVerificationReport _ _ _ _ = _ |- _ => apply loadArtifactJSON_ok in Hx as (? & _ & Hl & node & Hn & _ & Hd) end.
  match goal with Hx : negb (bool_decide _) = false |- _ => apply negb_false_iff, bool_decide_eq_true in Hx end.
  simplify_eq. split_and!; try done. by exists node.
Qed.

(** What a successful import has established about the bundle, the database
    as it was closed, the report and the file system. *)
Record imported (opts : ImportOptions) (t : targetConfig) (b : bundle_input) (output : path) (report : VerificationReport)
    (f f' : fsys) (db : store) (m : Manifest) (mb : bytes) (es : list entry) : Prop := {
  ip_loaded : bi_loaded b = Ok (m, mb);
  ip_wf : state_wf es (StateRoot (HeadBefore (Source m)));
  ip_counts : state_counts es = mCounts m;
  ip_flat : ∀ k v, flat_key (im_Scheme opts) k = true → (db !! k = Some v ↔ (k, v) ∈ flat_state (im_Scheme opts) es);
  ip_report : ∃ res, report = with_target t (newVerificationReport now tool geth res (im_Scheme opts)) ∧
    br_Manifest res = m ∧ br_State res = MkStateResult (StateRoot (HeadBefore (Source m))) (mCounts m);
  ip_verified : ∃ v w v' w', verifyOpenedTarget batchLen db (im_Scheme opts) (Source m)
    (MkStateResult (StateRoot (HeadBefore (Source m))) (mCounts m)) [] v w = (Ok (MkStateResult (StateRoot (HeadBefore (Source m))) (mCounts m)), v', w');
  ip_valid : Report_Validate report = Ok ();
  ip_file : f' = fs_put (output ++ [VerificationFileName]) (FFile (inode E (output ++ [VerificationFileName])) (encode report ++ [x0a])) f;
  ip_layout : RequireExactLayout (av_dir (view f' output)) artifact_layout = Ok ();
  ip_read : ∃ node, av_dir' (view f' output) !! VerificationFileName = Some node ∧ decode (dn_content node) = Ok report
}.

Lemma import_body_ok opts t b output f s w report f' s' w' :
  im_Scheme opts = HashScheme ∨ im_Scheme opts = PathScheme →
  im_target s = MkTarget ∅ (newDirectStateWriter (im_Scheme opts)) →
  (∀ m mb node, bi_loaded b = Ok (m, mb) → bi_dir b !! Name (mStateFile m) = Some node → N.of_nat (length (r_data (stream_of m node))) < two64) →
  import_body E now tool geth batchLen encode decode view opts t b output (f, s) w = (Ok report, (f', s'), w') →
  im_closed s' = true ∧ ∃ m mb es, imported opts t b output report f f' (tg_db (im_target s')) m mb es.
Proof.
  intros Hs Ht Hb Hr. unfold import_body, on_target in Hr. mcases. cbn [fst snd] in *.
  match goal with Hx : negb (bool_decide (?x = br_State _)) = false |- _ => apply negb_false_iff, bool_decide_eq_true in Hx; subst x end.
  match goal with Hx : scanBundle _ _ _ _ _ _ _ _ _ _ _ = _ |- _ => rename Hx into Hscan end. rewrite Ht in Hscan.
  destruct (bi_loaded b) as [[m mb]|e] eqn:Hl; [|unfold scanBundle in Hscan; by minv].
  apply (scanned_flat trie_root) in Hscan as (es & Hw & _ & Hc & Hm & Hst & Hop & Hflat); [|done|intros node; by eapply Hb].
  match goal with Hx : CloseContext _ _ = _ |- _ => apply CloseContext_ok in Hx as Hcl; [|exact Hop] end.
  match goal with Hx : finalizeAndVerifyTarget _ _ _ _ _ _ ?y _ = (_, ?z, _) |- _ =>
    destruct z as [f1 s1]; apply finalizeAndVerifyTarget_ok in Hx as (-> & Hclosed & Hsame & Hver); [|done] end.
  match goal with Hx : publishImportedArtifact _ _ _ _ _ _ _ _ = _ |- _ => apply publishImportedArtifact_ok in Hx as (-> & Hval & Hf & Hlay & Hread) end.
  split; [done|]. exists m, mb, es. rewrite Hm Hst in Hver. split; try done.
  - intros k v Hk. rewrite -Hflat // -Hcl. cbn in Hsame. by rewrite Hsame.
  - by exists a.
Qed.

Lemma import_work_ok opts t b d f s w report f' s' w' :
  im_Scheme opts = HashScheme ∨ im_Scheme opts = PathScheme →
  (∀ m mb node, bi_loaded b = Ok (m, mb) → bi_dir b !! Name (mStateFile m) = Some node → N.of_nat (length (r_data (stream_of m node))) < two64) →
  import_work E now tool geth batchLen encode decode view opts t b d (f, s) w = (Ok report, (f', s'), w') →
  let dbPath := ad_temp d ++ [artifactDatabaseDirName] in
  f dbPath = None ∧ ∃ m mb es, imported opts t b (ad_temp d) report (fs_put dbPath (FDir (inode E dbPath)) f) f' (tg_db (im_target s')) m mb es.
Proof.
  intros Hs Hb Hr dbPath. unfold import_work, on_fst, Mkdir in Hr. fold dbPath in Hr. minv. cbn [fst snd] in *.
  destruct (f dbPath) eqn:Ef; minv. split; [done|].
  match goal with r : result VerificationReport |- _ => destruct r; [|mcases] end.
  match goal with Hx : import_body _ _ _ _ _ _ _ _ _ _ _ _ _ _ = (_, ?y, _) |- _ =>
    destruct y as [f1 s1]; apply import_body_ok in Hx as (Hcl & m & mb & es & Hi); [|done..] end.
  cbn [fst snd] in *. match goal with Hx : (if im_closed _ then _ else _) _ _ = _ |- _ => rewrite Hcl in Hx end. mcases. simplify_eq. eauto 10.
Qed.

Lemma import_work_inside opts t b : stays_inside (import_work E now tool geth batchLen encode decode view opts t b).
Proof.
  intros d [f s] w q Hq. set (P := λ g : fsys, g q = f q).
  assert (Hput : ∀ name e, keeps P (modify (fs_put (ad_temp d ++ [name]) e))) by (intros name e; apply keeps_modify; intros g Hg; unfold P; by rewrite put_below).
  assert (Hsync : ∀ p, keeps P (syncDirectory p)).
  { intros p g w0 Hg. destruct (syncDirectory p g w0) as [[r g'] w1] eqn:E0. apply syncDirectory_state in E0. by subst. }
  assert (Hk : keeps (λ x : fsys * import_state, P x.1) (import_work E now tool geth batchLen encode decode view opts t b d));
    [|by apply (Hk (f, s) w)].
  unfold import_work, import_body, finalizeAndVerifyTarget, finalizeTargetDatabase, publishImportedArtifact, publishArtifact, importCodec,
    writeVerificationReport, loadVerificationReport, Mkdir, on_store, on_target, on_verifier.
  cbn [codec_label codec_write codec_load codec_equal]. cbv zeta.
  repeat first [keeps_outside | apply Hput | apply Hsync].
  all: apply keeps_modify; by intros [? ?].
Qed.

End ImportLemmas.

(** ** The theorem *)

(** [f'] is [f] with an artifact at [final] that was not there: the database
    directory, the report and nothing else. Outside, directories may have been
    created. *)
Record artifact_published (f f' : fsys) (final : path) (report : bytes) : Prop := {
  pb_new : f final = None;
  pb_dir : ∃ id, f' final = Some (FDir id);
  pb_database : ∃ id, f' (final ++ [artifactDatabaseDirName]) = Some (FDir id);
  pb_report : ∃ id, f' (final ++ [VerificationFileName]) = Some (FFile id (report ++ [x0a]));
  pb_only : ∀ rest, f' (final ++ rest) ≠ None → rest = [] ∨ rest = [artifactDatabaseDirName] ∨ rest = [VerificationFileName];
  pb_outside : ∀ q, under final q = false → f' q = f q ∨ (f q = None ∧ ((∃ id, f' q = Some (FDir id)) ∨ f' q = None))
}.

Lemma artifact_publication E f d f1 g f2 f' report :
  fs_wf f → fresh_output f d f1 → (∀ q, g q = fs_put (ad_temp d) (FDir (inode E (ad_temp d))) f1 q) →
  (∀ q, f2 q = fs_put (ad_temp d ++ [VerificationFileName])
                 (FFile (inode E (ad_temp d ++ [VerificationFileName])) (report ++ [x0a]))
                 (fs_put (ad_temp d ++ [artifactDatabaseDirName]) (FDir (inode E (ad_temp d ++ [artifactDatabaseDirName]))) g) q) →
  published d f1 f2 f' → artifact_published f f' (ad_final d) report.
Proof.
  intros Hwf Hfresh Hg Hf2 Hpub. destruct (published_outside _ _ _ _ _ Hwf Hfresh Hpub) as [Hnew Hout].
  destruct (published_pair E _ _ _ g f2 _ artifactDatabaseDirName _ VerificationFileName _ Hfresh Hg ltac:(done) Hf2 Hpub) as (Hd & H1' & H2' & Hrest).
  split; try done; by eexists.
Qed.

Section VerifiedDatabase.
Context `{Keccak, EmptyHashes, AccountRLP, !AccountRLPLaws, RLPSplit, StackTrie, TrieReader, NodeReader, HeaderRLP}.
Context `{RawdbKeys, !RawdbKeysLaws, BatchSize, SlimRLP, !SlimRLPLaws, HeadDB, !HeadDBLaws, PathDB, ArtifactKeys, !ArtifactKeysLaws}.
Context (trie_root : list (bytes * bytes) → Hash) `{!StackTrieLaws trie_root} (batchLen : list Hash → N).

(** A database holds the entries [md] and a state, and besides only trie nodes
    reached from the root. *)
Definition holds_state (scheme : string) (root : Hash) (es : list entry) (md : headMetadataEntries) (db : store) : Prop :=
  ∀ k v, db !! k = Some v ↔ md !! k = Some v ∨ path_meta_entry scheme root k v ∨ (k, v) ∈ flat_state scheme es ∨
    (db !! k = Some v ∧ node_entry scheme root k v).

(** What acceptance means for one expected result without extra metadata. *)
Lemma verified_holds db scheme source expected v w res v' w' `{!NodeReaderLaws db scheme} :
  (∀ l, batchLen l = 0 → l = []) → N.of_nat (size db) < two64 →
  verifyOpenedTarget batchLen db scheme source expected [] v w = (Ok res, v', w') →
  (scheme = HashScheme ∨ scheme = PathScheme) ∧
  ∃ es md, state_wf es (st_Root expected) ∧ values_nonempty es ∧ st_Counts expected = state_counts es ∧
    expectedHeadMetadata source = Ok md ∧ holds_state scheme (st_Root expected) es md db.
Proof.
  intros Hbl Hsize Hv.
  destruct (verifyOpenedTarget_facts trie_root batchLen db _ _ _ _ _ _ _ _ _ Hbl Hsize (List.Forall_nil _) Hv) as (Hs & es & ks & md & F & Hmd & _ & Hc).
  unfold expected_metadata in Hmd. minv. match goal with Hy : mergeExpectedMetadata _ [] = Ok _ |- _ => injection Hy as -> end.
  split; [done|]. exists es, md. split_and!; try done; [apply F..|]. exact (database_exact trie_root db scheme Hs _ _ _ _ F).
Qed.

End VerifiedDatabase.

Section ImportTheorem.
Context `{Keccak, EmptyHashes, AccountRLP, !AccountRLPLaws, RLPSplit, StackTrie, TrieReader, NodeReader, HeaderRLP, Zstd}.
Context `{RawdbKeys, !RawdbKeysLaws, BatchSize, BatchValueSize, SlimRLP, !SlimRLPLaws, HeadDB, !HeadDBLaws, PathDB, ArtifactKeys, !ArtifactKeysLaws, TrieDB, !TrieDBLaws}.
Context (trie_root : list (bytes * bytes) → Hash) `{!StackTrieLaws trie_root}.
Context (E : os_env) (now : N) (tool geth : string) (batchLen : list Hash → N).
Context (encode : VerificationReport → bytes) (decode : bytes → result VerificationReport) (view : fsys → path → artifact_view).

(** The verified database holds the flat state of the bundle itself. *)
Lemma imported_exact opts t b output report f f' db m mb es `{!NodeReaderLaws db (im_Scheme opts)} :
  (∀ l, batchLen l = 0 → l = []) → N.of_nat (size db) < two64 →
  imported E now tool geth batchLen encode decode view opts t b output report f f' db m mb es →
  let root := StateRoot (HeadBefore (Source m)) in
  ∃ md, expectedHeadMetadata (Source m) = Ok md ∧
    holds_state (im_Scheme opts) root es md db.
Proof.
  intros Hbl Hsize [Hl Hwf Hcnt Hflat Hrep (v0 & w0 & v1 & w1 & Hv) _ _ _ _] root.
  destruct (verified_holds trie_root batchLen db _ _ _ _ _ _ _ _ Hbl Hsize Hv) as (Hs & es' & md & _ & _ & _ & Hmd & Hx).
  cbn [st_Root] in Hx. fold root in Hx. unfold holds_state in Hx.
  exists md. split; [done|]. unfold holds_state. intros k v. split.
  - intros Hk. destruct (proj1 (Hx k v) Hk) as [?|[?|[Hin|?]]]; auto. do 2 right; left.
    pose proof (flat_state_flat_key _ _ _ Hs Hin) as Hfk. by apply Hflat.
  - intros [?|[?|[Hin|?]]]; [apply Hx; by auto..| |by apply Hx; auto].
    pose proof (flat_state_flat_key _ _ _ Hs Hin) as Hfk. by apply Hflat.
Qed.

(** C3: A successful import publishes exactly the bundle's state. Without
    interference by other processes, the output did not exist before and is
    afterwards a directory with the database and the report and nothing else,
    while everything else is unchanged up to directories created on the way; the
    report is valid and carries the head, counts and root of the manifest; and
    the database, as it was closed, holds exactly the head metadata, the
    snapshot metadata, the flat entries and codes of the state whose
    serialization the bundle is, and trie nodes reached from its root. *)
Theorem import_exact opts b f s w res f' s' w' `{!NodeReaderLaws (tg_db (im_target s')) (im_Scheme opts)} :
  fs_wf f → (∀ g, race E g = g) → (∀ l, batchLen l = 0 → l = []) → N.of_nat (size (tg_db (im_target s'))) < two64 →
  (∀ m mb node, bi_loaded b = Ok (m, mb) → bi_dir b !! Name (mStateFile m) = Some node → N.of_nat (length (r_data (stream_of m node))) < two64) →
  Import E now tool geth batchLen encode decode view opts b (f, s) w = (Ok res, (f', s'), w') →
  ∃ m mb es md final, let root := StateRoot (HeadBefore (Source m)) in
    bi_loaded b = Ok (m, mb) ∧ state_wf es root ∧ state_counts es = mCounts m ∧ expectedHeadMetadata (Source m) = Ok md ∧
    holds_state (im_Scheme opts) root es md (tg_db (im_target s')) ∧
    (Report_Validate (ir_Report res) = Ok () ∧ rp_Head (ir_Report res) = HeadBefore (Source m) ∧
     rp_Counts (ir_Report res) = mCounts m ∧ rp_RecomputedRoot (ir_Report res) = root ∧ rp_Scheme (ir_Report res) = im_Scheme opts) ∧
    artifact_published f f' final (encode (ir_Report res)).
Proof.
  intros Hwf Hq Hbl Hsize Hb Hr. unfold Import in Hr. minv. simplify_eq.
  match goal with Hx : targetOptions _ _ = Ok _ |- _ => apply targetOptions_ok in Hx as (_ & _ & Hs); apply known_scheme_spec in Hs end.
  match goal with Hx : with_output _ _ _ _ _ _ = _ |- _ =>
    apply output_owner_run in Hx as (d & f1 & g & f2 & w1 & w2 & Hfresh & Hg & Hwork & Hpub); [|done|done|apply import_work_inside] end.
  apply (import_work_ok trie_root) in Hwork as (Hfree & m & mb & es & Hi); [|done|done].
  destruct (imported_exact _ _ _ _ _ _ _ _ _ _ _ Hbl Hsize Hi) as (md & Hmd & Hx).
  destruct Hi as [Hl Hw Hc _ (r & -> & Hm & Hst) _ Hval Hf2 _ _].
  exists m, mb, es, md, (ad_final d). cbv zeta.
  cbn [ir_Report with_target newVerificationReport rp_Head rp_Counts rp_RecomputedRoot rp_Scheme].
  rewrite Hm Hst. split_and!; try done. apply (artifact_publication E _ _ f1 g f2); try done. intros q. by rewrite Hf2.
Qed.

End ImportTheorem.

(** ** A sample import

    The bundle exported by the sample chain of [Export.v], into the path scheme. *)
Module SampleImport.
Import Sample SampleChain SampleTarget ExportWitnesses SampleArtifact.

#[export] Instance toy_triedb : TrieDB := {|
  AdoptSyncedState db root := (foldl entries_Put db (match pathMetadata root with Ok meta => meta | Err _ => [] end), None)
|}.

#[export] Instance toy_triedb_laws : TrieDBLaws.
Proof.
  split. intros db root k Hk. cbn. rewrite !lookup_insert_ne //; intros <-; by vm_compute in Hk.
Qed.

Definition node_of (f : fsys) (p : path) : option dir_node :=
  match f p with
  | Some (FDir id) => Some (MkDirNode (MkFileInfo ModeDir 0 id) [] None)
  | Some (FFile id c) => Some (MkDirNode (MkFileInfo ModeRegular (Z.of_nat (length c)) id) c None)
  | _ => None
  end.
Definition listing (f : fsys) (p : path) : directory :=
  list_to_map (omap (λ name, pair name <$> node_of f (p ++ [name])) [artifactDatabaseDirName; VerificationFileName]).
Definition sample_view (f : fsys) (p : path) : artifact_view :=
  MkView (Ok (MkFileInfo ModeDir 0 1)) (Ok (MkFileInfo ModeDir 0 1)) (listing f p) (listing f p).

Definition sample_encode (r : VerificationReport) : bytes :=
  hash_bytes (rp_ManifestSHA256 r) ++ hash_bytes (rp_RecordChainHash r) ++ hash_bytes (rp_RecomputedRoot r) ++ bytes_of_string (rp_Scheme r).
Definition scanned : BundleResult :=
  ok_or (MkBundleResult exported.1 [] zero_hash imported_state (MkScanResult (MkWireCounts 0 0 0 0 0) zero_hash zero_hash)) imported.1.1.
Definition sample_report : VerificationReport :=
  with_target (MkTargetConfig DBEngineLevelDB LayoutGeth) (newVerificationReport 1 "v1" "v1.17.6" scanned PathScheme).
Definition sample_decode (d : bytes) : result VerificationReport :=
  if bool_decide (d = sample_encode sample_report ++ [x0a]) then Ok sample_report else Err (EMsg "report").

Definition options : ImportOptions := MkImportOptions "" "/data/chain" "/alias/out/artifact" PathScheme DBEngineLevelDB.
Definition bundle : bundle_input :=
  MkBundleInput (Ok dir_info) (Ok dir_info) exported_dir exported_dir (Ok (exported.1, [])) (Ok (exported.1, [])).
Definition before : import_state := MkImport (MkTarget ∅ (newDirectStateWriter PathScheme)) false fresh.
Definition run := Import SampleFs.os 1 "v1" "v1.17.6" mark_bytes sample_encode sample_decode sample_view options bundle (SampleFs.disk, before) calm.
Definition after : fsys * import_state := run.1.2.
End SampleImport.

Module ImportWitnesses.
Import Sample SampleChain SampleTarget ExportWitnesses SampleArtifact SampleImport.

Definition result_of : ImportResult := ok_or (MkImportResult "" sample_report) run.1.1.

Lemma run_eta {X Y A} (x : result A * (X * Y) * world) r : x.1.1 = Ok r → x = (Ok r, (x.1.2.1, x.1.2.2), x.2).
Proof. destruct x as [[? [? ?]] ?]. by intros [= ->]. Qed.

#[local] Strategy 100 [Import import_work artifact].
#[local] Strategy -10 [run after].

Lemma import_sample_run :
  Import SampleFs.os 1 "v1" "v1.17.6" mark_bytes sample_encode sample_decode sample_view options bundle (SampleFs.disk, before) calm =
  (Ok result_of, (after.1, after.2), run.2).
Proof.
  assert (Hr : run.1.1 = Ok result_of) by (by vm_compute). exact (run_eta run result_of Hr).
Qed.

Lemma sample_database : tg_db (im_target after.2) = artifact.
Proof. apply (bool_decide_eq_true_1 _). by vm_compute. Qed.

#[export] Instance sample_reader_laws : NodeReaderLaws (tg_db (im_target after.2)) (im_Scheme options).
Proof. rewrite sample_database. exact artifact_reader_laws. Qed.

Lemma sample_size : N.of_nat (size (tg_db (im_target after.2))) < two64.
Proof. rewrite sample_database. exact artifact_size. Qed.

Lemma loaded_manifest (x m : Manifest) (d mb : bytes) : Ok (x, d) = Ok (m, mb) → m = x.
Proof. by intros [=]. Qed.

Lemma sample_stream m mb node :
  bi_loaded bundle = Ok (m, mb) → bi_dir bundle !! Name (mStateFile m) = Some node → N.of_nat (length (r_data (stream_of m node))) < two64.
Proof.
  intros Hl Hn. apply (loaded_manifest exported.1 m [] mb) in Hl. rewrite Hl in Hn |- *. exact (exported_small node Hn).
Qed.

Lemma import_exact_witness :
  ∃ m mb es final, bi_loaded bundle = Ok (m, mb) ∧ state_wf es (StateRoot (HeadBefore (Source m))) ∧ state_counts es = mCounts m ∧
    SampleFs.disk final = None ∧ (∃ id, after.1 (final ++ [artifactDatabaseDirName]) = Some (FDir id)).
Proof.
  destruct (import_exact toy_root SampleFs.os 1 "v1" "v1.17.6" mark_bytes sample_encode sample_decode sample_view options bundle
    SampleFs.disk before calm result_of after.1 after.2 run.2) as (m & mb & es & md & final & Hl & Hw & Hc & _ & _ & _ & [Hf _ Hd _ _ _]).
  - exact SampleFs.disk_wf.
  - reflexivity.
  - intros l. unfold mark_bytes. lia.
  - exact sample_size.
  - exact sample_stream.
  - exact import_sample_run.
  - exists m, mb, es, final. split; [exact Hl|]. split; [exact Hw|]. split; [exact Hc|]. split; [exact Hf|exact Hd].
Defined.

End ImportWitnesses.
