(* ===== verification/Migrate.v ===== *)
(** * Direct migration ([migrate.go], [migrate_result.go])

    [Migrate] moves the state of a legacy database into a new one without a
    bundle: the partitioned migration writes the database, the head of the
    source is confirmed, the database is finished and verified after reopening
    like an imported one, and published with its report. The conversion of
    balances, which [Migrate] hands over to, is an argument. The source and the
    artifact are read with readers of their own. *)

From S2P Require Import Prelude Sha256 Geth Instances Manifest StrictIO Records Scanner Bundle Account StateTrie Consumer StateBinding Stream Traverse AtomicDir Export DirectWriter OvmIndex OvmTransform OvmInput PruneKeep Partition PartitionStorage PartitionRun PartitionResult Partitioned Verify VerifyState Report Import.

Record MigrateOptions := MkMigrateOptions {
  mo_TempDB : string;
  mo_SourceChaindata : string;
  mo_Output : string;
  mo_Scheme : string;
  mo_DBEngine : string;
  mo_Workers : Z;
  mo_OVM : OVMOptions
}.

(** Exactly one report; [O] is the report of a conversion. *)
Inductive migrationReport (O : Type) := Direct (r : DirectVerificationReport) | Conversion (r : O).
Arguments Direct {O}.
Arguments Conversion {O}.
Record MigrateResult (O : Type) := MkMigrateResult { mr_ArtifactPath : string; mr_report : migrationReport O }.
Arguments MkMigrateResult {O}.
Arguments mr_ArtifactPath {O}.
Arguments mr_report {O}.

Definition newDirectMigrateResult {O} (path : string) (r : DirectVerificationReport) : MigrateResult O := MkMigrateResult path (Direct r).
Definition newOVMMigrateResult {O} (path : string) (r : O) : MigrateResult O := MkMigrateResult path (Conversion r).
Definition DirectReport {O} (r : MigrateResult O) : option DirectVerificationReport :=
  match mr_report r with Direct d => Some d | Conversion _ => None end.
Definition OVMReport {O} (r : MigrateResult O) : option O := match mr_report r with Conversion o => Some o | Direct _ => None end.

(** The artifact under construction and the open source. *)
Definition migrate_state : Type := import_state * legacySource.

Section MigrateOperation.
Context `{Keccak, EmptyHashes, AccountRLP, RLPSplit, StackTrie, HeaderRLP, RangeReader, PartialTrie}.
Context (source_tries : TrieReader) {target_tries : TrieReader} `{NodeReader}.
Context `{RawdbKeys, BatchSize, BatchValueSize, SlimRLP, HeadDB, PathDB, ArtifactKeys, TrieDB}.
Context (E : os_env) (now : N) (tool geth : string) (batchLen : list Hash → N).
Context (encode : DirectVerificationReport → bytes) (decode : bytes → result DirectVerificationReport) (view : fsys → path → artifact_view).

Definition on_import {A} (m : M (fsys * import_state) A) : M (fsys * migrate_state) A :=
  zoom (λ s, (s.1, s.2.1)) (λ x s, (x.1, (x.2, s.2.2))) m.
Definition on_source {A} (m : M legacySource A) : M (fsys * migrate_state) A :=
  zoom (λ s, s.2.2) (λ l s, (s.1, (s.2.1, l))) m.

Definition validateMigrateOptions (f : fsys) (opts : MigrateOptions) : result unit :=
  _ ← reject_if (bool_decide (mo_SourceChaindata opts = ""%string)) "source chaindata path is required";
  _ ← reject_if (bool_decide (mo_Output opts = ""%string)) "artifact output path is required";
  _ ← reject_if (negb (known_scheme (mo_Scheme opts))) "scheme must be hash or path";
  _ ← reject_if (maxMigrateWorkers <? mo_Workers opts)%Z "workers must not exceed the maximum";
  _ ← targetOptions (mo_DBEngine opts) (mo_Scheme opts);
  rejectOutputInsideSource E f (mo_SourceChaindata opts) (mo_Output opts).

(** The writers of the partitioned migration, on the target's database. *)
Definition on_pool {A} (m : M writer_pool A) (writers : list directStateWriter) : M (fsys * migrate_state) (result A * list directStateWriter) :=
  s ← get;
  '(r, pool) ← run_on m (MkPool (tg_db (im_target s.2.1)) writers);
  _ ← on_import (modify (λ s, (s.1, set_target (MkTarget (pl_db pool) (tg_writer (im_target s.2))) s.2)));
  mret (r, pl_writers pool).

Definition directCodec (source output : string) : artifactReportCodec (fsys * import_state) DirectVerificationReport :=
  MkCodec "direct verification report"
    (λ dir report, _ ← on_fst (writeDirectVerificationReport E encode dir report); mret ())
    (λ dir, s ← get; loadDirectVerificationReport decode (view s.1 dir))
    sameDirectVerificationReport.

Definition publishDirectArtifact (output : path) (report : DirectVerificationReport) (opts : MigrateOptions) : M (fsys * import_state) unit :=
  publishArtifact output report (directCodec (mo_SourceChaindata opts) (mo_Output opts))
    (Some (s ← get; lift (rejectOutputInsideSource E s.1 (mo_SourceChaindata opts) (mo_Output opts)))).

(** From the traversal to the publication; [after] is the second read of the
    head, [events] the order in which the goroutines act. *)
Definition migrate_body (opts : MigrateOptions) (t : targetConfig) (after : chain_view) (readCode : Hash → result bytes)
    (events : list partition_event) (output : path) : M (fsys * migrate_state) DirectVerificationReport :=
  source ← gets (λ s, s.2.2);
  '(r, writers) ← on_pool (migratePartitionedState (H4:=source_tries) readCode (mo_Scheme opts) (mo_Workers opts) (ls_head source) events) [];
  '(stateResult, finalWriter) ← lift r;
  '(c, _) ← on_pool (out_CloseContext (persistentPartitionOutput (mo_Scheme opts)) finalWriter) writers;
  _ ← lift c;
  sourceEvidence ← on_source (ConfirmStableAndClose after);
  dbState ← on_import (finalizeAndVerifyTarget batchLen (output ++ [artifactDatabaseDirName]) (mo_Scheme opts) t sourceEvidence stateResult);
  _ ← lift (reject_if (negb (bool_decide (dbState = stateResult))) "target state result mismatch");
  let report := with_direct_target t (newDirectVerificationReport now tool geth sourceEvidence stateResult (mo_Scheme opts)) in
  _ ← on_import (publishDirectArtifact output report opts);
  mret report.

(** The output is checked again under its temporary name; the target database
    has a deferred close. *)
Definition migrate_work (opts : MigrateOptions) (t : targetConfig) (after : chain_view) (readCode : Hash → result bytes)
    (events : list partition_event) (d : atomicDir) : M (fsys * migrate_state) DirectVerificationReport :=
  s ← get;
  _ ← lift (rejectOutputInsideSource E s.1 (mo_SourceChaindata opts) (path_render (ad_temp d)));
  let dbPath := ad_temp d ++ [artifactDatabaseDirName] in
  _ ← wrap "create artifact database directory" (on_fst (Mkdir E dbPath));
  _ ← wrap "open target database" io;
  _ ← on_import (modify (λ s, (s.1, MkImport (MkTarget ∅ (newDirectStateWriter (mo_Scheme opts))) false (im_verifier s.2))));
  r ← attempt (migrate_body opts t after readCode events (ad_temp d));
  closed ← gets (λ s, im_closed s.2.1);
  c ← (if (closed : bool) then mret (Ok ()) else attempt (wrap "close target database" io));
  match r, c with
  | Ok x, Ok _ => mret x
  | Ok _, Err e => fail e
  | Err e, Ok _ => fail e
  | Err e, Err e' => fail (EJoin e e')
  end.

Definition Migrate {O} (migrateOVM : MigrateOptions → M (fsys * import_state) (MigrateResult O)) (opts : MigrateOptions)
    (before after : chain_view) (readCode : Hash → result bytes) (events : list partition_event) : M (fsys * import_state) (MigrateResult O) :=
  _ ← lift (TempDBMode_validate (mo_TempDB opts));
  _ ← lift (validateOVMOptions (mo_OVM opts));
  if op_Enabled (mo_OVM opts) then migrateOVM opts else
  s ← get;
  _ ← lift (validateMigrateOptions s.1 opts);
  t ← lift (targetOptions (mo_DBEngine opts) (mo_Scheme opts));
  source ← openLegacySource before;
  s ← get;
  '(r, (f, (i, source))) ← run_on (with_output E (mo_Output opts) "remove partial artifact"
      (publish_work E (migrate_work opts t after readCode events))) (s.1, (s.2, source));
  _ ← modify (λ _, (f, i));
  '(c, _) ← run_on legacy_Close source;
  match r, c with
  | Ok report, Ok _ => mret (newDirectMigrateResult (mo_Output opts) report)
  | Ok _, Err e => fail (EWrap "close legacy source database" e)
  | Err e, Ok _ => fail e
  | Err e, Err e' => fail (EJoin e (EWrap "close legacy source database" e'))
  end.

End MigrateOperation.

(** ** Lemmas *)

Section MigrateLemmas.
Context `{Keccak, EmptyHashes, AccountRLP, !AccountRLPLaws, RLPSplit, StackTrie, HeaderRLP, RangeReader, PartialTrie}.
Context (source_tries : TrieReader) {target_tries : TrieReader} `{NodeReader}.
Context `{RawdbKeys, !RawdbKeysLaws, BatchSize, BatchValueSize, SlimRLP, !SlimRLPLaws, HeadDB, !HeadDBLaws, PathDB, ArtifactKeys, TrieDB, !TrieDBLaws}.
Context (trie_root : list (bytes * bytes) → Hash) `{!StackTrieLaws trie_root, !PartialTrieLaws trie_root}.
Context (account_trie : Hash → list (bytes * bytes)) (storage_trie : Hash → Hash → Hash → list (bytes * bytes))
  `{!RangeReaderLaws (H:=source_tries) account_trie storage_trie}.
Context (E : os_env) (now : N) (tool geth : string) (batchLen : list Hash → N).
Context (encode : DirectVerificationReport → bytes) (decode : bytes → result DirectVerificationReport) (view : fsys → path → artifact_view).

Lemma migratePartitionedState_ok readCode scheme workers hd events pool w res fw pool' w' :
  Forall event_ok events →
  migratePartitionedState (H4:=source_tries) readCode scheme workers hd events pool w = (Ok (res, fw), pool', w') →
  ∃ es, source_state trie_root account_trie storage_trie readCode (StateRoot hd) es ∧ res = MkStateResult (StateRoot hd) (state_counts es).
Proof.
  intros Hev Hr. unfold migratePartitionedState in Hr. mstep Hr. mstep Hr.
  match goal with x : result (StateResult * nat) * _ |- _ => destruct x as [r g] end. minv. cbn [fst snd] in *.
  match goal with c : result () |- _ => destruct r as [[res1 fw1]|e], c end; minv; subst.
  match goal with Hx : migrator_run _ _ _ _ _ _ _ _ = _ |- _ =>
    apply (migrator_run_ok _ _ _ _ _ trie_root account_trie storage_trie) in Hx as (es & ? & ? & ? & ? & ->); [|done] end.
  simplify_eq. exists es. split; [by split_and!|done].
Qed.

Lemma on_pool_ok {A} (m : M writer_pool A) ws f i l w r ws' s' w' :
  on_pool m ws (f, (i, l)) w = (Ok (r, ws'), s', w') →
  ∃ db pool w1, s' = (f, (set_target (MkTarget db (tg_writer (im_target i))) i, l)) ∧
    m (MkPool (tg_db (im_target i)) ws) w = (r, pool, w1).
Proof.
  unfold on_pool, on_import. intros Hr. mstep Hr. mstep Hr. minv.
  match goal with x : result A * writer_pool |- _ => destruct x as [r1 pool] end. minv. simplify_eq. cbn in *. eauto 10.
Qed.

Lemma publishDirectArtifact_ok output report opts f s w u f' s' w' :
  publishDirectArtifact E encode decode view output report opts (f, s) w = (Ok u, (f', s'), w') →
  s' = s ∧ DirectReport_Validate report = Ok () ∧
  f' = fs_put (output ++ [VerificationFileName]) (FFile (inode E (output ++ [VerificationFileName])) (encode report ++ [x0a])) f.
Proof.
  unfold publishDirectArtifact, publishArtifact, directCodec. cbn [codec_label codec_write codec_load codec_equal].
  unfold on_fst, writeDirectVerificationReport. intros Hr. minv. cbn [fst snd] in *.
  match goal with Hx : loadDirectVerificationReport _ _ _ _ = _ |- _ => apply loadArtifactJSON_ok in Hx as (? & _) end.
  by simplify_eq.
Qed.

(** What a successful migration has established. *)
Record migrated (opts : MigrateOptions) (t : targetConfig) (after : chain_view) (readCode : Hash → result bytes) (source : legacySource)
    (output : path) (report : DirectVerificationReport) (f f' : fsys) (db : store) (es : list entry) : Prop := {
  mg_source : source_state trie_root account_trie storage_trie readCode (StateRoot (ls_head source)) es;
  mg_stable : readLegacyHead after = Ok (ls_head source, ls_headerRLP source);
  mg_report : report = with_direct_target t (newDirectVerificationReport now tool geth
    (MkSourceEvidence (ls_head source) (ls_head source) (ls_headerRLP source))
    (MkStateResult (StateRoot (ls_head source)) (state_counts es)) (mo_Scheme opts));
  mg_valid : DirectReport_Validate report = Ok ();
  mg_verified : ∃ v w v' w', verifyOpenedTarget batchLen db (mo_Scheme opts) (dr_Source report)
    (MkStateResult (StateRoot (ls_head source)) (state_counts es)) [] v w = (Ok (MkStateResult (StateRoot (ls_head source)) (state_counts es)), v', w');
  mg_file : f' = fs_put (output ++ [VerificationFileName]) (FFile (inode E (output ++ [VerificationFileName])) (encode report ++ [x0a])) f
}.

Lemma migrate_body_ok opts t after readCode events output f i source w report f' s' w' :
  mo_Scheme opts = HashScheme ∨ mo_Scheme opts = PathScheme → Forall event_ok events →
  migrate_body source_tries E now tool geth batchLen encode decode view opts t after readCode events output (f, (i, source)) w =
    (Ok report, (f', s'), w') →
  im_closed s'.1 = true ∧ ∃ es, migrated opts t after readCode source output report f f' (tg_db (im_target s'.1)) es.
Proof.
  intros Hs Hev Hr. unfold migrate_body in Hr. mstep Hr. mstep Hr.
  match goal with x : result (StateResult * nat) * _ |- _ => destruct x as [[[res fw]|e] ws] end; minv. cbn [fst snd] in *.
  match goal with Hx : on_pool _ _ _ _ = _ |- _ => apply on_pool_ok in Hx as (db1 & pool1 & w1 & -> & Hm) end.
  match goal with x : result () * list directStateWriter |- _ => destruct x as [c ws2] end.
  apply migratePartitionedState_ok in Hm as (es & Hsrc & ->); [|done].
  match goal with Hx : on_pool _ _ _ _ = _ |- _ => apply on_pool_ok in Hx as (db2 & pool2 & w2 & -> & _) end.
  unfold on_source, on_import in Hr. minv. cbn [fst snd] in *.
  match goal with Hx : ConfirmStableAndClose _ _ _ = _ |- _ => apply ConfirmStableAndClose_ok in Hx as (-> & Hstable) end.
  match goal with Hx : negb (bool_decide (?x = _)) = false |- _ => apply negb_false_iff, bool_decide_eq_true in Hx; subst x end.
  match goal with Hx : finalizeAndVerifyTarget _ _ _ _ _ _ ?y _ = (_, ?z, _) |- _ =>
    destruct z as [f1 s1]; apply finalizeAndVerifyTarget_ok in Hx as (-> & Hclosed & _ & Hver); [|done] end.
  match goal with Hx : publishDirectArtifact _ _ _ _ _ _ _ _ _ = (_, ?z, _) |- _ =>
    destruct z as [f2 s2]; apply publishDirectArtifact_ok in Hx as (-> & Hval & Hf) end.
  simplify_eq. cbn [fst snd] in *. split; [done|]. exists es. by split.
Qed.

Lemma migrate_work_ok opts t after readCode events d f i source w report f' s' w' :
  mo_Scheme opts = HashScheme ∨ mo_Scheme opts = PathScheme → Forall event_ok events →
  migrate_work source_tries E now tool geth batchLen encode decode view opts t after readCode events d (f, (i, source)) w =
    (Ok report, (f', s'), w') →
  let dbPath := ad_temp d ++ [artifactDatabaseDirName] in
  ∃ es, migrated opts t after readCode source (ad_temp d) report (fs_put dbPath (FDir (inode E dbPath)) f) f' (tg_db (im_target s'.1)) es.
Proof.
  intros Hs Hev Hr dbPath. unfold migrate_work, on_fst, on_import, Mkdir in Hr. fold dbPath in Hr. minv. cbn [fst snd] in *.
  destruct (f dbPath) eqn:Ef; minv.
  match goal with r : result DirectVerificationReport |- _ => destruct r; [|mcases] end.
  match goal with Hx : migrate_body _ _ _ _ _ _ _ _ _ _ _ _ _ _ _ _ _ = (_, ?y, _) |- _ =>
    destruct y as [f1 s1]; apply migrate_body_ok in Hx as (Hcl & es & Hi); [|done..] end.
  cbn [fst snd] in *. match goal with Hx : (if im_closed _ then _ else _) _ _ = _ |- _ => rewrite Hcl in Hx end. mcases. simplify_eq. eauto.
Qed.

(** What is done outside the output directory. *)
Lemma on_import_keeps {A} (P : fsys → Prop) (m : M (fsys * import_state) A) :
  keeps (λ s, P s.1) m → keeps (λ s : fsys * migrate_state, P s.1) (on_import m).
Proof. intros Hm [x [y z]] w Hs. unfold on_import, zoom. specialize (Hm (x, y) w Hs). cbn in *. by destruct (m (x, y) w) as [[r x'] w1]. Qed.

Lemma on_source_keeps {A} (P : fsys → Prop) (m : M legacySource A) : keeps (λ s : fsys * migrate_state, P s.1) (on_source m).
Proof. intros [x [y z]] w Hs. unfold on_source, zoom. cbn in *. by destruct (m z w) as [[r x'] w1]. Qed.

Lemma on_pool_keeps {A} (P : fsys → Prop) (m : M writer_pool A) ws : keeps (λ s : fsys * migrate_state, P s.1) (on_pool m ws).
Proof.
  unfold on_pool. apply keeps_bind; [apply keeps_get|intros s]. apply keeps_bind; [apply keeps_run_on|intros [r pool]].
  apply keeps_bind; [|intros _; apply keeps_ret]. apply on_import_keeps, keeps_modify. by intros [? ?].
Qed.

Lemma migrate_work_inside opts t after readCode events :
  stays_inside (migrate_work source_tries E now tool geth batchLen encode decode view opts t after readCode events).
Proof.
  intros d [f s] w q Hq. set (P := λ g : fsys, g q = f q).
  assert (Hput : ∀ name e, keeps P (modify (fs_put (ad_temp d ++ [name]) e))) by (intros name e; apply keeps_modify; intros g Hg; unfold P; by rewrite put_below).
  assert (Hsync : ∀ p, keeps P (syncDirectory p)).
  { intros p g w0 Hg. destruct (syncDirectory p g w0) as [[r g'] w1] eqn:E0. apply syncDirectory_state in E0. by subst. }
  assert (Hk : keeps (λ x : fsys * migrate_state, P x.1)
    (migrate_work source_tries E now tool geth batchLen encode decode view opts t after readCode events d)); [|by apply (Hk (f, s) w)].
  unfold migrate_work, migrate_body, finalizeAndVerifyTarget, finalizeTargetDatabase, publishDirectArtifact, publishArtifact, directCodec,
    writeDirectVerificationReport, loadDirectVerificationReport, Mkdir, on_store, on_target, on_verifier.
  cbn [codec_label codec_write codec_load codec_equal]. cbv zeta.
  repeat first [keeps_outside | apply on_pool_keeps | apply on_source_keeps | apply on_import_keeps | apply Hput | apply Hsync].
  all: apply keeps_modify; by intros [? ?].
Qed.

End MigrateLemmas.

(** ** The theorem *)

Section MigrateTheorem.
Context `{Keccak, EmptyHashes, AccountRLP, !AccountRLPLaws, RLPSplit, StackTrie, HeaderRLP, RangeReader, PartialTrie}.
Context (source_tries : TrieReader) {target_tries : TrieReader} `{NodeReader}.
Context `{RawdbKeys, !RawdbKeysLaws, BatchSize, BatchValueSize, SlimRLP, !SlimRLPLaws, HeadDB, !HeadDBLaws, PathDB, ArtifactKeys, !ArtifactKeysLaws, TrieDB, !TrieDBLaws}.
Context (trie_root : list (bytes * bytes) → Hash) `{!StackTrieLaws trie_root, !PartialTrieLaws trie_root}.
Context (account_trie : Hash → list (bytes * bytes)) (storage_trie : Hash → Hash → Hash → list (bytes * bytes))
  `{!RangeReaderLaws (H:=source_tries) account_trie storage_trie}.
Context (E : os_env) (now : N) (tool geth : string) (batchLen : list Hash → N).
Context (encode : DirectVerificationReport → bytes) (decode : bytes → result DirectVerificationReport) (view : fsys → path → artifact_view).

(** C4: A successful direct migration, under every interleaving of its
    goroutines, publishes the state of the source. The head did not move; the
    whole state under it was read and is well formed; the artifact appears at a
    path that did not exist and nothing else changes but new directories; its
    report is valid and carries the source's head, root and counts; and the
    database, as it was closed, holds exactly the head metadata, the snapshot
    metadata, the flat entries and codes of a well-formed state of the same
    root and counts, and trie nodes reached from the root. This state is the
    source's, unless the two collide: two of their tries have one root, or two
    of their codes one hash. *)
Theorem migrate_exact {O} (migrateOVM : MigrateOptions → M (fsys * import_state) (MigrateResult O)) opts before after readCode events f s w res f' s' w'
    `{!NodeReaderLaws (tg_db (im_target s')) (mo_Scheme opts)} :
  op_Enabled (mo_OVM opts) = false → fs_wf f → (∀ g, race E g = g) → (∀ l, batchLen l = 0 → l = []) →
  N.of_nat (size (tg_db (im_target s'))) < two64 → Forall event_ok events →
  Migrate source_tries E now tool geth batchLen encode decode view migrateOVM opts before after readCode events (f, s) w = (Ok res, (f', s'), w') →
  ∃ source rlp es es' md report final, let root := StateRoot source in
    (readLegacyHead before = Ok (source, rlp) ∧ readLegacyHead after = Ok (source, rlp)) ∧
    source_state trie_root account_trie storage_trie readCode root es ∧
    (res = newDirectMigrateResult (mo_Output opts) report ∧ DirectReport_Validate report = Ok () ∧
     dr_Source report = MkSourceEvidence source source rlp ∧ dr_Counts report = state_counts es ∧
     dr_RecomputedRoot report = root ∧ dr_Scheme report = mo_Scheme opts) ∧
    artifact_published f f' final (encode report) ∧
    (state_wf es' root ∧ state_counts es' = state_counts es ∧ (es' = es ∨ state_collision trie_root es' es)) ∧
    expectedHeadMetadata (dr_Source report) = Ok md ∧ holds_state (mo_Scheme opts) root es' md (tg_db (im_target s')).
Proof.
  intros Hovm Hwf Hq Hbl Hsize Hev Hr. unfold Migrate in Hr. rewrite Hovm in Hr. minv.
  match goal with Hx : targetOptions _ _ = Ok _ |- _ => apply targetOptions_ok in Hx as (_ & _ & Hs); apply known_scheme_spec in Hs end.
  match goal with Hx : openLegacySource _ _ _ = (Ok ?l, _, _) |- _ => rename l into source; apply openLegacySource_head in Hx as [-> Hbefore] end.
  match goal with x : result DirectVerificationReport * _ |- _ => destruct x as [[report|e] [f1 [i1 source1]]] end;
    minv; match goal with x : result () * legacySource |- _ => destruct x as [[] ?] end; minv.
  cbn [fst snd] in *. simplify_eq.
  match goal with Hx : with_output _ _ _ _ _ _ = _ |- _ =>
    apply output_owner_run in Hx as (d & f1' & g & f2 & w1 & w2 & Hfresh & Hg & Hwork & Hpub); [|done|done|apply migrate_work_inside] end.
  apply (migrate_work_ok source_tries trie_root account_trie storage_trie) in Hwork as (es & [Hsrc Hstable Hrep Hval (v0 & w3 & v1 & w4 & Hv) Hfile]); [|done|done].
  destruct (verified_holds trie_root batchLen _ _ _ _ _ _ _ _ _ Hbl Hsize Hv) as (_ & es' & md & Hwf' & Hval' & Hcnt & Hmd & Hx).
  cbn [st_Root st_Counts] in *. pose proof Hsrc as (_ & Hsw & Hsv & _).
  exists (ls_head source), (ls_headerRLP source), es, es', md, report, (ad_final d). cbv zeta.
  split; [done|]. split; [done|]. split; [by rewrite Hrep in Hval |- *; split_and!|].
  split; [apply (artifact_publication E _ _ f1' g f2); try done; intros q; by rewrite Hfile|].
  split; [|done]. split; [done|]. split; [done|]. by eapply state_bind.
Qed.

End MigrateTheorem.

(** ** A sample migration

    The chain of [Export.v], whose accounts lie in one partition, into the path
    scheme. A storage trie within one partition has its root at a path of
    length one. *)
Module SampleMigrate.
Import Sample SampleChain SampleTarget ExportWitnesses SampleArtifact SampleImport.

#[export] Existing Instance branch_stack.
#[export] Existing Instance toy_partial.

Definition accounts_at (root : Hash) : list (bytes * bytes) := if bool_decide (root = state_root) then accounts else [].
Definition slots_at (_ _ root : Hash) : list (bytes * bytes) := if bool_decide (root = toy_root slots) then slots else [].
#[export] Instance source_ranges : RangeReader :=
  {| account_range root start stop := Ok (range_leaves (start, stop) (accounts_at root), None);
     storage_range root h r start stop := Ok (range_leaves (start, stop) (slots_at root h r), None) |}.

Lemma same_leaves (x l : list (bytes * bytes)) (e : option error) : Ok (x, e) = Ok (l, e) → l = x.
Proof. by intros [= ->]. Qed.

#[export] Instance source_laws : RangeReaderLaws (H:=tries) accounts_at slots_at.
Proof.
  split; cbn [account_iterator storage_iterator account_range storage_range tries source_ranges].
  - intros root l. unfold accounts_at. destruct (bool_decide (root = state_root)); [by apply same_leaves|done].
  - intros root start stop l. by apply same_leaves.
  - intros root. unfold accounts_at. case_bool_decide; [|constructor]. apply PartitionWitnesses.sorted_check. by vm_compute.
  - intros root h r l. unfold slots_at. destruct (bool_decide (r = toy_root slots)); [by apply same_leaves|done].
  - intros root h r start stop l. by apply same_leaves.
  - intros root h r. unfold slots_at. case_bool_decide; [|constructor]. apply PartitionWitnesses.sorted_check. by vm_compute.
Qed.

#[export] Instance migrated_nodes : NodeReader := {| account_nodes root := [([], root)]; storage_nodes _ _ root := [([x07], root)] |}.

Definition events : list partition_event :=
  map EvOpen (seq 0 16) ++
  [EvRead 6; EvRead 6; EvAcquire 6; EvFill 6; EvFill 6; EvReceive 6 1; EvWork 6 0 (reverse (seq 0 16)); EvReceive 6 0; EvEndBurst 6] ++
  map EvRead (seq 0 16) ++ map EvClose (reverse (seq 0 16)).

Definition no_ovm : OVMOptions := MkOVMOptions false "" "" "" "" "" "".
Definition migrate_options : MigrateOptions := MkMigrateOptions "" "/data/chain" "/alias/out/artifact" PathScheme DBEngineLevelDB 2 no_ovm.

Definition sample_encode (r : DirectVerificationReport) : bytes :=
  hash_bytes (dr_RecomputedRoot r) ++ HeaderRLP_ (dr_Source r) ++ bytes_of_string (dr_Scheme r).
Definition sample_report : DirectVerificationReport :=
  with_direct_target (MkTargetConfig DBEngineLevelDB LayoutGeth)
    (newDirectVerificationReport 1 "v1" "v1.17.6" (MkSourceEvidence (MkHead 7 (keccak256 header) state_root) (MkHead 7 (keccak256 header) state_root) header)
      imported_state PathScheme).
Definition sample_decode (d : bytes) : result DirectVerificationReport :=
  if bool_decide (d = sample_encode sample_report ++ [x0a]) then Ok sample_report else Err (EMsg "report").

Definition unused_conversion (_ : MigrateOptions) : M (fsys * import_state) (MigrateResult unit) := fail (EMsg "conversion").
Definition run := Migrate tries SampleFs.os 1 "v1" "v1.17.6" mark_bytes sample_encode sample_decode sample_view unused_conversion migrate_options
  chain chain readCode events (SampleFs.disk, before) calm.
Definition after : fsys * import_state := run.1.2.
Definition result_of : MigrateResult unit := ok_or (newDirectMigrateResult "" sample_report) run.1.1.
(** The database as it was closed. *)
Definition migrated_db : store := tg_db (im_target after.2).
End SampleMigrate.

Module MigrateWitnesses.
Import Sample SampleChain SampleTarget ExportWitnesses SampleArtifact SampleImport SampleMigrate.

#[local] Strategy 100 [Migrate migrate_work].
#[local] Strategy -10 [SampleMigrate.run SampleMigrate.after].

Lemma migrate_sample_run :
  Migrate tries SampleFs.os 1 "v1" "v1.17.6" mark_bytes sample_encode sample_decode sample_view unused_conversion migrate_options
    chain chain readCode events (SampleFs.disk, before) calm = (Ok result_of, (after.1, after.2), run.2).
Proof. assert (Hr : run.1.1 = Ok result_of) by (by vm_compute). exact (ImportWitnesses.run_eta run result_of Hr). Qed.

Lemma migrated_size : N.of_nat (size migrated_db) < two64.
Proof. by vm_compute. Qed.

Lemma migrated_roots : is_Some (migrated_db !! node_key PathScheme (zero_hash, ([], state_root))) ∧
  is_Some (migrated_db !! node_key PathScheme (owner, ([x07], toy_root slots))) ∧ Forall (λ kv, kv.1 ≠ hash_bytes zero_hash) accounts.
Proof. split_and!; [apply (bool_decide_eq_true_1 _); by vm_compute..|]. apply (bool_decide_eq_true_1 _). by vm_compute. Qed.

#[export] Instance migrated_reader_laws : NodeReaderLaws migrated_db PathScheme.
Proof.
  destruct migrated_roots as (Ha & Hs & Hz). split; cbn [account_nodes storage_nodes account_iterator storage_iterator artifact_tries migrated_nodes].
  - intros root. split; [apply NoDup_singleton|]. by constructor.
  - intros root o r. split; [apply NoDup_singleton|]. by constructor.
  - intros root leaves. case_bool_decide as Hr; [|done]. subst root. intros [= <-]. split; [|exact Hz]. by constructor.
  - intros root o r leaves. case_bool_decide as Hr; [|done]. destruct Hr as [-> ->]. intros [= <-]. by constructor.
Qed.

Lemma migrate_events_ok : Forall event_ok events.
Proof.
  unfold events. repeat (apply Forall_app; split); try (by apply Forall_fmap, Forall_true).
  repeat first [apply Forall_nil_2 | apply Forall_cons_2; [first [exact I | cbn [event_ok]; first [reflexivity | apply reverse_Permutation]]|]].
Qed.

#[local] Strategy 100 [SampleMigrate.run SampleMigrate.after migrated_db].

Lemma migrate_exact_witness :
  ∃ source rlp es es' md, readLegacyHead chain = Ok (source, rlp) ∧ account_leaves es = accounts_at (StateRoot source) ∧
    state_counts es' = state_counts es ∧ holds_state PathScheme (StateRoot source) es' md migrated_db.
Proof.
  destruct (migrate_exact tries branch_root accounts_at slots_at SampleFs.os 1 "v1" "v1.17.6" mark_bytes sample_encode sample_decode sample_view
    unused_conversion migrate_options chain chain readCode events SampleFs.disk before calm result_of after.1 after.2 run.2)
    as (source & rlp & es & es' & md & report & final & [Hb _] & [Hl _] & _ & _ & (_ & Hc & _) & _ & Hx).
  - reflexivity.
  - exact SampleFs.disk_wf.
  - reflexivity.
  - intros l. unfold mark_bytes. lia.
  - exact migrated_size.
  - exact migrate_events_ok.
  - exact migrate_sample_run.
  - exists source, rlp, es, es', md. split; [exact Hb|]. split; [exact Hl|]. split; [exact Hc|exact Hx].
Defined.

End MigrateWitnesses.
