(* ===== verification/VerifyRun.v ===== *)
(** * Independent verification ([verify.go], [verify_workspace.go], [direct_verify.go])

    [Verify] scans a bundle and, given an artifact, verifies its database
    against the bundle; [VerifyDirect] traverses a legacy database and verifies
    an artifact against it. Both compare the stored report with what they
    recompute and read it again at the end. Scratch space for the node index is
    created on demand in a workspace outside the inputs and removed. *)

From S2P Require Import Prelude Sha256 Geth Instances Manifest StrictIO Records Scanner Bundle Account StateTrie Consumer StateBinding Stream Traverse AtomicDir Export DirectWriter OvmIndex Verify VerifyState Partition PartitionStorage Partitioned Report Import Migrate.

(** ** The workspace ([verify_workspace.go]) *)

(** A text names a parent directory; empty means unset. *)
Record verificationWorkspace := MkWorkspace { ws_parent : string; ws_inputs : list string; ws_path : option path }.

Definition set_ws_path (p : option path) (w : verificationWorkspace) : verificationWorkspace := MkWorkspace (ws_parent w) (ws_inputs w) p.

Section Workspace.
(** [tempDir] is [os.TempDir]. *)
Context (E : os_env) (tempDir : string).

Fixpoint reject_inputs (f : fsys) (inputs : list string) (p : path) : result unit :=
  match inputs with
  | [] => Ok ()
  | input :: inputs' =>
      _ ← (if bool_decide (input = ""%string) then Ok () else
             wrap_err "check verification scratch" (rejectOutputInsideDirectory E f input (path_text p)
               "verification temp-dir must be outside input directories" "verification temp-dir aliases an input directory"));
      reject_inputs f inputs' p
  end.
Definition rejectInputs (f : fsys) (w : verificationWorkspace) (p : path) : result unit := reject_inputs f (ws_inputs w) p.

Definition resolveParent (f : fsys) (w : verificationWorkspace) : result verificationWorkspace :=
  let parent := if bool_decide (ws_parent w = ""%string) then tempDir else ws_parent w in
  resolved ← wrap_err "resolve verification temp-dir" (resolve_links E f parent);
  info ← wrap_err "inspect verification temp-dir" (os_Stat f resolved);
  _ ← reject_if (match info with FDir _ => false | _ => true end) "verification temp-dir must be an existing directory";
  _ ← rejectInputs f w resolved;
  Ok (MkWorkspace (path_text resolved) (ws_inputs w) (ws_path w)).

Definition prepareVerificationWorkspace (f : fsys) (parent : string) (inputs : list string) : result verificationWorkspace :=
  let w := MkWorkspace parent inputs None in
  if bool_decide (parent = ""%string) then Ok w else resolveParent f w.

Definition workspace_Close : M (fsys * verificationWorkspace) unit :=
  s ← get;
  match ws_path s.2 with
  | None => mret ()
  | Some p =>
      _ ← wrap "remove verification workspace" (on_fst (RemoveAll E p));
      modify (λ s, (s.1, set_ws_path None s.2))
  end.

Definition workspace_create : M (fsys * verificationWorkspace) path :=
  _ ← poll;
  s ← get;
  match ws_path s.2 with
  | Some p => mret p
  | None =>
      w ← lift (resolveParent s.1 s.2);
      _ ← modify (λ s, (s.1, w));
      parent ← lift (path_abs (os_cwd E) (ws_parent w));
      p ← wrap "create verification workspace" (on_fst (MkdirTemp E parent ".l2state-verify-"));
      _ ← modify (λ s, (s.1, set_ws_path (Some p) s.2));
      s ← get;
      match rejectInputs s.1 s.2 p with
      | Ok _ => mret p
      | Err e =>
          c ← attempt workspace_Close;
          match c with Ok _ => fail e | Err e' => fail (EJoin e e') end
      end
  end.

(** The parent of the node index; only the hash scheme on disk needs one. *)
Definition workspace_nodeIndex (mode scheme : string) : M (fsys * verificationWorkspace) (option path) :=
  if bool_decide (TempDBMode_normalized mode = TempDBDisk) && bool_decide (scheme = HashScheme)
  then p ← workspace_create; mret (Some p)
  else mret None.

End Workspace.

(** ** Verification against a bundle *)

Record VerifyOptions := MkVerifyOptions { vo_TempDir : string; vo_TempDB : string; vo_Bundle : string; vo_Artifact : string }.

(** What is read of an artifact: its report, its layout, its report again, and
    the content of its database. *)
Record artifact_input := MkArtifactInput { ai_report : artifact_view; ai_layout : artifact_view; ai_again : artifact_view; ai_db : store }.

(** The workspace and the verifier of a database. *)
Definition verify_state : Type := verificationWorkspace * verifier.

Section VerifyOperation.
Context `{Keccak, EmptyHashes, AccountRLP, RLPSplit, StackTrie, TrieReader, NodeReader, HeaderRLP, Zstd}.
Context `{RawdbKeys, BatchSize, SlimRLP, HeadDB, PathDB, ArtifactKeys}.
Context (E : os_env) (tempDir : string) (now : N) (tool geth : string) (batchLen : list Hash → N).

Definition on_workspace {A} (m : M (fsys * verificationWorkspace) A) : M (fsys * verify_state) A :=
  zoom (λ s, (s.1, s.2.1)) (λ x s, (x.1, (x.2, s.2.2))) m.
Definition on_verifying {A} (m : M verifier A) : M (fsys * verify_state) A := zoom (λ s, s.2.2) (λ v s, (s.1, (s.2.1, v))) m.

(** The deferred close of the workspace around [body]. *)
Definition with_workspace {A} (w : verificationWorkspace) (body : M (fsys * verify_state) A) : M (fsys * verifier) A :=
  s ← get;
  '(r, (f, (w, v))) ← run_on body (s.1, (w, s.2));
  '(c, (f, _)) ← run_on (workspace_Close E) (f, w);
  _ ← modify (λ _, (f, v));
  match r, c with
  | Ok x, Ok _ => mret x
  | Ok _, Err e => fail e
  | Err e, Ok _ => fail e
  | Err e, Err e' => fail (EJoin e e')
  end.

Definition verify_artifact (decode : bytes → result VerificationReport) (opts : VerifyOptions) (a : artifact_input)
    (stored : VerificationReport) (bundleResult : BundleResult) : M (fsys * verify_state) VerificationReport :=
  _ ← lift (compareStoredReport stored bundleResult);
  target ← lift (reportTarget (rp_DBEngine stored) (rp_StateLayout stored) (rp_Scheme stored));
  _ ← on_workspace (workspace_nodeIndex E tempDir (vo_TempDB opts) (rp_Scheme stored));
  state ← on_verifying (verifyTargetDatabase batchLen (ai_db a) (rp_Scheme stored) (Source (br_Manifest bundleResult)) (br_State bundleResult) []);
  _ ← lift (reject_if (negb (bool_decide (state = br_State bundleResult))) "artifact state result mismatch");
  _ ← validateArtifactLayout (ai_layout a);
  storedAfter ← wrap "re-read artifact verification report" (loadVerificationReport decode (ai_again a));
  _ ← lift (reject_if (negb (bool_decide (storedAfter = stored))) "artifact verification report changed during verification");
  mret (with_target target (newVerificationReport now tool geth bundleResult (rp_Scheme stored))).

(** The stored report of an artifact, if one is to be verified. *)
Definition load_stored (decode : bytes → result VerificationReport) (opts : VerifyOptions) (a : artifact_input)
    : M (fsys * verifier) (option VerificationReport) :=
  if bool_decide (vo_Artifact opts = ""%string) then mret None else
  stored ← loadVerificationReport decode (ai_report a);
  _ ← lift (reject_if (negb (known_scheme (rp_Scheme stored))) "artifact report has invalid database scheme");
  mret (Some stored).

Definition Verify (decode : bytes → result VerificationReport) (opts : VerifyOptions) (b : bundle_input) (a : artifact_input)
    : M (fsys * verifier) VerificationReport :=
  _ ← lift (TempDBMode_validate (vo_TempDB opts));
  _ ← lift (reject_if (bool_decide (vo_Bundle opts = ""%string)) "bundle path is required");
  stored ← load_stored decode opts a;
  s ← get;
  w ← lift (prepareVerificationWorkspace E tempDir s.1 (vo_TempDir opts) [vo_Bundle opts; vo_Artifact opts]);
  with_workspace w (
    '(r, _) ← run_on (scanBundle (V:=unit) (bi_before b) (bi_opened b) (bi_dir b) (bi_dir' b) (bi_loaded b) (bi_reloaded b) None None true) ();
    bundleResult ← lift r;
    match stored with
    | None => mret (newVerificationReport now tool geth bundleResult BundleScheme)
    | Some stored => verify_artifact decode opts a stored bundleResult
    end).

End VerifyOperation.

(** ** Verification against a legacy database *)

Record DirectVerifyOptions := MkDirectVerifyOptions { do_TempDir : string; do_TempDB : string; do_SourceChaindata : string; do_Artifact : string }.

Section VerifyDirectOperation.
Context `{Keccak, EmptyHashes, AccountRLP, RLPSplit, StackTrie, HeaderRLP}.
Context (source_tries : TrieReader) {target_tries : TrieReader} `{NodeReader}.
Context `{RawdbKeys, BatchSize, SlimRLP, HeadDB, PathDB, ArtifactKeys}.
Context (E : os_env) (tempDir : string) (now : N) (tool geth : string) (batchLen : list Hash → N).
Context (decode : bytes → result DirectVerificationReport).

(** From the traversal of the open source to the report. *)
Definition verify_direct_body (opts : DirectVerifyOptions) (a : artifact_input) (after : chain_view) (readCode : Hash → result bytes)
    (stored : DirectVerificationReport) : M (fsys * (verify_state * legacySource)) DirectVerificationReport :=
  source ← gets (λ s, s.2.2);
  '(r, _) ← run_on (legacy_Traverse (H6:=source_tries) (V:=unit) None None readCode (StateRoot (ls_head source))) ();
  stateResult ← lift r;
  sourceEvidence ← zoom (λ s, s.2.2) (λ l s, (s.1, (s.2.1, l))) (ConfirmStableAndClose after);
  _ ← lift (reject_if (negb (sameSourceEvidence (dr_Source stored) sourceEvidence) ||
                       negb (bool_decide (dr_Counts stored = st_Counts stateResult)) ||
                       negb (bool_decide (dr_RecomputedRoot stored = st_Root stateResult)))
              "direct artifact report evidence does not match the legacy source");
  target ← lift (reportTarget (dr_DBEngine stored) (dr_StateLayout stored) (dr_Scheme stored));
  zoom (λ s, (s.1, s.2.1)) (λ x s, (x.1, (x.2, s.2.2))) (
    _ ← on_workspace (workspace_nodeIndex E tempDir (do_TempDB opts) (dr_Scheme stored));
    dbState ← on_verifying (verifyTargetDatabase batchLen (ai_db a) (dr_Scheme stored) sourceEvidence stateResult []);
    _ ← lift (reject_if (negb (bool_decide (dbState = stateResult))) "artifact state result mismatch");
    _ ← validateArtifactLayout (ai_layout a);
    storedAfter ← wrap "re-read direct verification report" (loadDirectVerificationReport decode (ai_again a));
    _ ← lift (reject_if (negb (sameDirectVerificationReport storedAfter stored)) "direct verification report changed during verification");
    mret (with_direct_target target (newDirectVerificationReport now tool geth sourceEvidence stateResult (dr_Scheme stored)))).

(** The source, with its deferred close. *)
Definition verify_direct_source (opts : DirectVerifyOptions) (a : artifact_input) (before after : chain_view) (readCode : Hash → result bytes)
    (stored : DirectVerificationReport) : M (fsys * verify_state) DirectVerificationReport :=
  source ← openLegacySource before;
  s ← get;
  '(r, (f, (x, source))) ← run_on (verify_direct_body opts a after readCode stored) (s.1, (s.2, source));
  _ ← modify (λ _, (f, x));
  '(c, _) ← run_on legacy_Close source;
  match r, c with
  | Ok report, Ok _ => mret report
  | Ok _, Err e => fail (EWrap "close legacy source database" e)
  | Err e, Ok _ => fail e
  | Err e, Err e' => fail (EJoin e (EWrap "close legacy source database" e'))
  end.

Definition VerifyDirect (opts : DirectVerifyOptions) (a : artifact_input) (before after : chain_view) (readCode : Hash → result bytes)
    : M (fsys * verifier) DirectVerificationReport :=
  _ ← lift (TempDBMode_validate (do_TempDB opts));
  _ ← lift (reject_if (bool_decide (do_SourceChaindata opts = ""%string)) "source chaindata path is required");
  _ ← lift (reject_if (bool_decide (do_Artifact opts = ""%string)) "artifact path is required for direct verification");
  stored ← loadDirectVerificationReport decode (ai_report a);
  s ← get;
  w ← lift (prepareVerificationWorkspace E tempDir s.1 (do_TempDir opts) [do_SourceChaindata opts; do_Artifact opts]);
  with_workspace E w (verify_direct_source opts a before after readCode stored).

End VerifyDirectOperation.

(** ** What verification does to the file system *)

Section WorkspaceLemmas.
Context (E : os_env) (tempDir : string) (f0 : fsys) (Hwf : fs_wf f0).

(** Nothing that existed has changed, and scratch space is new. *)
Definition scratch (s : fsys * verificationWorkspace) : Prop :=
  fs_grown f0 s.1 ∧ match ws_path s.2 with Some p => f0 p = None | None => True end.

Lemma on_fst_scratch {A} (m : M fsys A) : keeps (fs_grown f0) m → keeps scratch (on_fst m).
Proof.
  intros Hm [f w] wd [Hg Hp]. unfold on_fst, zoom. specialize (Hm f wd Hg). cbn in *. by destruct (m f wd) as [[r f'] wd'].
Qed.

Lemma workspace_Close_scratch : keeps scratch (workspace_Close E).
Proof.
  unfold workspace_Close. apply keeps_bind_post; [apply keeps_get|]. intros s wd a s' wd' Hs Hget. minv.
  destruct Hs as [_ Hp]. destruct (ws_path s.2) as [p|]; [|apply keeps_ret].
  apply keeps_bind; [apply keeps_wrap, on_fst_scratch, RemoveAll_grown; done|intros _].
  apply keeps_modify. intros [f w] [Hg _]. done.
Qed.

Lemma resolveParent_path f w w' : resolveParent E tempDir f w = Ok w' → ws_path w' = ws_path w.
Proof. unfold resolveParent. intros Hr. by minv. Qed.

Lemma workspace_create_scratch : keeps scratch (workspace_create E tempDir).
Proof.
  unfold workspace_create. apply keeps_bind; [apply keeps_poll|intros _].
  apply keeps_bind_post; [apply keeps_get|]. intros s wd a s' wd' Hs Hget. minv.
  destruct (ws_path s.2) as [p|] eqn:Ep; [apply keeps_ret|].
  apply keeps_bind_post; [apply keeps_lift|]. intros s1 w1 w s1' w1' _ Hw. minv.
  match goal with Hx : resolveParent _ _ _ _ = Ok _ |- _ => apply resolveParent_path in Hx; rewrite Ep in Hx; rename Hx into Hpw end.
  apply keeps_bind; [apply keeps_modify; intros [f x] [Hg _]; split; [done|by rewrite /= Hpw]|intros _].
  apply keeps_bind; [apply keeps_lift|intros parent].
  apply keeps_bind_post; [apply keeps_wrap, on_fst_scratch, MkdirTemp_grown|].
  intros [f x] w2 p s2 w2' [[Hext _] _] Hm. unfold on_fst in Hm. minv. cbn [fst snd] in *.
  match goal with Hx : MkdirTemp _ _ _ _ _ = _ |- _ => apply MkdirTemp_ok in Hx as (_ & _ & Hfree & _) end.
  assert (Hnew : f0 p = None) by (destruct (f0 p) eqn:E0; [|done]; apply Hext in E0; congruence).
  apply keeps_bind; [apply keeps_modify; by intros [f1 x1] [Hg _]|intros _].
  apply keeps_bind; [apply keeps_get|intros s3]. destruct (rejectInputs _ _ _ _); [apply keeps_ret|].
  apply keeps_bind; [apply keeps_attempt, workspace_Close_scratch|intros [|]; apply keeps_fail].
Qed.

(** After a success, the only difference is the workspace. *)
Lemma workspace_nodeIndex_ok mode scheme w wd r f w' wd' :
  ws_path w = None → workspace_nodeIndex E tempDir mode scheme (f0, w) wd = (Ok r, (f, w'), wd') →
  match ws_path w' with None => f = f0 | Some p => f0 p = None ∧ ∃ e, f = fs_put p e f0 end.
Proof.
  intros Hn Hr. unfold workspace_nodeIndex in Hr. destruct (_ && _); minv; [|simplify_eq; by rewrite Hn].
  match goal with Hx : workspace_create _ _ _ _ = _ |- _ => rename Hx into Hc end.
  unfold workspace_create in Hc. mstep Hc. minv. cbn [fst snd] in *. rewrite Hn in Hc. unfold on_fst in Hc. minv. cbn [fst snd] in *.
  match goal with Hx : MkdirTemp _ _ _ _ _ = _ |- _ => apply MkdirTemp_ok in Hx as (_ & _ & Hfree & ->) end.
  destruct (rejectInputs _ _ _ _); [|mcases]. minv. simplify_eq. cbn. eauto.
Qed.

Lemma workspace_Close_ok f w wd u f' w' wd' :
  match ws_path w with None => f = f0 | Some p => f0 p = None ∧ ∃ e, f = fs_put p e f0 end →
  workspace_Close E (f, w) wd = (Ok u, (f', w'), wd') → ∀ q, f' q = f0 q.
Proof.
  intros Hs Hr q. unfold workspace_Close in Hr. minv. cbn [fst snd] in *.
  destruct (ws_path w) as [p|]; [|by minv; simplify_eq]. destruct Hs as [Hp [e ->]]. unfold on_fst in Hr. minv.
  match goal with Hx : RemoveAll _ _ _ _ = _ |- _ => apply RemoveAll_ok in Hx end. simplify_eq. cbn. by apply fs_put_remove.
Qed.

End WorkspaceLemmas.

Lemma prepareVerificationWorkspace_path E tempDir f parent inputs w : prepareVerificationWorkspace E tempDir f parent inputs = Ok w → ws_path w = None.
Proof. unfold prepareVerificationWorkspace. case_bool_decide; [by intros [= <-]|]. by intros ->%resolveParent_path. Qed.

Lemma with_workspace_ok {A} E w (body : M (fsys * verify_state) A) f v wd x f' v' wd' :
  with_workspace E w body (f, v) wd = (Ok x, (f', v'), wd') →
  ∃ f1 w1 wd1 u w2 wd2, body (f, (w, v)) wd = (Ok x, (f1, (w1, v')), wd1) ∧ workspace_Close E (f1, w1) wd1 = (Ok u, (f', w2), wd2).
Proof.
  unfold with_workspace. intros Hr. mstep Hr. mstep Hr.
  match goal with x : result A * _ |- _ => destruct x as [r [f1 [w1 v1]]] end. mstep Hr.
  match goal with x : result () * _ |- _ => destruct x as [c [f2 w2]] end. minv. cbn [fst snd] in *. mcases. simplify_eq. eauto 10.
Qed.

(** On every outcome nothing is changed but new directories. *)
Lemma with_workspace_keeps {A} E w (body : M (fsys * verify_state) A) f v :
  fs_wf f → ws_path w = None → keeps (λ s, scratch f (s.1, s.2.1)) body → ∀ wd, fs_grown f (with_workspace E w body (f, v) wd).1.2.1.
Proof.
  intros Hwf Hw Hb wd. specialize (Hb (f, (w, v)) wd). unfold with_workspace, mbind, M_bind, get, run_on, modify, fail, mret, M_ret. cbn [fst snd] in *.
  destruct (body (f, (w, v)) wd) as [[r [f1 [w1 v1]]] wd1]. cbn [fst snd] in Hb.
  assert (Hs : scratch f (f1, w1)) by (apply Hb; split; [apply fs_grown_refl|by rewrite /= Hw]).
  pose proof (workspace_Close_scratch E f Hwf (f1, w1) wd1 Hs) as Hc.
  destruct (workspace_Close E (f1, w1) wd1) as [[c [f2 w2]] wd2]. destruct Hc as [Hc _]. cbn [fst snd] in *. by destruct r, c.
Qed.

(** Code that leaves the state alone, followed by code that establishes [Q]. *)
Lemma same_then {St A B} (m : M St A) (k : A → M St B) s wd (Q : St → Prop) :
  keeps (λ x, x = s) m → Q s → (∀ a wd', Q (k a s wd').1.2) → Q ((m ≫= k) s wd).1.2.
Proof.
  intros Hm Hs Hk. unfold mbind, M_bind. specialize (Hm s wd eq_refl). destruct (m s wd) as [[[a|e] s1] wd1]; cbn in Hm; subst; [apply Hk|done].
Qed.

(** ** The theorems *)

Section VerifyTheorems.
Context `{Keccak, EmptyHashes, AccountRLP, !AccountRLPLaws, RLPSplit, StackTrie, TrieReader, NodeReader, HeaderRLP, Zstd}.
Context `{RawdbKeys, !RawdbKeysLaws, BatchSize, SlimRLP, !SlimRLPLaws, HeadDB, !HeadDBLaws, PathDB, ArtifactKeys, !ArtifactKeysLaws}.
Context (trie_root : list (bytes * bytes) → Hash) `{!StackTrieLaws trie_root}.
Context (E : os_env) (tempDir : string) (now : N) (tool geth : string) (batchLen : list Hash → N).

(** The report of an artifact, as strict reading finds it. *)
Definition report_read {T} (decode : bytes → result T) (v : artifact_view) (report : T) : Prop :=
  RequireExactLayout (av_dir v) artifact_layout = Ok () ∧
  ∃ node, av_dir' v !! VerificationFileName = Some node ∧ fi_mode (dn_info node) = ModeRegular ∧ decode (dn_content node) = Ok report.

Lemma validateArtifactLayout_ok {St} v (s : St) wd u s' wd' :
  validateArtifactLayout v s wd = (Ok u, s', wd') → s' = s ∧ RequireExactLayout (av_dir v) artifact_layout = Ok ().
Proof.
  intros Hr. split.
  - refine (keeps_run _ _ _ _ _ _ _ (with_root_keeps (λ x, x = s) v _ _) Hr eq_refl). apply keeps_lift.
  - unfold validateArtifactLayout, with_root, require_layout in Hr. by mcases.
Qed.

Lemma verifyTargetDatabase_ok db scheme source expected extra v wd res v' wd' :
  verifyTargetDatabase batchLen db scheme source expected extra v wd = (Ok res, v', wd') →
  ∃ w1 v1 w2, verifyOpenedTarget batchLen db scheme source expected extra v w1 = (Ok res, v1, w2).
Proof. unfold verifyTargetDatabase. intros Hr. mcases. eauto. Qed.

Lemma compareStoredReport_ok stored r :
  compareStoredReport stored r = Ok () →
  rp_ManifestSHA256 stored = br_ManifestSHA256 r ∧ rp_StateFileSHA256 stored = scan_FileSHA256 (br_Records r) ∧
  rp_RecordChainHash stored = scan_RecordChainHash (br_Records r) ∧ rp_Head stored = HeadBefore (Source (br_Manifest r)) ∧
  rp_Counts stored = st_Counts (br_State r) ∧ rp_RecomputedRoot stored = st_Root (br_State r).
Proof.
  unfold compareStoredReport. intros Hr. minv.
  repeat match goal with
  | Hx : _ || _ = false |- _ => apply orb_false_iff in Hx as [? ?]
  | Hx : negb _ = false |- _ => apply negb_false_iff in Hx
  | Hx : bool_decide _ = true |- _ => apply bool_decide_eq_true in Hx
  end. by split_and!.
Qed.

(** What the verification of an artifact against a scanned bundle establishes. *)
Lemma verify_artifact_ok decode opts a stored r f w v wd res f' w' v' wd' :
  ws_path w = None → fs_wf f →
  verify_artifact E tempDir now tool geth batchLen decode opts a stored r (f, (w, v)) wd = (Ok res, (f', (w', v')), wd') →
  compareStoredReport stored r = Ok () ∧ rp_Scheme res = rp_Scheme stored ∧
  RequireExactLayout (av_dir (ai_layout a)) artifact_layout = Ok () ∧ report_read decode (ai_again a) stored ∧
  (∃ v1 w1 v2 w2, verifyOpenedTarget batchLen (ai_db a) (rp_Scheme stored) (Source (br_Manifest r)) (br_State r) [] v1 w1 = (Ok (br_State r), v2, w2)) ∧
  match ws_path w' with None => f' = f | Some p => f p = None ∧ ∃ e, f' = fs_put p e f end.
Proof.
  intros Hw Hwf Hr. unfold verify_artifact, on_workspace, on_verifying in Hr. minv. cbn [fst snd] in *.
  repeat match goal with Hx : negb (bool_decide (?x = _)) = false |- _ => apply negb_false_iff, bool_decide_eq_true in Hx; subst x end.
  match goal with Hx : workspace_nodeIndex _ _ _ _ _ _ = (_, ?y, _) |- _ => destruct y as [f1 w1]; apply (workspace_nodeIndex_ok _ _ _) in Hx; [|done] end.
  match goal with Hx : validateArtifactLayout _ _ _ = _ |- _ => apply validateArtifactLayout_ok in Hx as [-> Hlay] end.
  match goal with Hx : loadVerificationReport _ _ _ _ = _ |- _ => apply loadArtifactJSON_ok in Hx as (Heq & _ & Hagain) end.
  match goal with Hx : verifyTargetDatabase _ _ _ _ _ _ _ _ = _ |- _ => apply verifyTargetDatabase_ok in Hx as (wv & v1 & wv' & Hv) end.
  cbn [fst snd] in Heq. simplify_eq. split_and!; try done. by exists v, wv, v1, wv'.
Qed.

(** C5: A successful verification of an artifact against a bundle means that
    both hold one state. The bundle is the serialization of a well-formed state
    with the manifest's root and counts; the stored report is valid, is the
    same when it is read again, and carries the bundle's digests, head, counts
    and root; the directory holds the database and the report only; and the
    database holds exactly the head metadata, the snapshot metadata, the flat
    entries and codes of a well-formed state of that root and those counts, and
    trie nodes reached from the root. This state is the bundle's, unless the
    two collide. The file system is as before. *)
Theorem verify_exact decode opts b a f v wd res f' v' wd' `{!NodeReaderLaws (ai_db a) (rp_Scheme res)} :
  vo_Artifact opts ≠ ""%string → fs_wf f → (∀ l, batchLen l = 0 → l = []) → N.of_nat (size (ai_db a)) < two64 →
  (∀ m mb node, bi_loaded b = Ok (m, mb) → bi_dir b !! Name (mStateFile m) = Some node → N.of_nat (length (r_data (stream_of m node))) < two64) →
  Verify E tempDir now tool geth batchLen decode opts b a (f, v) wd = (Ok res, (f', v'), wd') →
  ∃ m mb node es es' md stored, let root := StateRoot (HeadBefore (Source m)) in
    (bi_loaded b = Ok (m, mb) ∧ bi_dir b !! Name (mStateFile m) = Some node ∧
     r_data (stream_of m node) = encode_stream (state_records es) ∧ state_wf es root ∧ state_counts es = mCounts m) ∧
    (report_read decode (ai_report a) stored ∧ report_read decode (ai_again a) stored ∧ Report_Validate stored = Ok () ∧
     rp_Head stored = HeadBefore (Source m) ∧ rp_Counts stored = mCounts m ∧ rp_RecomputedRoot stored = root ∧ rp_Scheme stored = rp_Scheme res) ∧
    RequireExactLayout (av_dir (ai_layout a)) artifact_layout = Ok () ∧
    (state_wf es' root ∧ state_counts es' = state_counts es ∧ (es' = es ∨ state_collision trie_root es' es)) ∧
    expectedHeadMetadata (Source m) = Ok md ∧ holds_state (rp_Scheme res) root es' md (ai_db a) ∧
    ∀ q, f' q = f q.
Proof.
  intros Hart Hwf Hbl Hsize Hb Hr. unfold Verify, load_stored in Hr. rewrite bool_decide_eq_false_2 // in Hr. mstep Hr. mstep Hr. mstep Hr. mstep Hr.
  minv. match goal with Hx : loadVerificationReport _ _ _ _ = (Ok ?x, _, _) |- _ => rename x into stored; apply loadArtifactJSON_ok in Hx as (-> & Hval & Hread) end.
  match goal with Hx : prepareVerificationWorkspace _ _ _ _ _ = _ |- _ => apply prepareVerificationWorkspace_path in Hx as Hw end.
  apply with_workspace_ok in Hr as (f1 & w1 & wd1 & u & w2 & wd2 & Hr & Hclose). mstep Hr.
  match goal with x : result BundleResult * unit |- _ => destruct x as [r []] end. minv. cbn [fst snd] in *.
  apply verify_artifact_ok in Hr as (Hcmp & Hsch & Hlay & Hagain & (v1 & wa & v2 & wb & Hv) & Hws); [|done|done].
  match goal with Hx : scanBundle _ _ _ _ _ _ _ _ _ _ _ = _ |- _ => rename Hx into Hscan end.
  destruct (bi_loaded b) as [[m mb]|e] eqn:Hl; [|unfold scanBundle in Hscan; by minv].
  destruct (scanBundle_accepted _ _ _ _ _ _ _ _ _ _ _ _ _ _ _ Hscan (λ node, Hb m mb node eq_refl))
    as (node & es & Hn & Hdata & Hsw & Hsv & Hst & Hcnt & Hm & _).
  rewrite Hsch in NodeReaderLaws0 |- *. rewrite Hst Hm in Hv.
  destruct (verified_holds trie_root batchLen _ _ _ _ _ _ _ _ _ Hbl Hsize Hv) as (_ & es' & md & Hsw' & Hsv' & Hcnt' & Hmd & Hx).
  apply compareStoredReport_ok in Hcmp as (_ & _ & _ & Hhead & Hcounts & Hroot). rewrite Hst ?Hm in Hhead, Hcounts, Hroot. cbn [st_Root st_Counts] in *.
  exists m, mb, node, es, es', md, stored. cbv zeta. split; [by split_and!|]. split; [by split_and!|]. split; [done|].
  split; [split; [done|]; split; [congruence|]; by eapply state_bind|]. split; [done|]. split; [done|].
  by eapply workspace_Close_ok.
Qed.

Lemma on_verifying_scratch {A} f (m : M verifier A) : keeps (λ s, scratch f (s.1, s.2.1)) (on_verifying m).
Proof. intros [g [w v]] wd Hs. unfold on_verifying, zoom. cbn in *. by destruct (m v wd) as [[r v'] wd']. Qed.

Lemma on_workspace_scratch {A} f (m : M (fsys * verificationWorkspace) A) :
  keeps (scratch f) m → keeps (λ s, scratch f (s.1, s.2.1)) (on_workspace m).
Proof.
  intros Hm [g [w v]] wd Hs. unfold on_workspace, zoom. specialize (Hm (g, w) wd Hs). cbn in *. by destruct (m (g, w) wd) as [[r [g' w']] wd'].
Qed.

Lemma workspace_nodeIndex_scratch f mode scheme : fs_wf f → keeps (scratch f) (workspace_nodeIndex E tempDir mode scheme).
Proof.
  intros Hwf. unfold workspace_nodeIndex. destruct (_ && _); [|apply keeps_ret].
  apply keeps_bind; [by apply workspace_create_scratch|intros p; apply keeps_ret].
Qed.

Lemma verify_artifact_scratch f decode opts a stored r : fs_wf f →
  keeps (λ s, scratch f (s.1, s.2.1)) (verify_artifact E tempDir now tool geth batchLen decode opts a stored r).
Proof.
  intros Hwf. unfold verify_artifact, loadVerificationReport, validateArtifactLayout.
  repeat first [apply on_verifying_scratch | apply on_workspace_scratch, workspace_nodeIndex_scratch, Hwf | apply loadArtifactJSON_keeps
    | apply with_root_keeps, keeps_lift | apply keeps_wrap | apply keeps_lift | apply keeps_ret | apply keeps_bind; [|intros ?]].
Qed.


End VerifyTheorems.

Section VerifyDirectTheorem.
Context `{Keccak, EmptyHashes, AccountRLP, !AccountRLPLaws, RLPSplit, StackTrie, HeaderRLP}.
Context (source_tries : TrieReader) {target_tries : TrieReader} `{NodeReader}.
Context `{RawdbKeys, !RawdbKeysLaws, BatchSize, SlimRLP, !SlimRLPLaws, HeadDB, !HeadDBLaws, PathDB, ArtifactKeys, !ArtifactKeysLaws}.
Context (trie_root : list (bytes * bytes) → Hash) `{!StackTrieLaws trie_root}.
Context (E : os_env) (tempDir : string) (now : N) (tool geth : string) (batchLen : list Hash → N).
Context (decode : bytes → result DirectVerificationReport).

(** What a verification has established about source and artifact. *)
Record direct_verified (a : artifact_input) (after : chain_view) (source : legacySource) (stored res : DirectVerificationReport) (es : list entry) : Prop := {
  dv_leaves : account_iterator (TrieReader:=source_tries) (StateRoot (ls_head source)) = Ok (account_leaves es, None);
  dv_wf : state_wf es (StateRoot (ls_head source));
  dv_values : values_nonempty es;
  dv_stable : readLegacyHead after = Ok (ls_head source, ls_headerRLP source);
  dv_stored : dr_Source stored = MkSourceEvidence (ls_head source) (ls_head source) (ls_headerRLP source) ∧
    dr_Counts stored = state_counts es ∧ dr_RecomputedRoot stored = StateRoot (ls_head source) ∧ dr_Scheme stored = dr_Scheme res;
  dv_layout : RequireExactLayout (av_dir (ai_layout a)) artifact_layout = Ok ();
  dv_again : report_read decode (ai_again a) stored;
  dv_opened : ∃ v1 w1 v2 w2, verifyOpenedTarget batchLen (ai_db a) (dr_Scheme stored) (dr_Source stored)
    (MkStateResult (StateRoot (ls_head source)) (state_counts es)) [] v1 w1 = (Ok (MkStateResult (StateRoot (ls_head source)) (state_counts es)), v2, w2)
}.

Lemma verify_direct_body_ok opts a after readCode stored f w v source wd res f' w' v' source' wd' :
  ws_path w = None →
  verify_direct_body source_tries E tempDir now tool geth batchLen decode opts a after readCode stored (f, (w, v, source)) wd =
    (Ok res, (f', (w', v', source')), wd') →
  (∃ es, direct_verified a after source stored res es) ∧
  match ws_path w' with None => f' = f | Some p => f p = None ∧ ∃ e, f' = fs_put p e f end.
Proof.
  intros Hw Hr. unfold verify_direct_body, on_workspace, on_verifying in Hr. mstep Hr. mstep Hr.
  match goal with x : result StateResult * unit |- _ => destruct x as [r []] end. minv. cbn [fst snd] in *.
  match goal with Hx : legacy_Traverse _ _ _ _ _ _ = _ |- _ => apply legacy_Traverse_traversed in Hx as (wt & Hx);
    apply (TraverseState_ok trie_root) in Hx as (es & Hl & Hsw & Hsv & -> & _) end.
  match goal with Hx : ConfirmStableAndClose _ _ _ = _ |- _ => apply ConfirmStableAndClose_ok in Hx as (-> & Hstable) end.
  match goal with Hx : _ || _ = false |- _ => rename Hx into Hev end.
  apply orb_false_iff in Hev as [[Hsame%negb_false_iff Hc%negb_false_iff]%orb_false_iff Hroot%negb_false_iff].
  apply sameSourceEvidence_eq in Hsame. apply bool_decide_eq_true in Hc, Hroot.
  match goal with Hx : negb (bool_decide (?x = _)) = false |- _ => apply negb_false_iff, bool_decide_eq_true in Hx; subst x end.
  match goal with Hx : negb (sameDirectVerificationReport ?x stored) = false |- _ =>
    apply negb_false_iff, sameDirectVerificationReport_eq in Hx; subst x end.
  match goal with Hx : workspace_nodeIndex _ _ _ _ _ _ = (_, ?y, _) |- _ => destruct y as [f1 w1]; apply (workspace_nodeIndex_ok _ _ _) in Hx; [|done] end.
  match goal with Hx : validateArtifactLayout _ _ _ = _ |- _ => apply validateArtifactLayout_ok in Hx as [-> Hlay] end.
  match goal with Hx : loadDirectVerificationReport _ _ _ _ = _ |- _ => apply loadArtifactJSON_ok in Hx as (-> & _ & Hagain) end.
  match goal with Hx : verifyTargetDatabase _ _ _ _ _ _ _ _ = _ |- _ => apply verifyTargetDatabase_ok in Hx as (wv & v1 & wv' & Hv) end.
  cbn [fst snd] in *. simplify_eq. split; [|done]. exists es. split; try done. rewrite Hsame. eauto 10.
Qed.

Lemma verify_direct_source_ok opts a before after readCode stored f w v wd res f' w' v' wd' :
  ws_path w = None →
  verify_direct_source source_tries E tempDir now tool geth batchLen decode opts a before after readCode stored (f, (w, v)) wd =
    (Ok res, (f', (w', v')), wd') →
  (∃ source es, readLegacyHead before = Ok (ls_head source, ls_headerRLP source) ∧ direct_verified a after source stored res es) ∧
  match ws_path w' with None => f' = f | Some p => f p = None ∧ ∃ e, f' = fs_put p e f end.
Proof.
  intros Hw Hr. unfold verify_direct_source in Hr. mstep Hr.
  match goal with Hx : openLegacySource _ _ _ = (Ok ?l, _, _) |- _ => rename l into source; apply openLegacySource_head in Hx as [-> Hbefore] end.
  mstep Hr. mstep Hr. match goal with x : result DirectVerificationReport * _ |- _ => destruct x as [r [f1 [[w1 v1] source1]]] end. mstep Hr. mstep Hr.
  match goal with x : result () * legacySource |- _ => destruct x as [c source2] end. minv. cbn [fst snd] in *. mcases. simplify_eq.
  match goal with Hx : verify_direct_body _ _ _ _ _ _ _ _ _ _ _ _ _ _ _ = _ |- _ => apply verify_direct_body_ok in Hx as [[es Hx] Hws]; [|done] end.
  split; [|done]. by exists source, es.
Qed.

(** C21: A successful verification of an artifact against a legacy database
    means that both hold one state. The head of the source did not move; the
    leaves of its account trie are the accounts of a well-formed state under
    the head's root; the stored report is valid, is the same when it is read
    again, and carries the source's head, root and counts; the directory holds
    the database and the report only; and the database holds exactly the head
    metadata, the snapshot metadata, the flat entries and codes of a well-formed
    state of that root and those counts, and trie nodes reached from the root.
    This state is the source's, unless the two collide. The file system is as
    before. *)
Theorem verify_direct_exact opts a before after readCode f v wd res f' v' wd' `{!NodeReaderLaws (ai_db a) (dr_Scheme res)} :
  fs_wf f → (∀ l, batchLen l = 0 → l = []) → N.of_nat (size (ai_db a)) < two64 →
  VerifyDirect source_tries E tempDir now tool geth batchLen decode opts a before after readCode (f, v) wd = (Ok res, (f', v'), wd') →
  ∃ source rlp es es' md stored, let root := StateRoot source in
    (readLegacyHead before = Ok (source, rlp) ∧ readLegacyHead after = Ok (source, rlp)) ∧
    (account_iterator (TrieReader:=source_tries) root = Ok (account_leaves es, None) ∧ state_wf es root) ∧
    (report_read decode (ai_report a) stored ∧ report_read decode (ai_again a) stored ∧ DirectReport_Validate stored = Ok () ∧
     dr_Source stored = MkSourceEvidence source source rlp ∧ dr_Counts stored = state_counts es ∧ dr_RecomputedRoot stored = root ∧
     dr_Scheme stored = dr_Scheme res) ∧
    RequireExactLayout (av_dir (ai_layout a)) artifact_layout = Ok () ∧
    (state_wf es' root ∧ state_counts es' = state_counts es ∧ (es' = es ∨ state_collision trie_root es' es)) ∧
    expectedHeadMetadata (dr_Source stored) = Ok md ∧ holds_state (dr_Scheme res) root es' md (ai_db a) ∧
    ∀ q, f' q = f q.
Proof.
  intros Hwf Hbl Hsize Hr. unfold VerifyDirect in Hr. minv.
  match goal with Hx : loadDirectVerificationReport _ _ _ _ = (Ok ?x, _, _) |- _ => rename x into stored; apply loadArtifactJSON_ok in Hx as (-> & Hval & Hread) end.
  match goal with Hx : prepareVerificationWorkspace _ _ _ _ _ = _ |- _ => apply prepareVerificationWorkspace_path in Hx as Hw end.
  apply with_workspace_ok in Hr as (f1 & w1 & wd1 & u & w2 & wd2 & Hr & Hclose).
  apply verify_direct_source_ok in Hr as [(source & es & Hbefore & [Hl Hsw Hsv Hstable (Hsrc & Hc & Hroot & Hsch) Hlay Hagain (v1 & wa & v2 & wb & Hv)]) Hws]; [|done].
  rewrite Hsch in Hv.
  destruct (verified_holds trie_root batchLen _ _ _ _ _ _ _ _ _ Hbl Hsize Hv) as (_ & es' & md & Hsw' & Hsv' & Hcnt' & Hmd & Hx).
  cbn [st_Root st_Counts] in *.
  exists (ls_head source), (ls_headerRLP source), es, es', md, stored. cbv zeta. split; [done|]. split; [done|]. split; [by split_and!|]. split; [done|].
  split; [split; [done|]; split; [done|]; by eapply state_bind|]. split; [done|]. split; [done|]. by eapply workspace_Close_ok.
Qed.

End VerifyDirectTheorem.

(** ** Samples: the artifacts of [Import.v] and [Migrate.v] *)

Module SampleVerify.
Import Sample SampleChain SampleTarget ExportWitnesses SampleArtifact SampleImport.

Definition artifact_dir (report : bytes) : directory :=
  <[artifactDatabaseDirName := MkDirNode (MkFileInfo ModeDir 0 8) [] None]>
    {[VerificationFileName := MkDirNode (MkFileInfo ModeRegular (Z.of_nat (length report)) 9) report None]}.
Definition artifact_view_of (report : bytes) : artifact_view := MkView (Ok dir_info) (Ok dir_info) (artifact_dir report) (artifact_dir report).
Definition artifact_of (report : bytes) (db : store) : artifact_input :=
  MkArtifactInput (artifact_view_of report) (artifact_view_of report) (artifact_view_of report) db.

Definition borrowed_scan := scanBundle (V:=()) (Ok dir_info) (Ok dir_info) exported_dir exported_dir (Ok (exported.1, [])) (Ok (exported.1, [])) None None true () calm.
Definition verify_options : VerifyOptions := MkVerifyOptions "" TempDBMemory "/data/chain" "/alias/out/artifact".
Definition sample_artifact : artifact_input := artifact_of (sample_encode sample_report ++ [x0a]) artifact.
Definition run := Verify SampleFs.os "/tmp" 2 "v2" "v1.17.6" mark_bytes sample_decode verify_options bundle sample_artifact (SampleFs.disk, fresh) calm.
Definition after : fsys * verifier := run.1.2.
Definition report : VerificationReport := ok_or sample_report run.1.1.
End SampleVerify.

Module VerifyRunWitnesses.
Import Sample SampleChain SampleTarget ExportWitnesses SampleArtifact SampleImport SampleVerify.

#[local] Strategy 100 [Verify with_workspace].
#[local] Strategy -10 [SampleVerify.run SampleVerify.after].

Lemma verify_sample_run :
  Verify SampleFs.os "/tmp" 2 "v2" "v1.17.6" mark_bytes sample_decode verify_options bundle sample_artifact (SampleFs.disk, fresh) calm =
  (Ok report, (after.1, after.2), run.2).
Proof. assert (Hr : run.1.1 = Ok report) by (by vm_compute). exact (ImportWitnesses.run_eta run report Hr). Qed.

Lemma report_scheme : rp_Scheme report = PathScheme.
Proof. by vm_compute. Qed.

#[export] Instance verify_reader_laws : NodeReaderLaws (ai_db sample_artifact) (rp_Scheme report).
Proof. rewrite report_scheme. exact artifact_reader_laws. Qed.

#[local] Strategy 100 [SampleVerify.run SampleVerify.after artifact].

Lemma verify_exact_witness :
  ∃ m mb es es' md, bi_loaded bundle = Ok (m, mb) ∧ state_wf es (StateRoot (HeadBefore (Source m))) ∧ state_counts es' = state_counts es ∧
    holds_state (rp_Scheme report) (StateRoot (HeadBefore (Source m))) es' md artifact.
Proof.
  destruct (verify_exact toy_root SampleFs.os "/tmp" 2 "v2" "v1.17.6" mark_bytes sample_decode verify_options bundle sample_artifact
    SampleFs.disk fresh calm report after.1 after.2 run.2)
    as (m & mb & node & es & es' & md & stored & (Hl & _ & _ & Hw & _) & _ & _ & (_ & Hc & _) & _ & Hx & _).
  - discriminate.
  - exact SampleFs.disk_wf.
  - intros l. unfold mark_bytes. lia.
  - exact artifact_size.
  - exact ImportWitnesses.sample_stream.
  - exact verify_sample_run.
  - exists m, mb, es, es', md. split; [exact Hl|]. split; [exact Hw|]. split; [exact Hc|exact Hx].
Defined.


Lemma root_determines_bundle_witness :
  ∃ es1 es2, state_records es1 = state_records es2 ∨ state_collision toy_root es1 es2.
Proof.
  destruct (root_determines_bundle (V:=()) (W:=()) toy_root (Ok dir_info) (Ok dir_info) exported_dir exported_dir exported.1 [] (Ok (exported.1, []))
    (Ok dir_info) (Ok dir_info) exported_dir exported_dir exported.1 [] (Ok (exported.1, [])) None None None None false true
    () () calm calm exported_scan (ok_or exported_scan borrowed_scan.1.1) () () calm borrowed_scan.2)
    as (node1 & node2 & es1 & es2 & _ & _ & [[Hr _]|Hc]).
  - exact exported_small.
  - exact exported_small.
  - by vm_compute.
  - by vm_compute.
  - reflexivity.
  - exists es1, es2. left. exact Hr.
  - exists es1, es2. right. exact Hc.
Defined.

End VerifyRunWitnesses.

Module SampleVerifyDirect.
Import Sample SampleChain SampleTarget ExportWitnesses SampleArtifact SampleImport SampleMigrate SampleVerify.

Definition direct_options : DirectVerifyOptions := MkDirectVerifyOptions "" TempDBMemory "/data/chain" "/alias/out/artifact".
Definition direct_artifact : artifact_input := artifact_of (SampleMigrate.sample_encode SampleMigrate.sample_report ++ [x0a]) migrated_db.
Definition run := VerifyDirect tries SampleFs.os "/tmp" 2 "v2" "v1.17.6" mark_bytes SampleMigrate.sample_decode direct_options direct_artifact
  chain chain readCode (SampleFs.disk, fresh) calm.
Definition after : fsys * verifier := run.1.2.
Definition direct_report : DirectVerificationReport := ok_or SampleMigrate.sample_report run.1.1.
End SampleVerifyDirect.

Module VerifyDirectWitnesses.
Import Sample SampleChain SampleTarget ExportWitnesses SampleArtifact SampleImport SampleMigrate SampleVerify SampleVerifyDirect.

#[local] Strategy 100 [VerifyDirect with_workspace].
#[local] Strategy -10 [SampleVerifyDirect.run SampleVerifyDirect.after].

Lemma verify_direct_run :
  VerifyDirect tries SampleFs.os "/tmp" 2 "v2" "v1.17.6" mark_bytes SampleMigrate.sample_decode direct_options direct_artifact
    chain chain readCode (SampleFs.disk, fresh) calm = (Ok direct_report, (after.1, after.2), run.2).
Proof. assert (Hr : run.1.1 = Ok direct_report) by (by vm_compute). exact (ImportWitnesses.run_eta run direct_report Hr). Qed.

Lemma direct_scheme : dr_Scheme direct_report = PathScheme.
Proof. by vm_compute. Qed.

#[export] Instance direct_reader_laws : NodeReaderLaws (ai_db direct_artifact) (dr_Scheme direct_report).
Proof. rewrite direct_scheme. exact MigrateWitnesses.migrated_reader_laws. Qed.

#[local] Strategy 100 [SampleVerifyDirect.run SampleVerifyDirect.after migrated_db].

Lemma verify_direct_exact_witness :
  ∃ source rlp es es' md, readLegacyHead chain = Ok (source, rlp) ∧ state_wf es (StateRoot source) ∧ state_counts es' = state_counts es ∧
    holds_state (dr_Scheme direct_report) (StateRoot source) es' md migrated_db.
Proof.
  destruct (verify_direct_exact tries branch_root SampleFs.os "/tmp" 2 "v2" "v1.17.6" mark_bytes SampleMigrate.sample_decode direct_options direct_artifact
    chain chain readCode SampleFs.disk fresh calm direct_report after.1 after.2 run.2)
    as (source & rlp & es & es' & md & stored & [Hb _] & [_ Hw] & _ & _ & (_ & Hc & _) & _ & Hx & _).
  - exact SampleFs.disk_wf.
  - intros l. unfold mark_bytes. lia.
  - exact MigrateWitnesses.migrated_size.
  - exact verify_direct_run.
  - exists source, rlp, es, es', md. split; [exact Hb|]. split; [exact Hw|]. split; [exact Hc|exact Hx].
Defined.

End VerifyDirectWitnesses.
