(* ===== verification/PruneRun.v ===== *)
(** * Pruning a database ([prune.go])

    [Prune] composes the keep set, the walk, the deletion and the checks around
    them: the state of the head is read into a keep database in a directory of
    its own, verified there, compared with the source, and everything
    content-addressed outside of it is deleted; then the database is closed,
    synced, reopened and read again. The state holds the file system, the
    database with its session, whether the deletion has started, and the result
    so far, which is returned with an error as well.

    The collection reads the source through [pruneRecordingDB]. Which records
    the trie library reads, and in which order, is an argument; what it does
    with a failing read does not matter, since the writer latches the failure
    and cancels the run. The theorems hold for any reads: what was collected is
    read again, from the keep database alone, before anything is deleted. *)

From S2P Require Import Prelude Sha256 Geth Instances Manifest StrictIO Records Scanner Bundle Account StateTrie Consumer StateBinding Stream Traverse AtomicDir Export DirectWriter OvmIndex OvmTransform Migrate PruneKeys PruneScan Prune PruneKeep Partition PartitionStorage PartitionRun PartitionResult Partitioned PruneDB.

(** ** Reading a database *)

(** go-ethereum's tries, code reader and chain accessors over a database, and
    what opening the trie of a genesis root finds. *)
Class StoreReaders := {
  store_tries : store → TrieReader;
  store_ranges : store → RangeReader;
  store_kv : store → KVReader;
  store_chain : store → chain_view;
  store_genesis : store → Hash → result bool
}.

(** Over each database, an iteration without error yields the leaves of a trie. *)
Class StoreReadersLaws `{StoreReaders} (account_trie : store → Hash → list (bytes * bytes))
    (storage_trie : store → Hash → Hash → Hash → list (bytes * bytes)) : Prop :=
  store_laws db : RangeReaderLaws (H:=store_tries db) (H0:=store_ranges db) (account_trie db) (storage_trie db).

(** ** Data *)

Record PruneResult := MkPruneResult {
  pn_ToolVersion : string;
  pn_Head : Head;
  pn_GenesisRoot : Hash;
  pn_DryRun : bool;
  pn_Compacted : bool;
  pn_Verified : bool;
  pn_StateCounts : Counts;
  pn_RetainedState : PruneKVCount;
  pn_Protected : PruneKVCount;
  pn_Candidates : PruneKVCount;
  pn_Deleted : PruneKVCount;
  pn_Unknown : PruneKVCount;
  pn_ProtectedDigest : Hash
}.

Definition zero_head : Head := MkHead 0 zero_hash zero_hash.
Definition new_result (tool : string) (head : Head) (genesis : Hash) (dryRun : bool) : PruneResult :=
  MkPruneResult tool head genesis dryRun false false zero_counts kv_zero kv_zero kv_zero kv_zero kv_zero zero_hash.
Definition zero_result : PruneResult := new_result "" zero_head zero_hash false.

Definition set_StateCounts (c : Counts) (r : PruneResult) : PruneResult :=
  MkPruneResult (pn_ToolVersion r) (pn_Head r) (pn_GenesisRoot r) (pn_DryRun r) (pn_Compacted r) (pn_Verified r) c
    (pn_RetainedState r) (pn_Protected r) (pn_Candidates r) (pn_Deleted r) (pn_Unknown r) (pn_ProtectedDigest r).
Definition set_inventory (i : pruneInventory) (r : PruneResult) : PruneResult :=
  MkPruneResult (pn_ToolVersion r) (pn_Head r) (pn_GenesisRoot r) (pn_DryRun r) (pn_Compacted r) (pn_Verified r) (pn_StateCounts r)
    (inv_Keep i) (inv_Protected i) (inv_Candidates i) (pn_Deleted r) (inv_Unknown i) (inv_Digest i).
Definition set_Deleted (c : PruneKVCount) (r : PruneResult) : PruneResult :=
  MkPruneResult (pn_ToolVersion r) (pn_Head r) (pn_GenesisRoot r) (pn_DryRun r) (pn_Compacted r) (pn_Verified r) (pn_StateCounts r)
    (pn_RetainedState r) (pn_Protected r) (pn_Candidates r) c (pn_Unknown r) (pn_ProtectedDigest r).
Definition set_Compacted (r : PruneResult) : PruneResult :=
  MkPruneResult (pn_ToolVersion r) (pn_Head r) (pn_GenesisRoot r) (pn_DryRun r) true (pn_Verified r) (pn_StateCounts r)
    (pn_RetainedState r) (pn_Protected r) (pn_Candidates r) (pn_Deleted r) (pn_Unknown r) (pn_ProtectedDigest r).
Definition set_Verified (r : PruneResult) : PruneResult :=
  MkPruneResult (pn_ToolVersion r) (pn_Head r) (pn_GenesisRoot r) (pn_DryRun r) (pn_Compacted r) true (pn_StateCounts r)
    (pn_RetainedState r) (pn_Protected r) (pn_Candidates r) (pn_Deleted r) (pn_Unknown r) (pn_ProtectedDigest r).

Record prune_state := MkPruneState {
  ps_fs : fsys;
  ps_db : pruneDatabase;
  ps_started : bool;
  ps_result : PruneResult
}.

Definition on_fs {A} (m : M fsys A) : M prune_state A := zoom ps_fs (λ f s, MkPruneState f (ps_db s) (ps_started s) (ps_result s)) m.
Definition on_db {A} (m : M pruneDatabase A) : M prune_state A := zoom ps_db (λ d s, MkPruneState (ps_fs s) d (ps_started s) (ps_result s)) m.
Definition set_result (f : PruneResult → PruneResult) : M prune_state unit :=
  modify (λ s, MkPruneState (ps_fs s) (ps_db s) (ps_started s) (f (ps_result s))).

(** What the goroutines do: the events of the [n]-th state validation, the
    schedule of the [n]-th scan, and the reads of the collection. *)
Record prune_runs := MkRuns {
  pu_events : nat → list partition_event;
  pu_schedule : nat → list (list nat);
  pu_reads : list bytes
}.

(** ** The operation *)

Section PruneOperation.
Context `{Keccak, EmptyHashes, AccountRLP, RLPSplit, StackTrie, HeaderRLP, PartialTrie}.
Context `{RawdbKeys, NodeKeys, BatchSize, BatchValueSize, FileDescNames, StoreReaders}.
Context (E : os_env) (dump_size : list bytes → Z) (tool : string).
(** The directory of the database when the options are checked and at each
    later inspection, and that of the keep database. *)
Context (option_files : prune_files) (files : nat → prune_files) (keep_entries : list dir_entry) (runs : prune_runs).

(** [validatePartitionedState] over a database. *)
Definition validate_store (db : store) (head : Head) (e : pruneExecution) (events : list partition_event) : M unit StateResult :=
  validatePartitionedState (H4:=store_tries db) (H5:=store_ranges db) (readCodeWithFallback (H:=store_kv db)) (pe_workers e) head events.

Definition collectPruneState (db : store) (head : Head) (genesis : Hash) (node : option bytes) (e : pruneExecution) : M pruneKeepWriter StateResult :=
  _ ← for_each (pu_reads runs) (λ key, _ ← attempt (recording_Get db key); mret ());
  '(r, _) ← run_on (validate_store db head e (pu_events runs 0)) ();
  c ← attempt (match r, node with
               | Err err, _ => fail err
               | Ok _, Some (x :: node') => keep_put (hash_bytes genesis) (x :: node')
               | Ok _, _ => mret ()
               end);
  latched ← gets kw_failure;
  match latched, c with
  | Some err, _ | None, Err err => fail err
  | None, Ok _ => _ ← keep_close; lift r
  end.

Definition keep_path (temp : path) : path := temp ++ ["keep"%string].

(** The engine creates the directory of a database that it may write. *)
Definition openPruneKeep (temp : path) (readOnly : bool) : M prune_state unit :=
  _ ← wrap "open prune keep database" io;
  if readOnly then mret () else on_fs (modify (fs_put (keep_path temp) (FDir (inode E (keep_path temp))))).

Definition buildPruneKeep (db : store) (temp : path) (head : Head) (genesis : Hash) (node : option bytes) (e : pruneExecution) : M prune_state (StateResult * store) :=
  _ ← openPruneKeep temp false;
  finally (
    '(r, k) ← run_on (collectPruneState db head genesis node e) (newPruneKeepWriter ∅ (Z.to_nat (pe_workers e)));
    state ← lift r;
    _ ← io;
    mret (state, kw_db k)) io.

Definition verifyPruneState {St : Type} (db : store) (head : Head) (want : StateResult) (e : pruneExecution) (events : list partition_event) : M St unit :=
  '(r, _) ← run_on (validate_store db head e events) ();
  state ← lift r;
  lift (reject_if (negb (bool_decide (state = want))) "prune state root or counts changed").

Definition confirmPruneHead (db : store) (head : Head) (header : bytes) : result unit :=
  '(after, blob) ← readLegacyHead (store_chain db);
  reject_if (negb (bool_decide (head = after)) || negb (bytes_equal header blob)) "prune canonical head changed".

(** [n] counts the verifications. *)
Definition verifyPruneDatabase (p : path) (keep : store) (head : Head) (header : bytes) (state : StateResult) (before : pruneInventory)
    (e : pruneExecution) (n : nat) : M prune_state unit :=
  _ ← on_db closeDB;
  seen ← on_db (look files);
  _ ← wrap "sync pruned database" (on_fs (syncPruneFiles (pf_entries seen) p));
  _ ← on_db (reopen files true);
  db ← gets (λ s, pd_db (ps_db s));
  _ ← lift (confirmPruneHead db head header);
  _ ← verifyPruneState db head state e (pu_events runs n);
  _ ← readPruneGenesis store_genesis (store_chain db) db;
  after ← scanPruneDB db keep e (pu_schedule runs n);
  lift (comparePruneInventory before after).

Definition compactPruneDatabase : M prune_state unit :=
  _ ← poll;
  _ ← on_db (reopen files false);
  _ ← wrap "compact pruned database" io;
  poll.

(** The phase [delete]: the counter and the flag are set on every outcome. *)
Definition delete_phase (keep : store) (e : pruneExecution) : M prune_state unit :=
  s ← get;
  '(r, d) ← run_on (deletePruneDifference dump_size keep e (pu_schedule runs 1)) (deletion_start (pd_db (ps_db s)));
  _ ← modify (λ s, MkPruneState (ps_fs s) (set_db (de_db d) (ps_db s)) (de_started d) (set_Deleted (de_deleted d) (ps_result s)));
  lift r.

(** The phases from [delete] on. *)
Definition prune_delete (o : PruneOptions) (p : path) (keep : store) (head : Head) (header : bytes) (state : StateResult)
    (before : pruneInventory) (e : pruneExecution) : M prune_state unit :=
  _ ← poll;
  _ ← on_db (reopen files false);
  _ ← delete_phase keep e;
  _ ← verifyPruneDatabase p keep head header state before e 2;
  _ ← (if po_Compact o then
         _ ← compactPruneDatabase;
         _ ← set_result set_Compacted;
         verifyPruneDatabase p keep head header state before e 3
       else mret ());
  set_result set_Verified.

(** The phases [verify_keep] and [preflight]; a dry run ends here. *)
Definition prune_preflight (o : PruneOptions) (p : path) (keep : store) (head : Head) (header : bytes) (state : StateResult)
    (e : pruneExecution) : M prune_state unit :=
  _ ← verifyPruneState keep head state e (pu_events runs 1);
  db ← gets (λ s, pd_db (ps_db s));
  before ← scanPruneDB db keep e (pu_schedule runs 0);
  _ ← set_result (set_inventory before);
  _ ← lift (confirmPruneHead db head header);
  if po_DryRun o then set_result set_Verified else prune_delete o p keep head header state before e.

(** From the phase [collect] on, in the temporary directory. *)
Definition prune_collect (o : PruneOptions) (p temp : path) (head : Head) (header : bytes) (genesis : Hash) (node : option bytes)
    (e : pruneExecution) : M prune_state unit :=
  db ← gets (λ s, pd_db (ps_db s));
  '(state, keep) ← buildPruneKeep db temp head genesis node e;
  _ ← on_fs (syncPruneFiles keep_entries (keep_path temp));
  _ ← on_fs (syncDirectory temp);
  _ ← set_result (set_StateCounts (st_Counts state));
  _ ← openPruneKeep temp true;
  finally (prune_preflight o p keep head header state e) io.

(** With the open database. *)
Definition prune_source (o : PruneOptions) (p parent : path) (e : pruneExecution) : M prune_state unit :=
  db ← gets (λ s, pd_db (ps_db s));
  '(head, header) ← lift (readLegacyHead (store_chain db));
  '(genesis, node) ← readPruneGenesis store_genesis (store_chain db) db;
  _ ← set_result (λ _, new_result tool head genesis (po_DryRun o));
  temp ← on_fs (MkdirTemp E parent ".l2state-prune-");
  finally (prune_collect o p temp head header genesis node e) (on_fs (RemoveAll E temp)).

Definition pruneWithHooks (o : PruneOptions) : M prune_state unit :=
  _ ← poll;
  '(p, parent) ← on_fs (validatePruneOptions E o option_files);
  let e := newPruneExecution o in
  wrap "prune failed; rerun to rebuild the keep set" (
    _ ← on_db (openPruneDatabase files (po_DryRun o));
    finally (prune_source o p parent e) (on_db db_close)).

Definition Prune (o : PruneOptions) : M prune_state unit :=
  _ ← modify (λ s, MkPruneState (ps_fs s) (ps_db s) false zero_result);
  pruneWithHooks o.

End PruneOperation.

(** ** Lemmas on phases *)

(** A predicate on what outlives the result: file system, records, flag. *)
Definition frame (R : fsys → store → bool → Prop) (s : prune_state) : Prop := R (ps_fs s) (pd_db (ps_db s)) (ps_started s).

(** From [P] to [Q], on success and on failure. *)
Definition leads {St A} (P : St → Prop) (m : M St A) (Q : St → Prop) : Prop := ∀ s w, P s → Q (m s w).1.2.

Section Leads.
Context {St : Type}.
Implicit Types P Q : St → Prop.

Lemma leads_weaken {A} P Q (m : M St A) : (∀ s, P s → Q s) → keeps P m → leads P m Q.
Proof. intros HPQ Hm s w Hs. by apply HPQ, Hm. Qed.

Lemma leads_bind {A B} P Q (m : M St A) (f : A → M St B) :
  (∀ s, P s → Q s) → keeps P m → (∀ a s w s' w', P s → m s w = (Ok a, s', w') → leads P (f a) Q) → leads P (m ≫= f) Q.
Proof.
  intros HPQ Hm Hf s w Hs. unfold mbind, M_bind. pose proof (Hm s w Hs) as Hs1.
  destruct (m s w) as [[[a|e] s1] w1] eqn:Em; [|by apply HPQ]. exact (Hf _ _ _ _ _ Hs Em _ _ Hs1).
Qed.

Lemma leads_then {A B} P Q (m : M St A) (f : A → M St B) : leads P m Q → (∀ a, keeps Q (f a)) → leads P (m ≫= f) Q.
Proof.
  intros Hm Hf s w Hs. unfold mbind, M_bind. specialize (Hm s w Hs). destruct (m s w) as [[[a|e] s1] w1]; [by apply Hf|done].
Qed.

Lemma leads_finally {A} P Q (body : M St A) cleanup : leads P body Q → keeps Q cleanup → leads P (finally body cleanup) Q.
Proof.
  intros Hb Hc. unfold finally. apply leads_then.
  - intros s w Hs. unfold attempt. specialize (Hb s w Hs). by destruct (body s w) as [[r s1] w1].
  - intros r. apply keeps_bind; [by apply keeps_attempt|intros c]. destruct (errors_join _ _); [apply keeps_fail|apply keeps_lift].
Qed.

Lemma leads_wrap {A} P Q msg (m : M St A) : leads P m Q → leads P (wrap msg m) Q.
Proof. intros Hm s w Hs. unfold wrap. specialize (Hm s w Hs). by destruct (m s w) as [[[a|e] s1] w1]. Qed.

End Leads.

Section FrameLemmas.
Context (R : fsys → store → bool → Prop).

Lemma on_db_frame {A} (m : M pruneDatabase A) : (∀ db, keeps (content_is db) m) → keeps (frame R) (on_db m).
Proof.
  intros Hm s w Hs. unfold on_db, zoom. specialize (Hm (pd_db (ps_db s)) (ps_db s) w eq_refl).
  destruct (m (ps_db s) w) as [[r d] w1]. unfold frame, content_is in *. cbn in *. by rewrite Hm.
Qed.

Lemma on_fs_frame {A} (m : M fsys A) : (∀ f, keeps (λ g, g = f) m) → keeps (frame R) (on_fs m).
Proof.
  intros Hm s w Hs. unfold on_fs, zoom. specialize (Hm (ps_fs s) (ps_fs s) w eq_refl).
  destruct (m (ps_fs s) w) as [[r f] w1]. unfold frame in *. cbn in *. by subst.
Qed.

Lemma set_result_frame f : keeps (frame R) (set_result f).
Proof. by intros s w Hs. Qed.

End FrameLemmas.

Lemma on_fs_grown {A} f0 X (m : M fsys A) :
  keeps (fs_grown f0) m → keeps (frame (λ f db st, fs_grown f0 f ∧ X db st)) (on_fs m).
Proof.
  intros Hm s w [Hg Hx]. unfold on_fs, zoom. specialize (Hm (ps_fs s) w Hg). by destruct (m (ps_fs s) w) as [[r f] w1].
Qed.

Lemma syncFile_keeps {St} (P : St → Prop) : keeps P syncFile.
Proof. unfold syncFile. repeat keeps_step. Qed.
Lemma syncDirectory_keeps p f : keeps (λ g, g = f) (syncDirectory p).
Proof. unfold syncDirectory. repeat keeps_step. Qed.
Lemma syncPruneFiles_keeps entries p f : keeps (λ g, g = f) (syncPruneFiles entries p).
Proof.
  unfold syncPruneFiles. keeps_step; [|apply syncDirectory_keeps]. apply walk_keeps. intros e. keeps_step; [keeps_step|apply syncFile_keeps].
Qed.
Lemma validatePruneOptions_keeps E o files f : keeps (λ g, g = f) (validatePruneOptions E o files).
Proof. unfold validatePruneOptions, validatePruneEntries. cbv zeta. repeat first [apply walk_keeps; intros ? | keeps_step]. Qed.

Lemma on_fs_same {A} (m : M fsys A) s w r s' w' :
  (∀ f, keeps (λ g, g = f) m) → on_fs m s w = (r, s', w') → s' = s ∧ ∃ f', m (ps_fs s) w = (r, f', w').
Proof.
  intros Hm. unfold on_fs, zoom. specialize (Hm (ps_fs s) (ps_fs s) w eq_refl). destruct (m (ps_fs s) w) as [[r1 f] w1].
  cbn in Hm. subst f. intros [= <- <- <-]. split; [by destruct s|eauto].
Qed.

Lemma on_db_ok {A} (m : M pruneDatabase A) s w a s' w' :
  on_db m s w = (Ok a, s', w') → ∃ d', m (ps_db s) w = (Ok a, d', w') ∧ s' = MkPruneState (ps_fs s) d' (ps_started s) (ps_result s).
Proof. unfold on_db. intros Hr. minv. eauto. Qed.

Lemma set_result_ok f s w u s' w' :
  set_result f s w = (Ok u, s', w') → s' = MkPruneState (ps_fs s) (ps_db s) (ps_started s) (f (ps_result s)).
Proof. unfold set_result. intros Hr. by minv. Qed.

(** A directory that was created, used for one more, and removed. *)
Lemma fs_put_new f0 f p id : fs_grown f0 f → f0 p = None → fs_grown f0 (fs_put p (FDir id) f).
Proof.
  intros [He Ha] Hp. unfold fs_put. split; intros q e; case_bool_decide as Hq; subst.
  - congruence.
  - by apply He.
  - intros [= <-]. right. eauto.
  - apply Ha.
Qed.

Lemma fs_put_twice f p c e e' q : fs_wf f → f p = None → fs_remove (under p) (fs_put (p ++ [c]) e' (fs_put p e f)) q = f q.
Proof.
  intros Hwf Hp. unfold fs_remove. destruct (under p q) eqn:Eu.
  - apply under_spec in Eu as [r ->]. symmetry. by apply fs_wf_below.
  - unfold fs_put. rewrite !bool_decide_eq_false_2 //; intros ->; apply not_true_iff_false in Eu; apply Eu, under_spec; [by exists []; rewrite app_nil_r|eauto].
Qed.

(** ** The keep set of a collection *)

Section CollectLemmas.
Context `{Keccak, BatchSize, BatchValueSize}.

Lemma recording_Get_puts db key k w r k' w' :
  recording_Get db key k w = (r, k', w') →
  k' = k ∨ ∃ v, db !! key = Some v ∧ puts_run [(key, v)] k k'.
Proof.
  unfold recording_Get, mbind, M_bind. destruct (io k w) as [[[[]|e] k1] w1] eqn:Ei; apply io_state in Ei as ->.
  - destruct (db !! key) as [v|] eqn:Ek; [|intros [= <- <- <-]; by left]. destruct (length key =? HashLength)%nat.
    + destruct (keep_put key v k w1) as [[r1 k2] w2] eqn:Ep. intros Hr. assert (k' = k2) as -> by (destruct r1; by injection Hr).
      right. exists v. split; [done|]. econstructor; [|constructor]. cbn. eauto.
    + intros [= <- <- <-]. by left.
  - intros [= <- <- <-]. by left.
Qed.

(** The reads are puts of records of the source. *)
Lemma reads_puts db reads k w u k' w' :
  for_each reads (λ key, _ ← attempt (recording_Get db key); mret ()) k w = (Ok u, k', w') →
  ∃ l, puts_run l k k' ∧ Forall (λ kv, db !! kv.1 = Some kv.2) l.
Proof.
  revert k w. induction reads as [|key reads IH]; intros k w Hr; cbn [for_each] in Hr.
  - apply ret_ok in Hr as (_ & -> & _). exists []. split; constructor.
  - mstep Hr. apply IH in Hr as (l & Hl & Hd). minv.
    match goal with Hx : recording_Get _ _ _ _ = _ |- _ => apply recording_Get_puts in Hx as [->|(v & Hv & Hp)] end; [eauto|].
    exists ([(key, v)] ++ l). split; [by eapply steps_app|]. by constructor.
Qed.

Lemma put_all_elem l k v : put_all ∅ l !! k = Some v → (k, v) ∈ l.
Proof.
  unfold put_all, apply_ops. induction l as [|[k' v'] l IH] using rev_ind; [by rewrite lookup_empty|].
  rewrite fmap_app foldl_app. cbn. destruct (decide (k' = k)) as [->|Hne].
  - rewrite lookup_insert_eq. intros [= ->]. apply elem_of_app. right. left.
  - rewrite lookup_insert_ne //. intros Hk. apply elem_of_app. left. by apply IH.
Qed.

(** What a writer that closes without an error has made of an empty database. *)
Lemma collected_content n l k w u k' w' :
  (0 < n)%nat → puts_run l (newPruneKeepWriter ∅ n) k → keep_close k w = (Ok u, k', w') →
  ∀ key v, kw_db k' !! key = Some v → (key, v) ∈ l ∧ length key = HashLength ∧ hash_bytes (keccak256 v) = key.
Proof.
  destruct u. intros Hn Hs Hc. destruct (puts_cases n ∅ l _ _ Hn Hs (keep_ok_new _ _ Hn) eq_refl) as [[e He]|(Hk & _ & Hp)].
  - unfold keep_close in Hc. apply bind_ok in Hc as ([] & k1 & w1 & [_ Hn']%keep_load_ok & _). by rewrite He in Hn'.
  - apply (keep_close_ok n _ _ _ _ _ Hn Hk) in Hc as ->. intros key v Hin%put_all_elem. split; [done|].
    rewrite Forall_forall in Hp. by apply (Hp _ Hin).
Qed.

End CollectLemmas.

(** ** Lemmas on the operation *)

Section RunLemmas.
Context `{Keccak, EmptyHashes, AccountRLP, !AccountRLPLaws, RLPSplit, StackTrie, HeaderRLP, PartialTrie}.
Context `{RawdbKeys, NodeKeys, BatchSize, BatchValueSize, FileDescNames, StoreReaders}.
Context (trie_root : list (bytes * bytes) → Hash) `{!StackTrieLaws trie_root, !PartialTrieLaws trie_root}.
Context (account_trie : store → Hash → list (bytes * bytes)) (storage_trie : store → Hash → Hash → Hash → list (bytes * bytes))
  `{!StoreReadersLaws account_trie storage_trie}.
Context (E : os_env) (dump_size : list bytes → Z) (tool : string).
Context (option_files : prune_files) (files : nat → prune_files) (keep_entries : list dir_entry) (runs : prune_runs).
Context (Hev : ∀ n, Forall event_ok (pu_events runs n)).

(** A state as it is read from a database alone. *)
Definition store_state (db : store) (root : Hash) (es : list Consumer.entry) : Prop :=
  source_state trie_root (account_trie db) (storage_trie db) (readCodeWithFallback (H:=store_kv db)) root es.

Lemma validate_store_ok db hd e n u w res u' w' :
  validate_store db hd e (pu_events runs n) u w = (Ok res, u', w') →
  ∃ es, store_state db (StateRoot hd) es ∧ res = MkStateResult (StateRoot hd) (state_counts es).
Proof.
  unfold validate_store. intros Hr. eapply validated_state in Hr; [exact Hr|done..|apply store_laws|apply Hev].
Qed.

Lemma verifyPruneState_ok {St} db hd want e n (s : St) w u s' w' :
  verifyPruneState db hd want e (pu_events runs n) s w = (Ok u, s', w') →
  s' = s ∧ ∃ es, store_state db (StateRoot hd) es ∧ want = MkStateResult (StateRoot hd) (state_counts es).
Proof.
  unfold verifyPruneState. intros Hr. mstep Hr. minv. destruct x as [r u1]. cbn [fst snd] in *. minv.
  match goal with Hx : validate_store _ _ _ _ _ _ = _ |- _ => apply validate_store_ok in Hx as (es & ? & ->) end.
  match goal with Hx : negb _ = false |- _ => apply negb_false_iff, bool_decide_eq_true in Hx as <- end. eauto.
Qed.

Lemma collectPruneState_ok db hd genesis node e n w st k' w' :
  (0 < n)%nat → collectPruneState runs db hd genesis node e (newPruneKeepWriter ∅ n) w = (Ok st, k', w') →
  (∃ es, store_state db (StateRoot hd) es ∧ st = MkStateResult (StateRoot hd) (state_counts es)) ∧
  ∀ key v, kw_db k' !! key = Some v → length key = HashLength ∧ hash_bytes (keccak256 v) = key.
Proof.
  intros Hn. unfold collectPruneState. intros Hr. mstep Hr.
  match goal with Hx : for_each _ _ _ _ = _ |- _ => apply reads_puts in Hx as (l & Hl & _) end.
  mstep Hr. minv. match goal with x : result StateResult * unit |- _ => destruct x as [r u1] end. cbn [fst snd] in *. minv.
  match goal with c : result unit |- _ => destruct (kw_failure _), c as [[]|]; minv end.
  match goal with Hx : validate_store _ _ _ _ _ _ = _ |- _ => apply validate_store_ok in Hx as (es & ? & ->) end.
  split; [eauto|]. intros key v Hk.
  match goal with Hx : _ ?k0 ?w0 = (Ok (), ?k1, ?w1), Hc : keep_close ?k1 _ = _ |- _ =>
    assert (∃ l', puts_run l' k0 k1) as [l' Hl'] by (destruct node as [[|b node']|]; minv;
      [exists []; constructor | eexists [(_, _)]; econstructor; [cbn; eauto|constructor] | exists []; constructor]) end.
  pose proof (steps_app _ _ _ _ _ _ Hl Hl') as Hall.
  match goal with Hc : keep_close _ _ = _ |- _ => destruct (collected_content _ _ _ _ _ _ _ Hn Hall Hc key v Hk) as (_ & ?) end. done.
Qed.

(** The state once the engine has created the keep database. *)
Definition with_keep (temp : path) (s : prune_state) : prune_state :=
  MkPruneState (fs_put (keep_path temp) (FDir (inode E (keep_path temp))) (ps_fs s)) (ps_db s) (ps_started s) (ps_result s).

Lemma buildPruneKeep_ok db temp hd genesis node e s w st keep s' w' :
  (0 < pe_workers e)%Z → buildPruneKeep E runs db temp hd genesis node e s w = (Ok (st, keep), s', w') →
  s' = with_keep temp s ∧ (∃ es, store_state db (StateRoot hd) es ∧ st = MkStateResult (StateRoot hd) (state_counts es)) ∧
  ∀ key v, keep !! key = Some v → length key = HashLength ∧ hash_bytes (keccak256 v) = key.
Proof.
  intros He. unfold buildPruneKeep, openPruneKeep, on_fs. intros Hr. mstep Hr. mstep Hr. minv.
  match goal with x : result StateResult * pruneKeepWriter |- _ => destruct x as [r k] end. cbn [fst snd] in *. minv.
  simplify_eq. match goal with Hx : collectPruneState _ _ _ _ _ _ _ _ = _ |- _ => apply collectPruneState_ok in Hx as [? ?]; [done|lia] end.
Qed.

(** ** The verification after the deletion *)

Lemma confirmPruneHead_ok db hd header : confirmPruneHead db hd header = Ok () ↔ readLegacyHead (store_chain db) = Ok (hd, header).
Proof.
  unfold confirmPruneHead. destruct (readLegacyHead (store_chain db)) as [[after blob]|]; [|done]. cbn. rewrite reject_if_ok orb_false_iff.
  rewrite !negb_false_iff bool_decide_eq_true bytes_equal_spec. naive_solver.
Qed.

Lemma readPruneGenesis_state {St} db (s : St) w r s' w' :
  readPruneGenesis store_genesis (store_chain db) db s w = (r, s', w') → s' = s.
Proof.
  intros Hr. assert (Hk : keeps (λ t, t = s) (readPruneGenesis (St:=St) store_genesis (store_chain db) db)); [|by eapply (keeps_run _ _ _ _ _ _ _ Hk Hr)].
  unfold readPruneGenesis, validatePruneGenesisRoot. cbv zeta. repeat keeps_step.
Qed.

(** What a verification of the database has found. *)
Record verified_database (keep : store) (hd : Head) (header : bytes) (st : StateResult) (before : pruneInventory) (e : pruneExecution) (db : store) : Prop := {
  vd_head : readLegacyHead (store_chain db) = Ok (hd, header);
  vd_state : ∃ es, store_state db (StateRoot hd) es ∧ st = MkStateResult (StateRoot hd) (state_counts es);
  vd_keep : keep ⊆ db;
  vd_inventory : comparePruneInventory before (inventory_spec (walk_entries db keep)) = Ok ()
}.

Lemma verifyPruneDatabase_ok p keep hd header st before e n s w u s' w' :
  (0 < pe_workers e)%Z → verifyPruneDatabase files runs p keep hd header st before e n s w = (Ok u, s', w') →
  ps_fs s' = ps_fs s ∧ pd_db (ps_db s') = pd_db (ps_db s) ∧ ps_started s' = ps_started s ∧ ps_result s' = ps_result s ∧
  verified_database keep hd header st before e (pd_db (ps_db s')).
Proof.
  intros He. unfold verifyPruneDatabase. intros Hr. do 4 mstep Hr.
  match goal with Hx : on_db closeDB _ _ = _ |- _ => apply on_db_ok in Hx as (d1 & ->%closeDB_ok & ->) end.
  match goal with Hx : on_db (look _) _ _ = _ |- _ => apply on_db_ok in Hx as (d2 & [-> ->]%look_ok & ->) end.
  match goal with Hx : wrap _ (on_fs _) _ _ = _ |- _ => apply wrap_ok, on_fs_same in Hx as [-> _]; [|intros; apply syncPruneFiles_keeps] end.
  match goal with Hx : on_db (reopen _ _) _ _ = _ |- _ => apply on_db_ok in Hx as (d3 & (-> & _)%reopen_cases & ->) end.
  cbn [ps_fs ps_db ps_started ps_result pd_db set_session pd_looks pd_locked] in *. mstep Hr. minv.
  match goal with Hx : verifyPruneState _ _ _ _ _ _ _ = _ |- _ => apply verifyPruneState_ok in Hx as (-> & es & ? & ?) end.
  match goal with Hx : readPruneGenesis _ _ _ _ _ = _ |- _ => apply readPruneGenesis_state in Hx as -> end.
  match goal with Hx : scanPruneDB _ _ _ _ _ _ = _ |- _ => apply scan_any in Hx as (-> & ? & _ & ->); [|done] end.
  match goal with Hx : confirmPruneHead _ _ _ = _ |- _ => apply confirmPruneHead_ok in Hx end.
  cbn [ps_fs ps_db ps_started ps_result pd_db set_session pd_looks pd_locked] in *. split_and!; [done..|]. split; [done|eauto|done|done].
Qed.

Lemma prune_workers o : (0 < pe_workers (newPruneExecution o))%Z.
Proof. unfold newPruneExecution, normalizeMigrateWorkers, minMigrateWorkers. cbn. lia. Qed.

(** ** On every outcome *)

Lemma verifyPruneState_keeps {St} (P : St → Prop) db hd want e events : keeps P (verifyPruneState db hd want e events).
Proof. unfold verifyPruneState. repeat keeps_step. Qed.
Lemma readPruneGenesis_keeps {St} (P : St → Prop) db : keeps P (readPruneGenesis store_genesis (store_chain db) db).
Proof. unfold readPruneGenesis, validatePruneGenesisRoot. cbv zeta. repeat keeps_step. Qed.
Lemma scanPruneDB_keeps {St} (P : St → Prop) db keep e schedule : keeps P (scanPruneDB db keep e schedule).
Proof. unfold scanPruneDB. repeat keeps_step. Qed.
Lemma openPruneKeep_frame R temp : keeps (frame R) (openPruneKeep E temp true).
Proof. unfold openPruneKeep. repeat keeps_step. Qed.

(** Steps of the operation that keep every predicate on its lasting state. *)
Ltac frame_step :=
  first
  [ apply on_db_frame; intros ?; first [apply closeDB_content | apply look_content | apply reopen_content | apply db_close_content | apply openPruneDatabase_content]
  | apply on_fs_frame; intros ?; first [apply syncPruneFiles_keeps | apply syncDirectory_keeps | apply validatePruneOptions_keeps]
  | apply set_result_frame | apply verifyPruneState_keeps | apply readPruneGenesis_keeps | apply scanPruneDB_keeps | apply openPruneKeep_frame
  | keeps_step ].

Lemma verifyPruneDatabase_frame R p keep hd header st before e n :
  keeps (frame R) (verifyPruneDatabase files runs p keep hd header st before e n).
Proof. unfold verifyPruneDatabase. repeat frame_step. Qed.
Lemma compactPruneDatabase_frame R : keeps (frame R) (compactPruneDatabase files).
Proof. unfold compactPruneDatabase. repeat frame_step. Qed.

(** The database has lost nothing but candidates; the keep set is still there. *)
Record lost (keep db0 db : store) : Prop := {
  lo_sub : db ⊆ db0;
  lo_keep : keep ⊆ db;
  lo_gone k v : db0 !! k = Some v → db !! k = None → candidate keep (k, v)
}.

(** A keep set from which the state of the head was read before the deletion. *)
Record kept (o : PruneOptions) (db0 keep : store) : Prop := {
  kt_wet : po_DryRun o = false;
  kt_sub : keep ⊆ db0;
  kt_addressed k v : keep !! k = Some v → length k = HashLength ∧ hash_bytes (keccak256 v) = k;
  kt_state : ∃ hd header es, readLegacyHead (store_chain db0) = Ok (hd, header) ∧ store_state keep (StateRoot hd) es
}.

Section Outcomes.
Context (o : PruneOptions) (f0 : fsys) (db0 : store) (Hwf : fs_wf f0).

Definition untouched : prune_state → Prop := frame (λ f db _, fs_grown f0 f ∧ db = db0).
Definition safe : prune_state → Prop :=
  frame (λ f db started, fs_grown f0 f ∧ (db = db0 ∨ started = true ∧ ∃ keep, kept o db0 keep ∧ lost keep db0 db)).

Lemma untouched_safe s : untouched s → safe s.
Proof. intros [Hg Hd]. split; [done|by left]. Qed.

Lemma buildPruneKeep_untouched db temp hd genesis node e :
  f0 temp = None → keeps untouched (buildPruneKeep E runs db temp hd genesis node e).
Proof.
  intros Hnew. unfold buildPruneKeep, openPruneKeep. repeat first [apply (on_fs_grown f0 (λ db _, db = db0)) | keeps_step].
  apply keeps_modify. intros f Hg. apply fs_put_new; [done|]. by apply fs_wf_below.
Qed.

Lemma delete_phase_safe keep e : (0 < pe_workers e)%Z → kept o db0 keep → leads untouched (delete_phase dump_size runs keep e) safe.
Proof.
  intros He Hk s w [Hg Hdb]. unfold delete_phase, mbind, M_bind, get, run_on, modify, lift. rewrite Hdb.
  destruct (deletePruneDifference _ _ _ _ _ _) as [[r d] w1] eqn:Ed. cbn. split; [done|]. cbn.
  destruct (delete_cases _ _ _ _ _ _ _ _ _ He Ed) as [(don & rest & Hall & Hpart) _].
  destruct (de_started d) eqn:Es; [|left; by eapply delete_unstarted].
  right. split; [done|]. exists keep. split; [done|].
  assert (Hsub : de_db d ⊆ db0) by (apply map_subseteq_spec; intros k v; by eapply deleted_part_lookup).
  assert (Hgone : ∀ k v, db0 !! k = Some v → de_db d !! k = None → candidate keep (k, v)) by (intros k v; by eapply deleted_part_lookup).
  split; [done| |done]. apply map_subseteq_spec. intros k v Hkv.
  pose proof (lookup_weaken _ _ _ _ Hkv (kt_sub _ _ _ Hk)) as H0'. destruct (de_db d !! k) as [v'|] eqn:Ek.
  - pose proof (lookup_weaken _ _ _ _ Ek Hsub). congruence.
  - destruct (Hgone _ _ H0' Ek) as (Hn & _). cbn in Hn. congruence.
Qed.

Lemma prune_delete_safe_run p keep hd header st before e :
  (0 < pe_workers e)%Z → kept o db0 keep → leads untouched (prune_delete dump_size files runs o p keep hd header st before e) safe.
Proof.
  intros He Hk. unfold prune_delete. do 2 (apply leads_bind; [exact untouched_safe|frame_step|intros _ _ _ _ _ _ _]).
  apply leads_then; [by apply delete_phase_safe|intros _].
  repeat first [apply verifyPruneDatabase_frame | apply compactPruneDatabase_frame | frame_step].
Qed.

Lemma prune_preflight_safe p keep hd header st e :
  (0 < pe_workers e)%Z → readLegacyHead (store_chain db0) = Ok (hd, header) →
  (∀ k v, keep !! k = Some v → length k = HashLength ∧ hash_bytes (keccak256 v) = k) →
  leads untouched (prune_preflight dump_size files runs o p keep hd header st e) safe.
Proof.
  intros He Hh Ha. unfold prune_preflight. apply leads_bind; [exact untouched_safe|frame_step|].
  intros [] s1 w1 s1' w1' _ Hv. apply verifyPruneState_ok in Hv as (_ & es & Hes & _).
  apply leads_bind; [exact untouched_safe|frame_step|]. intros db s2 w2 s2' w2' [_ Hdb] (-> & _)%gets_ok. rewrite Hdb.
  apply leads_bind; [exact untouched_safe|frame_step|]. intros before s3 w3 s3' w3' _ (_ & Hsub & _)%scan_any; [|done].
  do 2 (apply leads_bind; [exact untouched_safe|frame_step|intros _ _ _ _ _ _ _]).
  destruct (po_DryRun o) eqn:Eo; [apply leads_weaken; [exact untouched_safe|frame_step]|].
  apply prune_delete_safe_run; [done|]. split; [done|done|done|eauto].
Qed.

Lemma prune_collect_safe p temp hd header genesis node e :
  (0 < pe_workers e)%Z → f0 temp = None → readLegacyHead (store_chain db0) = Ok (hd, header) →
  leads untouched (prune_collect E dump_size files keep_entries runs o p temp hd header genesis node e) safe.
Proof.
  intros He Hnew Hh. unfold prune_collect.
  apply leads_bind; [exact untouched_safe|frame_step|]. intros db s1 w1 s1' w1' [_ Hdb] (-> & _)%gets_ok. rewrite Hdb.
  apply leads_bind; [exact untouched_safe|by apply buildPruneKeep_untouched|]. intros [st keep] s2 w2 s2' w2' _ (_ & _ & Ha)%buildPruneKeep_ok; [|done].
  do 4 (apply leads_bind; [exact untouched_safe|repeat frame_step|intros _ _ _ _ _ _ _]).
  apply leads_finally; [by apply prune_preflight_safe|frame_step].
Qed.

Lemma prune_source_safe p parent e :
  (0 < pe_workers e)%Z → leads untouched (prune_source E dump_size tool files keep_entries runs o p parent e) safe.
Proof.
  intros He. unfold prune_source.
  apply leads_bind; [exact untouched_safe|frame_step|]. intros db s1 w1 s1' w1' [_ Hdb] (-> & _)%gets_ok. rewrite Hdb.
  apply leads_bind; [exact untouched_safe|frame_step|]. intros [hd header] s2 w2 s2' w2' _ (Hh & _)%lift_ok.
  apply leads_bind; [exact untouched_safe|frame_step|]. intros [genesis node] _ _ _ _ _ _.
  apply leads_bind; [exact untouched_safe|frame_step|]. intros _ _ _ _ _ _ _.
  apply leads_bind; [exact untouched_safe|apply (on_fs_grown f0 (λ db _, db = db0)), MkdirTemp_grown|].
  intros temp s3 w3 s3' w3' [Hg _] Hm. unfold on_fs in Hm. minv.
  eapply MkdirTemp_fresh in Hm; [|done].
  apply leads_finally; [by apply prune_collect_safe|]. unfold safe. apply (on_fs_grown f0 (λ db started, _)). by apply RemoveAll_grown.
Qed.

Lemma Prune_safe : leads untouched (Prune E dump_size tool option_files files keep_entries runs o) safe.
Proof.
  unfold Prune, pruneWithHooks. cbv zeta.
  apply leads_bind; [exact untouched_safe|apply keeps_modify; by intros s [? ?]|intros _ _ _ _ _ _ _].
  apply leads_bind; [exact untouched_safe|frame_step|intros _ _ _ _ _ _ _].
  apply leads_bind; [exact untouched_safe|frame_step|intros [p parent] _ _ _ _ _ _].
  apply leads_wrap. apply leads_bind; [exact untouched_safe|frame_step|intros _ _ _ _ _ _ _].
  apply leads_finally; [apply prune_source_safe|frame_step].
  apply prune_workers.
Qed.

End Outcomes.

(** ** On success *)

(** The result of a run that found the inventory of [l]. *)
Definition finished_result (o : PruneOptions) (l : list PruneScan.entry) (r : PruneResult) : PruneResult :=
  let r := set_inventory (inventory_spec l) r in
  set_Verified (if po_DryRun o then r else
                let r := set_Deleted (count_entries (candidates l)) r in
                if po_Compact o then set_Compacted r else r).

Lemma delete_phase_ok keep e s w u s' w' :
  (0 < pe_workers e)%Z → delete_phase dump_size runs keep e s w = (Ok u, s', w') →
  ps_fs s' = ps_fs s ∧ surviving keep (pd_db (ps_db s)) (pd_db (ps_db s')) ∧
  ps_result s' = set_Deleted (count_entries (candidates (walk_entries (pd_db (ps_db s)) keep))) (ps_result s).
Proof.
  intros He. unfold delete_phase. intros Hr. mstep Hr. mstep Hr. minv.
  match goal with x : result unit * deletion |- _ => destruct x as [r d] end. cbn [fst snd] in *. minv.
  match goal with Hx : deletePruneDifference _ _ _ _ _ _ = _ |- _ => destruct (delete_cases _ _ _ _ _ _ _ _ _ He Hx) as [_ Hok] end.
  destruct (Hok eq_refl) as (_ & _ & Hdb & Hde). cbn. split; [done|]. split; [|by rewrite Hde]. intros k v. by apply all_deleted.
Qed.

Lemma compactPruneDatabase_ok s w u s' w' :
  compactPruneDatabase files s w = (Ok u, s', w') → ps_fs s' = ps_fs s ∧ pd_db (ps_db s') = pd_db (ps_db s) ∧ ps_result s' = ps_result s.
Proof.
  unfold compactPruneDatabase. intros Hr. do 2 mstep Hr.
  match goal with Hx : on_db (reopen _ _) _ _ = _ |- _ => apply on_db_ok in Hx as (d & (-> & _)%reopen_cases & ->) end. by minv.
Qed.

Lemma prune_delete_ok o p keep hd header st before e s w u s' w' :
  (0 < pe_workers e)%Z → prune_delete dump_size files runs o p keep hd header st before e s w = (Ok u, s', w') →
  let db := pd_db (ps_db s) in
  ps_fs s' = ps_fs s ∧ surviving keep db (pd_db (ps_db s')) ∧ verified_database keep hd header st before e (pd_db (ps_db s')) ∧
  ps_result s' = set_Verified (let r := set_Deleted (count_entries (candidates (walk_entries db keep))) (ps_result s) in
                               if po_Compact o then set_Compacted r else r).
Proof.
  intros He Hr. unfold prune_delete in Hr. cbv zeta. do 5 mstep Hr. apply set_result_ok in Hr as ->. cbn [ps_fs ps_db ps_result].
  match goal with Hx : poll _ _ = _ |- _ => apply poll_ok in Hx as -> end.
  match goal with Hx : on_db (reopen _ _) _ _ = _ |- _ => apply on_db_ok in Hx as (d & (-> & _)%reopen_cases & ->) end.
  match goal with Hx : delete_phase _ _ _ _ _ _ = _ |- _ => apply delete_phase_ok in Hx as (Hf1 & Hs1 & Hr1); [|done] end.
  match goal with Hx : verifyPruneDatabase _ _ _ _ _ _ _ _ _ _ _ _ = _ |- _ => apply verifyPruneDatabase_ok in Hx as (Hf2 & Hd2 & _ & Hr2 & Hv2); [|done] end.
  cbn [ps_fs ps_db ps_result pd_db] in *. destruct (po_Compact o).
  - match goal with Hx : mbind _ _ _ _ = _ |- _ => do 2 mstep Hx; rename Hx into Hv end.
    match goal with Hx : compactPruneDatabase _ _ _ = _ |- _ => apply compactPruneDatabase_ok in Hx as (Hf3 & Hd3 & Hr3) end.
    match goal with Hx : set_result _ _ _ = _ |- _ => apply set_result_ok in Hx as -> end.
    apply verifyPruneDatabase_ok in Hv as (Hf4 & Hd4 & _ & Hr4 & Hv4); [|done]. cbn [ps_fs ps_db ps_result] in *.
    split_and!; [congruence|by rewrite Hd4 Hd3 Hd2|done|by rewrite Hr4 Hr3 Hr2 Hr1].
  - match goal with Hx : mret _ _ _ = _ |- _ => apply ret_ok in Hx as (_ & -> & _) end.
    split_and!; [congruence|by rewrite Hd2|done|by rewrite Hr2 Hr1].
Qed.

Lemma prune_preflight_ok o p keep hd header st e s w u s' w' :
  (0 < pe_workers e)%Z → prune_preflight dump_size files runs o p keep hd header st e s w = (Ok u, s', w') →
  let db := pd_db (ps_db s) in let db' := pd_db (ps_db s') in
  ps_fs s' = ps_fs s ∧ keep ⊆ db ∧
  (if po_DryRun o then db' = db else surviving keep db db' ∧ ∃ before, verified_database keep hd header st before e db') ∧
  ps_result s' = finished_result o (walk_entries db keep) (ps_result s).
Proof.
  intros He. unfold prune_preflight. intros Hr. cbv zeta. do 5 mstep Hr.
  match goal with Hx : verifyPruneState _ _ _ _ _ _ _ = _ |- _ => apply verifyPruneState_ok in Hx as (-> & _) end.
  match goal with Hx : gets _ _ _ = _ |- _ => apply gets_ok in Hx as (-> & -> & ->) end.
  match goal with Hx : scanPruneDB _ _ _ _ _ _ = _ |- _ => apply scan_any in Hx as (-> & Hsub & _ & ->); [|done] end.
  match goal with Hx : set_result _ _ _ = _ |- _ => apply set_result_ok in Hx as -> end.
  match goal with Hx : lift _ _ _ = _ |- _ => apply lift_ok in Hx as (_ & -> & ->) end.
  unfold finished_result. destruct (po_DryRun o).
  - apply set_result_ok in Hr as ->. done.
  - apply prune_delete_ok in Hr as (Hf & Hs & Hv & Hres); [|done]. cbn [ps_fs ps_db ps_result] in *. split_and!; eauto.
Qed.

Lemma prune_collect_ok o p temp hd header genesis node e s w u s' w' :
  (0 < pe_workers e)%Z → prune_collect E dump_size files keep_entries runs o p temp hd header genesis node e s w = (Ok u, s', w') →
  let db := pd_db (ps_db s) in let db' := pd_db (ps_db s') in
  ps_fs s' = ps_fs (with_keep temp s) ∧ ∃ st keep,
  (∃ es, store_state db (StateRoot hd) es ∧ st = MkStateResult (StateRoot hd) (state_counts es)) ∧
  (∀ k v, keep !! k = Some v → length k = HashLength ∧ hash_bytes (keccak256 v) = k) ∧ keep ⊆ db ∧
  (if po_DryRun o then db' = db else surviving keep db db' ∧ ∃ before, verified_database keep hd header st before e db') ∧
  ps_result s' = finished_result o (walk_entries db keep) (set_StateCounts (st_Counts st) (ps_result s)).
Proof.
  intros He. unfold prune_collect. intros Hr. cbv zeta. do 2 mstep Hr.
  match goal with Hx : gets _ _ _ = _ |- _ => apply gets_ok in Hx as (-> & -> & ->) end.
  match goal with x : StateResult * store |- _ => destruct x as [st keep] end.
  match goal with Hx : buildPruneKeep _ _ _ _ _ _ _ _ _ _ = _ |- _ => apply buildPruneKeep_ok in Hx as (-> & Hes & Ha); [|done] end.
  do 4 mstep Hr. mstep Hr.
  match goal with Hx : on_fs (syncPruneFiles _ _) _ _ = _ |- _ => apply on_fs_same in Hx as [-> _]; [|intros; apply syncPruneFiles_keeps] end.
  match goal with Hx : on_fs (syncDirectory _) _ _ = _ |- _ => apply on_fs_same in Hx as [-> _]; [|intros; apply syncDirectory_keeps] end.
  match goal with Hx : set_result _ _ _ = _ |- _ => apply set_result_ok in Hx as -> end. apply io_ok in Hr as ->.
  match goal with Hx : openPruneKeep _ _ _ _ _ = _ |- _ => unfold openPruneKeep in Hx; minv end.
  match goal with Hx : prune_preflight _ _ _ _ _ _ _ _ _ _ _ _ = _ |- _ => apply prune_preflight_ok in Hx as (Hf & Hsub & Hd & Hres); [|done] end.
  cbn [ps_fs ps_db ps_result] in *. split; [done|]. exists st, keep. split_and!; done.
Qed.

Lemma openPruneDatabase_ok dryRun d w u d' w' : openPruneDatabase files dryRun d w = (Ok u, d', w') → pd_db d' = pd_db d.
Proof. intros Hr. exact (keeps_run _ _ _ _ _ _ _ (openPruneDatabase_content files (pd_db d) dryRun) Hr eq_refl). Qed.

Lemma db_close_ok d w u d' w' : db_close d w = (Ok u, d', w') → d' = MkPruneDB (pd_db d) None false (pd_looks d).
Proof.
  unfold db_close, storage_Close. intros Hr. mstep Hr. match goal with Hx : closeDB _ _ = _ |- _ => apply closeDB_ok in Hx as -> end. by minv.
Qed.

(** The final state of a successful run with the open database. *)
Lemma prune_source_ok o p parent e s w u s' w' :
  (0 < pe_workers e)%Z → fs_wf (ps_fs s) →
  prune_source E dump_size tool files keep_entries runs o p parent e s w = (Ok u, s', w') →
  let db := pd_db (ps_db s) in let db' := pd_db (ps_db s') in
  (∀ q, ps_fs s' q = ps_fs s q) ∧ ∃ hd header genesis es keep,
  readLegacyHead (store_chain db) = Ok (hd, header) ∧ store_state db (StateRoot hd) es ∧
  (∀ k v, keep !! k = Some v → length k = HashLength ∧ hash_bytes (keccak256 v) = k) ∧ keep ⊆ db ∧
  (if po_DryRun o then db' = db
   else surviving keep db db' ∧ ∃ before, verified_database keep hd header (MkStateResult (StateRoot hd) (state_counts es)) before e db') ∧
  ps_result s' = finished_result o (walk_entries db keep) (set_StateCounts (state_counts es) (new_result tool hd genesis (po_DryRun o))).
Proof.
  intros He Hwf Hr. unfold prune_source in Hr. cbv zeta. do 2 mstep Hr.
  match goal with Hx : gets _ _ _ = _ |- _ => apply gets_ok in Hx as (-> & -> & ->) end.
  match goal with Hx : lift _ _ _ = _ |- _ => apply lift_ok in Hx as (Hh & -> & ->) end.
  match goal with x : Head * bytes |- _ => destruct x as [hd header] end. mstep Hr.
  match goal with Hx : readPruneGenesis _ _ _ _ _ = _ |- _ => apply readPruneGenesis_state in Hx as -> end.
  match goal with x : Hash * option bytes |- _ => destruct x as [genesis node] end. do 2 mstep Hr. mstep Hr.
  match goal with Hx : set_result _ _ _ = _ |- _ => apply set_result_ok in Hx as -> end.
  match goal with Hx : on_fs (MkdirTemp _ _ _) _ _ = _ |- _ => unfold on_fs in Hx; mstep Hx; apply MkdirTemp_ok in Hx as (_ & _ & Hnew & ->) end.
  match goal with Hx : prune_collect _ _ _ _ _ _ _ _ _ _ _ _ _ _ _ = _ |- _ => apply prune_collect_ok in Hx as (Hf & st & keep & (es & Hes & ->) & Ha & Hsub & Hd & Hres); [|done] end.
  unfold on_fs in Hr. mstep Hr. apply RemoveAll_ok in Hr as ->. cbn [ps_fs ps_db ps_result] in *. split.
  - intros q. rewrite Hf. by apply fs_put_twice.
  - exists hd, header, genesis, es, keep. cbn [st_Counts] in Hres. by split_and!.
Qed.

(** C11: A pruning run is safe however it ends: success, cancellation at any
    point, a failure of any call on the file system, the database or a batch
    (before or after it took effect), for any number of workers and any
    interleaving of them, and whatever the collection happened to read. Files
    outside new scratch directories are as they were. Nothing was removed
    before the deletion was reported as started. If anything was removed, then
    it was not a dry run, and there is a keep set of content-addressed records
    from which alone the whole state of the head was read and checked before;
    no record was changed or added, every record of the keep set is still in
    the database, and every record that is gone was content-addressed and not
    in the keep set. *)
Theorem prune_run_safe o s w r s' w' :
  fs_wf (ps_fs s) → Prune E dump_size tool option_files files keep_entries runs o s w = (r, s', w') →
  let db := pd_db (ps_db s) in let db' := pd_db (ps_db s') in
  fs_grown (ps_fs s) (ps_fs s') ∧ (db' = db ∨ ps_started s' = true ∧ ∃ keep, kept o db keep ∧ lost keep db db').
Proof.
  intros Hwf Hr. pose proof (Prune_safe o (ps_fs s) (pd_db (ps_db s)) Hwf s w) as Hs. rewrite Hr in Hs. apply Hs.
  split; [apply fs_grown_refl|done].
Qed.


End RunLemmas.

(** ** A sample run

    The chain of [Export.v] in a database of its own: the nodes and the code of
    the head's state, the root node of the genesis state, the chain's records,
    an unreferenced node and an unknown record. *)
Module SamplePrune.
Import Sample SampleChain SampleTarget SampleMigrate ManifestNames PruneDBWitnesses.

#[export] Existing Instance toy_keys.
#[export] Instance no_node_keys : NodeKeys := {| ResolveAccountTrieNodeKey _ := None; ResolveStorageTrieNode _ := None |}.

Definition addressed (v : bytes) : bytes * bytes := (hash_bytes (sha256 v), v).
Definition root_node : bytes := mjoin (map leaf_bytes accounts).
Definition storage_node : bytes := mjoin (map leaf_bytes slots).
Definition genesis_node : bytes := bytes_of_string "genesis root node".
Definition genesis_header : bytes := toy_header_bytes 0 (sha256 genesis_node).

Definition head_key : bytes := bytes_of_string "LastBlock".
Definition canonical_key (n : N) : bytes := bytes_of_string "h" ++ put_uint64 n.
Definition header_key (h : Hash) : bytes := bytes_of_string "H" ++ hash_bytes h.

Definition live : list (bytes * bytes) := [addressed root_node; addressed storage_node; addressed code].
Definition before_prune : store :=
  list_to_map (live ++ [addressed genesis_node; addressed (bytes_of_string "dead node"); (replicate 32 x07, bytes_of_string "unknown");
    (head_key, hash_bytes (sha256 header)); (canonical_key 7, hash_bytes (sha256 header)); (canonical_key 0, hash_bytes (sha256 genesis_header));
    (header_key (sha256 header), header); (header_key (sha256 genesis_header), genesis_header)]).

Definition has_node (db : store) (root : Hash) : bool := bool_decide (is_Some (db !! hash_bytes root)).
Definition missing {A} : result A := Err (EMsg "missing trie node").
Definition leaves_of (db : store) (root : Hash) (l : list (bytes * bytes)) : result (list (bytes * bytes) * option error) :=
  if has_node db root then Ok (l, None) else missing.

#[export] Instance sample_readers : StoreReaders :=
  {| store_tries db :=
       {| account_iterator root := leaves_of db root (accounts_at root);
          storage_iterator h a root := leaves_of db root (slots_at h a root) |};
     store_ranges db :=
       {| account_range root start stop := leaves_of db root (range_leaves (start, stop) (accounts_at root));
          storage_range h a root start stop := leaves_of db root (range_leaves (start, stop) (slots_at h a root)) |};
     store_kv db :=
       {| kv_Has k := Ok (bool_decide (is_Some (db !! k)));
          kv_Get k := match db !! k with Some v => Ok v | None => Err ENotExist end |};
     store_chain db :=
       MkChainView (BytesToHash (default [] (db !! head_key))) (λ h, if bool_decide (h = sha256 header) then Some 7 else None)
         (λ n, BytesToHash (default [] (db !! canonical_key n))) (λ h _, default [] (db !! header_key h));
     store_genesis db root := Ok (has_node db root) |}.

#[export] Instance sample_reader_laws : StoreReadersLaws (λ _, accounts_at) (λ _, slots_at).
Proof.
  intros db. destruct source_laws as [_ _ Ha _ _ Hs].
  split; cbn [account_iterator storage_iterator account_range storage_range store_tries store_ranges sample_readers]; unfold leaves_of;
    intros; try done; by match goal with Hx : (if ?b then _ else _) = _ |- _ => destruct b; [apply same_leaves in Hx|] end.
Qed.

Definition prune_options : PruneOptions := MkPruneOptions "/data/chain" "" 64 64 2 false true.
Definition sample_runs : prune_runs := MkRuns (λ _, events) (λ _, []) (map fst live).
Definition prune_start : prune_state := MkPruneState SampleFs.disk (closed before_prune) false zero_result.
Definition prune_in (w : world) : result unit * prune_state * world :=
  Prune SampleFs.os (λ l, Z.of_nat (length l)) "v1" stopped_files (λ _, stopped_files) [listed "000001.log" 9] sample_runs prune_options prune_start w.

(** A calm run, and one whose deletion took effect but reported a failure. *)
Definition calm_run := prune_in calm.
Definition failed_world : world := World None (replicate 101 false ++ [true]).
Definition failed_run := prune_in failed_world.
Definition content (r : result unit * prune_state * world) : store := pd_db (ps_db r.1.2).

End SamplePrune.

Module PruneRunWitnesses.
Import Sample SampleChain SampleTarget SampleMigrate ManifestNames PruneDBWitnesses SamplePrune.

#[local] Strategy 100 [Prune].

Lemma calm_run_ok : is_ok calm_run.1.1 = true.
Proof. by vm_compute. Qed.

Lemma failed_run_facts : is_ok failed_run.1.1 = false ∧ ps_started failed_run.1.2 = true ∧ size (content failed_run) = 10%nat ∧ size before_prune = 11%nat.
Proof. by vm_compute. Qed.

Lemma prune_in_eq w : prune_in w = ((prune_in w).1.1, (prune_in w).1.2, (prune_in w).2).
Proof. by destruct (prune_in w) as [[? ?] ?]. Qed.

Lemma calm_run_eq : prune_in calm = (Ok (), calm_run.1.2, calm_run.2).
Proof. rewrite prune_in_eq. pose proof calm_run_ok as Ho. unfold calm_run in *. by destruct (prune_in calm).1.1 as [[]|]. Qed.

Lemma sample_events_ok n : Forall event_ok (pu_events sample_runs n).
Proof. exact MigrateWitnesses.migrate_events_ok. Qed.

#[local] Strategy 100 [prune_in calm_run failed_run before_prune].


Lemma failed_run_eq : prune_in failed_world = (failed_run.1.1, failed_run.1.2, failed_run.2).
Proof. exact (prune_in_eq failed_world). Qed.

(** The failed run has lost a record, and only a candidate. *)
Lemma prune_run_safe_witness :
  is_ok failed_run.1.1 = false ∧ size (content failed_run) = 10%nat ∧
  (content failed_run = before_prune ∨ ∃ keep, lost keep before_prune (content failed_run)).
Proof.
  destruct failed_run_facts as (He & _ & Hs & _). split; [exact He|]. split; [exact Hs|].
  destruct (prune_run_safe branch_root (λ _, accounts_at) (λ _, slots_at) SampleFs.os (λ l, Z.of_nat (length l)) "v1" stopped_files (λ _, stopped_files)
    [listed "000001.log" 9] sample_runs sample_events_ok prune_options prune_start failed_world _ failed_run.1.2 failed_run.2 SampleFs.disk_wf failed_run_eq)
    as [_ [Hsame|(_ & keep & _ & Hlost)]]; [left; exact Hsame|right; exists keep; exact Hlost].
Defined.

End PruneRunWitnesses.
